(** * clode-studio: bounded-resource workspace tracking

    A shallow embedding of the change-tracking core of the repository:

    - [LRUCache]                  class LRUCache
                                  (src/electron/workspace-context-manager.ts,
                                   lines 281-424)
    - [FileWatcherService]        class FileWatcherService
                                  (src/electron/main.js, lines 3721-4567)
    - [ManualFileScanner]         class ManualFileScanner
                                  (src/electron/main.js, lines 3529-3619)
    - [LightweightContext]        src/electron/lightweight-context.js
    - [WorkspaceContextManager]   src/electron/workspace-context-manager.ts,
                                  lines 12-278

    Conventions of the embedding.

    - JavaScript numbers that hold counts, sizes and millisecond clocks are
      [Z].  Strings are [string] (paths and names are taken to be ASCII).
    - A JS [Map] is an association list in insertion order without duplicate
      keys ([JSMap]); a JS [Set] of strings is a duplicate-free list in
      insertion order ([JSSet]); arrays are lists.
    - Every method is a function from the receiver's state to a result and
      the new state.  [Date.now()] is an explicit argument [now]: the reads
      of the clock made during one synchronous stretch of code are one
      instant.  The workspace scan, which suspends at every directory entry,
      reads the clock of its environment anew after each suspension.
    - A [throw] is the [Throw] constructor of [result]; [emit] appends to an
      event log kept in the state; timers are a list of pending callbacks.
    - An [async] method runs to completion before the next operation
      starts.  The file system is a tree per root path; the persistence
      module, which is not among the sources, the regular expressions of
      the JavaScript runtime and the clock are parameters ([Env]). *)

From Stdlib Require Import ZArith List String Ascii Bool Lia Permutation Sorted.
From Stdlib Require Import DecimalString.
Import ListNotations.

Set Warnings "-register-all".

Local Open Scope string_scope.
Local Open Scope list_scope.
Local Open Scope Z_scope.

(* ================================================================== *)
(** ** JavaScript containers *)
(* ================================================================== *)

(** [Array.prototype.indexOf] followed by [splice(index, 1)]: the first
    occurrence of [k] is removed, the array is unchanged when [k] is absent. *)
Fixpoint remove_first (k : string) (l : list string) : list string :=
  match l with
  | [] => []
  | x :: r => if String.eqb k x then r else x :: remove_first k r
  end.

Definition includes (k : string) (l : list string) : bool :=
  existsb (String.eqb k) l.

Module JSMap.
Section WithValue.
Context {V : Type}.

Definition t := list (string * V).

Fixpoint get (k : string) (m : t) : option V :=
  match m with
  | [] => None
  | (k', v) :: r => if String.eqb k k' then Some v else get k r
  end.

Definition has (k : string) (m : t) : bool :=
  match get k m with Some _ => true | None => false end.

(** [Map.prototype.set]: an existing key keeps its position, a new key
    goes to the end of the iteration order. *)
Fixpoint set (k : string) (v : V) (m : t) : t :=
  match m with
  | [] => [(k, v)]
  | (k', v') :: r =>
      if String.eqb k k' then (k, v) :: r else (k', v') :: set k v r
  end.

(** [Map.prototype.delete]: the binding of [k] is removed, the order of
    the other bindings is kept. *)
Definition delete (k : string) (m : t) : t :=
  filter (fun kv => negb (String.eqb k (fst kv))) m.

Definition keys (m : t) : list string := map fst m.
Definition values (m : t) : list V := map snd m.
Definition size (m : t) : Z := Z.of_nat (List.length m).
End WithValue.
Arguments t : clear implicits.
End JSMap.

Module JSSet.
Definition t := list string.
Definition has (x : string) (s : t) : bool := includes x s.
Definition add (x : string) (s : t) : t := if has x s then s else s ++ [x].
Definition delete (x : string) (s : t) : t := remove_first x s.
Definition size (s : t) : Z := Z.of_nat (List.length s).
End JSSet.

(* ================================================================== *)
(** ** LRUCache *)
(* ================================================================== *)

Module LRUCache.
Section WithValue.
Context {V : Type}.

Record CacheEntry := mkEntry {
  value : V;
  timestamp : Z;
  accessCount : Z
}.

Record t := mk {
  cache : JSMap.t CacheEntry;
  accessOrder : list string;
  maxSize : Z;
  maxAge : Z
}.

(** [constructor(maxSize = 1000, maxAge = 30 * 60 * 1000)] *)
Definition create (maxSize maxAge : Z) : t := mk [] [] maxSize maxAge.
Definition default_maxSize : Z := 1000.

Definition size (c : t) : Z := JSMap.size (cache c).

(** [now - entry.timestamp > this.maxAge] *)
Definition expired (now : Z) (c : t) (e : CacheEntry) : bool :=
  now - timestamp e >? maxAge c.

Definition delete (key : string) (c : t) : bool * t :=
  if JSMap.has key (cache c)
  then (true, mk (JSMap.delete key (cache c))
                 (remove_first key (accessOrder c))
                 (maxSize c) (maxAge c))
  else (false, c).

Definition get (now : Z) (key : string) (c : t) : option V * t :=
  match JSMap.get key (cache c) with
  | None => (None, c)
  | Some entry =>
      if expired now c entry then (None, snd (delete key c))
      else
        (Some (value entry),
         mk (JSMap.set key
               (mkEntry (value entry) now (accessCount entry + 1))
               (cache c))
            (remove_first key (accessOrder c) ++ [key])
            (maxSize c) (maxAge c))
  end.

Definition has (now : Z) (key : string) (c : t) : bool * t :=
  match JSMap.get key (cache c) with
  | None => (false, c)
  | Some entry =>
      if expired now c entry then (false, snd (delete key c))
      else (true, c)
  end.

Definition clear (c : t) : t := mk [] [] (maxSize c) (maxAge c).

Definition keys (c : t) : list string := JSMap.keys (cache c).
Definition values (c : t) : list V := map value (JSMap.values (cache c)).
Definition entries (c : t) : list (string * V) :=
  map (fun kv => (fst kv, value (snd kv))) (cache c).

(** The keys collected by the first loop of [cleanupExpired]. *)
Definition expiredKeys (now : Z) (c : t) : list string :=
  JSMap.keys (filter (fun kv => expired now c (snd kv)) (cache c)).

Definition cleanupExpired (now : Z) (c : t) : t :=
  fold_left (fun acc key => snd (delete key acc)) (expiredKeys now c) c.

(** The [while] loop of [evictLeastRecentlyUsed]; each iteration shifts
    the head of [accessOrder], so the recursion is on that array. *)
Fixpoint evictLoop (maxSize : Z) (m : JSMap.t CacheEntry)
         (order : list string) : JSMap.t CacheEntry * list string :=
  match order with
  | [] => (m, [])
  | lruKey :: rest =>
      if JSMap.size m >=? maxSize
      then evictLoop maxSize (JSMap.delete lruKey m) rest
      else (m, order)
  end.

Definition evictLeastRecentlyUsed (now : Z) (c : t) : t :=
  let c1 := cleanupExpired now c in
  let '(m, order) := evictLoop (maxSize c1) (cache c1) (accessOrder c1) in
  mk m order (maxSize c1) (maxAge c1).

Definition set (now : Z) (key : string) (v : V) (c : t) : t :=
  match JSMap.get key (cache c) with
  | Some entry =>
      mk (JSMap.set key (mkEntry v now (accessCount entry + 1)) (cache c))
         (remove_first key (accessOrder c) ++ [key])
         (maxSize c) (maxAge c)
  | None =>
      let c1 := if size c >=? maxSize c
                then evictLeastRecentlyUsed now c else c in
      mk (JSMap.set key (mkEntry v now 1) (cache c1))
         (accessOrder c1 ++ [key])
         (maxSize c1) (maxAge c1)
  end.

(** [getStats()]: the hit rate is a quotient of two counts and is kept
    as the pair (numerator, denominator). *)
Record Stats := mkStats {
  st_size : Z;
  st_maxSize : Z;
  st_hitRate : Z * Z;
  st_expiredEntries : Z
}.

Definition getStats (now : Z) (c : t) : Stats :=
  let totalAccess :=
    fold_left (fun a e => a + accessCount e) (JSMap.values (cache c)) 0 in
  let expiredEntries :=
    Z.of_nat (List.length (filter (expired now c) (JSMap.values (cache c)))) in
  mkStats (size c) (maxSize c)
          (if totalAccess >? 0 then (size c, totalAccess) else (0, 1))
          expiredEntries.

Definition forceCleanup (now : Z) (c : t) : Z * t :=
  let c' := cleanupExpired now c in
  (size c - size c', c').
End WithValue.
Arguments CacheEntry : clear implicits.
Arguments t : clear implicits.
End LRUCache.

(* ================================================================== *)
(** ** Strings, paths and the file system *)
(* ================================================================== *)

Inductive result (A : Type) : Type :=
| Ok (a : A)
| Throw (message : string).
Arguments Ok {A}. Arguments Throw {A}.

(** [String.prototype.includes] *)
Definition str_includes (pattern s : string) : bool :=
  match String.index 0 pattern s with Some _ => true | None => false end.

(** [String.prototype.startsWith] *)
Definition startsWith (p s : string) : bool := String.prefix p s.

Definition lower_ascii (c : ascii) : ascii :=
  let n := nat_of_ascii c in
  if andb (Nat.leb 65 n) (Nat.leb n 90) then ascii_of_nat (n + 32) else c.

(** [String.prototype.toLowerCase] on ASCII text *)
Fixpoint toLowerCase (s : string) : string :=
  match s with
  | EmptyString => EmptyString
  | String c r => String (lower_ascii c) (toLowerCase r)
  end.

(** [path.join(dir, name)] for a normalized [dir] and a plain entry name. *)
Definition path_join (dir name : string) : string :=
  String.append dir (String.append "/" name).

(** [path.relative(from, to)] for a [to] that is [from] or lies below it. *)
Definition path_relative (from to : string) : string :=
  let base := String.append from "/" in
  if String.eqb from to then ""
  else if String.prefix base to
  then String.substring (String.length base)
                        (String.length to - String.length base) to
  else to.

(** The regular expressions the code builds from the ignore patterns that
    are written in the source: [new RegExp(pattern.replace(/\*/g, '.*'))].
    Every ['*'] of the pattern becomes [.*], every ['.'] stays the wildcard
    [.], and the other characters of those patterns are literals.  Patterns
    that come from a [.gitignore] file are not of this form in general; for
    them the constructor is a parameter, [LightweightContext.newRegExp]. *)
Inductive rtok : Type :=
| RLit (c : ascii)
| RAny
| RStar.

Fixpoint glob_regex (pattern : string) : list rtok :=
  match pattern with
  | EmptyString => []
  | String c r =>
      (if Ascii.eqb c "*" then RStar
       else if Ascii.eqb c "." then RAny
       else RLit c) :: glob_regex r
  end.

(** [.] does not match a line terminator. *)
Definition line_terminator (c : ascii) : bool :=
  orb (Ascii.eqb c "010") (Ascii.eqb c "013").

Fixpoint regex_match_here (toks : list rtok) (s : string) : bool :=
  match toks with
  | [] => true
  | RLit c :: r =>
      match s with
      | String c' s' => if Ascii.eqb c c' then regex_match_here r s' else false
      | EmptyString => false
      end
  | RAny :: r =>
      match s with
      | String c' s' =>
          if line_terminator c' then false else regex_match_here r s'
      | EmptyString => false
      end
  | RStar :: r =>
      (fix star (s : string) : bool :=
         orb (regex_match_here r s)
             (match s with
              | String c' s' => if line_terminator c' then false else star s'
              | EmptyString => false
              end)) s
  end.

(** [regex.test(s)]: the expression is not anchored. *)
Fixpoint regex_test (toks : list rtok) (s : string) : bool :=
  orb (regex_match_here toks s)
      (match s with
       | String _ s' => regex_test toks s'
       | EmptyString => false
       end).

(** The callback of [some] in [FileWatcherService.shouldIgnoreFile], whose
    patterns are fixed in the source. *)
Definition matches_ignore_pattern (path pattern : string) : bool :=
  if str_includes "*" pattern
  then regex_test (glob_regex pattern) path
  else str_includes pattern path.

(** [pattern.replace(/\*/g, '.*')] *)
Fixpoint star_to_dotstar (pattern : string) : string :=
  match pattern with
  | EmptyString => EmptyString
  | String c r =>
      if Ascii.eqb c "*" then String "." (String "*" (star_to_dotstar r))
      else String c (star_to_dotstar r)
  end.

(** The characters that are syntax in a regular expression. *)
Definition regex_syntax_char (c : ascii) : bool :=
  existsb (Ascii.eqb c)
    ["\"; "^"; "$"; "."; "*"; "+"; "?"; "("; ")"; "["; "]"; "{"; "}";
     "|"]%char.

(** The sources that consist of characters without a meaning of their own,
    of [.] and of [.*], read as an expression. *)
Fixpoint simple_tokens (source : string) : option (list rtok) :=
  match source with
  | EmptyString => Some []
  | String c r =>
      if Ascii.eqb c "." then
        match r with
        | String "*"%char r' => option_map (cons RStar) (simple_tokens r')
        | _ => option_map (cons RAny) (simple_tokens r)
        end
      else if regex_syntax_char c then None
      else option_map (cons (RLit c)) (simple_tokens r)
  end.

(** [new RegExp(source)] on the sources above, where it is what the
    JavaScript runtime does.  The fixtures of this development hand it no
    other source (their ignore patterns are the default ones, see
    [default_patterns_simple]); on a source with further syntax it reports a
    syntax error, which is what the runtime does for [.*(] and not for
    every such source. *)
Definition simpleRegExp (source : string) : result (string -> bool) :=
  match simple_tokens source with
  | Some toks => Ok (regex_test toks)
  | None => Throw "Invalid regular expression"
  end.

(** What the file system holds at a path.  [Dir None] is a directory that
    cannot be listed; [Broken] is an entry that is neither a file nor a
    directory and whose [stat] fails (a dangling link). *)
Inductive node : Type :=
| File (size mtime : Z) (content : string)
| Dir (children : option (list (string * node)))
| Broken.

(** [isFile()] and [isDirectory()] of a directory entry or a [stat] result. *)
Definition is_file (n : node) : bool :=
  match n with File _ _ _ => true | _ => false end.
Definition is_directory (n : node) : bool :=
  match n with Dir _ => true | _ => false end.

(** [readdirSync(path, { withFileTypes: true })]; [None] when it throws. *)
Definition readdirSync (n : option node) : option (list (string * node)) :=
  match n with
  | Some (Dir (Some entries)) => Some entries
  | _ => None
  end.

(** The file system: what lies at each root path handed to the services. *)
Definition FS := string -> option node.

(* ================================================================== *)
(** ** FileWatcherService *)
(* ================================================================== *)

Module FileWatcherService.

Inductive ChangeType := add | change | unlink.

(** [stats] is the optional stat snapshot (size, mtime) of the event. *)
Record FileChangeEvent := mkChange {
  type : ChangeType;
  path : string;
  relativePath : string;
  stats : option (Z * Z)
}.

(** The [error] objects passed around by the service. *)
Inductive WatchError :=
| EMFILE
| MaxWatchersReached (maxWatchers : Z)
| OtherError (message : string).

Inductive FallbackReason :=
| MultipleFailures (failed : Z).

(** Notifications emitted to listeners, in emission order. *)
Inductive Event :=
| directory_skipped (directory reason : string)
| directory_failed (directory : string)
| ready (directory : string)
| error (directory : string) (e : WatchError)
| fallback_activated (reason : FallbackReason)
| fallback_reset
| file_change (directory : string) (event : FileChangeEvent)
| batch_change (directory : string) (events : list FileChangeEvent)
| configuration_changed (enabled : bool) (strategy : string).

Record WatcherOptions := mkOptions {
  ignored : option (list string);
  depth : option Z;
  usePolling : option bool;
  interval : option Z
}.
Definition no_options : WatcherOptions := mkOptions None None None None.

(** A pending [setTimeout] callback. *)
Inductive Timer :=
| RetryWatch (dirPath : string) (delay : Z).

(** A chokidar watcher handle; [None] in the [watchers] map is the [null]
    stored for a directory that is registered without being watched. *)
Definition FSWatcher := nat.

Record t := mk {
  watchers : JSMap.t (option FSWatcher);
  fileIndex : JSMap.t JSSet.t;
  changeQueue : JSMap.t (list FileChangeEvent);
  processingQueue : bool;
  maxWatchers : Z;
  watcherCount : Z;
  emfileRetryAttempts : JSMap.t Z;
  maxRetryAttempts : Z;
  retryDelay : Z;
  failedDirectories : JSSet.t;
  fallbackMode : bool;
  fallbackReason : option FallbackReason;
  isWatchingDisabled : bool;
  watchingStrategy : string;
  (* effects *)
  emitted : list Event;                 (* [this.emit] calls *)
  timers : list Timer;                  (* pending [setTimeout] callbacks *)
  watchCalls : list string;             (* chokidar [watch(dirPath, ...)] calls *)
  closeCalls : list FSWatcher           (* [watcher.close()] calls *)
}.

Definition create : t :=
  mk [] [] [] false 25 0 [] 3 1000 [] false None false "conservative"
     [] [] [] [].

Definition emit (e : Event) (s : t) : t :=
  mk (watchers s) (fileIndex s) (changeQueue s) (processingQueue s)
     (maxWatchers s) (watcherCount s) (emfileRetryAttempts s)
     (maxRetryAttempts s) (retryDelay s) (failedDirectories s)
     (fallbackMode s) (fallbackReason s) (isWatchingDisabled s)
     (watchingStrategy s) (emitted s ++ [e]) (timers s) (watchCalls s)
     (closeCalls s).

Definition setTimeout (tm : Timer) (s : t) : t :=
  mk (watchers s) (fileIndex s) (changeQueue s) (processingQueue s)
     (maxWatchers s) (watcherCount s) (emfileRetryAttempts s)
     (maxRetryAttempts s) (retryDelay s) (failedDirectories s)
     (fallbackMode s) (fallbackReason s) (isWatchingDisabled s)
     (watchingStrategy s) (emitted s) (timers s ++ [tm]) (watchCalls s)
     (closeCalls s).

Definition set_emfileRetryAttempts (m : JSMap.t Z) (s : t) : t :=
  mk (watchers s) (fileIndex s) (changeQueue s) (processingQueue s)
     (maxWatchers s) (watcherCount s) m
     (maxRetryAttempts s) (retryDelay s) (failedDirectories s)
     (fallbackMode s) (fallbackReason s) (isWatchingDisabled s)
     (watchingStrategy s) (emitted s) (timers s) (watchCalls s)
     (closeCalls s).

Definition set_fileIndex (m : JSMap.t JSSet.t) (s : t) : t :=
  mk (watchers s) m (changeQueue s) (processingQueue s)
     (maxWatchers s) (watcherCount s) (emfileRetryAttempts s)
     (maxRetryAttempts s) (retryDelay s) (failedDirectories s)
     (fallbackMode s) (fallbackReason s) (isWatchingDisabled s)
     (watchingStrategy s) (emitted s) (timers s) (watchCalls s)
     (closeCalls s).

(** [isWatchingEnabled()] *)
Definition isWatchingEnabled (s : t) : bool :=
  negb (isWatchingDisabled s)
  && negb (String.eqb (watchingStrategy s) "disabled").

(** [canWatchDirectory(dirPath)] *)
Definition canWatchDirectory (dirPath : string) (s : t) : bool :=
  if JSSet.has dirPath (failedDirectories s) then false
  else if fallbackMode s then false
  else true.

(** [enterFallbackMode(reason)] *)
Definition enterFallbackMode (reason : FallbackReason) (s : t) : t :=
  emit (fallback_activated reason)
    (mk (watchers s) (fileIndex s) (changeQueue s) (processingQueue s)
        (maxWatchers s) (watcherCount s) (emfileRetryAttempts s)
        (maxRetryAttempts s) (retryDelay s) (failedDirectories s)
        true (Some reason) (isWatchingDisabled s)
        (watchingStrategy s) (emitted s) (timers s) (watchCalls s)
        (closeCalls s)).

(** [markDirectoryFailed(dirPath, error)] *)
Definition markDirectoryFailed (dirPath : string) (s : t) : t :=
  let failed := JSSet.add dirPath (failedDirectories s) in
  let s1 :=
    mk (watchers s) (fileIndex s) (changeQueue s) (processingQueue s)
       (maxWatchers s) (watcherCount s) (emfileRetryAttempts s)
       (maxRetryAttempts s) (retryDelay s) failed
       (fallbackMode s) (fallbackReason s) (isWatchingDisabled s)
       (watchingStrategy s) (emitted s) (timers s) (watchCalls s)
       (closeCalls s) in
  let s2 := if JSSet.size failed >=? 3
            then enterFallbackMode (MultipleFailures (JSSet.size failed)) s1
            else s1 in
  emit (directory_failed dirPath) s2.

(** [resetFallbackMode()] *)
Definition resetFallbackMode (s : t) : t :=
  emit fallback_reset
    (mk (watchers s) (fileIndex s) (changeQueue s) (processingQueue s)
        (maxWatchers s) (watcherCount s) (emfileRetryAttempts s)
        (maxRetryAttempts s) (retryDelay s) []
        false None (isWatchingDisabled s)
        (watchingStrategy s) (emitted s) (timers s) (watchCalls s)
        (closeCalls s)).

(** [getDirectoryStats(dirPath)]: the loop over the top-level entries.
    [total] is [topLevelFiles.length]; the counters are [actualFileCount],
    [estimatedFileCount] and [directoriesScanned]. *)
Definition maxDirsToScan : Z := 10.

Fixpoint statsLoop (total : Z) (entries : list (string * node))
         (actualFileCount estimatedFileCount directoriesScanned : Z)
  : Z * Z :=
  match entries with
  | [] => (actualFileCount, estimatedFileCount)
  | (name, file) :: rest =>
      if is_file file then
        statsLoop total rest (actualFileCount + 1) estimatedFileCount
                  directoriesScanned
      else if is_directory file then
        let dirName := toLowerCase name in
        if (directoriesScanned <? maxDirsToScan)
           && negb (startsWith "." dirName)
           && negb (String.eqb dirName "node_modules")
        then
          match readdirSync (Some file) with
          | Some subFiles =>
              let subFileCount :=
                Z.of_nat (List.length (filter (fun f => is_file (snd f)) subFiles)) in
              if subFileCount >? 100
              then (actualFileCount,
                    estimatedFileCount + subFileCount
                    + (total - (directoriesScanned + 1)) * 200)
              else statsLoop total rest actualFileCount
                             (estimatedFileCount + subFileCount)
                             (directoriesScanned + 1)
          | None =>
              statsLoop total rest actualFileCount (estimatedFileCount + 100)
                        directoriesScanned
          end
        else if String.eqb dirName "node_modules" then
          statsLoop total rest actualFileCount estimatedFileCount
                    directoriesScanned
        else if String.eqb dirName ".git" then
          statsLoop total rest actualFileCount (estimatedFileCount + 1000)
                    directoriesScanned
        else if startsWith "." dirName then
          statsLoop total rest actualFileCount (estimatedFileCount + 50)
                    directoriesScanned
        else
          statsLoop total rest actualFileCount (estimatedFileCount + 200)
                    directoriesScanned
      else
        statsLoop total rest actualFileCount estimatedFileCount
                  directoriesScanned
  end.

(** [getDirectoryStats(dirPath).estimatedFileCount] *)
Definition getDirectoryStats (fs : FS) (dirPath : string) : Z :=
  match readdirSync (fs dirPath) with
  | Some topLevelFiles =>
      let '(actualFileCount, estimatedFileCount) :=
        statsLoop (Z.of_nat (List.length topLevelFiles)) topLevelFiles 0 0 0 in
      actualFileCount + estimatedFileCount
  | None => 2000
  end.

Definition largeTreeThreshold : Z := 15000.

(** [watchDirectory(dirPath, options)].  The body starts with an
    unconditional emergency [emit] and [return]; the statements that
    follow it in the source are never executed. *)
Definition watchDirectory (dirPath : string) (options : WatcherOptions)
           (s : t) : t :=
  emit (directory_skipped dirPath "emergency_disabled") s.

(** The statements of [watchDirectory] that follow the emergency return,
    up to the creation of the chokidar watcher.  They are unreachable;
    the definition records what they would do. *)
Inductive Unreachable :=
| Returned (s : t)
| CreatesWatcher (s : t).

Definition watchDirectory_after_return (fs : FS) (dirPath : string)
           (options : WatcherOptions) (s : t) : Unreachable :=
  if negb (isWatchingEnabled s) then
    Returned (emit (directory_skipped dirPath "user_disabled") s)
  else if negb (canWatchDirectory dirPath s) then
    Returned (emit (directory_skipped dirPath "fallback_mode") s)
  else if getDirectoryStats fs dirPath >? largeTreeThreshold then
    Returned
      (emit (ready dirPath)
         (mk (JSMap.set dirPath None (watchers s))
             (JSMap.set dirPath [] (fileIndex s))
             (changeQueue s) (processingQueue s)
             (maxWatchers s) (watcherCount s + 1) (emfileRetryAttempts s)
             (maxRetryAttempts s) (retryDelay s) (failedDirectories s)
             (fallbackMode s) (fallbackReason s) (isWatchingDisabled s)
             (watchingStrategy s) (emitted s) (timers s) (watchCalls s)
             (closeCalls s)))
  else CreatesWatcher s.

(** [unwatchDirectory(dirPath)] *)
Definition unwatchDirectory (dirPath : string) (s : t) : t :=
  match JSMap.get dirPath (watchers s) with
  | Some watcher =>
      mk (JSMap.delete dirPath (watchers s))
         (JSMap.delete dirPath (fileIndex s))
         (JSMap.delete dirPath (changeQueue s))
         (processingQueue s) (maxWatchers s) (watcherCount s - 1)
         (JSMap.delete dirPath (emfileRetryAttempts s))
         (maxRetryAttempts s) (retryDelay s) (failedDirectories s)
         (fallbackMode s) (fallbackReason s) (isWatchingDisabled s)
         (watchingStrategy s) (emitted s) (timers s) (watchCalls s)
         (match watcher with
          | Some w => closeCalls s ++ [w]
          | None => closeCalls s
          end)
  | None => s
  end.

(** [stopAll()] *)
Definition stopAll (s : t) : t :=
  fold_left (fun acc dirPath => unwatchDirectory dirPath acc)
            (JSMap.keys (watchers s)) s.

(** [this.fileIndex.get(dir)?.size || 0] *)
Definition indexedFiles (s : t) (dirPath : string) : Z :=
  match JSMap.get dirPath (fileIndex s) with
  | Some files => JSSet.size files
  | None => 0
  end.

(** [Array.prototype.sort] (stable) with the comparator
    [(a, b) => bFiles - aFiles]. *)
Fixpoint insert_desc (key : string -> Z) (x : string) (l : list string)
  : list string :=
  match l with
  | [] => [x]
  | y :: r => if key y - key x <=? 0 then x :: y :: r
              else y :: insert_desc key x r
  end.

Definition sort_desc (key : string -> Z) (l : list string) : list string :=
  fold_right (insert_desc key) [] l.

(** [performAggressiveCleanup()]: [Math.ceil(n / 2)] directories, the ones
    with the most indexed files first, are unwatched. *)
Definition performAggressiveCleanup (s : t) : t :=
  let watcherEntries := JSMap.keys (watchers s) in
  let n := List.length watcherEntries in
  let toRemove := firstn (Nat.div (n + 1) 2)
                         (sort_desc (indexedFiles s) watcherEntries) in
  fold_left (fun acc dirPath => unwatchDirectory dirPath acc) toRemove s.

(** [this.emfileRetryAttempts.get(dirPath) || 0] *)
Definition retryCountOf (dirPath : string) (s : t) : Z :=
  match JSMap.get dirPath (emfileRetryAttempts s) with
  | Some n => n
  | None => 0
  end.

(** [handleEMFILEError(dirPath, error)], up to the point where the retry
    timer is armed. *)
Definition handleEMFILEError (dirPath : string) (e : WatchError) (s : t)
  : t :=
  let s1 := unwatchDirectory dirPath s in
  let s2 := performAggressiveCleanup s1 in
  let retryCount := retryCountOf dirPath s2 in
  if retryCount <? maxRetryAttempts s2 then
    setTimeout (RetryWatch dirPath (retryDelay s2))
      (set_emfileRetryAttempts
         (JSMap.set dirPath (retryCount + 1) (emfileRetryAttempts s2)) s2)
  else
    emit (error dirPath e)
      (set_emfileRetryAttempts
         (JSMap.delete dirPath (emfileRetryAttempts s2)) s2).

(** The callback armed by [handleEMFILEError]: it calls [watchDirectory]
    with the conservative options and, as that call does not throw,
    clears the retry count. *)
Definition retryOptions : WatcherOptions :=
  mkOptions None (Some 2) (Some true) (Some 1000).

Definition fireTimer (tm : Timer) (s : t) : t :=
  match tm with
  | RetryWatch dirPath _ =>
      let s1 := watchDirectory dirPath retryOptions s in
      set_emfileRetryAttempts
        (JSMap.delete dirPath (emfileRetryAttempts s1)) s1
  end.

(** The event loop runs the oldest pending timer. *)
Definition runNextTimer (s : t) : t :=
  match timers s with
  | [] => s
  | tm :: rest =>
      fireTimer tm
        (mk (watchers s) (fileIndex s) (changeQueue s) (processingQueue s)
            (maxWatchers s) (watcherCount s) (emfileRetryAttempts s)
            (maxRetryAttempts s) (retryDelay s) (failedDirectories s)
            (fallbackMode s) (fallbackReason s) (isWatchingDisabled s)
            (watchingStrategy s) (emitted s) rest (watchCalls s)
            (closeCalls s))
  end.

(** [shouldIgnoreFile(relativePath)] *)
Definition ignoredPatterns : list string :=
  ["node_modules"; ".git"; "dist"; "build"; ".DS_Store"; "*.log";
   "coverage"; ".vscode"; ".idea"; "tmp"; "temp"; ".cache"].

Definition shouldIgnoreFile (relativePath : string) : bool :=
  existsb (matches_ignore_pattern relativePath) ignoredPatterns.

(** The closure [scanFiles(currentPath, depth)] of [manualRefresh].  [n]
    is what the file system holds at [currentPath]; the accumulator is the
    pair of the captured [newFiles] and [changes]; [None] is an exception
    thrown by [readdirSync]. *)
Definition scanEntries
           (scanChild : string -> node -> JSSet.t * list FileChangeEvent ->
                        option (JSSet.t * list FileChangeEvent))
           (dirPath : string) (currentIndex : JSSet.t) (descend : bool)
           (currentPath : string)
  : list (string * node) -> JSSet.t * list FileChangeEvent ->
    option (JSSet.t * list FileChangeEvent) :=
  fix loop entries acc :=
    match entries with
    | [] => Some acc
    | (name, entry) :: rest =>
        let fullPath := path_join currentPath name in
        let relativePath := path_relative dirPath fullPath in
        if shouldIgnoreFile relativePath then loop rest acc
        else
          match entry with
          | File _ _ _ =>
              loop rest
                (JSSet.add fullPath (fst acc),
                 if JSSet.has fullPath currentIndex then snd acc
                 else snd acc ++ [mkChange add fullPath relativePath None])
          | Dir _ =>
              if descend then
                match scanChild fullPath entry acc with
                | Some acc' => loop rest acc'
                | None => None
                end
              else loop rest acc
          | Broken => loop rest acc
          end
    end.

Fixpoint scanFiles (dirPath : string) (currentIndex : JSSet.t)
         (depth : Z) (currentPath : string) (n : node)
         (acc : JSSet.t * list FileChangeEvent) {struct n}
  : option (JSSet.t * list FileChangeEvent) :=
  if depth >? 3 then Some acc
  else
    match n with
    | Dir (Some entries) =>
        scanEntries
          (fun p child a => scanFiles dirPath currentIndex (depth + 1) p child a)
          dirPath currentIndex (depth <? 3) currentPath entries acc
    | _ => None
    end.

Record RefreshResult := mkRefresh {
  changes : list FileChangeEvent;
  totalFiles : Z
}.

(** [manualRefresh(dirPath)] *)
Definition manualRefresh (fs : FS) (dirPath : string) (s : t)
  : result RefreshResult * t :=
  let currentIndex :=
    match JSMap.get dirPath (fileIndex s) with
    | Some files => files
    | None => []
    end in
  match fs dirPath with
  | None => (Throw "ENOENT", s)
  | Some root =>
      match scanFiles dirPath currentIndex 0 dirPath root ([], []) with
      | None => (Throw "readdirSync failed", s)
      | Some (newFiles, added) =>
          let deleted :=
            map (fun filePath =>
                   mkChange unlink filePath (path_relative dirPath filePath)
                            None)
                (filter (fun filePath => negb (JSSet.has filePath newFiles))
                        currentIndex) in
          let changes := added ++ deleted in
          let s1 := set_fileIndex (JSMap.set dirPath newFiles (fileIndex s)) s in
          let s2 := fold_left (fun acc c => emit (file_change dirPath c) acc)
                              changes s1 in
          (Ok (mkRefresh changes (JSSet.size newFiles)), s2)
      end
  end.

(** [getWatchedFiles(dirPath)] *)
Definition getWatchedFiles (dirPath : string) (s : t) : list string :=
  match JSMap.get dirPath (fileIndex s) with
  | Some index => index
  | None => []
  end.

Definition set_changeQueue (q : JSMap.t (list FileChangeEvent)) (s : t) : t :=
  mk (watchers s) (fileIndex s) q (processingQueue s)
     (maxWatchers s) (watcherCount s) (emfileRetryAttempts s)
     (maxRetryAttempts s) (retryDelay s) (failedDirectories s)
     (fallbackMode s) (fallbackReason s) (isWatchingDisabled s)
     (watchingStrategy s) (emitted s) (timers s) (watchCalls s)
     (closeCalls s).

Definition set_processingQueue (b : bool) (s : t) : t :=
  mk (watchers s) (fileIndex s) (changeQueue s) b
     (maxWatchers s) (watcherCount s) (emfileRetryAttempts s)
     (maxRetryAttempts s) (retryDelay s) (failedDirectories s)
     (fallbackMode s) (fallbackReason s) (isWatchingDisabled s)
     (watchingStrategy s) (emitted s) (timers s) (watchCalls s)
     (closeCalls s).

(** [handleFileEvent(type, dirPath, filePath, stats)].  The second
    component tells whether the debounced [processChangeQueue] was called,
    which (re)arms the debounce timer. *)
Definition handleFileEvent (type : ChangeType) (dirPath filePath : string)
           (stats : option (Z * Z)) (s : t) : t * bool :=
  if str_includes "node_modules" filePath then (s, false)
  else
    let event :=
      mkChange type filePath (path_relative dirPath filePath) stats in
    let s1 :=
      match JSMap.get dirPath (fileIndex s) with
      | Some index =>
          set_fileIndex
            (JSMap.set dirPath
               (match type with
                | add | change => JSSet.add filePath index
                | unlink => JSSet.delete filePath index
                end)
               (fileIndex s)) s
      | None => s
      end in
    let queued :=
      match JSMap.get dirPath (changeQueue s1) with
      | Some events => events
      | None => []
      end in
    (set_changeQueue (JSMap.set dirPath (queued ++ [event]) (changeQueue s1)) s1,
     true).

(** The grouping loop of [processChangeQueue]: [fileEvents] maps a path to
    its events in arrival order. *)
Definition groupByPath (events : list FileChangeEvent)
  : JSMap.t (list FileChangeEvent) :=
  fold_left
    (fun fileEvents event =>
       JSMap.set (path event)
         (match JSMap.get (path event) fileEvents with
          | Some fileEventList => fileEventList ++ [event]
          | None => [event]
          end)
         fileEvents)
    events [].

(** [fileEventList[fileEventList.length - 1]] *)
Definition latestEvent (fileEventList : list FileChangeEvent)
  : option FileChangeEvent :=
  last (map Some fileEventList) None.

(** The body of the loop of [processChangeQueue] for one directory. *)
Definition processDirectory (dirPath : string) (events : list FileChangeEvent)
           (s : t) : t :=
  match events with
  | [] => s
  | _ :: _ =>
      let s1 :=
        fold_left
          (fun acc kv =>
             match latestEvent (snd kv) with
             | Some e => emit (file_change dirPath e) acc
             | None => acc
             end)
          (groupByPath events) s in
      let s2 := emit (batch_change dirPath events) s1 in
      set_changeQueue (JSMap.set dirPath [] (changeQueue s2)) s2
  end.

(** [processChangeQueue()] *)
Definition processChangeQueue (s : t) : t :=
  if processingQueue s then s
  else
    set_processingQueue false
      (fold_left (fun acc kv => processDirectory (fst kv) (snd kv) acc)
                 (changeQueue s) (set_processingQueue true s)).

(** [cleanupWatchers()]: [watcherCount < maxWatchers * 0.8] is
    [5 * watcherCount < 4 * maxWatchers]; the first
    [Math.floor(n / 2)] directories of the map are unwatched. *)
Definition cleanupWatchers (s : t) : t :=
  if 5 * watcherCount s <? 4 * maxWatchers s then s
  else
    let watcherEntries := JSMap.keys (watchers s) in
    fold_left (fun acc dirPath => unwatchDirectory dirPath acc)
      (firstn (Nat.div (List.length watcherEntries) 2) watcherEntries) s.

(** The argument of [setWatchingConfiguration]; [None] is a field that is
    [undefined]. *)
Record WatchingConfig := mkConfig {
  enabled : option bool;
  strategy : option string
}.

Definition set_configuration (disabled : bool) (strat : string) (s : t) : t :=
  mk (watchers s) (fileIndex s) (changeQueue s) (processingQueue s)
     (maxWatchers s) (watcherCount s) (emfileRetryAttempts s)
     (maxRetryAttempts s) (retryDelay s) (failedDirectories s)
     (fallbackMode s) (fallbackReason s) disabled strat
     (emitted s) (timers s) (watchCalls s) (closeCalls s).

(** [setWatchingConfiguration(config)]; the notification that follows
    [stopAll()] is sent when all watchers are stopped. *)
Definition setWatchingConfiguration (config : WatchingConfig) (s : t) : t :=
  let previouslyDisabled := isWatchingDisabled s in
  let s1 :=
    set_configuration
      (match enabled config with
       | Some e => negb e
       | None => isWatchingDisabled s
       end)
      (match strategy config with
       | Some st => st
       | None => watchingStrategy s
       end) s in
  let s2 :=
    if previouslyDisabled && negb (isWatchingDisabled s1)
    then emit (configuration_changed true (watchingStrategy s1))
              (resetFallbackMode s1)
    else s1 in
  let s3 :=
    if negb previouslyDisabled && isWatchingDisabled s2
    then emit (configuration_changed false (watchingStrategy s2)) (stopAll s2)
    else s2 in
  if match strategy config with Some _ => true | None => false end
     && Bool.eqb previouslyDisabled (isWatchingDisabled s3)
  then emit (configuration_changed (negb (isWatchingDisabled s3))
                                   (watchingStrategy s3)) s3
  else s3.

(** [getWatchingConfiguration()] *)
Record WatchingConfiguration := mkWatchingConfiguration {
  wc_enabled : bool;
  wc_strategy : string;
  wc_activeWatchers : Z;
  wc_fallbackMode : bool
}.

Definition getWatchingConfiguration (s : t) : WatchingConfiguration :=
  mkWatchingConfiguration (negb (isWatchingDisabled s)) (watchingStrategy s)
                          (watcherCount s) (fallbackMode s).
End FileWatcherService.



(* ================================================================== *)
(** ** LightweightContext *)
(* ================================================================== *)

(** [String.prototype.endsWith] *)
Definition endsWith (suffix s : string) : bool :=
  let n := String.length s in
  let m := String.length suffix in
  if Nat.leb m n then String.eqb (String.substring (n - m) m s) suffix
  else false.

(** [path.basename(p)]: the text after the last ['/']. *)
Fixpoint basename_from (s acc : string) : string :=
  match s with
  | EmptyString => acc
  | String c r => if Ascii.eqb c "/" then basename_from r r
                  else basename_from r acc
  end.
Definition basename (p : string) : string := basename_from p p.

(** [path.extname(p)]: from the last ['.'] of the base name, empty when
    there is none or when the only one starts the name. *)
Fixpoint last_dot_suffix (s : string) (acc : option string) : option string :=
  match s with
  | EmptyString => acc
  | String c r => if Ascii.eqb c "." then last_dot_suffix r (Some s)
                  else last_dot_suffix r acc
  end.

Definition extname (p : string) : string :=
  let b := basename p in
  match last_dot_suffix b None with
  | None => ""
  | Some ext => if String.eqb ext b || String.eqb b ".." then "" else ext
  end.

Definition is_space (c : ascii) : bool :=
  let n := nat_of_ascii c in
  (Nat.leb 9 n && Nat.leb n 13) || Nat.eqb n 32.

Fixpoint trimStart (s : string) : string :=
  match s with
  | String c r => if is_space c then trimStart r else s
  | EmptyString => EmptyString
  end.

Fixpoint trimEnd (s : string) : string :=
  match s with
  | EmptyString => EmptyString
  | String c r =>
      match trimEnd r with
      | EmptyString => if is_space c then EmptyString else String c EmptyString
      | r' => String c r'
      end
  end.

(** [String.prototype.trim] on ASCII text *)
Definition trim (s : string) : string := trimEnd (trimStart s).

(** [s.split('\n')] *)
Fixpoint split_lines (s : string) : list string :=
  match s with
  | EmptyString => [EmptyString]
  | String c r =>
      if Ascii.eqb c "010" then EmptyString :: split_lines r
      else match split_lines r with
           | [] => [String c EmptyString]
           | l :: ls => String c l :: ls
           end
  end.

(** [array.slice(0, limit)] *)
Definition slice0 {A} (limit : Z) (l : list A) : list A :=
  if limit <? 0
  then firstn (Z.to_nat (Z.of_nat (List.length l) + limit)) l
  else firstn (Z.to_nat limit) l.

(** Stable [Array.prototype.sort] with the comparator
    [(a, b) => key(b) - key(a)]. *)
Fixpoint insert_by_desc {A} (key : A -> Z) (x : A) (l : list A) : list A :=
  match l with
  | [] => [x]
  | y :: r => if key y - key x <=? 0 then x :: y :: r
              else y :: insert_by_desc key x r
  end.

Definition sort_by_desc {A} (key : A -> Z) (l : list A) : list A :=
  fold_right (insert_by_desc key) [] l.

Module LightweightContext.

Record FileInfo := mkFileInfo {
  path : string;
  name : string;
  size : Z;
  language : string;
  lastModified : Z;
  isDirectory : bool;
  relevanceScore : option Z
}.

Record ProjectInfo := mkProjectInfo {
  type : string;
  framework : option string;
  languages : list string;
  entryPoints : list string;
  configFiles : list string;
  totalFiles : Z;
  languageDistribution : JSMap.t Z
}.

(** The collaborators of the context: the file system and the
    persistence module [workspace-persistence.js], which is not part of
    the sources and is taken as given: what [loadWorkspaceContext]
    resolves to (its project info, if any) or rejects with, and whether
    [updateProjectInfo] resolves.  The JavaScript runtime is taken as
    given too: [newRegExp source] is [new RegExp(source)], either the
    [SyntaxError] it throws or what [test] answers for the expression; and
    [dateNow now k] is what [Date.now()] returns when the scan of an
    operation that started at the reading [now] resumes to process the
    [k]-th directory entry it visits. *)
Record Env := mkEnv {
  fs : FS;
  loadWorkspaceContext : string -> result (option ProjectInfo);
  updateProjectInfo_resolves : string -> bool;
  newRegExp : string -> result (string -> bool);
  dateNow : Z -> nat -> Z
}.

(** Calls made to the shared [fileWatcherService]. *)
Inductive ServiceCall :=
| call_unwatchDirectory (dirPath : string)
| call_watchDirectory (dirPath : string) (ignored : list string)
| call_on_file_change
| call_off_file_change.

Record t := mk {
  workspacePath : string;
  fileCache : LRUCache.t FileInfo;
  projectInfo : option ProjectInfo;
  lastScanTime : Z;
  isDestroyed : bool;
  watcherCallbacks : list string;        (* the ids of the registered callbacks *)
  fileWatcherCleanup : bool;             (* whether the cleanup closure is set *)
  callbackIdCounter : Z;
  (* the last debounce timer: whether it is still pending, and the
     (eventType, filePath) its callback was armed with *)
  scanDebounceTimer : option (bool * (string * string));
  MAX_FILES : Z;
  ignorePatterns : list string;
  memoryMonitorInterval : bool;          (* whether the interval is armed *)
  serviceCalls : list ServiceCall
}.

Definition MAX_FILE_SIZE : Z := 512 * 1024.
Definition MAX_CACHE_AGE : Z := 30 * 60 * 1000.
Definition MEMORY_THRESHOLD : Z := 200 * 1024 * 1024.

Definition languageMap : list (string * string) :=
  [(".js", "javascript"); (".ts", "typescript"); (".jsx", "javascript");
   (".tsx", "typescript"); (".vue", "vue"); (".py", "python");
   (".java", "java"); (".cpp", "cpp"); (".c", "c"); (".cs", "csharp");
   (".php", "php"); (".rb", "ruby"); (".go", "go"); (".rs", "rust");
   (".swift", "swift"); (".kt", "kotlin"); (".scala", "scala");
   (".ex", "elixir"); (".al", "al"); (".html", "html"); (".css", "css");
   (".json", "json"); (".md", "markdown"); (".yaml", "yaml");
   (".yml", "yaml"); (".xml", "xml"); (".sql", "sql")].

Definition default_ignorePatterns : list string :=
  ["node_modules"; "vendor"; "packages"; ".pnpm-store";
   ".git"; ".svn"; ".hg";
   ".claude"; ".claude-checkpoints"; ".clode"; ".worktrees"; ".vscode";
   ".idea"; "*.swp"; "*.swo";
   "dist"; "build"; "out"; ".output"; ".next"; "public/build"; "target";
   "bin"; "obj";
   "logs"; "*.log"; "tmp"; "temp"; ".tmp"; ".temp";
   ".cache"; ".parcel-cache"; ".nuxt"; ".turbo"; ".webpack";
   "coverage"; ".nyc_output"; ".coverage"; "htmlcov";
   "__pycache__"; "*.pyc"; "*.pyo"; "*.class"; "*.o"; "*.so"; "*.dll";
   "*.exe";
   ".DS_Store"; "Thumbs.db"; "desktop.ini";
   "*.mp4"; "*.avi"; "*.mov"; "*.wmv"; "*.mp3"; "*.wav"; "*.flac";
   "*.zip"; "*.rar"; "*.7z"; "*.tar.gz"; "*.dmp"; "*.dump"].

(** [constructor()]: the cache is created with the value [MAX_FILES] has
    at that moment. *)
Definition create : t :=
  mk "" (LRUCache.create 300 MAX_CACHE_AGE) None 0 false [] false 0 None
     300 default_ignorePatterns false [].

Definition set_fileCache (fc : LRUCache.t FileInfo) (c : t) : t :=
  mk (workspacePath c) fc (projectInfo c) (lastScanTime c) (isDestroyed c)
     (watcherCallbacks c) (fileWatcherCleanup c) (callbackIdCounter c)
     (scanDebounceTimer c) (MAX_FILES c) (ignorePatterns c)
     (memoryMonitorInterval c) (serviceCalls c).

Definition set_projectInfo (p : option ProjectInfo) (c : t) : t :=
  mk (workspacePath c) (fileCache c) p (lastScanTime c) (isDestroyed c)
     (watcherCallbacks c) (fileWatcherCleanup c) (callbackIdCounter c)
     (scanDebounceTimer c) (MAX_FILES c) (ignorePatterns c)
     (memoryMonitorInterval c) (serviceCalls c).

Definition set_workspacePath (p : string) (c : t) : t :=
  mk p (fileCache c) (projectInfo c) (lastScanTime c) (isDestroyed c)
     (watcherCallbacks c) (fileWatcherCleanup c) (callbackIdCounter c)
     (scanDebounceTimer c) (MAX_FILES c) (ignorePatterns c)
     (memoryMonitorInterval c) (serviceCalls c).

Definition set_lastScanTime (n : Z) (c : t) : t :=
  mk (workspacePath c) (fileCache c) (projectInfo c) n (isDestroyed c)
     (watcherCallbacks c) (fileWatcherCleanup c) (callbackIdCounter c)
     (scanDebounceTimer c) (MAX_FILES c) (ignorePatterns c)
     (memoryMonitorInterval c) (serviceCalls c).

Definition set_MAX_FILES (n : Z) (c : t) : t :=
  mk (workspacePath c) (fileCache c) (projectInfo c) (lastScanTime c)
     (isDestroyed c) (watcherCallbacks c) (fileWatcherCleanup c)
     (callbackIdCounter c) (scanDebounceTimer c) n (ignorePatterns c)
     (memoryMonitorInterval c) (serviceCalls c).

Definition set_ignorePatterns (l : list string) (c : t) : t :=
  mk (workspacePath c) (fileCache c) (projectInfo c) (lastScanTime c)
     (isDestroyed c) (watcherCallbacks c) (fileWatcherCleanup c)
     (callbackIdCounter c) (scanDebounceTimer c) (MAX_FILES c) l
     (memoryMonitorInterval c) (serviceCalls c).

Definition set_scanDebounceTimer (tm : option (bool * (string * string)))
           (c : t) : t :=
  mk (workspacePath c) (fileCache c) (projectInfo c) (lastScanTime c)
     (isDestroyed c) (watcherCallbacks c) (fileWatcherCleanup c)
     (callbackIdCounter c) tm (MAX_FILES c) (ignorePatterns c)
     (memoryMonitorInterval c) (serviceCalls c).

Definition set_memoryMonitorInterval (b : bool) (c : t) : t :=
  mk (workspacePath c) (fileCache c) (projectInfo c) (lastScanTime c)
     (isDestroyed c) (watcherCallbacks c) (fileWatcherCleanup c)
     (callbackIdCounter c) (scanDebounceTimer c) (MAX_FILES c)
     (ignorePatterns c) b (serviceCalls c).

Definition set_fileWatcherCleanup (b : bool) (c : t) : t :=
  mk (workspacePath c) (fileCache c) (projectInfo c) (lastScanTime c)
     (isDestroyed c) (watcherCallbacks c) b (callbackIdCounter c)
     (scanDebounceTimer c) (MAX_FILES c) (ignorePatterns c)
     (memoryMonitorInterval c) (serviceCalls c).

Definition call (x : ServiceCall) (c : t) : t :=
  mk (workspacePath c) (fileCache c) (projectInfo c) (lastScanTime c)
     (isDestroyed c) (watcherCallbacks c) (fileWatcherCleanup c)
     (callbackIdCounter c) (scanDebounceTimer c) (MAX_FILES c)
     (ignorePatterns c) (memoryMonitorInterval c) (serviceCalls c ++ [x]).

(** [shouldIgnore(path)]: [some] tries the patterns in order and stops at
    the first that matches; a pattern with a [*] is handed to [new RegExp],
    which throws when the pattern is not a regular expression. *)
Fixpoint someIgnored (env : Env) (p : string) (patterns : list string)
  : result bool :=
  match patterns with
  | [] => Ok false
  | pattern :: rest =>
      if str_includes "*" pattern then
        match newRegExp env (star_to_dotstar pattern) with
        | Throw message => Throw message
        | Ok test => if test p then Ok true else someIgnored env p rest
        end
      else if str_includes pattern p then Ok true
      else someIgnored env p rest
  end.

Definition shouldIgnore (env : Env) (c : t) (p : string) : result bool :=
  someIgnored env p (ignorePatterns c).

Definition binaryExtensions : list string :=
  [".exe"; ".dll"; ".so"; ".dylib"; ".bin"; ".dat";
   ".jpg"; ".jpeg"; ".png"; ".gif"; ".bmp"; ".ico";
   ".mp3"; ".mp4"; ".avi"; ".mov"; ".wmv";
   ".zip"; ".rar"; ".7z"; ".tar"; ".gz";
   ".pdf"; ".doc"; ".docx"; ".xls"; ".xlsx"].

(** [isBinaryFile(filename)] *)
Definition isBinaryFile (filename : string) : bool :=
  includes (toLowerCase (extname filename)) binaryExtensions.

(** [this.languageMap[ext] || 'unknown'] *)
Definition languageOf (filename : string) : string :=
  match JSMap.get (toLowerCase (extname filename)) languageMap with
  | Some l => l
  | None => "unknown"
  end.

(** [isEntryPoint(filename)] *)
Definition isEntryPoint (filename : string) : bool :=
  includes filename
    ["main.js"; "main.ts"; "index.js"; "index.ts"; "app.js"; "app.ts";
     "server.js"; "server.ts"; "main.py"; "__main__.py"; "app.py";
     "Main.java"; "Application.java"; "main.cpp"; "main.c";
     "Program.cs"; "Main.cs"].

(** [isConfigFile(filename)] *)
Definition isConfigFile (filename : string) : bool :=
  includes filename
    ["package.json"; "tsconfig.json"; "nuxt.config.ts"; "vite.config.ts";
     "webpack.config.js"; "rollup.config.js"; "babel.config.js";
     "pom.xml"; "build.gradle"; "Cargo.toml"; "requirements.txt";
     "Dockerfile"; "docker-compose.yml"; ".gitignore"; "README.md"].

(** [detectProjectType(files)] *)
Definition detectProjectType (files : list FileInfo) : string :=
  let fileNames := map name files in
  if includes "package.json" fileNames then "nodejs"
  else if includes "pom.xml" fileNames then "java"
  else if includes "Cargo.toml" fileNames then "rust"
  else if includes "requirements.txt" fileNames then "python"
  else if includes "go.mod" fileNames then "go"
  else if includes "Gemfile" fileNames then "ruby"
  else if includes "composer.json" fileNames then "php"
  else if existsb (endsWith ".csproj") fileNames then "csharp"
  else if existsb (endsWith ".vcxproj") fileNames then "cpp"
  else if includes "app.json" fileNames then "al"
  else "unknown".

(** [detectFramework(files)] *)
Definition detectFramework (files : list FileInfo) : option string :=
  let fileNames := map name files in
  if includes "nuxt.config.ts" fileNames then Some "nuxt"
  else if includes "next.config.js" fileNames then Some "nextjs"
  else if includes "vue.config.js" fileNames then Some "vue"
  else if includes "angular.json" fileNames then Some "angular"
  else if includes "svelte.config.js" fileNames then Some "svelte"
  else if includes "gatsby-config.js" fileNames then Some "gatsby"
  else if includes "vite.config.ts" fileNames then Some "vite"
  else None.

(** [analyzeProject(files)] *)
Definition analyzeProject (files : list FileInfo) : ProjectInfo :=
  mkProjectInfo
    (detectProjectType files)
    (detectFramework files)
    (fold_left (fun acc f => JSSet.add (language f) acc) files [])
    (map path (filter (fun f => isEntryPoint (name f)) files))
    (map path (filter (fun f => isConfigFile (name f)) files))
    (Z.of_nat (List.length files))
    (fold_left
       (fun acc f =>
          JSMap.set (language f)
            (match JSMap.get (language f) acc with
             | Some n => n + 1
             | None => 1
             end) acc)
       files []).

(** [existsSync(join(dir, name))] for a directory node [dir]. *)
Definition childExists (dir : node) (entry : string) : bool :=
  match readdirSync (Some dir) with
  | Some entries =>
      match JSMap.get entry entries with
      | Some Broken => false
      | Some _ => true
      | None => false
      end
  | None => false
  end.

Definition projectFiles : list string :=
  ["package.json"; "pom.xml"; "Cargo.toml"; "requirements.txt";
   "go.mod"; "Gemfile"; "composer.json"; ".git"].

(** The loop of [validateWorkspacePath]: [None] when a [stat] or
    [shouldIgnore] throws, which the method catches. *)
Fixpoint countProjectLikeDirs (env : Env) (c : t)
         (entries : list (string * node)) (projectLikeDirs : Z) : option Z :=
  match entries with
  | [] => Some projectLikeDirs
  | (entry, Broken) :: _ => None
  | (entry, n) :: rest =>
      if is_directory n then
        match shouldIgnore env c entry with
        | Throw _ => None
        | Ok ignored =>
            if negb ignored && existsb (childExists n) projectFiles
            then countProjectLikeDirs env c rest (projectLikeDirs + 1)
            else countProjectLikeDirs env c rest projectLikeDirs
        end
      else countProjectLikeDirs env c rest projectLikeDirs
  end.

(** [validateWorkspacePath(workspacePath)] *)
Definition validateWorkspacePath (env : Env) (workspacePath : string) (c : t)
  : t :=
  match readdirSync (fs env workspacePath) with
  | None => c
  | Some entries =>
      match countProjectLikeDirs env c entries 0 with
      | None => c
      | Some projectLikeDirs =>
          if projectLikeDirs >=? 3 then
            set_MAX_FILES (Z.min (MAX_FILES c) 200) c
          else if projectLikeDirs =? 1 then
            set_MAX_FILES (Z.min (MAX_FILES c) 500) c
          else c
      end
  end.

(** [loadGitignorePatterns()] *)
Definition loadGitignorePatterns (env : Env) (c : t) : t :=
  match readdirSync (fs env (workspacePath c)) with
  | Some entries =>
      match JSMap.get ".gitignore" entries with
      | Some (File _ _ gitignoreContent) =>
          set_ignorePatterns
            (fold_left
               (fun patterns line =>
                  let trimmedLine := trim line in
                  if String.eqb trimmedLine "" || startsWith "#" trimmedLine
                  then patterns
                  else if includes trimmedLine patterns then patterns
                  else patterns ++ [trimmedLine])
               (split_lines gitignoreContent) (ignorePatterns c))
            c
      | _ => c
      end
  | None => c
  end.

(** [scanDirectory(dirPath, depth)].  [n] is what the file system holds
    at [dirPath] ([Broken] when nothing is there); the entries of a batch
    are processed in listing order.  The scan suspends at every entry it
    visits (the [await stat]); [k] counts the entries visited so far, and a
    file is put into the cache at the clock reading [dateNow env now k] of
    its turn.  The result is the list of accepted files, or the error
    thrown by [shouldIgnore] before the [try]; the context, whose cache has
    received the files; and the count of entries visited.  An error thrown
    by the scan of a subdirectory is caught where the entry is processed. *)
Definition scanEntry (now : Z) (fullPath entry : string) (size mtime : Z)
           (c : t) : list FileInfo * t :=
  if (size >? MAX_FILE_SIZE) || isBinaryFile entry then ([], c)
  else if LRUCache.size (fileCache c) >=? MAX_FILES c then ([], c)
  else
    let fileInfo :=
      mkFileInfo fullPath entry size (languageOf entry) mtime false None in
    ([fileInfo], set_fileCache (LRUCache.set now fullPath fileInfo (fileCache c)) c).

Definition scanEntries
           (scanChild : string -> node -> t -> nat
                        -> result (list FileInfo) * (t * nat))
           (env : Env) (now : Z) (dirPath : string)
  : list (string * node) -> t -> nat -> list FileInfo * (t * nat) :=
  fix loop entries c k :=
    match entries with
    | [] => ([], (c, k))
    | (entry, n) :: rest =>
        let fullPath := path_join dirPath entry in
        let '(found, (c1, k1)) :=
          match n with
          | Dir _ =>
              match scanChild fullPath n c (S k) with
              | (Ok files, st) => (files, st)
              | (Throw _, st) => ([], st)
              end
          | File size mtime _ =>
              let '(files, c') :=
                scanEntry (dateNow env now (S k)) fullPath entry size mtime c in
              (files, (c', S k))
          | Broken => ([], (c, S k))
          end in
        let '(more, st2) := loop rest c1 k1 in
        (found ++ more, st2)
    end.

Fixpoint scanDirectory (env : Env) (now : Z) (depth : Z) (dirPath : string)
         (n : node) (c : t) (k : nat) {struct n}
  : result (list FileInfo) * (t * nat) :=
  if depth >? 8 then (Ok [], (c, k))
  else if isDestroyed c then (Ok [], (c, k))
  else
    match shouldIgnore env c (path_relative (workspacePath c) dirPath) with
    | Throw message => (Throw message, (c, k))
    | Ok true => (Ok [], (c, k))
    | Ok false =>
        match n with
        | Dir (Some entries) =>
            let '(files, st) :=
              scanEntries
                (fun p child c' k' =>
                   scanDirectory env now (depth + 1) p child c' k')
                env now dirPath entries c k in
            (Ok files, st)
        | _ => (Ok [], (c, k))
        end
    end.

(** [scanWorkspace()]: when the scan of the root throws, the cache has
    been cleared and neither the project info nor the scan time is set. *)
Definition scanWorkspace (env : Env) (now : Z) (c : t) : result unit * t :=
  if isDestroyed c then (Ok tt, c)
  else
    let c1 := set_fileCache (LRUCache.clear (fileCache c)) c in
    let root := match fs env (workspacePath c1) with
                | Some n => n
                | None => Broken
                end in
    match scanDirectory env now 0 (workspacePath c1) root c1 0 with
    | (Throw message, (c2, _)) => (Throw message, c2)
    | (Ok files, (c2, k)) =>
        (Ok tt,
         set_lastScanTime (dateNow env now (S k))
           (set_projectInfo (Some (analyzeProject files)) c2))
    end.

(** [stopWatching()] *)
Definition stopWatching (c : t) : t :=
  let c1 := if fileWatcherCleanup c
            then set_fileWatcherCleanup false (call call_off_file_change c)
            else c in
  let c2 := if String.eqb (workspacePath c1) "" then c1
            else call (call_unwatchDirectory (workspacePath c1)) c1 in
  set_scanDebounceTimer None c2.

(** [startWatching()]; the call to the service returns normally. *)
Definition startWatching (c : t) : t :=
  if String.eqb (workspacePath c) "" || isDestroyed c then c
  else
    let c1 := call (call_watchDirectory (workspacePath c)
                      (map (fun pattern =>
                              String.append "**/" (String.append pattern "/**"))
                           (ignorePatterns c))) c in
    let c2 := if fileWatcherCleanup c1
              then set_fileWatcherCleanup false (call call_off_file_change c1)
              else c1 in
    set_fileWatcherCleanup true (call call_on_file_change c2).

(** [stopMemoryMonitor()] and [startMemoryMonitor()] *)
Definition stopMemoryMonitor (c : t) : t :=
  if memoryMonitorInterval c then set_memoryMonitorInterval false c else c.

Definition startMemoryMonitor (c : t) : t :=
  if isDestroyed c then c
  else set_memoryMonitorInterval true (stopMemoryMonitor c).

(** [initialize(workspacePath)] *)
Definition initialize (env : Env) (now : Z) (workspacePath : string) (c : t)
  : result unit * t :=
  if isDestroyed c then
    (Throw "Cannot initialize destroyed LightweightContext instance", c)
  else
    let c1 := stopWatching c in
    if String.eqb workspacePath ""
       || match fs env workspacePath with Some Broken | None => true | _ => false end
    then (Throw "Workspace path does not exist", c1)
    else
      let c2 := validateWorkspacePath env workspacePath c1 in
      let c3 := set_workspacePath workspacePath c2 in
      let c4 := loadGitignorePatterns env c3 in
      match loadWorkspaceContext env workspacePath with
      | Throw message => (Throw message, c4)
      | Ok persistedData =>
          let c5 := match persistedData with
                    | Some info => set_projectInfo (Some info) c4
                    | None => c4
                    end in
          match scanWorkspace env now c5 with
          | (Throw message, c6) => (Throw message, c6)
          | (Ok _, c6) =>
              match projectInfo c6 with
              | Some _ =>
                  if updateProjectInfo_resolves env workspacePath
                  then (Ok tt, startMemoryMonitor (startWatching c6))
                  else (Throw "updateProjectInfo failed", c6)
              | None => (Ok tt, startMemoryMonitor (startWatching c6))
              end
          end
      end.

(** The relevance score computed by [searchFiles] for one file. *)
Definition score (now : Z) (queryLower : string) (file : FileInfo) : Z :=
  (if str_includes queryLower (toLowerCase (name file)) then 10 else 0)
  + (if str_includes queryLower (toLowerCase (path file)) then 5 else 0)
  + (if str_includes queryLower (toLowerCase (language file)) then 3 else 0)
  + (if now - lastModified file <? 1000 * 60 * 60 * 24 then 5
     else if now - lastModified file <? 7 * (1000 * 60 * 60 * 24) then 2
     else 0).

Definition with_score (sc : Z) (file : FileInfo) : FileInfo :=
  mkFileInfo (path file) (name file) (size file) (language file)
             (lastModified file) (isDirectory file) (Some sc).

Definition scoreOr0 (file : FileInfo) : Z :=
  match relevanceScore file with Some sc => sc | None => 0 end.

(** [searchFiles(query, limit)]: the score is stored in the cached
    objects that match, which are the objects returned. *)
Definition searchFiles (now : Z) (query : string) (limit : Z) (c : t)
  : list FileInfo * t :=
  if isDestroyed c then ([], c)
  else
    let queryLower := toLowerCase query in
    let rescore (file : FileInfo) :=
      if score now queryLower file >? 0
      then with_score (score now queryLower file) file else file in
    let cache' :=
      map (fun kv =>
             (fst kv,
              LRUCache.mkEntry (rescore (LRUCache.value (snd kv)))
                               (LRUCache.timestamp (snd kv))
                               (LRUCache.accessCount (snd kv))))
          (LRUCache.cache (fileCache c)) in
    let fc := fileCache c in
    let results :=
      map rescore
          (filter (fun file => score now queryLower file >? 0)
                  (LRUCache.values fc)) in
    (slice0 limit (sort_by_desc scoreOr0 results),
     set_fileCache (LRUCache.mk cache' (LRUCache.accessOrder fc)
                                (LRUCache.maxSize fc) (LRUCache.maxAge fc)) c).

(** [getFileContent(filePath)]: [None] is the [null] returned when the
    read fails. *)
Definition getFileContent (env : Env) (filePath : string) (c : t)
  : option string :=
  match fs env filePath with
  | Some (File _ _ content) => Some content
  | _ => None
  end.

(** [getFilesByLanguage(language)] *)
Definition getFilesByLanguage (lang : string) (c : t) : list FileInfo :=
  if isDestroyed c then []
  else filter (fun file => String.eqb (language file) lang)
              (LRUCache.values (fileCache c)).

(** [getRecentFiles(hours)] *)
Definition getRecentFiles (now : Z) (hours : Z) (c : t) : list FileInfo :=
  if isDestroyed c then []
  else
    let cutoff := now - hours * 60 * 60 * 1000 in
    sort_by_desc lastModified
      (filter (fun file => lastModified file >? cutoff)
              (LRUCache.values (fileCache c))).

(** [addFileToCache(filePath)] *)
Definition addFileToCache (env : Env) (now : Z) (filePath : string) (c : t)
  : t :=
  match fs env filePath with
  | Some (File size mtime _) =>
      if (size <=? 1024 * 1024) && negb (isBinaryFile filePath) then
        set_fileCache
          (LRUCache.set now filePath
             (mkFileInfo filePath (basename filePath) size
                         (languageOf filePath) mtime false None)
             (fileCache c)) c
      else c
  | _ => c
  end.

(** [removeFileFromCache(filePath)] *)
Definition removeFileFromCache (filePath : string) (c : t) : t :=
  set_fileCache (snd (LRUCache.delete filePath (fileCache c))) c.

(** [updateFileInCache(filePath)]: the stat data of a file are written
    into the cached object (the tree keeps no stat data for directories). *)
Definition updateFileInCache (env : Env) (now : Z) (filePath : string)
           (c : t) : t :=
  match LRUCache.get now filePath (fileCache c) with
  | (Some existingFile, fc) =>
      match fs env filePath with
      | Some (File size mtime _) =>
          let updated :=
            mkFileInfo (path existingFile) (name existingFile) size
                       (language existingFile) mtime
                       (isDirectory existingFile)
                       (relevanceScore existingFile) in
          set_fileCache
            (LRUCache.mk
               (map (fun kv =>
                       if String.eqb (fst kv) filePath
                       then (fst kv,
                             LRUCache.mkEntry updated
                               (LRUCache.timestamp (snd kv))
                               (LRUCache.accessCount (snd kv)))
                       else kv)
                    (LRUCache.cache fc))
               (LRUCache.accessOrder fc) (LRUCache.maxSize fc)
               (LRUCache.maxAge fc)) c
      | _ => set_fileCache fc c
      end
  | (None, fc) => set_fileCache fc c
  end.

(** [updateProjectInfo()] *)
Definition updateProjectInfo (c : t) : t :=
  set_projectInfo (Some (analyzeProject (LRUCache.values (fileCache c)))) c.

(** [handleFileSystemEvent(eventType, filePath)]: the pending debounce
    timer is replaced. *)
Definition handleFileSystemEvent (eventType filePath : string) (c : t) : t :=
  set_scanDebounceTimer (Some (true, (eventType, filePath))) c.

(** The callback of the debounce timer, when it is pending; the field keeps
    the handle of the fired timer.  The notifications sent to the
    registered callbacks are not part of the state. *)
Definition fireDebounceTimer (env : Env) (now : Z) (c : t) : t :=
  match scanDebounceTimer c with
  | None | Some (false, _) => c
  | Some (true, (eventType, filePath)) =>
      let c0 := set_scanDebounceTimer (Some (false, (eventType, filePath))) c in
      let c1 :=
        if String.eqb eventType "add" then addFileToCache env now filePath c0
        else if String.eqb eventType "unlink" then
          removeFileFromCache filePath c0
        else if String.eqb eventType "change" then
          match LRUCache.has now filePath (fileCache c0) with
          | (true, fc) => updateFileInCache env now filePath (set_fileCache fc c0)
          | (false, fc) => set_fileCache fc c0
          end
        else c0 in
      updateProjectInfo c1
  end.

(** The loop of [emergencyCleanup] that re-adds entries. *)
Fixpoint readd (now : Z) (entries : list (string * FileInfo)) (kept : Z)
         (fc : LRUCache.t FileInfo) : LRUCache.t FileInfo :=
  match entries with
  | [] => fc
  | (p, file) :: rest =>
      if kept <? 50 then
        if isConfigFile (name file) || isEntryPoint (name file)
           || (kept <? 30)
        then readd now rest (kept + 1) (LRUCache.set now p file fc)
        else readd now rest kept fc
      else fc
  end.

(** [emergencyCleanup()] *)
Definition emergencyCleanup (now : Z) (c : t) : t :=
  if isDestroyed c then c
  else
    let fc1 := snd (LRUCache.forceCleanup now (fileCache c)) in
    let fc2 := if LRUCache.size fc1 >? 50
               then readd now (LRUCache.entries fc1) 0 (LRUCache.clear fc1)
               else fc1 in
    set_scanDebounceTimer None (set_fileCache fc2 c).

(** The callback of the memory monitor interval. *)
Definition memoryMonitorTick (now : Z) (heapUsed : Z) (c : t) : t :=
  if isDestroyed c then stopMemoryMonitor c
  else if heapUsed >? MEMORY_THRESHOLD then emergencyCleanup now c
  else c.

(** [cleanup()] *)
Definition cleanup (c : t) : t :=
  if isDestroyed c then c
  else
    let c1 :=
      mk (workspacePath c) (fileCache c) (projectInfo c) (lastScanTime c)
         true (watcherCallbacks c) (fileWatcherCleanup c)
         (callbackIdCounter c) (scanDebounceTimer c) (MAX_FILES c)
         (ignorePatterns c) (memoryMonitorInterval c) (serviceCalls c) in
    let c2 := stopMemoryMonitor (stopWatching c1) in
    mk (workspacePath c2) (LRUCache.clear (fileCache c2)) None
       (lastScanTime c2) (isDestroyed c2) [] (fileWatcherCleanup c2)
       (callbackIdCounter c2) None (MAX_FILES c2) (ignorePatterns c2)
       (memoryMonitorInterval c2) (serviceCalls c2).

(** [onFileChange(callback)]: the id of the new callback is made of the
    counter and the clock. *)
Definition onFileChange (now : Z) (c : t) : t :=
  mk (workspacePath c) (fileCache c) (projectInfo c) (lastScanTime c)
     (isDestroyed c)
     (watcherCallbacks c
      ++ [String.append "callback_"
            (String.append
               (NilZero.string_of_int (Z.to_int (callbackIdCounter c + 1)))
               (String.append "_" (NilZero.string_of_int (Z.to_int now))))])
     (fileWatcherCleanup c) (callbackIdCounter c + 1)
     (scanDebounceTimer c) (MAX_FILES c) (ignorePatterns c)
     (memoryMonitorInterval c) (serviceCalls c).

(** [notifyWatchers(event, filePath)]: the callbacks that are invoked. *)
Definition notifyWatchers (event filePath : string) (c : t) : list string :=
  if isDestroyed c then [] else watcherCallbacks c.

(** [getStatistics()] and [isInstanceDestroyed()] *)
Definition getStatistics (c : t) : option ProjectInfo := projectInfo c.
Definition isInstanceDestroyed (c : t) : bool := isDestroyed c.

(** [getCacheSize()] and [forceCleanup()] *)
Definition getCacheSize (c : t) : Z := LRUCache.size (fileCache c).

Definition forceCleanup (now : Z) (c : t) : Z * t :=
  if isDestroyed c then (0, c)
  else
    let '(n, fc) := LRUCache.forceCleanup now (fileCache c) in
    (n, set_fileCache fc c).

(** [detectMemoryLeaks()].  The messages of the issues, which quote the
    numbers found, are kept as constructors. *)
Inductive LeakIssue :=
| too_many_callbacks (callbackCount : Z)
| cache_nearly_full (cacheSize maxFiles : Z)
| debounce_timer_active
| monitor_on_destroyed
| watcher_cleanup_not_called.

Record LeakReport := mkLeakReport {
  potentialLeaks : list LeakIssue;
  recommendations : list string;
  severity : string
}.

(** [(cacheSize / MAX_FILES) * 100 > 90] on the exact quotient: with a
    zero [MAX_FILES] the quotient is [Infinity] for a non-empty cache and
    [NaN] for an empty one. *)
Definition nearlyFull (cacheSize maxFiles : Z) : bool :=
  if maxFiles >? 0 then 100 * cacheSize >? 90 * maxFiles
  else if maxFiles =? 0 then cacheSize >? 0
  else 100 * cacheSize <? 90 * maxFiles.

Definition detectMemoryLeaks (c : t) : LeakReport :=
  let callbackCount := Z.of_nat (List.length (watcherCallbacks c)) in
  let cacheSize := LRUCache.size (fileCache c) in
  let found :=
    (if callbackCount >? 10
     then [(too_many_callbacks callbackCount,
            "Review file watcher callback management")]
     else [])
    ++ (if nearlyFull cacheSize (MAX_FILES c)
        then [(cache_nearly_full cacheSize (MAX_FILES c),
               "Consider increasing cache limits or reducing workspace scope")]
        else [])
    ++ (match scanDebounceTimer c with
        | Some _ => [(debounce_timer_active,
                      "Ensure proper timer cleanup in all code paths")]
        | None => []
        end)
    ++ (if memoryMonitorInterval c && isDestroyed c
        then [(monitor_on_destroyed,
               "Fix cleanup sequence to stop monitoring before destruction")]
        else [])
    ++ (if fileWatcherCleanup c && isDestroyed c
        then [(watcher_cleanup_not_called,
               "Ensure file watcher cleanup is called in destruction sequence")]
        else []) in
  let issues := Z.of_nat (List.length found) in
  mkLeakReport (map fst found) (map snd found)
    (if issues >? 5 then "high"
     else if issues >? 2 then "medium"
     else "low").

(** [getMemoryStats()]; the two heap figures are read from the process. *)
Record MemoryStats := mkMemoryStats {
  ms_heapUsed : Z;
  ms_heapTotal : Z;
  ms_cacheSize : Z;
  ms_callbackCount : Z;
  ms_timersActive : Z;
  ms_isDestroyed : bool
}.

Definition getMemoryStats (heapUsed heapTotal : Z) (c : t) : MemoryStats :=
  mkMemoryStats heapUsed heapTotal
    (LRUCache.size (fileCache c))
    (Z.of_nat (List.length (watcherCallbacks c)))
    ((match scanDebounceTimer c with Some _ => 1 | None => 0 end)
     + (if memoryMonitorInterval c then 1 else 0))
    (isDestroyed c).
End LightweightContext.

(* ================================================================== *)
(** ** WorkspaceContextManager *)
(* ================================================================== *)

Module WorkspaceContextManager.

Record WorkspaceContextInstance := mkInstance {
  context : LightweightContext.t;
  workspacePath : string;
  createdAt : Z;
  lastAccessed : Z;
  isActive : bool
}.

Record t := mk {
  instances : JSMap.t WorkspaceContextInstance;
  currentWorkspacePath : option string;
  cleanupInterval : bool;                 (* whether the interval is armed *)
  (* the contexts handed to [cleanup()] when their workspace was closed *)
  closed : list LightweightContext.t
}.

Definition MAX_INSTANCES : Z := 5.
Definition CLEANUP_INTERVAL : Z := 60000.
Definition INSTANCE_TTL : Z := 30 * 60 * 1000.

(** [constructor()] *)
Definition create : t := mk [] None true [].

(** [path.replace(/\\/g, '/')] *)
Fixpoint slashes (p : string) : string :=
  match p with
  | EmptyString => EmptyString
  | String c r => String (if Ascii.eqb c "\" then "/"%char else c) (slashes r)
  end.

(** [.replace(/\/+$/, '')] *)
Fixpoint stripTrailingSlashes (p : string) : string :=
  match p with
  | EmptyString => EmptyString
  | String c r =>
      match stripTrailingSlashes r with
      | EmptyString => if Ascii.eqb c "/" then EmptyString
                       else String c EmptyString
      | r' => String c r'
      end
  end.

(** [normalizePath(path)] *)
Definition normalizePath (p : string) : string :=
  stripTrailingSlashes (slashes p).

(** Truthiness of a [string | null]. *)
Definition truthy (p : option string) : bool :=
  match p with
  | Some s => negb (String.eqb s "")
  | None => false
  end.

Definition deactivate (inst : WorkspaceContextInstance)
  : WorkspaceContextInstance :=
  mkInstance (context inst) (workspacePath inst) (createdAt inst)
             (lastAccessed inst) false.

(** [const prev = this.instances.get(p); if (prev) prev.isActive = false] *)
Definition deactivateAt (p : string)
           (m : JSMap.t WorkspaceContextInstance)
  : JSMap.t WorkspaceContextInstance :=
  match JSMap.get p m with
  | Some prevInstance => JSMap.set p (deactivate prevInstance) m
  | None => m
  end.

(** [closeWorkspace(workspacePath)] *)
Definition closeWorkspace (workspacePath : string) (s : t) : t :=
  let normalizedPath := normalizePath workspacePath in
  match JSMap.get normalizedPath (instances s) with
  | Some instance =>
      mk (JSMap.delete normalizedPath (instances s))
         (match currentWorkspacePath s with
          | Some cur => if String.eqb cur normalizedPath then None
                        else Some cur
          | None => None
          end)
         (cleanupInterval s)
         (closed s ++ [LightweightContext.cleanup (context instance)])
  | None => s
  end.

(** The two loops of [evictOldestInactiveInstance]; the accumulator is
    the pair [(oldestPath, oldestTime)]. *)
Definition oldestInactive (m : JSMap.t WorkspaceContextInstance)
           (acc : option string * Z) : option string * Z :=
  fold_left
    (fun acc kv =>
       if negb (isActive (snd kv)) && (lastAccessed (snd kv) <? snd acc)
       then (Some (fst kv), lastAccessed (snd kv)) else acc)
    m acc.

Definition oldestNotCurrent (current : option string)
           (m : JSMap.t WorkspaceContextInstance)
           (acc : option string * Z) : option string * Z :=
  fold_left
    (fun acc kv =>
       if negb (match current with
                | Some cur => String.eqb (fst kv) cur
                | None => false
                end)
          && (lastAccessed (snd kv) <? snd acc)
       then (Some (fst kv), lastAccessed (snd kv)) else acc)
    m acc.

(** [evictOldestInactiveInstance()] *)
Definition evictOldestInactiveInstance (now : Z) (s : t) : t :=
  let found := oldestInactive (instances s) (None, now) in
  let found := if negb (truthy (fst found))
               then oldestNotCurrent (currentWorkspacePath s) (instances s) found
               else found in
  match fst found with
  | Some oldestPath =>
      if negb (String.eqb oldestPath "") then closeWorkspace oldestPath s
      else s
  | None => s
  end.

(** [getOrCreateContext(workspacePath)]: the context returned, or the
    error thrown by its [initialize]. *)
Definition getOrCreateContext (env : LightweightContext.Env) (now : Z)
           (workspacePath : string) (s : t)
  : result LightweightContext.t * t :=
  let normalizedPath := normalizePath workspacePath in
  match JSMap.get normalizedPath (instances s) with
  | Some instance =>
      let m1 := JSMap.set normalizedPath
                  (mkInstance (context instance) (WorkspaceContextManager.workspacePath instance)
                              (createdAt instance) now true)
                  (instances s) in
      let m2 :=
        match currentWorkspacePath s with
        | Some cur =>
            if negb (String.eqb cur "") && negb (String.eqb cur normalizedPath)
            then deactivateAt cur m1 else m1
        | None => m1
        end in
      (Ok (context instance),
       mk m2 (Some normalizedPath) (cleanupInterval s) (closed s))
  | None =>
      let context := LightweightContext.create in
      let s1 := if JSMap.size (instances s) >=? MAX_INSTANCES
                then evictOldestInactiveInstance now s else s in
      let m2 :=
        match currentWorkspacePath s1 with
        | Some cur => if negb (String.eqb cur "")
                      then deactivateAt cur (instances s1)
                      else instances s1
        | None => instances s1
        end in
      match LightweightContext.initialize env now normalizedPath context with
      | (Ok _, context') =>
          (Ok context',
           mk (JSMap.set normalizedPath
                 (mkInstance context' normalizedPath now now true) m2)
              (Some normalizedPath) (cleanupInterval s1) (closed s1))
      | (Throw message, context') =>
          (Throw message,
           mk (JSMap.delete normalizedPath
                 (JSMap.set normalizedPath
                    (mkInstance context' normalizedPath now now true) m2))
              None (cleanupInterval s1) (closed s1))
      end
  end.

(** [getCurrentContext()] *)
Definition getCurrentContext (s : t) : option LightweightContext.t :=
  match currentWorkspacePath s with
  | Some cur =>
      if String.eqb cur "" then None
      else match JSMap.get cur (instances s) with
           | Some instance => Some (context instance)
           | None => None
           end
  | None => None
  end.

(** [forceCleanup()] *)
Definition forceCleanup (now : Z) (s : t) : Z * t :=
  let instancesToRemove :=
    JSMap.keys
      (filter (fun kv => negb (isActive (snd kv))
                         && (now - lastAccessed (snd kv) >? INSTANCE_TTL))
              (instances s)) in
  (Z.of_nat (List.length instancesToRemove),
   fold_left (fun acc p => closeWorkspace p acc) instancesToRemove s).

(** [closeAllWorkspaces()] and [shutdown()] *)
Definition closeAllWorkspaces (s : t) : t :=
  mk [] None (cleanupInterval s)
     (closed s ++ map (fun kv => LightweightContext.cleanup (context (snd kv)))
                      (instances s)).

Definition shutdown (s : t) : t :=
  let s1 := closeAllWorkspaces s in
  mk (instances s1) (currentWorkspacePath s1) false (closed s1).

(** The callback of the cleanup interval. *)
Definition cleanupTick (now : Z) (s : t) : t :=
  let s1 := snd (forceCleanup now s) in
  mk (map (fun kv =>
             (fst kv,
              mkInstance (snd (LightweightContext.forceCleanup now (context (snd kv))))
                         (workspacePath (snd kv)) (createdAt (snd kv))
                         (lastAccessed (snd kv)) (isActive (snd kv))))
          (instances s1))
     (currentWorkspacePath s1) (cleanupInterval s1) (closed s1).

(** [getCurrentWorkspacePath()] and [switchWorkspace(workspacePath)] *)
Definition getCurrentWorkspacePath (s : t) : option string :=
  currentWorkspacePath s.

Definition switchWorkspace (env : LightweightContext.Env) (now : Z)
           (workspacePath : string) (s : t)
  : result LightweightContext.t * t :=
  getOrCreateContext env now workspacePath s.

(** [getStats()] *)
Record InstanceUsage := mkUsage {
  usage_workspacePath : string;
  usage_cacheSize : Z;
  usage_isActive : bool;
  usage_ageMinutes : Z
}.

Record PoolStats := mkPoolStats {
  totalInstances : Z;
  activeInstances : Z;
  currentWorkspace : option string;
  memoryUsage : list InstanceUsage
}.

Definition getStats (now : Z) (s : t) : PoolStats :=
  mkPoolStats
    (JSMap.size (instances s))
    (Z.of_nat (List.length (filter (fun kv => isActive (snd kv)) (instances s))))
    (currentWorkspacePath s)
    (map (fun kv =>
            mkUsage (fst kv)
                    (LightweightContext.getCacheSize (context (snd kv)))
                    (isActive (snd kv))
                    ((now - createdAt (snd kv)) / 60000))
         (instances s)).
End WorkspaceContextManager.

(** A workspace root that is large for the size probe: its first entry is a
    directory [src] with 101 files, followed by 79 more top-level files, so
    the estimate is [101 + (80 - 1) * 200 = 15901]. *)
Definition numbered (prefix : string) (i : nat) (suffix : string) : string :=
  String.append prefix
    (String.append (NilEmpty.string_of_uint (Nat.to_uint i)) suffix).

Definition large_root : node :=
  Dir (Some
    (("src", Dir (Some (map (fun i => (numbered "f" i ".ts", File 10 0 ""))
                            (seq 0 101))))
     :: map (fun i => (numbered "doc" i ".md", File 10 0 "")) (seq 0 79))).

Definition large_fs : FS :=
  fun p => if String.eqb p "/big" then Some large_root else None.

(** A small workspace: [/w/a.ts], [/w/src/b.ts] and an ignored dependency
    directory. *)
Definition small_root : node :=
  Dir (Some [("a.ts", File 10 0 "");
             ("src", Dir (Some [("b.ts", File 20 0 "")]));
             ("node_modules", Dir (Some [("x.js", File 5 0 "")]))]).

Definition small_fs : FS :=
  fun p => if String.eqb p "/w" then Some small_root else None.


(** [n] resource-exhaustion errors on one root, each followed by the firing
    of the retry timer it armed. *)
Fixpoint emfile_errors_with_retries (n : nat) (dirPath : string)
         (s : FileWatcherService.t) : FileWatcherService.t :=
  match n with
  | O => s
  | S k => FileWatcherService.runNextTimer
             (FileWatcherService.handleEMFILEError dirPath FileWatcherService.EMFILE
                (emfile_errors_with_retries k dirPath s))
  end.

(** An environment in which every path below [/ws/] is a small project
    directory and persistence always succeeds; a millisecond passes
    between one directory entry of a scan and the next. *)
Definition project_root : node :=
  Dir (Some [("package.json", File 100 0 "{}"); ("index.ts", File 50 0 "")]).

Definition pool_env : LightweightContext.Env :=
  LightweightContext.mkEnv
    (fun p => if String.prefix "/ws/" p then Some project_root else None)
    (fun _ => Ok None)
    (fun _ => true)
    simpleRegExp
    (fun now k => now + Z.of_nat k).

(** Operations on the pool; each one happens at a clock reading of its own. *)
Inductive pool_op : Type :=
| GetOrCreate (workspacePath : string)
| CloseWorkspace (workspacePath : string)
| ForceCleanup.

Definition pool_step (env : LightweightContext.Env) (now : Z) (o : pool_op)
           (s : WorkspaceContextManager.t) : WorkspaceContextManager.t :=
  match o with
  | GetOrCreate p => snd (WorkspaceContextManager.getOrCreateContext env now p s)
  | CloseWorkspace p => WorkspaceContextManager.closeWorkspace p s
  | ForceCleanup => snd (WorkspaceContextManager.forceCleanup now s)
  end.

(** A trace of timed operations, applied from left to right. *)
Definition pool_run (env : LightweightContext.Env) (trace : list (Z * pool_op))
           (s : WorkspaceContextManager.t) : WorkspaceContextManager.t :=
  fold_left (fun acc step => pool_step env (fst step) (snd step) acc) trace s.

(** Five workspaces are opened one after the other, all five are visited
    again within one millisecond (clock reading 10), and a sixth workspace
    is opened within that same millisecond. *)
Definition six_workspaces_trace : list (Z * pool_op) :=
  [(1, GetOrCreate "/ws/p1"); (2, GetOrCreate "/ws/p2");
   (3, GetOrCreate "/ws/p3"); (4, GetOrCreate "/ws/p4");
   (5, GetOrCreate "/ws/p5");
   (10, GetOrCreate "/ws/p1"); (10, GetOrCreate "/ws/p2");
   (10, GetOrCreate "/ws/p3"); (10, GetOrCreate "/ws/p4");
   (10, GetOrCreate "/ws/p5");
   (10, GetOrCreate "/ws/p6")].

(** A workspace root that aggregates three projects, and an environment in
    which, besides, every path below [/mono/gen/] is a small source file
    (files that appear after the initial scan). *)
Definition mono_root : node :=
  Dir (Some [("api", Dir (Some [("package.json", File 100 0 "{}")]));
             ("web", Dir (Some [("package.json", File 100 0 "{}")]));
             ("cli", Dir (Some [("package.json", File 100 0 "{}")]))]).

Definition mono_env : LightweightContext.Env :=
  LightweightContext.mkEnv
    (fun p => if String.eqb p "/mono" then Some mono_root
              else if String.prefix "/mono/gen/" p
                   then Some (File 10 0 "export {};")
              else None)
    (fun _ => Ok None)
    (fun _ => true)
    simpleRegExp
    (fun now k => now + Z.of_nat k).

Definition generated_files (n : nat) : list string :=
  map (fun i => numbered "/mono/gen/f" i ".ts") (seq 0 n).

(** The file-change events [add] for the given paths, each one followed by
    the firing of its debounce timer. *)
Definition add_events (env : LightweightContext.Env) (now : Z)
           (paths : list string) (c : LightweightContext.t)
  : LightweightContext.t :=
  fold_left
    (fun acc p =>
       LightweightContext.fireDebounceTimer env now
         (LightweightContext.handleFileSystemEvent "add" p acc))
    paths c.

(** Traces of cache operations.  Each operation carries the time that has
    passed since the previous one, so the clock of a trace never runs
    backwards. *)
Inductive cache_op (V : Type) : Type :=
| OpSet (key : string) (v : V)
| OpGet (key : string)
| OpHas (key : string)
| OpDelete (key : string)
| OpForceCleanup
| OpClear.
Arguments OpSet {V}. Arguments OpGet {V}. Arguments OpHas {V}.
Arguments OpDelete {V}. Arguments OpForceCleanup {V}. Arguments OpClear {V}.

Definition cache_step {V} (now : Z) (o : cache_op V) (c : LRUCache.t V)
  : LRUCache.t V :=
  match o with
  | OpSet key v => LRUCache.set now key v c
  | OpGet key => snd (LRUCache.get now key c)
  | OpHas key => snd (LRUCache.has now key c)
  | OpDelete key => snd (LRUCache.delete key c)
  | OpForceCleanup => snd (LRUCache.forceCleanup now c)
  | OpClear => LRUCache.clear c
  end.

Fixpoint cache_run {V} (now : Z) (trace : list (N * cache_op V))
         (c : LRUCache.t V) : Z * LRUCache.t V :=
  match trace with
  | [] => (now, c)
  | (dt, o) :: rest =>
      cache_run (now + Z.of_N dt) rest (cache_step (now + Z.of_N dt) o c)
  end.

(** The timestamp the cache holds for a key ([0] for a key it does not hold). *)
Definition ts {V} (c : LRUCache.t V) (k : string) : Z :=
  match JSMap.get k (LRUCache.cache c) with
  | Some e => LRUCache.timestamp e
  | None => 0
  end.

(** Whether the entry of [k] is past its age limit at [now]. *)
Definition is_expired {V} (now : Z) (c : LRUCache.t V) (k : string) : bool :=
  match JSMap.get k (LRUCache.cache c) with
  | Some e => LRUCache.expired now c e
  | None => false
  end.

(** Number of keys evicted by a [set] of an absent key at [now]: none while
    the cache is below capacity; at capacity all expired entries, and one
    entry when none is expired. *)
Definition evicted_count {V} (now : Z) (c : LRUCache.t V) : nat :=
  if LRUCache.size c >=? LRUCache.maxSize c
  then Nat.max 1 (List.length (filter (is_expired now c) (LRUCache.accessOrder c)))
  else 0%nat.

(** Repeated accesses to one key: each access happens [gap] milliseconds
    after the previous one and is a [get] ([None]) or a [set] of a new value
    ([Some v]).  The result lists what each access observed: the value
    returned by the [get], or the value just stored by the [set]. *)
Fixpoint access_every {V} (now : Z) (accesses : list (Z * option V))
         (key : string) (c : LRUCache.t V) : list (option V) * LRUCache.t V :=
  match accesses with
  | [] => ([], c)
  | (gap, None) :: rest =>
      let '(r, c1) := LRUCache.get (now + gap) key c in
      let '(rs, c2) := access_every (now + gap) rest key c1 in
      (r :: rs, c2)
  | (gap, Some v) :: rest =>
      let c1 := LRUCache.set (now + gap) key v c in
      let '(rs, c2) := access_every (now + gap) rest key c1 in
      (Some v :: rs, c2)
  end.

(** Induction on the file-system tree, through the listing of a directory. *)
Fixpoint node_tree_ind (P : node -> Prop)
         (HFile : forall size mtime content, P (File size mtime content))
         (HUnreadable : P (Dir None))
         (HDir : forall entries,
             Forall (fun e => P (snd e)) entries -> P (Dir (Some entries)))
         (HBroken : P Broken) (n : node) {struct n} : P n :=
  match n with
  | File size mtime content => HFile size mtime content
  | Dir None => HUnreadable
  | Dir (Some entries) =>
      HDir entries
        ((fix all (es : list (string * node)) : Forall (fun e => P (snd e)) es :=
            match es with
            | [] => Forall_nil _
            | e :: r =>
                Forall_cons e
                  (node_tree_ind P HFile HUnreadable HDir HBroken (snd e))
                  (all r)
            end) entries)
  | Broken => HBroken
  end.

(** What a scan leaves behind: the paths it started with are kept, and a
    scan of the same tree against any index that holds all the paths
    found reports no addition. *)
Definition rescan_silent
  (scan : JSSet.t -> JSSet.t * list FileWatcherService.FileChangeEvent ->
          option (JSSet.t * list FileWatcherService.FileChangeEvent))
  (idx : JSSet.t)
  (acc acc' : JSSet.t * list FileWatcherService.FileChangeEvent) : Prop :=
  incl (fst acc) (fst acc')
  /\ forall idx2 ch2, incl (fst acc') idx2 ->
                      scan idx2 (fst acc, ch2) = Some (fst acc', ch2).

(** Invariant of the pool at clock reading [clock]: keys are distinct,
    non-empty and normalized; no instance was accessed after [clock]; an
    active instance is the current one; the pool is within its bound. *)
Record pool_inv (clock : Z) (s : WorkspaceContextManager.t) : Prop := {
  pi_nodup : NoDup (JSMap.keys (WorkspaceContextManager.instances s));
  pi_past : forall k i,
      JSMap.get k (WorkspaceContextManager.instances s) = Some i ->
      WorkspaceContextManager.lastAccessed i <= clock;
  pi_active : forall k i,
      JSMap.get k (WorkspaceContextManager.instances s) = Some i ->
      WorkspaceContextManager.isActive i = true ->
      WorkspaceContextManager.currentWorkspacePath s = Some k;
  pi_keys : forall k,
      In k (JSMap.keys (WorkspaceContextManager.instances s)) ->
      k <> "" /\ WorkspaceContextManager.normalizePath k = k;
  pi_size : JSMap.size (WorkspaceContextManager.instances s)
            <= WorkspaceContextManager.MAX_INSTANCES
}.

(** What a scan keeps: the file limit, the capacity of the cache, and the
    cache within the file limit. *)
Definition scan_keeps (c c' : LightweightContext.t) : Prop :=
  LightweightContext.MAX_FILES c' = LightweightContext.MAX_FILES c
  /\ LRUCache.maxSize (LightweightContext.fileCache c')
     = LRUCache.maxSize (LightweightContext.fileCache c)
  /\ (LightweightContext.getCacheSize c <= LightweightContext.MAX_FILES c ->
      LightweightContext.getCacheSize c' <= LightweightContext.MAX_FILES c').

(** The steps of [initialize] around the scan leave the cache, the file
    limit and the destroyed flag alone. *)
Definition same_cache (c c' : LightweightContext.t) : Prop :=
  LightweightContext.fileCache c' = LightweightContext.fileCache c
  /\ LightweightContext.MAX_FILES c' = LightweightContext.MAX_FILES c
  /\ LightweightContext.isDestroyed c' = LightweightContext.isDestroyed c.

(** First-occurrence removal seen as a filter (the two agree on arrays
    without duplicates). *)
Definition drop (k : string) (l : list string) : list string :=
  filter (fun x => negb (String.eqb k x)) l.

(** The cache without the keys selected by [p], in both of its structures. *)
Definition remove_keys {V} (p : string -> bool) (c : LRUCache.t V)
  : LRUCache.t V :=
  LRUCache.mk (filter (fun kv => negb (p (fst kv))) (LRUCache.cache c))
              (filter (fun x => negb (p x)) (LRUCache.accessOrder c))
              (LRUCache.maxSize c) (LRUCache.maxAge c).

(** Representation invariant of the cache at clock reading [now]: the map
    and the recency array hold the same keys, each once; timestamps grow
    along the recency array and none lies in the future. *)
Record lru_inv {V} (now : Z) (c : LRUCache.t V) : Prop := {
  inv_order : NoDup (LRUCache.accessOrder c);
  inv_keys : NoDup (JSMap.keys (LRUCache.cache c));
  inv_same : forall k,
      In k (LRUCache.accessOrder c) <-> In k (JSMap.keys (LRUCache.cache c));
  inv_sorted : StronglySorted Z.le (map (ts c) (LRUCache.accessOrder c));
  inv_past : forall k, In k (LRUCache.accessOrder c) -> ts c k <= now
}.

(* ================================================================== *)
(** ** ManualFileScanner *)
(* ================================================================== *)

(** class ManualFileScanner (src/electron/main.js, lines 3529-3619): the
    scanner that compares two listings of a directory by modification
    time.  [mtimeMs] is a whole number of milliseconds. *)
Module ManualFileScanner.

Record t := mk {
  lastScanTime : Z;
  fileMap : JSMap.t Z
}.

Definition create : t := mk 0 [].

(** [shouldIgnore(name)] *)
Definition shouldIgnore (name : string) : bool :=
  existsb (fun pattern => str_includes pattern name)
          ["node_modules"; ".git"; "dist"; "build"; ".DS_Store"; ".vscode";
           ".idea"].

(** [scanRecursive(dirPath, fileMap, currentDepth, maxDepth)].  [n] is what
    the file system holds at [dirPath]; a listing that fails is caught
    inside the call and leaves the map as it is. *)
Definition scanEntries
           (scanChild : string -> node -> JSMap.t Z -> JSMap.t Z)
           (descend : bool) (dirPath : string)
  : list (string * node) -> JSMap.t Z -> JSMap.t Z :=
  fix loop entries fileMap :=
    match entries with
    | [] => fileMap
    | (name, entry) :: rest =>
        let fullPath := path_join dirPath name in
        if shouldIgnore name then loop rest fileMap
        else
          match entry with
          | File _ mtime _ => loop rest (JSMap.set fullPath mtime fileMap)
          | Dir _ =>
              if descend then loop rest (scanChild fullPath entry fileMap)
              else loop rest fileMap
          | Broken => loop rest fileMap
          end
    end.

Fixpoint scanRecursive (dirPath : string) (n : node) (fileMap : JSMap.t Z)
         (currentDepth maxDepth : Z) {struct n} : JSMap.t Z :=
  if currentDepth >? maxDepth then fileMap
  else
    match n with
    | Dir (Some entries) =>
        scanEntries
          (fun p child m => scanRecursive p child m (currentDepth + 1) maxDepth)
          (currentDepth <? maxDepth) dirPath entries fileMap
    | _ => fileMap
    end.

Record Changes := mkChanges {
  added : list string;
  modified : list string;
  removed : list string
}.

(** [scanDirectory(dirPath, maxDepth = 1)]; [!prevMtime] holds for a path
    that was not recorded and for a recorded modification time of 0. *)
Definition scanDirectory (fs : FS) (now : Z) (dirPath : string) (maxDepth : Z)
           (s : t) : Changes * t :=
  let currentFiles :=
    match fs dirPath with
    | Some root => scanRecursive dirPath root [] 0 maxDepth
    | None => []
    end in
  let isAdded (kv : string * Z) :=
    match JSMap.get (fst kv) (fileMap s) with
    | Some prevMtime => prevMtime =? 0
    | None => true
    end in
  let isModified (kv : string * Z) :=
    match JSMap.get (fst kv) (fileMap s) with
    | Some prevMtime => negb (prevMtime =? 0) && (prevMtime <? snd kv)
    | None => false
    end in
  (mkChanges
     (JSMap.keys (filter isAdded currentFiles))
     (JSMap.keys (filter isModified currentFiles))
     (filter (fun filePath => negb (JSMap.has filePath currentFiles))
             (JSMap.keys (fileMap s))),
   mk now currentFiles).
End ManualFileScanner.

(** A burst of file events that falls within one debounce window; the
    debounce timer, if an event armed it, fires once after the last event. *)
Definition burst (dirPath : string)
           (events : list (FileWatcherService.ChangeType * string))
           (s : FileWatcherService.t) : FileWatcherService.t :=
  let r :=
    fold_left
      (fun acc ev =>
         let r := FileWatcherService.handleFileEvent (fst ev) dirPath (snd ev)
                    None (fst acc) in
         (fst r, snd acc || snd r))
      events (s, false) in
  if snd r then FileWatcherService.processChangeQueue (fst r) else fst r.

(** The [file:change] notifications of a log that concern one path of one
    directory, and the [batch:change] notifications of one directory. *)
Definition file_changes_of (dirPath filePath : string)
           (log : list FileWatcherService.Event)
  : list FileWatcherService.FileChangeEvent :=
  flat_map
    (fun e =>
       match e with
       | FileWatcherService.file_change d c =>
           if String.eqb d dirPath
              && String.eqb (FileWatcherService.path c) filePath
           then [c] else []
       | _ => []
       end) log.

Definition batches_of (dirPath : string) (log : list FileWatcherService.Event)
  : list (list FileWatcherService.FileChangeEvent) :=
  flat_map
    (fun e =>
       match e with
       | FileWatcherService.batch_change d events =>
           if String.eqb d dirPath then [events] else []
       | _ => []
       end) log.

(** The events of a queue that concern one path. *)
Definition events_for (filePath : string)
           (events : list FileWatcherService.FileChangeEvent)
  : list FileWatcherService.FileChangeEvent :=
  filter (fun e => String.eqb (FileWatcherService.path e) filePath) events.

(** The number of [configuration:changed] notifications in a log. *)
Definition configuration_changes (log : list FileWatcherService.Event) : nat :=
  List.length
    (filter (fun e => match e with
                      | FileWatcherService.configuration_changed _ _ => true
                      | _ => false
                      end) log).

(** A service that watches two directories, one of them registered without
    a watcher. *)
Definition two_watchers : FileWatcherService.t :=
  FileWatcherService.mk
    [("/a", Some 1%nat); ("/b", None)]
    [("/a", ["/a/x.ts"; "/a/y.ts"]); ("/b", ["/b/z.ts"])]
    [("/a", [FileWatcherService.mkChange FileWatcherService.add "/a/x.ts"
               "x.ts" None])]
    false 25 2 [] 3 1000 [] false None false "conservative" [] [] [] [].

(** Well-formedness of the pool: keys are distinct, non-empty and
    normalized; an active instance is the current one; the current
    workspace, if any, is pooled and active; pooled contexts are live and
    closed contexts are destroyed. *)
Record pool_wf (s : WorkspaceContextManager.t) : Prop := {
  wf_nodup : NoDup (JSMap.keys (WorkspaceContextManager.instances s));
  wf_active : forall k i,
      JSMap.get k (WorkspaceContextManager.instances s) = Some i ->
      WorkspaceContextManager.isActive i = true ->
      WorkspaceContextManager.currentWorkspacePath s = Some k;
  wf_keys : forall k,
      In k (JSMap.keys (WorkspaceContextManager.instances s)) ->
      k <> "" /\ WorkspaceContextManager.normalizePath k = k;
  wf_current : forall k,
      WorkspaceContextManager.currentWorkspacePath s = Some k ->
      exists i, JSMap.get k (WorkspaceContextManager.instances s) = Some i
                /\ WorkspaceContextManager.isActive i = true;
  wf_live : forall k i,
      JSMap.get k (WorkspaceContextManager.instances s) = Some i ->
      LightweightContext.isDestroyed (WorkspaceContextManager.context i) = false;
  wf_closed : Forall (fun c => LightweightContext.isDestroyed c = true)
                     (WorkspaceContextManager.closed s)
}.

(** An instance that [forceCleanup] closes at clock reading [now]: inactive
    and not accessed for more than [INSTANCE_TTL]. *)
Definition stale (now : Z) (i : WorkspaceContextManager.WorkspaceContextInstance)
  : bool :=
  negb (WorkspaceContextManager.isActive i)
  && (now - WorkspaceContextManager.lastAccessed i
      >? WorkspaceContextManager.INSTANCE_TTL).

(** What a scan puts into the cache at the clock reading [now]: regular
    files within the size limit, not binary by name, stored under their own
    path with the language of their extension. *)
Definition scanned (now : Z)
           (kv : string * LRUCache.CacheEntry LightweightContext.FileInfo)
  : Prop :=
  LightweightContext.path (LRUCache.value (snd kv)) = fst kv
  /\ LightweightContext.size (LRUCache.value (snd kv))
     <= LightweightContext.MAX_FILE_SIZE
  /\ LightweightContext.isBinaryFile
       (LightweightContext.name (LRUCache.value (snd kv))) = false
  /\ LightweightContext.isDirectory (LRUCache.value (snd kv)) = false
  /\ LightweightContext.language (LRUCache.value (snd kv))
     = LightweightContext.languageOf
         (LightweightContext.name (LRUCache.value (snd kv)))
  /\ LRUCache.timestamp (snd kv) = now.

(** What [scanFiles] adds to its two accumulators when it is run against
    the index [idx]: paths are only added; the new events are [add] events,
    one for each path found that [idx] does not hold; no path found is
    matched by an ignore pattern. *)
Definition scan_reports (dirPath : string) (idx : JSSet.t)
           (acc acc' : JSSet.t * list FileWatcherService.FileChangeEvent)
  : Prop :=
  incl (fst acc) (fst acc')
  /\ (NoDup (fst acc) -> NoDup (fst acc'))
  /\ (forall p, In p (fst acc') -> ~ In p (fst acc) ->
        FileWatcherService.shouldIgnoreFile (path_relative dirPath p) = false)
  /\ exists added,
       snd acc' = snd acc ++ added
       /\ (forall e, In e added ->
             FileWatcherService.type e = FileWatcherService.add
             /\ FileWatcherService.stats e = None
             /\ FileWatcherService.relativePath e
                = path_relative dirPath (FileWatcherService.path e)
             /\ In (FileWatcherService.path e) (fst acc')
             /\ ~ In (FileWatcherService.path e) idx)
       /\ (forall p, In p (fst acc') -> ~ In p (fst acc) -> ~ In p idx ->
             exists e, In e added /\ FileWatcherService.path e = p).

(** What [processChangeQueue] emits for one directory and its queue. *)
Definition directory_log (dirPath : string)
           (events : list FileWatcherService.FileChangeEvent)
  : list FileWatcherService.Event :=
  match events with
  | [] => []
  | _ :: _ =>
      flat_map (fun kv =>
                  match FileWatcherService.latestEvent (snd kv) with
                  | Some e => [FileWatcherService.file_change dirPath e]
                  | None => []
                  end)
               (FileWatcherService.groupByPath events)
      ++ [FileWatcherService.batch_change dirPath events]
  end.

(** The event object queued by [handleFileEvent] for a raw event. *)
Definition queued_event (dirPath : string)
           (ev : FileWatcherService.ChangeType * string)
  : FileWatcherService.FileChangeEvent :=
  FileWatcherService.mkChange (fst ev) (snd ev)
                              (path_relative dirPath (snd ev)) None.
(* ================================================================== *)
(** * Theorems *)
(* ================================================================== *)

(** ** Lists and maps *)

Lemma drop_notin k l : ~ In k l -> drop k l = l.
Proof.
  induction l as [|a l IH]; simpl; intros H; [reflexivity|].
  destruct (String.eqb_spec k a) as [->|Hne]; simpl.
  - exfalso; apply H; now left.
  - f_equal; apply IH; intros Hin; apply H; now right.
Qed.

Lemma remove_first_drop k l : NoDup l -> remove_first k l = drop k l.
Proof.
  induction l as [|a l IH]; simpl; intros H; [reflexivity|].
  inversion H as [|? ? Hnotin Hnd]; subst.
  destruct (String.eqb_spec k a) as [->|Hne]; simpl.
  - symmetry; now apply drop_notin.
  - f_equal; now apply IH.
Qed.

Lemma In_drop k l x : In x (drop k l) <-> In x l /\ x <> k.
Proof.
  unfold drop; rewrite filter_In, negb_true_iff, String.eqb_neq.
  intuition congruence.
Qed.

Lemma NoDup_drop k l : NoDup l -> NoDup (drop k l).
Proof. apply NoDup_filter. Qed.

Lemma NoDup_snoc (l : list string) k : NoDup l -> ~ In k l -> NoDup (l ++ [k]).
Proof.
  induction l as [|a l IH]; simpl; intros Hnd Hnotin.
  - constructor; [intros []|constructor].
  - inversion Hnd; subst. constructor.
    + rewrite in_app_iff; simpl; intuition.
    + apply IH; intuition.
Qed.

Lemma includes_In k l : includes k l = true <-> In k l.
Proof.
  unfold includes; rewrite existsb_exists; split.
  - intros [x [Hin Heq]]; apply String.eqb_eq in Heq; now subst.
  - intros Hin; exists k; split; [assumption|apply String.eqb_refl].
Qed.

Lemma StronglySorted_snoc (l : list Z) y :
  StronglySorted Z.le l -> (forall x, In x l -> x <= y) ->
  StronglySorted Z.le (l ++ [y]).
Proof.
  induction l as [|a l IH]; simpl; intros Hs Hle.
  - constructor; constructor.
  - inversion Hs as [|? ? Hs' Hall]; subst. constructor.
    + apply IH; intuition.
    + rewrite Forall_app; split; [assumption|].
      constructor; [apply Hle; now left|constructor].
Qed.

Lemma StronglySorted_map_filter {A} (f : A -> Z) (p : A -> bool) l :
  StronglySorted Z.le (map f l) -> StronglySorted Z.le (map f (filter p l)).
Proof.
  induction l as [|a l IH]; simpl; intros Hs; [constructor|].
  inversion Hs as [|? ? Hs' Hall]; subst.
  destruct (p a); simpl; [|now apply IH].
  constructor; [now apply IH|].
  rewrite Forall_forall in *. intros y Hy.
  apply in_map_iff in Hy as [x [<- Hx]]. apply filter_In in Hx as [Hx _].
  apply Hall, in_map; assumption.
Qed.

(** In a list sorted by [f], a filter whose predicate is upward closed in [f]
    keeps a suffix of the list. *)
Lemma sorted_filter_skipn {A} (f : A -> Z) (q : A -> bool) l :
  StronglySorted Z.le (map f l) ->
  (forall x y, f x <= f y -> q x = true -> q y = true) ->
  filter q l = skipn (List.length (filter (fun x => negb (q x)) l)) l.
Proof.
  intros Hs Hup. induction l as [|a l IH]; simpl; [reflexivity|].
  inversion Hs as [|? ? Hs' Hall]; subst.
  destruct (q a) eqn:Hqa; simpl.
  - assert (Hr : forall y, In y l -> q y = true).
    { intros y Hy. apply (Hup a); [|assumption].
      rewrite Forall_forall in Hall. apply Hall, in_map; assumption. }
    assert (Hk : filter q l = l).
    { clear -Hr. induction l as [|b l IH]; simpl; [reflexivity|].
      rewrite (Hr b) by now left. f_equal; apply IH; intros; apply Hr; now right. }
    assert (Hd : filter (fun x => negb (q x)) l = []).
    { clear -Hr. induction l as [|b l IH]; simpl; [reflexivity|].
      rewrite (Hr b) by now left. simpl. apply IH; intros; apply Hr; now right. }
    rewrite Hk, Hd; reflexivity.
  - apply IH; assumption.
Qed.

Lemma sorted_firstn_skipn {A} (f : A -> Z) n l :
  StronglySorted Z.le (map f l) ->
  forall r k, In r (firstn n l) -> In k (skipn n l) -> f r <= f k.
Proof.
  revert n; induction l as [|a l IH]; intros n Hs r k Hr Hk.
  - rewrite firstn_nil in Hr; destruct Hr.
  - destruct n as [|n]; simpl in *; [destruct Hr|].
    inversion Hs as [|? ? Hs' Hall]; subst.
    destruct Hr as [<-|Hr].
    + rewrite Forall_forall in Hall. apply Hall, in_map.
      rewrite <- (firstn_skipn n l). apply in_or_app; now right.
    + eapply IH; eassumption.
Qed.

Section MapFacts.
Context {V : Type}.
Implicit Types (m : JSMap.t V) (k : string) (v : V).

Lemma get_In_keys k m : In k (JSMap.keys m) <-> JSMap.get k m <> None.
Proof.
  induction m as [|[k' v'] m IH]; simpl.
  - intuition.
  - destruct (String.eqb_spec k k') as [->|Hne].
    + split; [discriminate|now left].
    + rewrite <- IH. intuition congruence.
Qed.

Lemma get_None_notin k m : JSMap.get k m = None <-> ~ In k (JSMap.keys m).
Proof.
  rewrite get_In_keys. destruct (JSMap.get k m); intuition congruence.
Qed.

Lemma get_set_eq k v m : JSMap.get k (JSMap.set k v m) = Some v.
Proof.
  induction m as [|[k' v'] m IH]; simpl.
  - now rewrite String.eqb_refl.
  - destruct (String.eqb_spec k k') as [->|Hne]; simpl.
    + now rewrite String.eqb_refl.
    + destruct (String.eqb_spec k k'); [contradiction|assumption].
Qed.

Lemma get_set_ne k k' v m :
  k <> k' -> JSMap.get k' (JSMap.set k v m) = JSMap.get k' m.
Proof.
  intros Hne. induction m as [|[k0 v0] m IH]; simpl.
  - destruct (String.eqb_spec k' k); [congruence|reflexivity].
  - destruct (String.eqb_spec k k0) as [->|Hne0]; simpl.
    + destruct (String.eqb_spec k' k0); [congruence|reflexivity].
    + destruct (String.eqb_spec k' k0); [reflexivity|assumption].
Qed.

Lemma set_absent k v m : JSMap.get k m = None -> JSMap.set k v m = m ++ [(k, v)].
Proof.
  induction m as [|[k' v'] m IH]; simpl; intros H; [reflexivity|].
  destruct (String.eqb_spec k k'); [discriminate|]. f_equal; auto.
Qed.

Lemma keys_set_present k v m :
  JSMap.get k m <> None -> JSMap.keys (JSMap.set k v m) = JSMap.keys m.
Proof.
  induction m as [|[k' v'] m IH]; simpl; intros H; [congruence|].
  destruct (String.eqb_spec k k') as [->|Hne]; simpl; [reflexivity|].
  f_equal; auto.
Qed.

Lemma keys_delete k m : JSMap.keys (JSMap.delete k m) = drop k (JSMap.keys m).
Proof.
  unfold JSMap.keys, JSMap.delete, drop.
  induction m as [|[k' v'] m IH]; simpl; [reflexivity|].
  destruct (String.eqb k k'); simpl; [assumption|now f_equal].
Qed.

Lemma get_delete_eq k m : JSMap.get k (JSMap.delete k m) = None.
Proof.
  apply get_None_notin. rewrite keys_delete, In_drop. intuition.
Qed.

Lemma get_delete_ne k k' m :
  k <> k' -> JSMap.get k' (JSMap.delete k m) = JSMap.get k' m.
Proof.
  intros Hne. unfold JSMap.delete.
  induction m as [|[k0 v0] m IH]; simpl; [reflexivity|].
  destruct (String.eqb_spec k k0) as [->|Hne0]; simpl.
  - destruct (String.eqb_spec k' k0); [congruence|assumption].
  - destruct (String.eqb_spec k' k0); [reflexivity|assumption].
Qed.

Lemma delete_absent k m : JSMap.get k m = None -> JSMap.delete k m = m.
Proof.
  unfold JSMap.delete.
  induction m as [|[k' v'] m IH]; simpl; intros H; [reflexivity|].
  destruct (String.eqb_spec k k'); [discriminate|]. simpl. f_equal; auto.
Qed.

Lemma has_true k m : JSMap.has k m = true <-> JSMap.get k m <> None.
Proof. unfold JSMap.has. destruct (JSMap.get k m); intuition congruence. Qed.

Lemma keys_length m : List.length (JSMap.keys m) = List.length m.
Proof. apply length_map. Qed.

Lemma keys_filter (q : string -> bool) (m : JSMap.t V) :
  JSMap.keys (filter (fun kv => q (fst kv)) m) = filter q (JSMap.keys m).
Proof.
  unfold JSMap.keys. induction m as [|[k v] m IH]; simpl; [reflexivity|].
  destruct (q k); simpl; [now f_equal|assumption].
Qed.

Lemma get_filter (q : string -> bool) (m : JSMap.t V) k :
  JSMap.get k (filter (fun kv => q (fst kv)) m)
  = if q k then JSMap.get k m else None.
Proof.
  induction m as [|[k' v'] m IH]; simpl; [now destruct (q k)|].
  destruct (q k') eqn:Hq'; simpl.
  - destruct (String.eqb_spec k k') as [->|Hne]; [now rewrite Hq'|assumption].
  - destruct (String.eqb_spec k k') as [->|Hne]; [now rewrite IH, Hq'|assumption].
Qed.
Lemma delete_length k m :
  NoDup (JSMap.keys m) -> In k (JSMap.keys m) ->
  JSMap.size (JSMap.delete k m) = JSMap.size m - 1.
Proof.
  intros Hnd Hin. unfold JSMap.size. rewrite <- !keys_length, keys_delete.
  assert (Hp : Permutation (JSMap.keys m) (k :: drop k (JSMap.keys m))).
  { apply NoDup_Permutation; [assumption| |].
    - constructor; [rewrite In_drop; intuition|now apply NoDup_drop].
    - intros x; simpl. rewrite In_drop.
      destruct (String.eqb_spec x k) as [->|Hne]; intuition congruence. }
  apply Permutation_length in Hp. simpl in Hp. lia.
Qed.

Lemma delete_size_le k m : JSMap.size (JSMap.delete k m) <= JSMap.size m.
Proof.
  unfold JSMap.size, JSMap.delete. apply Nat2Z.inj_le, filter_length_le.
Qed.

Lemma In_get k v m :
  NoDup (JSMap.keys m) -> In (k, v) m -> JSMap.get k m = Some v.
Proof.
  induction m as [|[k' v'] m IH]; simpl; intros Hnd Hin; [destruct Hin|].
  inversion Hnd as [|? ? Hnotin Hnd']; subst.
  destruct Hin as [Heq|Hin].
  - injection Heq as -> ->. now rewrite String.eqb_refl.
  - destruct (String.eqb_spec k k') as [->|Hne]; [|now apply IH].
    exfalso. apply Hnotin. change k' with (fst (k', v)).
    now apply in_map.
Qed.
End MapFacts.

Ltac splits := repeat match goal with |- _ /\ _ => split end.

Lemma filter_all {A} (p : A -> bool) l :
  (forall x, In x l -> p x = true) -> filter p l = l.
Proof.
  induction l as [|a l IH]; simpl; intros H; [reflexivity|].
  rewrite (H a) by now left. f_equal; apply IH; intros; apply H; now right.
Qed.

Lemma filter_twice {A} (p q : A -> bool) l :
  filter q (filter p l) = filter (fun x => p x && q x) l.
Proof.
  induction l as [|a l IH]; simpl; [reflexivity|].
  destruct (p a); simpl; [|assumption].
  destruct (q a); simpl; rewrite IH; reflexivity.
Qed.

Section CacheFacts.
Context {V : Type}.
Implicit Types (c : LRUCache.t V) (k key : string).

Lemma ts_remove_keys p c k :
  p k = false -> ts (remove_keys p c) k = ts c k.
Proof.
  intros Hp. unfold ts, remove_keys; simpl.
  rewrite (get_filter (fun x => negb (p x))), Hp; reflexivity.
Qed.

Lemma inv_remove_keys now p c : lru_inv now c -> lru_inv now (remove_keys p c).
Proof.
  intros [Ho Hk Hs Hsrt Hp]. constructor; simpl.
  - now apply NoDup_filter.
  - rewrite (keys_filter (fun x => negb (p x))). now apply NoDup_filter.
  - intros k. rewrite (keys_filter (fun x => negb (p x))), !filter_In, Hs.
    reflexivity.
  - erewrite map_ext_in.
    + apply StronglySorted_map_filter, Hsrt.
    + intros k Hin. apply filter_In in Hin as [_ Hin].
      apply ts_remove_keys. now apply negb_true_iff.
  - intros k Hin. apply filter_In in Hin as [Hin Hn].
    rewrite ts_remove_keys by now apply negb_true_iff. now apply Hp.
Qed.

Lemma inv_later now now' c : now <= now' -> lru_inv now c -> lru_inv now' c.
Proof.
  intros Hle [Ho Hk Hs Hsrt Hp]. constructor; try assumption.
  intros k Hin. specialize (Hp k Hin). lia.
Qed.

Lemma inv_create now maxSize maxAge :
  lru_inv now (LRUCache.create (V:=V) maxSize maxAge).
Proof.
  constructor; simpl; try constructor; intuition.
Qed.

Lemma inv_size now c :
  lru_inv now c -> LRUCache.size c = Z.of_nat (List.length (LRUCache.accessOrder c)).
Proof.
  intros [Ho Hk Hs _ _]. unfold LRUCache.size, JSMap.size.
  rewrite <- keys_length. f_equal. apply Permutation_length.
  apply NoDup_Permutation; try assumption. intros k. symmetry. apply Hs.
Qed.

(** [delete] removes the key from both structures. *)
Lemma delete_remove_keys now key c :
  lru_inv now c -> snd (LRUCache.delete key c) = remove_keys (String.eqb key) c.
Proof.
  intros [Ho Hk Hs _ _]. unfold LRUCache.delete, remove_keys.
  destruct (JSMap.has key (LRUCache.cache c)) eqn:Hhas; simpl.
  - now rewrite remove_first_drop.
  - assert (Hnone : JSMap.get key (LRUCache.cache c) = None).
    { unfold JSMap.has in Hhas. now destruct (JSMap.get key (LRUCache.cache c)). }
    fold (JSMap.delete key (LRUCache.cache c)).
    rewrite delete_absent by assumption.
    fold (drop key (LRUCache.accessOrder c)).
    rewrite drop_notin; [now destruct c|].
    rewrite Hs. now apply get_None_notin.
Qed.

Lemma inv_delete now key c :
  lru_inv now c -> lru_inv now (snd (LRUCache.delete key c)).
Proof.
  intros H. rewrite (delete_remove_keys now) by assumption.
  now apply inv_remove_keys.
Qed.

Lemma remove_keys_twice p q c :
  remove_keys q (remove_keys p c) = remove_keys (fun x => p x || q x) c.
Proof.
  unfold remove_keys; simpl. rewrite !filter_twice. f_equal.
  - apply filter_ext. intros [k v]; simpl. now rewrite negb_orb.
  - apply filter_ext. intros k. now rewrite negb_orb.
Qed.

Lemma fold_delete_remove_keys now ks c :
  lru_inv now c ->
  fold_left (fun acc key => snd (LRUCache.delete key acc)) ks c
  = remove_keys (fun x => includes x ks) c.
Proof.
  revert c. induction ks as [|k ks IH]; intros c Hinv; simpl.
  - unfold remove_keys; simpl. rewrite !filter_all by reflexivity.
    now destruct c.
  - rewrite (delete_remove_keys now) by assumption.
    rewrite IH by now apply inv_remove_keys.
    rewrite remove_keys_twice. unfold remove_keys. f_equal.
    + apply filter_ext. intros [x v]; simpl. now rewrite (String.eqb_sym k x).
    + apply filter_ext. intros x. now rewrite (String.eqb_sym k x).
Qed.

Lemma includes_filter_keys (ex : LRUCache.CacheEntry V -> bool)
      (m : JSMap.t (LRUCache.CacheEntry V)) k :
  NoDup (JSMap.keys m) ->
  includes k (JSMap.keys (filter (fun kv => ex (snd kv)) m))
  = match JSMap.get k m with Some e => ex e | None => false end.
Proof.
  induction m as [|[k' e'] m IH]; simpl; intros Hnd; [reflexivity|].
  inversion Hnd as [|? ? Hnotin Hnd']; subst.
  destruct (String.eqb_spec k k') as [->|Hne].
  - destruct (ex e') eqn:He; simpl.
    + now rewrite String.eqb_refl.
    + rewrite IH by assumption.
      apply get_None_notin in Hnotin. now rewrite Hnotin.
  - destruct (ex e'); simpl; [|now apply IH].
    destruct (String.eqb_spec k k'); [contradiction|]. now apply IH.
Qed.

Lemma cleanupExpired_remove_keys now t c :
  lru_inv t c ->
  LRUCache.cleanupExpired now c = remove_keys (is_expired now c) c.
Proof.
  intros Hinv. unfold LRUCache.cleanupExpired.
  rewrite (fold_delete_remove_keys t) by assumption.
  unfold remove_keys, LRUCache.expiredKeys. f_equal.
  - apply filter_ext. intros [k v]; simpl.
    now rewrite includes_filter_keys by apply Hinv.
  - apply filter_ext. intros k.
    now rewrite includes_filter_keys by apply Hinv.
Qed.
End CacheFacts.

Lemma filter_firstn_skipn j (l : list string) :
  NoDup l -> filter (fun x => negb (includes x (firstn j l))) l = skipn j l.
Proof.
  revert j. induction l as [|a l IH]; intros j Hnd.
  - now destruct j.
  - destruct j as [|j]; simpl.
    + f_equal. now apply filter_all.
    + inversion Hnd as [|? ? Hnotin Hnd']; subst.
      rewrite String.eqb_refl; simpl.
      rewrite <- (IH j Hnd'). apply filter_ext_in. intros x Hx.
      destruct (String.eqb_spec x a) as [->|Hne]; [contradiction|reflexivity].
Qed.

Section EvictionFacts.
Context {V : Type}.
Implicit Types (c : LRUCache.t V) (k key : string).

Lemma evictLoop_spec (M : Z) order (m : JSMap.t (LRUCache.CacheEntry V)) :
  1 <= M ->
  NoDup order -> NoDup (JSMap.keys m) ->
  (forall k, In k order <-> In k (JSMap.keys m)) ->
  LRUCache.evictLoop M m order
  = (filter (fun kv => negb (includes (fst kv)
               (firstn (Z.to_nat (JSMap.size m - M + 1)) order))) m,
     skipn (Z.to_nat (JSMap.size m - M + 1)) order).
Proof.
  intros HM. revert m. induction order as [|k rest IH]; intros m Ho Hk Hs.
  - assert (m = []) as ->.
    { destruct m as [|[k v] m]; [reflexivity|].
      exfalso. apply (Hs k). now left. }
    simpl. rewrite ?firstn_nil, ?skipn_nil. reflexivity.
  - simpl. inversion Ho as [|? ? Hnotin Ho']; subst.
    destruct (JSMap.size m >=? M) eqn:Hge.
    + apply Z.geb_le in Hge.
      assert (Hin : In k (JSMap.keys m)) by (apply Hs; now left).
      assert (Hlen : JSMap.size (JSMap.delete k m) = JSMap.size m - 1).
      { unfold JSMap.size. rewrite <- !keys_length, keys_delete.
        assert (Hp : Permutation (JSMap.keys m) (k :: drop k (JSMap.keys m))).
        { apply NoDup_Permutation; [assumption| |].
          - constructor; [rewrite In_drop; intuition|now apply NoDup_drop].
          - intros x; simpl. rewrite In_drop.
            destruct (String.eqb_spec x k) as [->|Hne]; intuition congruence. }
        apply Permutation_length in Hp. simpl in Hp. lia. }
      rewrite IH; try assumption.
      * rewrite Hlen.
        replace (Z.to_nat (JSMap.size m - M + 1))
          with (S (Z.to_nat (JSMap.size m - 1 - M + 1))) by lia.
        simpl. f_equal. unfold JSMap.delete. rewrite filter_twice.
        apply filter_ext. intros [x v]; simpl.
        rewrite (String.eqb_sym k x). now rewrite negb_orb.
      * rewrite keys_delete. now apply NoDup_drop.
      * intros x. rewrite keys_delete, In_drop, <- Hs; simpl.
        split; [intros Hx; split; [now right|congruence]|].
        intros [[<-|Hx] Hne]; [congruence|assumption].
    + rewrite Z.geb_leb in Hge. apply Z.leb_gt in Hge.
      replace (Z.to_nat (JSMap.size m - M + 1)) with 0%nat by lia.
      simpl. f_equal. symmetry. now apply filter_all.
Qed.

Lemma maxSize_remove_keys p c :
  LRUCache.maxSize (remove_keys p c) = LRUCache.maxSize c.
Proof. reflexivity. Qed.

Lemma evict_spec now t c :
  lru_inv t c -> 1 <= LRUCache.maxSize c ->
  let c1 := remove_keys (is_expired now c) c in
  let j := Z.to_nat (LRUCache.size c1 - LRUCache.maxSize c + 1) in
  LRUCache.evictLeastRecentlyUsed now c
  = remove_keys (fun x => includes x (firstn j (LRUCache.accessOrder c1))) c1.
Proof.
  intros Hinv HM c1 j. unfold LRUCache.evictLeastRecentlyUsed.
  rewrite (cleanupExpired_remove_keys now t) by assumption. fold c1.
  assert (Hinv1 : lru_inv t c1) by now apply inv_remove_keys.
  rewrite evictLoop_spec; try apply Hinv1; [|assumption].
  assert (Hm : LRUCache.maxSize c1 = LRUCache.maxSize c) by reflexivity.
  subst j. rewrite <- Hm. fold (LRUCache.size c1).
  clearbody c1. unfold remove_keys. f_equal.
  symmetry. apply filter_firstn_skipn. apply Hinv1.
Qed.

Lemma is_expired_ts now c k :
  In k (LRUCache.accessOrder c) ->
  (forall x, In x (LRUCache.accessOrder c) <-> In x (JSMap.keys (LRUCache.cache c))) ->
  is_expired now c k = (now - ts c k >? LRUCache.maxAge c).
Proof.
  intros Hin Hs. apply Hs, get_In_keys in Hin.
  unfold is_expired, ts, LRUCache.expired.
  destruct (JSMap.get k (LRUCache.cache c)); [reflexivity|congruence].
Qed.

(** The purge of expired entries removes a prefix of the recency array. *)
Lemma expired_prefix now t c :
  lru_inv t c ->
  filter (fun x => negb (is_expired now c x)) (LRUCache.accessOrder c)
  = skipn (List.length (filter (is_expired now c) (LRUCache.accessOrder c)))
          (LRUCache.accessOrder c).
Proof.
  intros Hinv.
  rewrite (filter_ext_in _ (fun x => negb (now - ts c x >? LRUCache.maxAge c))).
  2:{ intros x Hx. f_equal. apply is_expired_ts; [assumption|apply Hinv]. }
  rewrite (filter_ext_in (is_expired now c)
             (fun x => negb (negb (now - ts c x >? LRUCache.maxAge c)))).
  2:{ intros x Hx. rewrite negb_involutive.
      apply is_expired_ts; [assumption|apply Hinv]. }
  apply (sorted_filter_skipn (ts c)); [apply Hinv|].
  intros x y Hle Hq. apply negb_true_iff in Hq. apply negb_true_iff.
  rewrite Z.gtb_ltb in *. apply Z.ltb_ge in Hq. apply Z.ltb_ge. lia.
Qed.
End EvictionFacts.

Section StepFacts.
Context {V : Type}.
Implicit Types (c : LRUCache.t V) (k key : string).

Lemma set_present_length key (e : LRUCache.CacheEntry V) m :
  JSMap.get key m <> None -> List.length (JSMap.set key e m) = List.length m.
Proof.
  intros H. rewrite <- !keys_length. now rewrite keys_set_present.
Qed.

Lemma ts_set_eq c key e order M A :
  ts (LRUCache.mk (JSMap.set key e (LRUCache.cache c)) order M A) key
  = LRUCache.timestamp e.
Proof. unfold ts; simpl. now rewrite get_set_eq. Qed.

Lemma ts_set_ne c key e order M A x :
  x <> key ->
  ts (LRUCache.mk (JSMap.set key e (LRUCache.cache c)) order M A) x = ts c x.
Proof. intros H. unfold ts; simpl. rewrite get_set_ne; congruence. Qed.

Lemma sorted_snoc_key c c' l key now :
  StronglySorted Z.le (map (ts c) l) ->
  (forall x, In x l -> ts c x <= now) ->
  (forall x, In x l -> ts c' x = ts c x) ->
  ts c' key = now ->
  StronglySorted Z.le (map (ts c') (l ++ [key])).
Proof.
  intros Hs Hle Heq Hk. rewrite map_app; simpl. rewrite Hk.
  rewrite (map_ext_in _ _ _ Heq).
  apply StronglySorted_snoc; [assumption|].
  intros y Hy. apply in_map_iff in Hy as [x [<- Hx]]. now apply Hle.
Qed.

(** A hit of [get] and a [set] of a present key: the entry is rewritten in
    place and the key moves to the end of the recency array. *)
Lemma inv_touch now t c key e :
  lru_inv t c -> t <= now ->
  JSMap.get key (LRUCache.cache c) <> None ->
  LRUCache.timestamp e = now ->
  lru_inv now
    (LRUCache.mk (JSMap.set key e (LRUCache.cache c))
                 (remove_first key (LRUCache.accessOrder c) ++ [key])
                 (LRUCache.maxSize c) (LRUCache.maxAge c)).
Proof.
  intros Hinv Hle Hin He. destruct Hinv as [Ho Hk Hs Hsrt Hp].
  rewrite remove_first_drop by assumption.
  assert (Hts : forall x, In x (drop key (LRUCache.accessOrder c)) ->
                ts (LRUCache.mk (JSMap.set key e (LRUCache.cache c))
                      (drop key (LRUCache.accessOrder c) ++ [key])
                      (LRUCache.maxSize c) (LRUCache.maxAge c)) x = ts c x).
  { intros x Hx. apply In_drop in Hx as [_ Hne]. now apply ts_set_ne. }
  constructor; simpl.
  - apply NoDup_snoc; [now apply NoDup_drop|]. rewrite In_drop. intuition.
  - now rewrite keys_set_present.
  - intros k. rewrite keys_set_present by assumption.
    rewrite in_app_iff, In_drop, <- Hs; simpl.
    apply get_In_keys, Hs in Hin.
    destruct (String.eqb_spec k key) as [->|Hne]; intuition congruence.
  - apply (sorted_snoc_key c _ _ _ now); try assumption.
    + now apply StronglySorted_map_filter.
    + intros x Hx. apply In_drop in Hx as [Hx _]. specialize (Hp x Hx). lia.
    + now rewrite ts_set_eq.
  - intros k Hk'. apply in_app_iff in Hk' as [Hk'|[<-|[]]].
    + rewrite Hts by assumption. apply In_drop in Hk' as [Hk' _].
      specialize (Hp k Hk'). lia.
    + rewrite ts_set_eq. lia.
Qed.

(** A [set] of an absent key appends it to both structures. *)
Lemma inv_append now t c key e :
  lru_inv t c -> t <= now ->
  JSMap.get key (LRUCache.cache c) = None ->
  LRUCache.timestamp e = now ->
  lru_inv now
    (LRUCache.mk (JSMap.set key e (LRUCache.cache c))
                 (LRUCache.accessOrder c ++ [key])
                 (LRUCache.maxSize c) (LRUCache.maxAge c)).
Proof.
  intros Hinv Hle Hnone He. destruct Hinv as [Ho Hk Hs Hsrt Hp].
  assert (Hnotin : ~ In key (LRUCache.accessOrder c)).
  { rewrite Hs. now apply get_None_notin. }
  assert (Hts : forall x, In x (LRUCache.accessOrder c) ->
                ts (LRUCache.mk (JSMap.set key e (LRUCache.cache c))
                      (LRUCache.accessOrder c ++ [key])
                      (LRUCache.maxSize c) (LRUCache.maxAge c)) x = ts c x).
  { intros x Hx. apply ts_set_ne. congruence. }
  assert (Hkeys : JSMap.keys (JSMap.set key e (LRUCache.cache c))
                  = JSMap.keys (LRUCache.cache c) ++ [key]).
  { rewrite set_absent by assumption. unfold JSMap.keys. now rewrite map_app. }
  constructor; simpl.
  - now apply NoDup_snoc.
  - rewrite Hkeys. apply NoDup_snoc; [assumption|]. now rewrite <- Hs.
  - intros k. rewrite Hkeys, !in_app_iff, Hs. reflexivity.
  - apply (sorted_snoc_key c _ _ _ now); try assumption.
    + intros x Hx. specialize (Hp x Hx). lia.
    + now rewrite ts_set_eq.
  - intros k Hk'. apply in_app_iff in Hk' as [Hk'|[<-|[]]].
    + rewrite Hts by assumption. specialize (Hp k Hk'). lia.
    + rewrite ts_set_eq. lia.
Qed.

Lemma size_remove_keys p c : LRUCache.size (remove_keys p c) <= LRUCache.size c.
Proof.
  unfold LRUCache.size, JSMap.size, remove_keys; simpl.
  apply Nat2Z.inj_le, filter_length_le.
Qed.

Lemma get_remove_keys p c k :
  JSMap.get k (LRUCache.cache (remove_keys p c))
  = if p k then None else JSMap.get k (LRUCache.cache c).
Proof.
  unfold remove_keys; simpl.
  rewrite (get_filter (fun x => negb (p x))). now destruct (p k).
Qed.

(** What a [set] of an absent key does, for a cache within its capacity. *)
Lemma set_absent_spec now t c key v :
  lru_inv t c -> t <= now ->
  1 <= LRUCache.maxSize c -> LRUCache.size c <= LRUCache.maxSize c ->
  JSMap.get key (LRUCache.cache c) = None ->
  let c' := LRUCache.set now key v c in
  let n := evicted_count now c in
  LRUCache.accessOrder c' = skipn n (LRUCache.accessOrder c) ++ [key]
  /\ lru_inv now c'
  /\ LRUCache.size c' <= LRUCache.maxSize c
  /\ LRUCache.maxSize c' = LRUCache.maxSize c
  /\ LRUCache.maxAge c' = LRUCache.maxAge c.
Proof.
  intros Hinv Hle HM Hsz Hnone c' n. subst c' n.
  unfold LRUCache.set, evicted_count. rewrite Hnone.
  destruct (LRUCache.size c >=? LRUCache.maxSize c) eqn:Hge.
  - apply Z.geb_le in Hge.
    rewrite (evict_spec now t) by assumption.
    set (c1 := remove_keys (is_expired now c) c).
    set (j := Z.to_nat (LRUCache.size c1 - LRUCache.maxSize c + 1)).
    set (c2 := remove_keys (fun x => includes x (firstn j (LRUCache.accessOrder c1))) c1).
    assert (Hinv1 : lru_inv t c1) by now apply inv_remove_keys.
    assert (Hinv2 : lru_inv t c2) by now apply inv_remove_keys.
    set (n := List.length (filter (is_expired now c) (LRUCache.accessOrder c))).
    assert (Ho1 : LRUCache.accessOrder c1 = skipn n (LRUCache.accessOrder c)).
    { apply (expired_prefix now t); assumption. }
    assert (Ho2 : LRUCache.accessOrder c2 = skipn j (LRUCache.accessOrder c1)).
    { apply filter_firstn_skipn, Hinv1. }
    assert (Hn : (n <= List.length (LRUCache.accessOrder c))%nat)
      by apply filter_length_le.
    assert (Hsz0 : LRUCache.size c = Z.of_nat (List.length (LRUCache.accessOrder c)))
      by now apply (inv_size t).
    assert (Hsz1 : LRUCache.size c1
                   = Z.of_nat (List.length (LRUCache.accessOrder c)) - Z.of_nat n).
    { rewrite (inv_size t c1), Ho1, length_skipn by assumption. lia. }
    assert (Hj : (j + n = Nat.max 1 n)%nat) by (subst j; lia).
    assert (Hsz2 : LRUCache.size c2 + 1 <= LRUCache.maxSize c).
    { rewrite (inv_size t c2), Ho2, length_skipn, Ho1, length_skipn by assumption.
      lia. }
    assert (Hnone2 : JSMap.get key (LRUCache.cache c2) = None).
    { subst c2 c1. rewrite !get_remove_keys, Hnone.
      now repeat match goal with |- context [if ?b then _ else _] => destruct b end. }
    assert (Hm2 : LRUCache.maxSize c2 = LRUCache.maxSize c) by reflexivity.
    assert (Ha2 : LRUCache.maxAge c2 = LRUCache.maxAge c) by reflexivity.
    clearbody c2. splits; simpl; auto.
    + rewrite Ho2, Ho1, skipn_skipn, Hj. reflexivity.
    + apply (inv_append now t c2); auto.
    + unfold LRUCache.size, JSMap.size; simpl.
      rewrite set_absent, length_app by assumption; simpl.
      unfold LRUCache.size, JSMap.size in Hsz2. lia.
  - rewrite Z.geb_leb in Hge. apply Z.leb_gt in Hge.
    splits; simpl; auto.
    + apply (inv_append now t c); auto.
    + unfold LRUCache.size, JSMap.size; simpl.
      rewrite set_absent, length_app by assumption; simpl.
      unfold LRUCache.size, JSMap.size in Hge. lia.
Qed.

Lemma set_present_spec now t c key v e :
  lru_inv t c -> t <= now ->
  JSMap.get key (LRUCache.cache c) = Some e ->
  let c' := LRUCache.set now key v c in
  lru_inv now c' /\ LRUCache.size c' = LRUCache.size c
  /\ LRUCache.maxSize c' = LRUCache.maxSize c
  /\ LRUCache.maxAge c' = LRUCache.maxAge c.
Proof.
  intros Hinv Hle Hget c'. subst c'. unfold LRUCache.set. rewrite Hget.
  splits; try reflexivity.
  - apply (inv_touch now t); auto. congruence.
  - unfold LRUCache.size, JSMap.size; simpl.
    rewrite set_present_length; congruence.
Qed.

(** Every operation keeps the invariant, the capacity bound and the
    configuration. *)
Lemma cache_step_ok now t (o : cache_op V) c :
  lru_inv t c -> t <= now ->
  1 <= LRUCache.maxSize c -> LRUCache.size c <= LRUCache.maxSize c ->
  let c' := cache_step now o c in
  lru_inv now c' /\ LRUCache.size c' <= LRUCache.maxSize c
  /\ LRUCache.maxSize c' = LRUCache.maxSize c
  /\ LRUCache.maxAge c' = LRUCache.maxAge c.
Proof.
  intros Hinv Hle HM Hsz c'. subst c'.
  assert (Hinv' : lru_inv now c) by now apply (inv_later t).
  assert (Hdel : forall key,
    lru_inv now (snd (LRUCache.delete key c))
    /\ LRUCache.size (snd (LRUCache.delete key c)) <= LRUCache.maxSize c
    /\ LRUCache.maxSize (snd (LRUCache.delete key c)) = LRUCache.maxSize c
    /\ LRUCache.maxAge (snd (LRUCache.delete key c)) = LRUCache.maxAge c).
  { intros key. rewrite (delete_remove_keys t) by assumption.
    splits; try reflexivity; [now apply inv_remove_keys|].
    pose proof (size_remove_keys (String.eqb key) c). lia. }
  destruct o as [key v|key|key|key| |]; simpl.
  - destruct (JSMap.get key (LRUCache.cache c)) as [e|] eqn:Hget.
    + destruct (set_present_spec now t c key v e) as (H1 & H2 & H3 & H4); auto.
      splits; auto. lia.
    + destruct (set_absent_spec now t c key v) as (_ & H1 & H2 & H3 & H4); auto.
  - unfold LRUCache.get.
    destruct (JSMap.get key (LRUCache.cache c)) as [e|] eqn:Hget; [|auto].
    destruct (LRUCache.expired now c e); [apply Hdel|]. simpl.
    splits; try reflexivity.
    + apply (inv_touch now t); auto. congruence.
    + unfold LRUCache.size, JSMap.size in *; simpl.
      rewrite set_present_length; congruence.
  - unfold LRUCache.has.
    destruct (JSMap.get key (LRUCache.cache c)) as [e|] eqn:Hget; [|auto].
    destruct (LRUCache.expired now c e); [apply Hdel|auto].
  - apply Hdel.
  - rewrite (cleanupExpired_remove_keys now t) by assumption.
    splits; try reflexivity; [now apply inv_remove_keys|].
    pose proof (size_remove_keys (is_expired now c) c). lia.
  - splits; try reflexivity; [apply inv_create|].
    unfold LRUCache.size, JSMap.size; simpl. lia.
Qed.

Lemma cache_run_ok trace : forall now c,
  lru_inv now c ->
  1 <= LRUCache.maxSize c -> LRUCache.size c <= LRUCache.maxSize c ->
  let r := cache_run now trace c in
  now <= fst r /\ lru_inv (fst r) (snd r)
  /\ LRUCache.size (snd r) <= LRUCache.maxSize c
  /\ LRUCache.maxSize (snd r) = LRUCache.maxSize c
  /\ LRUCache.maxAge (snd r) = LRUCache.maxAge c.
Proof.
  induction trace as [|[dt o] rest IH]; intros now c Hinv HM Hsz; simpl.
  - splits; auto. lia.
  - destruct (cache_step_ok (now + Z.of_N dt) now o c) as (H1 & H2 & H3 & H4);
      auto; try lia.
    destruct (IH (now + Z.of_N dt) (cache_step (now + Z.of_N dt) o c))
      as (G0 & G1 & G2 & G3 & G4); auto; try lia.
    rewrite H3 in *. splits; auto; try lia; try congruence.
Qed.
End StepFacts.

Lemma In_skipn_iff n (l : list string) k :
  NoDup l -> In k (skipn n l) <-> In k l /\ ~ In k (firstn n l).
Proof.
  intros Hnd. rewrite <- (filter_firstn_skipn n l Hnd), filter_In.
  rewrite negb_true_iff, <- (includes_In k (firstn n l)).
  destruct (includes k (firstn n l)); split; intros [H1 H2]; split;
    try assumption; try reflexivity; try discriminate;
    try (intros Hf; discriminate Hf); exfalso; apply H2; reflexivity.
Qed.

(** ** Bounded Cache: capacity and eviction order *)




(** ** Bounded Cache: expiry *)

(** C8.  An entry whose age exceeds [maxAge] is reported absent by [get]
    and by [has], and either call removes it from the map (and leaves the
    other keys of the map alone). *)
Theorem lru_expired_entry_absent_and_removed
  (V : Type) (now : Z) (key : string) (c : LRUCache.t V)
  (e : LRUCache.CacheEntry V) :
  JSMap.get key (LRUCache.cache c) = Some e ->
  now - LRUCache.timestamp e > LRUCache.maxAge c ->
  fst (LRUCache.get now key c) = None
  /\ fst (LRUCache.has now key c) = false
  /\ JSMap.get key (LRUCache.cache (snd (LRUCache.get now key c))) = None
  /\ JSMap.get key (LRUCache.cache (snd (LRUCache.has now key c))) = None
  /\ ~ In key (LRUCache.keys (snd (LRUCache.get now key c)))
  /\ ~ In key (LRUCache.keys (snd (LRUCache.has now key c)))
  /\ (forall k, k <> key ->
        JSMap.get k (LRUCache.cache (snd (LRUCache.get now key c)))
        = JSMap.get k (LRUCache.cache c)
        /\ JSMap.get k (LRUCache.cache (snd (LRUCache.has now key c)))
           = JSMap.get k (LRUCache.cache c)).
Proof.
  intros Hget Hage.
  assert (Hexp : LRUCache.expired now c e = true).
  { unfold LRUCache.expired. apply Z.gtb_lt. lia. }
  assert (Hhas : JSMap.has key (LRUCache.cache c) = true).
  { apply has_true. congruence. }
  unfold LRUCache.get, LRUCache.has, LRUCache.delete, LRUCache.keys.
  rewrite Hget, Hexp, Hhas; simpl.
  splits; try reflexivity; try apply get_delete_eq;
    try (apply get_None_notin, get_delete_eq).
  intros k Hne. split; apply get_delete_ne; congruence.
Qed.

Lemma lru_expired_entry_absent_and_removed_witness :
  let c := LRUCache.set 0 "a.ts" 7 (LRUCache.create 3 1000) in
  fst (LRUCache.get 1001 "a.ts" c) = None
  /\ fst (LRUCache.has 1001 "a.ts" c) = false.
Proof.
  pose proof (lru_expired_entry_absent_and_removed Z 1001 "a.ts"
                (LRUCache.set 0 "a.ts" 7 (LRUCache.create 3 1000))
                (LRUCache.mkEntry 7 0 1) eq_refl) as H.
  simpl. split; apply H; reflexivity.
Defined.

Lemma access_every_hits {V} (key : string) (accesses : list (Z * option V)) :
  forall (c : LRUCache.t V) (e : LRUCache.CacheEntry V),
  JSMap.get key (LRUCache.cache c) = Some e ->
  Forall (fun a => fst a <= LRUCache.maxAge c) accesses ->
  let r := access_every (LRUCache.timestamp e) accesses key c in
  Forall (fun o => o <> None) (fst r)
  /\ exists e', JSMap.get key (LRUCache.cache (snd r)) = Some e'
       /\ LRUCache.timestamp e'
          = LRUCache.timestamp e + fold_right Z.add 0 (map fst accesses).
Proof.
  induction accesses as [|[gap [v|]] rest IH]; intros c e Hget Hall r; subst r.
  - simpl. split; [constructor|]. exists e. split; [assumption|lia].
  - inversion Hall as [|? ? Hgap Hrest]; subst. simpl in Hgap. simpl.
    set (now := LRUCache.timestamp e + gap).
    set (c1 := LRUCache.set now key v c).
    assert (H1 : JSMap.get key (LRUCache.cache c1)
                 = Some (LRUCache.mkEntry v now (LRUCache.accessCount e + 1))).
    { unfold c1, LRUCache.set. rewrite Hget. simpl. apply get_set_eq. }
    assert (Hm : LRUCache.maxAge c1 = LRUCache.maxAge c).
    { unfold c1, LRUCache.set. now rewrite Hget. }
    specialize (IH c1 _ H1). simpl in IH. rewrite Hm in IH.
    specialize (IH Hrest). clearbody c1.
    destruct (access_every now rest key c1) as [rs c2]. simpl in *.
    destruct IH as (IH1 & e' & IH2 & IH3). split.
    + constructor; [discriminate|assumption].
    + exists e'. split; [assumption|]. subst now. lia.
  - inversion Hall as [|? ? Hgap Hrest]; subst. simpl in Hgap. simpl.
    set (now := LRUCache.timestamp e + gap).
    unfold LRUCache.get, LRUCache.expired. rewrite Hget.
    replace (now - LRUCache.timestamp e >? LRUCache.maxAge c) with false
      by (symmetry; rewrite Z.gtb_ltb; apply Z.ltb_ge; subst now; lia).
    set (e1 := LRUCache.mkEntry (LRUCache.value e) now (LRUCache.accessCount e + 1)).
    set (c1 := LRUCache.mk (JSMap.set key e1 (LRUCache.cache c))
                 (remove_first key (LRUCache.accessOrder c) ++ [key])
                 (LRUCache.maxSize c) (LRUCache.maxAge c)).
    assert (H1 : JSMap.get key (LRUCache.cache c1) = Some e1) by apply get_set_eq.
    specialize (IH c1 _ H1 Hrest). simpl in IH. clearbody c1.
    destruct (access_every now rest key c1) as [rs c2]. simpl in *.
    destruct IH as (IH1 & e' & IH2 & IH3). split.
    + constructor; [discriminate|assumption].
    + exists e'. split; [assumption|]. subst now. lia.
Qed.

(** C10.  A hit of [get] and a [set] of a present key both store the
    current time as the entry's timestamp.  Hence an entry that is read or
    rewritten again and again, each time at most [maxAge] after the
    previous access, is found by every one of these accesses, however much
    time has passed in total since it was inserted: after the accesses its
    timestamp is the time of the last one. *)
Theorem lru_access_refreshes_timestamp
  (V : Type) (key : string) (c : LRUCache.t V) (e : LRUCache.CacheEntry V) :
  JSMap.get key (LRUCache.cache c) = Some e ->
  (forall now, now - LRUCache.timestamp e <= LRUCache.maxAge c ->
     fst (LRUCache.get now key c) = Some (LRUCache.value e)
     /\ JSMap.get key (LRUCache.cache (snd (LRUCache.get now key c)))
        = Some (LRUCache.mkEntry (LRUCache.value e) now
                                 (LRUCache.accessCount e + 1)))
  /\ (forall now v,
        JSMap.get key (LRUCache.cache (LRUCache.set now key v c))
        = Some (LRUCache.mkEntry v now (LRUCache.accessCount e + 1)))
  /\ (forall accesses : list (Z * option V),
        Forall (fun a => fst a <= LRUCache.maxAge c) accesses ->
        let r := access_every (LRUCache.timestamp e) accesses key c in
        Forall (fun o => o <> None) (fst r)
        /\ exists e', JSMap.get key (LRUCache.cache (snd r)) = Some e'
             /\ LRUCache.timestamp e'
                = LRUCache.timestamp e + fold_right Z.add 0 (map fst accesses)).
Proof.
  intros Hget. splits.
  - intros now Hage. unfold LRUCache.get, LRUCache.expired. rewrite Hget.
    replace (now - LRUCache.timestamp e >? LRUCache.maxAge c) with false
      by (symmetry; rewrite Z.gtb_ltb; apply Z.ltb_ge; lia).
    simpl. split; [reflexivity|apply get_set_eq].
  - intros now v. unfold LRUCache.set. rewrite Hget. simpl. apply get_set_eq.
  - intros accesses Hall. now apply access_every_hits.
Qed.

(** An entry inserted at time 0 with [maxAge = 1000] and read every 900 ms
    is still served at time 3600. *)
Lemma lru_access_refreshes_timestamp_witness :
  let c := LRUCache.set 0 "a.ts" 7 (LRUCache.create 3 1000) in
  fst (access_every 0 [(900, None); (900, None); (900, None); (900, None)]
         "a.ts" c)
  = [Some 7; Some 7; Some 7; Some 7]
  /\ Forall (fun o => o <> None)
       (fst (access_every 0 [(900, None); (900, None); (900, None); (900, None)]
               "a.ts" c)).
Proof.
  split; [reflexivity|].
  apply (lru_access_refreshes_timestamp Z "a.ts"
           (LRUCache.set 0 "a.ts" 7 (LRUCache.create 3 1000))
           (LRUCache.mkEntry 7 0 1) eq_refl).
  repeat constructor; simpl; lia.
Defined.

(** ** Watch Service *)

Lemma JSSet_has_In x s : JSSet.has x s = true <-> In x s.
Proof. apply includes_In. Qed.

Lemma JSSet_add_In x y s : In y (JSSet.add x s) <-> y = x \/ In y s.
Proof.
  unfold JSSet.add. destruct (JSSet.has x s) eqn:H.
  - apply JSSet_has_In in H. intuition congruence.
  - rewrite in_app_iff; simpl. intuition.
Qed.

Section Rescan.
Import FileWatcherService.
Variable dirPath : string.

Lemma scanFiles_rescan (n : node) :
  forall idx depth currentPath acc acc',
    scanFiles dirPath idx depth currentPath n acc = Some acc' ->
    rescan_silent (fun i a => scanFiles dirPath i depth currentPath n a)
                  idx acc acc'.
Proof.
  induction n as [size mtime content| |entries IH|] using node_tree_ind;
    intros idx depth currentPath acc acc' Hscan; simpl in Hscan |- *;
    unfold rescan_silent; simpl.
  - destruct (depth >? 3); [|discriminate].
    injection Hscan as <-. split; [apply incl_refl|reflexivity].
  - destruct (depth >? 3); [|discriminate].
    injection Hscan as <-. split; [apply incl_refl|reflexivity].
  - destruct (depth >? 3).
    { injection Hscan as <-. split; [apply incl_refl|reflexivity]. }
    revert acc acc' Hscan.
    induction entries as [|[name entry] rest IHrest]; intros acc acc' Hscan.
    + simpl in *. injection Hscan as <-. split; [apply incl_refl|reflexivity].
    + inversion IH as [|? ? Hentry Hrest]; subst. simpl in Hentry.
      specialize (IHrest Hrest). simpl in Hscan |- *.
      destruct (shouldIgnoreFile (path_relative dirPath (path_join currentPath name))).
      { now apply IHrest. }
      destruct entry as [size mtime content|children|].
      * apply IHrest in Hscan as [Hincl Hre]. simpl in Hincl.
        split.
        -- intros x Hx. apply Hincl, JSSet_add_In. now right.
        -- intros idx2 ch2 Hsub.
           assert (Hin : JSSet.has (path_join currentPath name) idx2 = true).
           { apply JSSet_has_In, Hsub, Hincl, JSSet_add_In. now left. }
           rewrite Hin. now apply Hre.
      * destruct (depth <? 3); [|now apply IHrest].
        destruct (scanFiles dirPath idx (depth + 1) (path_join currentPath name)
                            (Dir children) acc) as [acc1|] eqn:Hchild;
          [|discriminate].
        apply Hentry in Hchild as [Hincl1 Hre1].
        apply IHrest in Hscan as [Hincl2 Hre2].
        split.
        -- intros x Hx. now apply Hincl2, Hincl1.
        -- intros idx2 ch2 Hsub. cbv beta in Hre1.
           rewrite Hre1 by (intros x Hx; now apply Hsub, Hincl2).
           now apply Hre2.
      * now apply IHrest.
  - destruct (depth >? 3); [|discriminate].
    injection Hscan as <-. split; [apply incl_refl|reflexivity].
Qed.
End Rescan.

Lemma emitted_fold_emit (f : FileWatcherService.FileChangeEvent -> FileWatcherService.Event)
      changes s :
  FileWatcherService.emitted
    (fold_left (fun acc c => FileWatcherService.emit (f c) acc) changes s)
  = FileWatcherService.emitted s ++ map f changes.
Proof.
  revert s. induction changes as [|c r IH]; intros s; simpl.
  - now rewrite app_nil_r.
  - rewrite IH. simpl. now rewrite <- app_assoc.
Qed.

(** C7.  A [manualRefresh] that follows a [manualRefresh] of the same root
    on an unchanged file system emits nothing: when the first call succeeds
    it stores the scanned path set, and the second call returns an empty
    change list (no add, no unlink) with the same file total; when the first
    call throws, it has changed nothing and the second call does the same. *)
Theorem manualRefresh_twice_no_events
  (fs : FS) (dirPath : string) (s : FileWatcherService.t) :
  let r1 := FileWatcherService.manualRefresh fs dirPath s in
  let r2 := FileWatcherService.manualRefresh fs dirPath (snd r1) in
  FileWatcherService.emitted (snd r2) = FileWatcherService.emitted (snd r1)
  /\ (forall res1, fst r1 = Ok res1 ->
        fst r2 = Ok (FileWatcherService.mkRefresh
                       [] (FileWatcherService.totalFiles res1))
        /\ exists newFiles,
             JSMap.get dirPath (FileWatcherService.fileIndex (snd r1))
             = Some newFiles
             /\ JSSet.size newFiles = FileWatcherService.totalFiles res1
             /\ JSMap.get dirPath (FileWatcherService.fileIndex (snd r2))
                = Some newFiles)
  /\ (forall message, fst r1 = Throw message -> r2 = r1).
Proof.
  intros r1 r2.
  assert (Hcase :
    (exists message, r1 = (Throw message, s))
    \/ (exists root newFiles res s1,
          r1 = (Ok res, s1)
          /\ fs dirPath = Some root
          /\ FileWatcherService.totalFiles res = JSSet.size newFiles
          /\ JSMap.get dirPath (FileWatcherService.fileIndex s1) = Some newFiles
          /\ FileWatcherService.scanFiles dirPath newFiles 0 dirPath root ([], [])
             = Some (newFiles, []))).
  { subst r1. unfold FileWatcherService.manualRefresh.
    destruct (fs dirPath) as [root|] eqn:Hroot; [|left; eauto].
    set (idx := match JSMap.get dirPath (FileWatcherService.fileIndex s) with
                | Some files => files | None => [] end).
    destruct (FileWatcherService.scanFiles dirPath idx 0 dirPath root ([], []))
      as [[newFiles added]|] eqn:Hscan; [|left; eauto].
    right. exists root, newFiles. eexists. eexists.
    split; [reflexivity|]. splits; try reflexivity.
    - set (s0 := FileWatcherService.set_fileIndex _ s).
      assert (H0 : JSMap.get dirPath (FileWatcherService.fileIndex s0) = Some newFiles)
        by apply get_set_eq.
      clearbody s0. revert s0 H0.
      generalize (added ++ map (fun filePath =>
                   FileWatcherService.mkChange FileWatcherService.unlink filePath
                     (path_relative dirPath filePath) None)
                   (filter (fun filePath => negb (JSSet.has filePath newFiles)) idx)).
      intros changes. induction changes as [|c r IH]; intros s0 H0; simpl;
        [assumption|]. apply IH. exact H0.
    - apply scanFiles_rescan in Hscan as [_ Hre]. simpl in Hre.
      apply Hre, incl_refl. }
  destruct Hcase as [[message Hr1]|(root & newFiles & res & s1 & Hr1 & Hroot & Htot & Hidx & Hre)].
  - assert (Hr2 : r2 = r1).
    { subst r2. rewrite Hr1 at 1. simpl. reflexivity. }
    rewrite Hr2. splits; [reflexivity| |reflexivity].
    rewrite Hr1. simpl. discriminate.
  - assert (Hdel : filter (fun filePath => negb (JSSet.has filePath newFiles)) newFiles = []).
    { assert (H : forall l, incl l newFiles ->
                 filter (fun filePath => negb (JSSet.has filePath newFiles)) l = []).
      { induction l as [|x l IH]; intros Hl; simpl; [reflexivity|].
        assert (Hx : JSSet.has x newFiles = true)
          by (apply JSSet_has_In, Hl; now left).
        rewrite Hx. simpl. apply IH. intros y Hy. apply Hl. now right. }
      apply H, incl_refl. }
    assert (Hr2 : r2 = (Ok (FileWatcherService.mkRefresh [] (JSSet.size newFiles)),
                        FileWatcherService.set_fileIndex
                          (JSMap.set dirPath newFiles (FileWatcherService.fileIndex s1)) s1)).
    { subst r2. rewrite Hr1. simpl. unfold FileWatcherService.manualRefresh.
      rewrite Hroot, Hidx, Hre, Hdel. reflexivity. }
    rewrite Hr2, Hr1. simpl. splits.
    + reflexivity.
    + intros res1 Hres. injection Hres as <-. rewrite Htot. split; [reflexivity|].
      exists newFiles. splits; [assumption|reflexivity|apply get_set_eq].
    + discriminate.
Qed.

(** The first refresh of the small workspace reports its two files, the
    second one reports nothing. *)
Example manualRefresh_small_workspace :
  let r1 := FileWatcherService.manualRefresh small_fs "/w" FileWatcherService.create in
  let r2 := FileWatcherService.manualRefresh small_fs "/w" (snd r1) in
  map FileWatcherService.path
      (match fst r1 with Ok r => FileWatcherService.changes r | Throw _ => [] end)
  = ["/w/a.ts"; "/w/src/b.ts"]
  /\ fst r2 = Ok (FileWatcherService.mkRefresh [] 2).
Proof. split; reflexivity. Qed.

(** C2.  [watchDirectory] only appends the notification
    [directory:skipped] with reason [emergency_disabled]: for every
    directory, every options argument and every state of the service
    (strategy, fallback mode, failed directories) it calls no OS watcher,
    registers nothing in the watcher map or the file index, leaves the
    watcher count alone and arms no timer. *)
Theorem watchDirectory_emergency_disabled
  (dirPath : string) (options : FileWatcherService.WatcherOptions)
  (s : FileWatcherService.t) :
  let s' := FileWatcherService.watchDirectory dirPath options s in
  FileWatcherService.emitted s'
  = FileWatcherService.emitted s
    ++ [FileWatcherService.directory_skipped dirPath "emergency_disabled"]
  /\ FileWatcherService.watchCalls s' = FileWatcherService.watchCalls s
  /\ FileWatcherService.watchers s' = FileWatcherService.watchers s
  /\ FileWatcherService.watcherCount s' = FileWatcherService.watcherCount s
  /\ FileWatcherService.fileIndex s' = FileWatcherService.fileIndex s
  /\ FileWatcherService.timers s' = FileWatcherService.timers s
  /\ FileWatcherService.failedDirectories s'
     = FileWatcherService.failedDirectories s
  /\ FileWatcherService.fallbackMode s' = FileWatcherService.fallbackMode s.
Proof. intros s'. subst s'. splits; reflexivity. Qed.

(** C3, as stated, fails: for a root whose estimate (15901) exceeds the
    threshold, [watchDirectory] registers no entry for the root, leaves the
    watcher count at 0 and emits no [ready] notification. *)
Lemma large_root_not_registered :
  let s' := FileWatcherService.watchDirectory "/big"
              FileWatcherService.no_options FileWatcherService.create in
  FileWatcherService.getDirectoryStats large_fs "/big"
  > FileWatcherService.largeTreeThreshold
  /\ ~ (JSMap.has "/big" (FileWatcherService.watchers s') = true
        /\ FileWatcherService.watcherCount s'
           = FileWatcherService.watcherCount FileWatcherService.create + 1).
Proof.
  split; [reflexivity|]. intros [H _]. discriminate H.
Qed.

(** C3 (amended).  For every root whose estimated file count exceeds the
    large-tree threshold, [watchDirectory] emits the skipped notification
    and issues no native watch call; no bookkeeping entry is registered and
    the watcher count does not change. *)
Theorem watchDirectory_large_tree_skipped
  (fs : FS) (dirPath : string) (options : FileWatcherService.WatcherOptions)
  (s : FileWatcherService.t) :
  FileWatcherService.getDirectoryStats fs dirPath
  > FileWatcherService.largeTreeThreshold ->
  let s' := FileWatcherService.watchDirectory dirPath options s in
  FileWatcherService.emitted s'
  = FileWatcherService.emitted s
    ++ [FileWatcherService.directory_skipped dirPath "emergency_disabled"]
  /\ FileWatcherService.watchCalls s' = FileWatcherService.watchCalls s
  /\ JSMap.get dirPath (FileWatcherService.watchers s')
     = JSMap.get dirPath (FileWatcherService.watchers s)
  /\ FileWatcherService.watcherCount s' = FileWatcherService.watcherCount s.
Proof. intros _ s'. subst s'. splits; reflexivity. Qed.

Lemma watchDirectory_large_tree_skipped_witness :
  FileWatcherService.getDirectoryStats large_fs "/big"
  > FileWatcherService.largeTreeThreshold
  /\ FileWatcherService.watchCalls
       (FileWatcherService.watchDirectory "/big" FileWatcherService.no_options
          FileWatcherService.create) = [].
Proof.
  split; [reflexivity|].
  apply (watchDirectory_large_tree_skipped large_fs "/big"
           FileWatcherService.no_options FileWatcherService.create).
  reflexivity.
Defined.

(** The statements behind the emergency return would have registered the
    inert entry the specification describes. *)
Lemma unreachable_large_tree_branch (fs : FS) (dirPath : string)
      (options : FileWatcherService.WatcherOptions) (s : FileWatcherService.t) :
  FileWatcherService.isWatchingEnabled s = true ->
  FileWatcherService.canWatchDirectory dirPath s = true ->
  FileWatcherService.getDirectoryStats fs dirPath
  > FileWatcherService.largeTreeThreshold ->
  exists s',
    FileWatcherService.watchDirectory_after_return fs dirPath options s
    = FileWatcherService.Returned s'
    /\ JSMap.get dirPath (FileWatcherService.watchers s') = Some None
    /\ FileWatcherService.watcherCount s' = FileWatcherService.watcherCount s + 1
    /\ FileWatcherService.watchCalls s' = FileWatcherService.watchCalls s
    /\ FileWatcherService.emitted s'
       = FileWatcherService.emitted s ++ [FileWatcherService.ready dirPath].
Proof.
  intros He Hc Hl. unfold FileWatcherService.watchDirectory_after_return.
  rewrite He, Hc. simpl.
  replace (FileWatcherService.getDirectoryStats fs dirPath
           >? FileWatcherService.largeTreeThreshold) with true
    by (symmetry; apply Z.gtb_lt; lia).
  eexists. split; [reflexivity|]. simpl. splits; try reflexivity.
  apply get_set_eq.
Qed.

Lemma unwatchDirectory_keeps_failed dirPath s :
  FileWatcherService.failedDirectories (FileWatcherService.unwatchDirectory dirPath s)
  = FileWatcherService.failedDirectories s
  /\ FileWatcherService.fallbackMode (FileWatcherService.unwatchDirectory dirPath s)
     = FileWatcherService.fallbackMode s.
Proof.
  unfold FileWatcherService.unwatchDirectory.
  destruct (JSMap.get dirPath (FileWatcherService.watchers s)); split; reflexivity.
Qed.

Lemma unwatch_all_keeps_failed dirs s :
  let s' := fold_left (fun acc d => FileWatcherService.unwatchDirectory d acc) dirs s in
  FileWatcherService.failedDirectories s' = FileWatcherService.failedDirectories s
  /\ FileWatcherService.fallbackMode s' = FileWatcherService.fallbackMode s.
Proof.
  revert s. induction dirs as [|d r IH]; intros s; simpl; [split; reflexivity|].
  destruct (IH (FileWatcherService.unwatchDirectory d s)) as [H1 H2].
  destruct (unwatchDirectory_keeps_failed d s) as [G1 G2].
  split; congruence.
Qed.

(** [handleEMFILEError] never touches the set of failed directories or the
    fallback flag. *)
Lemma handleEMFILEError_keeps_failed_set dirPath e s :
  FileWatcherService.failedDirectories
    (FileWatcherService.handleEMFILEError dirPath e s)
  = FileWatcherService.failedDirectories s
  /\ FileWatcherService.fallbackMode
       (FileWatcherService.handleEMFILEError dirPath e s)
     = FileWatcherService.fallbackMode s.
Proof.
  unfold FileWatcherService.handleEMFILEError.
  set (s1 := FileWatcherService.unwatchDirectory dirPath s).
  set (s2 := FileWatcherService.performAggressiveCleanup s1).
  assert (H2 : FileWatcherService.failedDirectories s2
               = FileWatcherService.failedDirectories s
               /\ FileWatcherService.fallbackMode s2
                  = FileWatcherService.fallbackMode s).
  { destruct (unwatchDirectory_keeps_failed dirPath s) as [G1 G2].
    destruct (unwatch_all_keeps_failed
                (firstn (Nat.div (List.length (JSMap.keys (FileWatcherService.watchers s1)) + 1) 2)
                   (FileWatcherService.sort_desc (FileWatcherService.indexedFiles s1)
                      (JSMap.keys (FileWatcherService.watchers s1)))) s1)
      as [H1 H2].
    fold s1 in G1, G2. unfold s2, FileWatcherService.performAggressiveCleanup.
    split; congruence. }
  clearbody s2.
  destruct (FileWatcherService.retryCountOf dirPath s2
            <? FileWatcherService.maxRetryAttempts s2); simpl; exact H2.
Qed.


(** When each retry fires before the next error, every error schedules a
    retry; each retry only makes [watchDirectory] report that watching is
    disabled. *)
Example emfile_errors_each_followed_by_its_retry :
  let s := emfile_errors_with_retries 4 "/r" FileWatcherService.create in
  let skipped :=
    FileWatcherService.directory_skipped "/r" "emergency_disabled" in
  FileWatcherService.emitted s = [skipped; skipped; skipped; skipped]
  /\ FileWatcherService.timers s = []
  /\ FileWatcherService.failedDirectories s = []
  /\ FileWatcherService.canWatchDirectory "/r" s = true.
Proof. cbv zeta. splits; reflexivity. Qed.

Section RetryFacts.
Import FileWatcherService.





End RetryFacts.



(** ** Workspace Index *)

(** C5, as stated, fails: [initialize] on a destroyed instance throws. *)
Lemma initialize_destroyed_throws :
  let c := LightweightContext.cleanup LightweightContext.create in
  LightweightContext.isDestroyed c = true
  /\ fst (LightweightContext.initialize pool_env 0 "/ws/p1" c)
     = Throw "Cannot initialize destroyed LightweightContext instance".
Proof. split; reflexivity. Qed.

(** C5 (amended).  On a destroyed instance [initialize] checks the flag and
    throws, leaving the instance as it is; [searchFiles],
    [getFilesByLanguage] and [getRecentFiles] return the empty list,
    [forceCleanup] returns 0, and [cleanup], [emergencyCleanup],
    [scanWorkspace], [startWatching], [startMemoryMonitor] and
    [notifyWatchers] do nothing; none of these throws. *)
Theorem destroyed_instance_operations
  (env : LightweightContext.Env) (now : Z) (c : LightweightContext.t) :
  LightweightContext.isDestroyed c = true ->
  (forall workspacePath,
      LightweightContext.initialize env now workspacePath c
      = (Throw "Cannot initialize destroyed LightweightContext instance", c))
  /\ (forall query limit,
         LightweightContext.searchFiles now query limit c = ([], c))
  /\ (forall language, LightweightContext.getFilesByLanguage language c = [])
  /\ (forall hours, LightweightContext.getRecentFiles now hours c = [])
  /\ LightweightContext.forceCleanup now c = (0, c)
  /\ LightweightContext.cleanup c = c
  /\ LightweightContext.emergencyCleanup now c = c
  /\ LightweightContext.scanWorkspace env now c = (Ok tt, c)
  /\ LightweightContext.startWatching c = c
  /\ LightweightContext.startMemoryMonitor c = c
  /\ (forall event filePath,
         LightweightContext.notifyWatchers event filePath c = []).
Proof.
  intros Hd.
  unfold LightweightContext.initialize, LightweightContext.searchFiles,
    LightweightContext.getFilesByLanguage, LightweightContext.getRecentFiles,
    LightweightContext.forceCleanup, LightweightContext.cleanup,
    LightweightContext.emergencyCleanup, LightweightContext.scanWorkspace,
    LightweightContext.startWatching, LightweightContext.startMemoryMonitor,
    LightweightContext.notifyWatchers.
  rewrite Hd, orb_true_r. splits; reflexivity.
Qed.

(** A destroyed instance whose cache was refilled by a late file event:
    the two cached files match the query, and [searchFiles] still returns
    the empty list. *)
Lemma destroyed_instance_operations_witness :
  let c := add_events mono_env 1 (generated_files 2)
             (LightweightContext.cleanup LightweightContext.create) in
  LightweightContext.isDestroyed c = true
  /\ LightweightContext.getCacheSize c = 2
  /\ LightweightContext.searchFiles 5 "gen" 20 c = ([], c)
  /\ LightweightContext.cleanup c = c.
Proof.
  intros c.
  assert (Hd : LightweightContext.isDestroyed c = true) by (vm_compute; reflexivity).
  assert (Hsize : LightweightContext.getCacheSize c = 2) by (vm_compute; reflexivity).
  clearbody c.
  destruct (destroyed_instance_operations mono_env 5 c Hd)
    as (_ & Hsearch & _ & _ & _ & Hcleanup & _).
  split; [exact Hd|]. split; [exact Hsize|].
  split; [exact (Hsearch "gen" 20)|exact Hcleanup].
Defined.

(** [getFileContent] does not consult the destroyed flag: it returns what
    the file system holds, on a destroyed instance as on a live one. *)
Lemma getFileContent_ignores_destroyed env filePath c c' :
  LightweightContext.getFileContent env filePath c
  = LightweightContext.getFileContent env filePath c'.
Proof. reflexivity. Qed.

Example getFileContent_on_destroyed_instance :
  let c := LightweightContext.cleanup LightweightContext.create in
  LightweightContext.isDestroyed c = true
  /\ LightweightContext.getFileContent mono_env "/mono/gen/f0.ts" c
     = Some "export {};".
Proof. split; reflexivity. Qed.

(** C6: what the code does.  [validateWorkspacePath] never changes the
    capacity of the file cache.  For a root with three project-like
    subdirectories [initialize] lowers [MAX_FILES] to 200 and leaves the
    cache, created with capacity 300, as it is; 250 files added after the
    scan are all cached, next to the 3 files found by the scan. *)
Theorem lowered_MAX_FILES_does_not_bound_cache :
  (forall env workspacePath c,
      LRUCache.maxSize
        (LightweightContext.fileCache
           (LightweightContext.validateWorkspacePath env workspacePath c))
      = LRUCache.maxSize (LightweightContext.fileCache c))
  /\ (let r := LightweightContext.initialize mono_env 0 "/mono"
                 LightweightContext.create in
      let c := add_events mono_env 1 (generated_files 250) (snd r) in
      fst r = Ok tt
      /\ LightweightContext.MAX_FILES (snd r) = 200
      /\ LRUCache.maxSize (LightweightContext.fileCache (snd r)) = 300
      /\ LightweightContext.getCacheSize (snd r) = 3
      /\ LightweightContext.MAX_FILES c = 200
      /\ LightweightContext.getCacheSize c = 253).
Proof.
  split.
  - intros env workspacePath c. unfold LightweightContext.validateWorkspacePath.
    destruct (readdirSync (LightweightContext.fs env workspacePath)); [|reflexivity].
    destruct (LightweightContext.countProjectLikeDirs env c l 0); [|reflexivity].
    destruct (z >=? 3); [reflexivity|]. destruct (z =? 1); reflexivity.
  - vm_compute. splits; reflexivity.
Qed.

(** ** Workspace Pool Manager *)

(** C9: what the code does.  When the five pooled instances were all
    accessed in the millisecond in which a sixth workspace is opened, the
    eviction finds no instance older than the current time and evicts
    nothing: the pool then holds six instances.  One millisecond later the
    same request evicts one instance. *)
Theorem pool_exceeds_MAX_INSTANCES_on_clock_tie :
  (let s := pool_run pool_env six_workspaces_trace WorkspaceContextManager.create in
   JSMap.keys (WorkspaceContextManager.instances s)
   = ["/ws/p1"; "/ws/p2"; "/ws/p3"; "/ws/p4"; "/ws/p5"; "/ws/p6"]
   /\ JSMap.size (WorkspaceContextManager.instances s) = 6
   /\ WorkspaceContextManager.closed s = [])
  /\ (let s := pool_run pool_env
                 (firstn 10 six_workspaces_trace ++ [(11, GetOrCreate "/ws/p6")])
                 WorkspaceContextManager.create in
      JSMap.keys (WorkspaceContextManager.instances s)
      = ["/ws/p2"; "/ws/p3"; "/ws/p4"; "/ws/p5"; "/ws/p6"]).
Proof. vm_compute. splits; reflexivity. Qed.

(** ** Workspace Pool Manager: the bound under an advancing clock *)

Section PoolFacts.
Import WorkspaceContextManager.

Lemma slashes_idem p : slashes (slashes p) = slashes p.
Proof.
  induction p as [|c r IH]; simpl; [reflexivity|]. rewrite IH. f_equal.
  destruct (Ascii.eqb_spec c "\"); [reflexivity|].
  destruct (Ascii.eqb_spec c "\"); [contradiction|reflexivity].
Qed.

Lemma strip_idem p : stripTrailingSlashes (stripTrailingSlashes p) = stripTrailingSlashes p.
Proof.
  induction p as [|c r IH]; simpl; [reflexivity|].
  destruct (stripTrailingSlashes r) as [|d r'] eqn:Hr.
  - destruct (Ascii.eqb c "/") eqn:Hc; simpl; [reflexivity|]. now rewrite Hc.
  - simpl in *. now rewrite IH.
Qed.

Lemma slashes_strip p :
  slashes p = p -> slashes (stripTrailingSlashes p) = stripTrailingSlashes p.
Proof.
  induction p as [|c r IH]; simpl; intros H; [reflexivity|].
  injection H as Hc Hr. specialize (IH Hr).
  destruct (stripTrailingSlashes r) as [|d r'] eqn:Hs.
  - destruct (Ascii.eqb c "/"); simpl; [reflexivity|]. now rewrite Hc.
  - simpl in *. rewrite Hc. f_equal. exact IH.
Qed.

Lemma normalizePath_idem p : normalizePath (normalizePath p) = normalizePath p.
Proof.
  unfold normalizePath.
  rewrite slashes_strip by apply slashes_idem. apply strip_idem.
Qed.

Lemma initialize_empty_path_throws env now :
  exists message c,
    LightweightContext.initialize env now "" LightweightContext.create
    = (Throw message, c).
Proof. eexists. eexists. reflexivity. Qed.

Lemma get_deactivateAt cur m k :
  JSMap.get k (deactivateAt cur m)
  = match JSMap.get k m with
    | Some i => Some (if String.eqb cur k then deactivate i else i)
    | None => None
    end.
Proof.
  unfold deactivateAt. destruct (JSMap.get cur m) as [prev|] eqn:Hcur.
  - destruct (String.eqb_spec cur k) as [->|Hne].
    + now rewrite get_set_eq, Hcur.
    + rewrite get_set_ne by assumption. now destruct (JSMap.get k m).
  - destruct (String.eqb_spec cur k) as [->|Hne].
    + now rewrite Hcur.
    + now destruct (JSMap.get k m).
Qed.

Lemma keys_deactivateAt cur m : JSMap.keys (deactivateAt cur m) = JSMap.keys m.
Proof.
  unfold deactivateAt. destruct (JSMap.get cur m) eqn:Hcur; [|reflexivity].
  apply keys_set_present. congruence.
Qed.

Lemma closeWorkspace_inv clock p s : pool_inv clock s -> pool_inv clock (closeWorkspace p s).
Proof.
  intros [Hnd Hpast Hact Hkeys Hsize]. unfold closeWorkspace.
  destruct (JSMap.get (normalizePath p) (instances s)) as [inst|] eqn:Hget;
    [|now constructor].
  constructor; simpl.
  - rewrite keys_delete. now apply NoDup_drop.
  - intros k i Hk. destruct (String.eqb_spec (normalizePath p) k) as [<-|Hne].
    + now rewrite get_delete_eq in Hk.
    + rewrite get_delete_ne in Hk by assumption. eauto.
  - intros k i Hk Ha. destruct (String.eqb_spec (normalizePath p) k) as [<-|Hne].
    + now rewrite get_delete_eq in Hk.
    + rewrite get_delete_ne in Hk by assumption.
      rewrite (Hact k i Hk Ha).
      destruct (String.eqb_spec k (normalizePath p)); [congruence|reflexivity].
  - intros k Hk. rewrite keys_delete in Hk. apply In_drop in Hk as [Hk _]. auto.
  - pose proof (delete_size_le (normalizePath p) (instances s)). lia.
Qed.

Lemma closeWorkspace_size p s :
  JSMap.size (instances (closeWorkspace p s)) <= JSMap.size (instances s).
Proof.
  unfold closeWorkspace.
  destruct (JSMap.get (normalizePath p) (instances s)); simpl; [|lia].
  apply delete_size_le.
Qed.

Lemma closeWorkspace_get p s k :
  JSMap.get k (instances s) = None ->
  JSMap.get k (instances (closeWorkspace p s)) = None.
Proof.
  intros H. unfold closeWorkspace.
  destruct (JSMap.get (normalizePath p) (instances s)); simpl; [|assumption].
  destruct (String.eqb_spec (normalizePath p) k) as [<-|Hne].
  - apply get_delete_eq.
  - now rewrite get_delete_ne.
Qed.

(** The first loop of the eviction returns the path it started with or a
    key of the pool. *)
Lemma oldestInactive_key m acc :
  fst (oldestInactive m acc) = fst acc
  \/ exists k, fst (oldestInactive m acc) = Some k /\ In k (JSMap.keys m).
Proof.
  unfold oldestInactive. revert acc.
  induction m as [|[k i] m IH]; intros acc; simpl; [now left|].
  match goal with |- context [fold_left ?f m ?a] =>
    destruct (IH a) as [Heq|[k' [Hk' Hin]]] end.
  - rewrite Heq. destruct (negb (isActive i) && (lastAccessed i <? snd acc));
      simpl; [right; exists k; split; [reflexivity|now left]|now left].
  - right. exists k'. split; [assumption|now right].
Qed.

Lemma oldestInactive_finds m acc :
  (exists k i, In (k, i) m /\ isActive i = false /\ lastAccessed i < snd acc) ->
  exists k, fst (oldestInactive m acc) = Some k /\ In k (JSMap.keys m).
Proof.
  revert acc. induction m as [|[k i] m IH]; intros acc (k0 & i0 & Hin & Ha & Hl).
  - destruct Hin.
  - unfold oldestInactive; simpl.
    destruct (negb (isActive i) && (lastAccessed i <? snd acc)) eqn:Hq.
    + destruct (oldestInactive_key m (Some k, lastAccessed i)) as [Heq|[k' [Hk' Hin']]].
      * exists k. unfold oldestInactive in Heq. rewrite Heq. split; [reflexivity|now left].
      * exists k'. split; [exact Hk'|now right].
    + destruct Hin as [Heq|Hin].
      * injection Heq as -> ->. rewrite Ha in Hq. simpl in Hq.
        apply Z.ltb_ge in Hq. lia.
      * destruct (IH acc) as [k' [Hk' Hin']]; [now exists k0, i0|].
        exists k'. split; [exact Hk'|now right].
Qed.

Lemma evict_inv clock now s :
  pool_inv clock s -> pool_inv clock (evictOldestInactiveInstance now s).
Proof.
  intros Hinv. unfold evictOldestInactiveInstance.
  match goal with |- context [fst ?f] => destruct (fst f) as [k|] end;
    [|assumption].
  destruct (negb (String.eqb k "")); [now apply closeWorkspace_inv|assumption].
Qed.

Lemma evict_get now s k :
  JSMap.get k (instances s) = None ->
  JSMap.get k (instances (evictOldestInactiveInstance now s)) = None.
Proof.
  intros H. unfold evictOldestInactiveInstance.
  match goal with |- context [fst ?f] => destruct (fst f) as [k'|] end;
    [|assumption].
  destruct (negb (String.eqb k' "")); [now apply closeWorkspace_get|assumption].
Qed.

(** With a full pool and a clock that has advanced since the last access,
    the eviction removes one instance. *)
Lemma evict_makes_room clock now s :
  pool_inv clock s -> clock < now ->
  2 <= JSMap.size (instances s) ->
  JSMap.size (instances (evictOldestInactiveInstance now s))
  = JSMap.size (instances s) - 1.
Proof.
  intros [Hnd Hpast Hact Hkeys Hsize] Hlt Hfull.
  assert (Hex : exists k i, In (k, i) (instances s) /\ isActive i = false
                            /\ lastAccessed i < now).
  { destruct (instances s) as [|[k1 i1] [|[k2 i2] m]] eqn:Hm;
      unfold JSMap.size in Hfull; simpl in Hfull; try lia.
    assert (H1 : JSMap.get k1 ((k1, i1) :: (k2, i2) :: m) = Some i1).
    { apply In_get; [exact Hnd|now left]. }
    assert (H2 : JSMap.get k2 ((k1, i1) :: (k2, i2) :: m) = Some i2).
    { apply In_get; [exact Hnd|right; now left]. }
    assert (Hne : k1 <> k2).
    { simpl in Hnd. inversion Hnd as [|? ? Hn _]; subst.
      intros ->. apply Hn. now left. }
    destruct (isActive i1) eqn:Ha1.
    - destruct (isActive i2) eqn:Ha2.
      + pose proof (Hact k1 i1 H1 Ha1) as E1. pose proof (Hact k2 i2 H2 Ha2) as E2.
        congruence.
      + exists k2, i2. split; [right; now left|].
        split; [assumption|]. specialize (Hpast k2 i2 H2). lia.
    - exists k1, i1. split; [now left|].
      split; [assumption|]. specialize (Hpast k1 i1 H1). lia. }
  destruct (oldestInactive_finds (instances s) (None, now) Hex) as [k [Hk Hin]].
  unfold evictOldestInactiveInstance.
  destruct (Hkeys k Hin) as [Hne Hnorm].
  assert (Htruthy : truthy (fst (oldestInactive (instances s) (None, now))) = true).
  { rewrite Hk. simpl. now destruct (String.eqb_spec k ""). }
  rewrite Htruthy. simpl. rewrite Hk.
  destruct (String.eqb_spec k ""); [contradiction|]. simpl.
  unfold closeWorkspace. rewrite Hnorm.
  destruct (JSMap.get k (instances s)) eqn:Hget.
  - simpl. now apply delete_length.
  - exfalso. apply get_In_keys in Hin. contradiction.
Qed.

Lemma pool_inv_later clock now s : clock <= now -> pool_inv clock s -> pool_inv now s.
Proof.
  intros Hle [Hnd Hpast Hact Hkeys Hsize]. constructor; try assumption.
  intros k i Hk. specialize (Hpast k i Hk). lia.
Qed.

Lemma pool_inv_create clock : pool_inv clock create.
Proof.
  constructor; simpl.
  - constructor.
  - discriminate.
  - discriminate.
  - intros k [].
  - unfold JSMap.size, MAX_INSTANCES. simpl. lia.
Qed.

Lemma set_present_size {V} k (v : V) m :
  JSMap.get k m <> None -> JSMap.size (JSMap.set k v m) = JSMap.size m.
Proof.
  intros H. unfold JSMap.size. rewrite <- !keys_length.
  now rewrite keys_set_present.
Qed.

Lemma set_absent_size {V} k (v : V) m :
  JSMap.get k m = None -> JSMap.size (JSMap.set k v m) = JSMap.size m + 1.
Proof.
  intros H. unfold JSMap.size. rewrite set_absent, length_app by assumption.
  simpl. lia.
Qed.

Lemma size_deactivateAt cur m : JSMap.size (deactivateAt cur m) = JSMap.size m.
Proof.
  unfold JSMap.size. now rewrite <- !keys_length, keys_deactivateAt.
Qed.

(** After the previous workspace is deactivated no instance is active. *)
Lemma deactivate_current_all_inactive clock s :
  pool_inv clock s ->
  let m2 := match currentWorkspacePath s with
            | Some cur => if negb (String.eqb cur "")
                          then deactivateAt cur (instances s)
                          else instances s
            | None => instances s
            end in
  JSMap.keys m2 = JSMap.keys (instances s)
  /\ (forall k i, JSMap.get k m2 = Some i ->
        isActive i = false /\ lastAccessed i <= clock).
Proof.
  intros [Hnd Hpast Hact Hkeys Hsize] m2. subst m2.
  destruct (currentWorkspacePath s) as [cur|] eqn:Hcur.
  - destruct (String.eqb_spec cur "") as [->|Hne]; simpl.
    + split; [reflexivity|]. intros k i Hk. split; [|eauto].
      destruct (isActive i) eqn:Ha; [|reflexivity].
      pose proof (Hact k i Hk Ha) as E. injection E as <-.
      assert (Hin : In "" (JSMap.keys (instances s)))
        by (apply get_In_keys; congruence).
      destruct (Hkeys "" Hin) as [Hn _]. congruence.
    + split; [apply keys_deactivateAt|]. intros k i Hk.
      rewrite get_deactivateAt in Hk.
      destruct (JSMap.get k (instances s)) as [i0|] eqn:Hk0; [|discriminate].
      injection Hk as <-.
      destruct (String.eqb_spec cur k) as [->|Hne'].
      * split; [reflexivity|]. simpl. eauto.
      * split; [|eauto]. destruct (isActive i0) eqn:Ha; [|reflexivity].
        pose proof (Hact k i0 Hk0 Ha) as E. congruence.
  - split; [reflexivity|]. intros k i Hk. split; [|eauto].
    destruct (isActive i) eqn:Ha; [|reflexivity].
    pose proof (Hact k i Hk Ha) as E. discriminate.
Qed.

Lemma getOrCreateContext_inv clock now env p s :
  pool_inv clock s -> clock < now ->
  pool_inv now (snd (getOrCreateContext env now p s)).
Proof.
  intros Hinv Hlt. unfold getOrCreateContext.
  set (np := normalizePath p).
  destruct (JSMap.get np (instances s)) as [inst|] eqn:Hget.
  - (* the workspace is pooled *)
    destruct Hinv as [Hnd Hpast Hact Hkeys Hsize]. simpl.
    set (inst' := mkInstance (context inst) (workspacePath inst) (createdAt inst) now true).
    set (m1 := JSMap.set np inst' (instances s)).
    assert (Hk1 : JSMap.keys m1 = JSMap.keys (instances s))
      by (apply keys_set_present; congruence).
    assert (Hg1 : forall k i, JSMap.get k m1 = Some i ->
              (k = np /\ i = inst') \/ (k <> np /\ JSMap.get k (instances s) = Some i)).
    { intros k i Hk. unfold m1 in Hk.
      destruct (String.eqb_spec np k) as [<-|Hne].
      - rewrite get_set_eq in Hk. left. split; congruence.
      - rewrite get_set_ne in Hk by assumption. right. split; congruence. }
    set (m2 := match currentWorkspacePath s with
               | Some cur => if negb (String.eqb cur "") && negb (String.eqb cur np)
                             then deactivateAt cur m1 else m1
               | None => m1 end).
    assert (Hk2 : JSMap.keys m2 = JSMap.keys (instances s)).
    { unfold m2. destruct (currentWorkspacePath s) as [cur|]; [|assumption].
      destruct (negb (String.eqb cur "") && negb (String.eqb cur np));
        [now rewrite keys_deactivateAt|assumption]. }
    assert (Hg2 : forall k i, JSMap.get k m2 = Some i ->
              lastAccessed i <= now /\ (isActive i = true -> k = np)).
    { intros k i Hk. unfold m2 in Hk.
      assert (Hbase : forall i0, JSMap.get k m1 = Some i0 ->
                lastAccessed i0 <= now
                /\ (isActive i0 = true -> k = np \/ currentWorkspacePath s = Some k)).
      { intros i0 Hk0. destruct (Hg1 k i0 Hk0) as [[-> ->]|[Hne Hk']].
        - simpl. split; [lia|auto].
        - split; [specialize (Hpast k i0 Hk'); lia|]. intros Ha. right. eauto. }
      destruct (currentWorkspacePath s) as [cur|] eqn:Hcur.
      - destruct (String.eqb_spec cur "") as [->|Hne]; simpl in Hk.
        + destruct (Hbase i Hk) as [Hl Ha]. split; [assumption|].
          intros Hact'. destruct (Ha Hact') as [|E]; [assumption|].
          injection E as <-.
          assert (Hin : In "" (JSMap.keys (instances s))).
          { rewrite <- Hk1. apply get_In_keys. congruence. }
          destruct (Hkeys "" Hin) as [Hn _]. congruence.
        + destruct (String.eqb_spec cur np) as [->|Hne']; simpl in Hk.
          * destruct (Hbase i Hk) as [Hl Ha]. split; [assumption|].
            intros Hact'. destruct (Ha Hact') as [|E]; [assumption|congruence].
          * rewrite get_deactivateAt in Hk.
            destruct (JSMap.get k m1) as [i0|] eqn:Hk0; [|discriminate].
            injection Hk as <-. destruct (Hbase i0 eq_refl) as [Hl Ha].
            destruct (String.eqb_spec cur k) as [->|Hne''].
            -- split; [exact Hl|]. simpl. discriminate.
            -- split; [exact Hl|]. intros Hact'.
               destruct (Ha Hact') as [|E]; [assumption|congruence].
      - destruct (Hbase i Hk) as [Hl Ha]. split; [assumption|].
        intros Hact'. destruct (Ha Hact') as [|E]; [assumption|discriminate]. }
    assert (Hs2 : JSMap.size m2 = JSMap.size (instances s)).
    { unfold JSMap.size. now rewrite <- !keys_length, Hk2. }
    clearbody m2. constructor; simpl.
    + now rewrite Hk2.
    + intros k i Hk. now apply (Hg2 k i).
    + intros k i Hk Ha. f_equal. symmetry. now apply (Hg2 k i).
    + intros k Hk. rewrite Hk2 in Hk. auto.
    + now rewrite Hs2.
  - (* a new workspace *)
    set (s1 := if JSMap.size (instances s) >=? MAX_INSTANCES
               then evictOldestInactiveInstance now s else s).
    assert (Hinv1 : pool_inv clock s1).
    { unfold s1. destruct (JSMap.size (instances s) >=? MAX_INSTANCES);
        [now apply evict_inv|assumption]. }
    assert (Hsz1 : JSMap.size (instances s1) + 1 <= MAX_INSTANCES).
    { unfold s1. destruct (JSMap.size (instances s) >=? MAX_INSTANCES) eqn:Hge.
      - apply Z.geb_le in Hge. pose proof (pi_size _ _ Hinv) as Hle.
        rewrite (evict_makes_room clock) by (try assumption; unfold MAX_INSTANCES in *; lia).
        lia.
      - rewrite Z.geb_leb in Hge. apply Z.leb_gt in Hge. lia. }
    assert (Hnone1 : JSMap.get np (instances s1) = None).
    { unfold s1. destruct (JSMap.size (instances s) >=? MAX_INSTANCES);
        [now apply evict_get|assumption]. }
    destruct (deactivate_current_all_inactive clock s1 Hinv1) as [Hk2 Hg2].
    set (m2 := match currentWorkspacePath s1 with
               | Some cur => if negb (String.eqb cur "")
                             then deactivateAt cur (instances s1)
                             else instances s1
               | None => instances s1 end) in *.
    assert (Hnone2 : JSMap.get np m2 = None).
    { apply get_None_notin. rewrite Hk2. now apply get_None_notin. }
    assert (Hs2 : JSMap.size m2 = JSMap.size (instances s1)).
    { unfold JSMap.size. now rewrite <- !keys_length, Hk2. }
    destruct Hinv1 as [Hnd Hpast Hact Hkeys Hsize].
    clearbody m2.
    destruct (LightweightContext.initialize env now np LightweightContext.create)
      as [[u|message] context'] eqn:Hinit; simpl.
    + assert (Hnp : np <> "").
      { intros E. rewrite E in Hinit.
        destruct (initialize_empty_path_throws env now) as (msg & c & Hthrow).
        congruence. }
      set (inst := mkInstance context' np now now true).
      assert (Hkeys3 : JSMap.keys (JSMap.set np inst m2) = JSMap.keys m2 ++ [np]).
      { rewrite set_absent by assumption. unfold JSMap.keys. now rewrite map_app. }
      constructor; simpl.
      * rewrite Hkeys3. apply NoDup_snoc; [now rewrite Hk2|].
        now apply get_None_notin.
      * intros k i Hk. destruct (String.eqb_spec np k) as [<-|Hne].
        -- rewrite get_set_eq in Hk. injection Hk as <-. simpl. lia.
        -- rewrite get_set_ne in Hk by assumption.
           destruct (Hg2 k i Hk) as [_ Hl]. lia.
      * intros k i Hk Ha. destruct (String.eqb_spec np k) as [<-|Hne]; [reflexivity|].
        rewrite get_set_ne in Hk by assumption.
        destruct (Hg2 k i Hk) as [Hf _]. congruence.
      * intros k Hk. rewrite Hkeys3, in_app_iff, Hk2 in Hk.
        destruct Hk as [Hk|[<-|[]]]; [auto|].
        split; [assumption|apply normalizePath_idem].
      * rewrite set_absent_size by assumption. lia.
    + set (inst := mkInstance context' np now now true).
      assert (Hg3 : forall k i,
                JSMap.get k (JSMap.delete np (JSMap.set np inst m2)) = Some i ->
                JSMap.get k m2 = Some i).
      { intros k i Hk. destruct (String.eqb_spec np k) as [<-|Hne].
        - now rewrite get_delete_eq in Hk.
        - rewrite get_delete_ne, get_set_ne in Hk by assumption. exact Hk. }
      constructor; simpl.
      * rewrite keys_delete. apply NoDup_drop.
        rewrite set_absent by assumption. unfold JSMap.keys. rewrite map_app.
        apply NoDup_snoc; [fold (JSMap.keys m2); now rewrite Hk2|].
        now apply get_None_notin.
      * intros k i Hk. apply Hg3 in Hk. destruct (Hg2 k i Hk) as [_ Hl]. lia.
      * intros k i Hk Ha. apply Hg3 in Hk. destruct (Hg2 k i Hk) as [Hf _].
        congruence.
      * intros k Hk. apply get_In_keys in Hk.
        destruct (JSMap.get k (JSMap.delete np (JSMap.set np inst m2))) as [i|] eqn:Hk';
          [|congruence].
        apply Hg3 in Hk'. apply Hkeys. rewrite <- Hk2. apply get_In_keys. congruence.
      * pose proof (delete_size_le np (JSMap.set np inst m2)) as Hle.
        rewrite set_absent_size in Hle by assumption. lia.
Qed.

Lemma closeAll_inv clock ps s :
  pool_inv clock s ->
  pool_inv clock (fold_left (fun acc p => closeWorkspace p acc) ps s).
Proof.
  revert s. induction ps as [|p ps IH]; intros s Hinv; simpl; [assumption|].
  apply IH. now apply closeWorkspace_inv.
Qed.

Lemma pool_step_inv env clock now o s :
  pool_inv clock s -> clock < now -> pool_inv now (pool_step env now o s).
Proof.
  intros Hinv Hlt. destruct o as [p|p|]; simpl.
  - now apply (getOrCreateContext_inv clock).
  - apply (pool_inv_later clock); [lia|]. now apply closeWorkspace_inv.
  - apply (pool_inv_later clock); [lia|]. now apply closeAll_inv.
Qed.

Lemma pool_run_inv env trace : forall clock s,
  pool_inv clock s ->
  Forall (fun step => clock < fst step) trace ->
  StronglySorted Z.lt (map fst trace) ->
  exists clock', pool_inv clock' (pool_run env trace s).
Proof.
  induction trace as [|[now o] rest IH]; intros clock s Hinv Hall Hsorted.
  - exists clock. exact Hinv.
  - inversion Hall as [|? ? Hnow _]; subst. simpl in Hnow.
    simpl in Hsorted. inversion Hsorted as [|? ? Hs Hlt]; subst.
    unfold pool_run. simpl. apply (IH now).
    + now apply (pool_step_inv env clock).
    + rewrite Forall_forall in *. intros step Hstep.
      apply Hlt. now apply in_map.
    + exact Hs.
Qed.

(** X22.  When every operation happens at a later clock reading than the
    one before it, the pool never holds more than [MAX_INSTANCES]
    instances. *)
Theorem pool_bounded_when_clock_advances env trace :
  StronglySorted Z.lt (map fst trace) ->
  JSMap.size (instances (pool_run env trace create)) <= MAX_INSTANCES.
Proof.
  intros Hsorted.
  destruct trace as [|[now o] rest].
  - unfold JSMap.size, MAX_INSTANCES. simpl. lia.
  - destruct (pool_run_inv env ((now, o) :: rest) (now - 1) create) as [clock Hinv].
    + apply pool_inv_create.
    + simpl in Hsorted. inversion Hsorted as [|? ? Hs Hlt]; subst.
      constructor; [simpl; lia|].
      rewrite Forall_forall in *. intros step Hstep.
      assert (now < fst step) by (apply Hlt; now apply in_map). lia.
    + exact Hsorted.
    + apply Hinv.
Qed.
End PoolFacts.

(** ** Workspace Index: the scan respects [MAX_FILES] *)

Section SetSize.
Context {V : Type}.
Implicit Types (c : LRUCache.t V).

Lemma set_size_le k (v : LRUCache.CacheEntry V) m :
  JSMap.size (JSMap.set k v m) <= JSMap.size m + 1.
Proof.
  destruct (JSMap.get k m) eqn:H.
  - rewrite set_present_size by congruence. lia.
  - rewrite set_absent_size by assumption. lia.
Qed.

Lemma lru_delete_shape key c :
  LRUCache.size (snd (LRUCache.delete key c)) <= LRUCache.size c
  /\ LRUCache.maxSize (snd (LRUCache.delete key c)) = LRUCache.maxSize c
  /\ LRUCache.maxAge (snd (LRUCache.delete key c)) = LRUCache.maxAge c.
Proof.
  unfold LRUCache.delete. destruct (JSMap.has key (LRUCache.cache c)); simpl.
  - split; [apply delete_size_le|split; reflexivity].
  - split; [lia|split; reflexivity].
Qed.

Lemma lru_fold_delete_shape ks c :
  let c' := fold_left (fun acc key => snd (LRUCache.delete key acc)) ks c in
  LRUCache.size c' <= LRUCache.size c
  /\ LRUCache.maxSize c' = LRUCache.maxSize c
  /\ LRUCache.maxAge c' = LRUCache.maxAge c.
Proof.
  revert c. induction ks as [|k ks IH]; intros c; simpl.
  - split; [lia|split; reflexivity].
  - destruct (IH (snd (LRUCache.delete k c))) as (H1 & H2 & H3).
    destruct (lru_delete_shape k c) as (G1 & G2 & G3).
    split; [lia|split; congruence].
Qed.

Lemma evictLoop_size M order (m : JSMap.t (LRUCache.CacheEntry V)) :
  JSMap.size (fst (LRUCache.evictLoop M m order)) <= JSMap.size m.
Proof.
  revert m. induction order as [|k rest IH]; intros m; simpl; [lia|].
  destruct (JSMap.size m >=? M); simpl; [|lia].
  specialize (IH (JSMap.delete k m)).
  pose proof (delete_size_le k m). lia.
Qed.

Lemma evict_shape now c :
  LRUCache.size (LRUCache.evictLeastRecentlyUsed now c) <= LRUCache.size c
  /\ LRUCache.maxSize (LRUCache.evictLeastRecentlyUsed now c) = LRUCache.maxSize c
  /\ LRUCache.maxAge (LRUCache.evictLeastRecentlyUsed now c) = LRUCache.maxAge c.
Proof.
  unfold LRUCache.evictLeastRecentlyUsed, LRUCache.cleanupExpired.
  destruct (lru_fold_delete_shape (LRUCache.expiredKeys now c) c) as (H1 & H2 & H3).
  set (c1 := fold_left _ _ c) in *. clearbody c1.
  pose proof (evictLoop_size (LRUCache.maxSize c1) (LRUCache.accessOrder c1)
                (LRUCache.cache c1)) as Hl.
  destruct (LRUCache.evictLoop (LRUCache.maxSize c1) (LRUCache.cache c1)
              (LRUCache.accessOrder c1)) as [m order].
  simpl in *. unfold LRUCache.size in *. simpl. split; [lia|split; assumption].
Qed.

(** A [set] adds at most one entry and keeps the configuration. *)
Lemma lru_set_shape now key v c :
  LRUCache.size (LRUCache.set now key v c) <= LRUCache.size c + 1
  /\ LRUCache.maxSize (LRUCache.set now key v c) = LRUCache.maxSize c
  /\ LRUCache.maxAge (LRUCache.set now key v c) = LRUCache.maxAge c.
Proof.
  unfold LRUCache.set.
  destruct (JSMap.get key (LRUCache.cache c)) as [e|] eqn:Hget.
  - unfold LRUCache.size; simpl. rewrite set_present_size by congruence.
    split; [lia|split; reflexivity].
  - destruct (LRUCache.size c >=? LRUCache.maxSize c).
    + destruct (evict_shape now c) as (H1 & H2 & H3).
      set (c1 := LRUCache.evictLeastRecentlyUsed now c) in *. clearbody c1.
      unfold LRUCache.size in *; simpl.
      pose proof (set_size_le key (LRUCache.mkEntry v now 1) (LRUCache.cache c1)).
      split; [lia|split; assumption].
    + unfold LRUCache.size; simpl.
      pose proof (set_size_le key (LRUCache.mkEntry v now 1) (LRUCache.cache c)).
      split; [lia|split; reflexivity].
Qed.
End SetSize.

Section ScanBound.
Import LightweightContext.

(** Every default ignore pattern with a [*] becomes a source made of
    literal characters, [.] and [.*]. *)
Lemma default_patterns_simple :
  forallb (fun pattern =>
             negb (str_includes "*" pattern)
             || match simple_tokens (star_to_dotstar pattern) with
                | Some _ => true
                | None => false
                end)
          default_ignorePatterns = true.
Proof. reflexivity. Qed.

Lemma scan_keeps_refl c : scan_keeps c c.
Proof. unfold scan_keeps. auto. Qed.

Lemma scan_keeps_trans c1 c2 c3 :
  scan_keeps c1 c2 -> scan_keeps c2 c3 -> scan_keeps c1 c3.
Proof.
  unfold scan_keeps. intros (A1 & A2 & A3) (B1 & B2 & B3).
  split; [congruence|]. split; [congruence|auto].
Qed.

Lemma scanEntry_keeps now fullPath entry size mtime c :
  scan_keeps c (snd (scanEntry now fullPath entry size mtime c)).
Proof.
  unfold scanEntry.
  destruct ((size >? MAX_FILE_SIZE) || isBinaryFile entry); [apply scan_keeps_refl|].
  destruct (LRUCache.size (fileCache c) >=? MAX_FILES c) eqn:Hge;
    [apply scan_keeps_refl|].
  rewrite Z.geb_leb in Hge. apply Z.leb_gt in Hge.
  unfold scan_keeps, getCacheSize. simpl.
  match goal with |- context [LRUCache.set ?n ?k ?v ?fc] =>
    destruct (lru_set_shape n k v fc) as (H1 & H2 & H3) end.
  split; [reflexivity|]. split; [assumption|]. intros _. lia.
Qed.

(** The equations of the scan. *)
Lemma scanEntries_cons scanChild env now dirPath entry n rest c k :
  scanEntries scanChild env now dirPath ((entry, n) :: rest) c k
  = let fullPath := path_join dirPath entry in
    let '(found, (c1, k1)) :=
      match n with
      | Dir _ =>
          match scanChild fullPath n c (S k) with
          | (Ok files, st) => (files, st)
          | (Throw _, st) => ([], st)
          end
      | File size mtime _ =>
          let '(files, c') :=
            scanEntry (dateNow env now (S k)) fullPath entry size mtime c in
          (files, (c', S k))
      | Broken => ([], (c, S k))
      end in
    let '(more, st2) := scanEntries scanChild env now dirPath rest c1 k1 in
    (found ++ more, st2).
Proof. reflexivity. Qed.

Lemma scanDirectory_eq env now depth dirPath n c k :
  scanDirectory env now depth dirPath n c k
  = if depth >? 8 then (Ok [], (c, k))
    else if isDestroyed c then (Ok [], (c, k))
    else
      match shouldIgnore env c (path_relative (workspacePath c) dirPath) with
      | Throw message => (Throw message, (c, k))
      | Ok true => (Ok [], (c, k))
      | Ok false =>
          match n with
          | Dir (Some entries) =>
              let '(files, st) :=
                scanEntries
                  (fun p child c' k' =>
                     scanDirectory env now (depth + 1) p child c' k')
                  env now dirPath entries c k in
              (Ok files, st)
          | _ => (Ok [], (c, k))
          end
      end.
Proof. destruct n; reflexivity. Qed.

(** The scan of a directory that throws has changed nothing: the error
    comes from [shouldIgnore], before the first entry is read. *)
Lemma scanDirectory_throw env now depth dirPath n c k message :
  fst (scanDirectory env now depth dirPath n c k) = Throw message ->
  snd (scanDirectory env now depth dirPath n c k) = (c, k)
  /\ shouldIgnore env c (path_relative (workspacePath c) dirPath)
     = Throw message.
Proof.
  rewrite scanDirectory_eq.
  destruct (depth >? 8); [discriminate|].
  destruct (isDestroyed c); [discriminate|].
  destruct (shouldIgnore env c (path_relative (workspacePath c) dirPath))
    as [[|]|m]; simpl; try discriminate.
  - destruct n as [size mtime content|[entries|]|]; try discriminate.
    destruct (scanEntries _ env now dirPath entries c k). discriminate.
  - intros E. injection E as ->. auto.
Qed.

(** A relation between the states of a scan (the context and the count of
    entries visited) that holds across an entry that is skipped and across
    the scan of one file holds across the scan of a directory. *)
Lemma scanDirectory_rel env now (R : t * nat -> t * nat -> Prop) :
  (forall a, R a a) ->
  (forall a b d, R a b -> R b d -> R a d) ->
  (forall c k, R (c, k) (c, S k)) ->
  (forall fullPath entry size mtime c k,
      R (c, k)
        (snd (scanEntry (dateNow env now (S k)) fullPath entry size mtime c),
         S k)) ->
  forall (n : node) depth dirPath c k,
    R (c, k) (snd (scanDirectory env now depth dirPath n c k)).
Proof.
  intros Hrefl Htrans Htick Hentry n.
  induction n as [size mtime content| |entries IH|] using node_tree_ind;
    intros depth dirPath c k; rewrite scanDirectory_eq;
    (destruct (depth >? 8); [apply Hrefl|]);
    (destruct (isDestroyed c); [apply Hrefl|]);
    (destruct (shouldIgnore env c (path_relative (workspacePath c) dirPath))
       as [[|]|m]; [apply Hrefl| |apply Hrefl]);
    try apply Hrefl.
  set (scanChild := fun p child c' k' =>
                      scanDirectory env now (depth + 1) p child c' k').
  assert (Hall : forall c k,
             R (c, k) (snd (scanEntries scanChild env now dirPath entries c k))).
  { clear c k. induction entries as [|[entry child] rest IHrest]; intros c k.
    - apply Hrefl.
    - inversion IH as [|? ? Hchild Hrest]; subst. simpl in Hchild.
      specialize (IHrest Hrest). rewrite scanEntries_cons. cbv zeta.
      destruct child as [size mtime content|children|].
      + pose proof (Hentry (path_join dirPath entry) entry size mtime c k) as Hs.
        destruct (scanEntry (dateNow env now (S k)) (path_join dirPath entry)
                    entry size mtime c) as [files c'].
        simpl in Hs. specialize (IHrest c' (S k)).
        destruct (scanEntries scanChild env now dirPath rest c' (S k))
          as [more st2].
        simpl in *. eapply Htrans; eassumption.
      + pose proof (Hchild (depth + 1) (path_join dirPath entry) c (S k)) as Hs.
        fold (scanChild (path_join dirPath entry) (Dir children) c (S k)) in Hs.
        destruct (scanChild (path_join dirPath entry) (Dir children) c (S k))
          as [[files|m] [c1 k1]]; simpl in Hs;
          specialize (IHrest c1 k1);
          destruct (scanEntries scanChild env now dirPath rest c1 k1)
            as [more st2];
          simpl in *;
          (eapply Htrans; [apply Htick|]; eapply Htrans; eassumption).
      + specialize (IHrest c (S k)).
        destruct (scanEntries scanChild env now dirPath rest c (S k))
          as [more st2].
        simpl in *. eapply Htrans; [apply Htick|eassumption]. }
  specialize (Hall c k).
  destruct (scanEntries scanChild env now dirPath entries c k) as [files st].
  exact Hall.
Qed.

Lemma scanEntry_isDestroyed now fullPath entry size mtime c :
  isDestroyed (snd (scanEntry now fullPath entry size mtime c)) = isDestroyed c.
Proof.
  unfold scanEntry.
  destruct ((size >? MAX_FILE_SIZE) || isBinaryFile entry); [reflexivity|].
  destruct (LRUCache.size (fileCache c) >=? MAX_FILES c); reflexivity.
Qed.

Lemma scanDirectory_keeps env now (n : node) depth dirPath c k :
  scan_keeps c (fst (snd (scanDirectory env now depth dirPath n c k))).
Proof.
  apply (scanDirectory_rel env now (fun a b => scan_keeps (fst a) (fst b))).
  - intros a. apply scan_keeps_refl.
  - intros a b d. apply scan_keeps_trans.
  - intros c0 k0. apply scan_keeps_refl.
  - intros fullPath entry size mtime c0 k0. apply scanEntry_keeps.
Qed.

Lemma scanDirectory_isDestroyed env now (n : node) depth dirPath c k :
  isDestroyed (fst (snd (scanDirectory env now depth dirPath n c k)))
  = isDestroyed c.
Proof.
  apply (scanDirectory_rel env now
           (fun a b => isDestroyed (fst b) = isDestroyed (fst a))).
  - reflexivity.
  - intros a b d H1 H2. congruence.
  - reflexivity.
  - intros fullPath entry size mtime c0 k0. apply scanEntry_isDestroyed.
Qed.

Lemma stopWatching_same c : same_cache c (stopWatching c).
Proof.
  unfold stopWatching, same_cache.
  destruct (fileWatcherCleanup c); simpl;
    match goal with |- context [String.eqb ?a ?b] => destruct (String.eqb a b) end;
    simpl; auto.
Qed.

Lemma startWatching_same c : same_cache c (startWatching c).
Proof.
  unfold startWatching, same_cache.
  destruct (String.eqb (workspacePath c) "" || isDestroyed c); simpl; auto.
  destruct (fileWatcherCleanup c); simpl; auto.
Qed.

Lemma startMemoryMonitor_same c : same_cache c (startMemoryMonitor c).
Proof.
  unfold startMemoryMonitor, stopMemoryMonitor, same_cache.
  destruct (isDestroyed c) eqn:Hd; simpl; auto.
  destruct (memoryMonitorInterval c); simpl; auto.
Qed.

Lemma loadGitignorePatterns_same env c : same_cache c (loadGitignorePatterns env c).
Proof.
  unfold loadGitignorePatterns, same_cache.
  destruct (readdirSync (fs env (workspacePath c))); auto.
  destruct (JSMap.get ".gitignore" l) as [[size mtime content|children|]|]; simpl; auto.
Qed.

Lemma validateWorkspacePath_shape env workspacePath c :
  let c' := validateWorkspacePath env workspacePath c in
  fileCache c' = fileCache c /\ isDestroyed c' = isDestroyed c
  /\ MAX_FILES c' <= MAX_FILES c
  /\ (0 <= MAX_FILES c -> 0 <= MAX_FILES c').
Proof.
  unfold validateWorkspacePath.
  destruct (readdirSync (fs env workspacePath)); [|simpl; intuition lia].
  destruct (countProjectLikeDirs env c l 0); [|simpl; intuition lia].
  destruct (z >=? 3); [simpl; intuition lia|].
  destruct (z =? 1); simpl; intuition lia.
Qed.

Lemma scanWorkspace_bound env now c :
  0 <= MAX_FILES c ->
  let c' := snd (scanWorkspace env now c) in
  (isDestroyed c = false -> getCacheSize c' <= MAX_FILES c')
  /\ MAX_FILES c' = MAX_FILES c
  /\ LRUCache.maxSize (fileCache c') = LRUCache.maxSize (fileCache c)
  /\ isDestroyed c' = isDestroyed c.
Proof.
  intros H0. unfold scanWorkspace.
  destruct (isDestroyed c) eqn:Hd; [simpl; intuition discriminate|].
  set (c1 := set_fileCache (LRUCache.clear (fileCache c)) c).
  assert (H1 : getCacheSize c1 <= MAX_FILES c1).
  { unfold getCacheSize, LRUCache.size, JSMap.size. simpl. exact H0. }
  set (root := match fs env (workspacePath c1) with
               | Some n => n
               | None => Broken
               end).
  pose proof (scanDirectory_keeps env now root 0 (workspacePath c1) c1 0) as Hs.
  pose proof (scanDirectory_isDestroyed env now root 0 (workspacePath c1) c1 0)
    as Hd1.
  destruct (scanDirectory env now 0 (workspacePath c1) root c1 0)
    as [[files|message] [c2 k]]; simpl in Hs, Hd1;
    destruct Hs as (K1 & K2 & K3); unfold getCacheSize in *; simpl in *;
    (split; [intros _; auto|]); (split; [assumption|]);
    (split; [assumption|]); congruence.
Qed.

(** X17.  When [initialize] succeeds, the cache holds at most [MAX_FILES]
    entries, [MAX_FILES] is at most what it was, and the capacity of the
    cache is the one it was created with. *)
Theorem initialize_scan_within_MAX_FILES env now workspacePath c r c' :
  initialize env now workspacePath c = (Ok r, c') ->
  0 <= MAX_FILES c ->
  getCacheSize c' <= MAX_FILES c'
  /\ MAX_FILES c' <= MAX_FILES c
  /\ LRUCache.maxSize (fileCache c') = LRUCache.maxSize (fileCache c).
Proof.
  intros Hinit H0. unfold initialize in Hinit.
  destruct (isDestroyed c) eqn:Hd; [discriminate|].
  destruct (stopWatching_same c) as (S1 & S2 & S3).
  set (c1 := stopWatching c) in *. clearbody c1.
  match type of Hinit with (if ?b then _ else _) = _ =>
    destruct b; [discriminate|] end.
  destruct (validateWorkspacePath_shape env workspacePath c1) as (V1 & V2 & V3 & V4).
  set (c2 := validateWorkspacePath env workspacePath c1) in *. clearbody c2.
  destruct (loadGitignorePatterns_same env (set_workspacePath workspacePath c2))
    as (L1 & L2 & L3).
  set (c4 := loadGitignorePatterns env (set_workspacePath workspacePath c2)) in *.
  clearbody c4. simpl in L1, L2, L3.
  destruct (loadWorkspaceContext env workspacePath) as [persistedData|]; [|discriminate].
  set (c5 := match persistedData with
             | Some info => set_projectInfo (Some info) c4
             | None => c4 end) in *.
  assert (P : fileCache c5 = fileCache c4 /\ MAX_FILES c5 = MAX_FILES c4
              /\ isDestroyed c5 = isDestroyed c4).
  { unfold c5. destruct persistedData; simpl; auto. }
  destruct P as (P1 & P2 & P3). clearbody c5.
  assert (H5 : 0 <= MAX_FILES c5) by (rewrite P2, L2; apply V4; lia).
  destruct (scanWorkspace_bound env now c5 H5) as (W1 & W2 & W3 & W4).
  destruct (scanWorkspace env now c5) as [[u|message] c6]; [|discriminate].
  simpl in W1, W2, W3, W4.
  assert (Hd5 : isDestroyed c5 = false) by congruence.
  specialize (W1 Hd5).
  destruct (startWatching_same c6) as (A1 & A2 & A3).
  destruct (startMemoryMonitor_same (startWatching c6)) as (B1 & B2 & B3).
  assert (Hfinal : getCacheSize (startMemoryMonitor (startWatching c6))
                   <= MAX_FILES (startMemoryMonitor (startWatching c6))
                   /\ MAX_FILES (startMemoryMonitor (startWatching c6)) <= MAX_FILES c
                   /\ LRUCache.maxSize (fileCache (startMemoryMonitor (startWatching c6)))
                      = LRUCache.maxSize (fileCache c)).
  { unfold getCacheSize in *. rewrite B1, A1, B2, A2.
    split; [exact W1|]. split; [lia|]. congruence. }
  destruct (projectInfo c6).
  - destruct (updateProjectInfo_resolves env workspacePath); [|discriminate].
    injection Hinit as _ <-. exact Hfinal.
  - injection Hinit as _ <-. exact Hfinal.
Qed.
End ScanBound.

(* ================================================================== *)
(** * Further properties of the code *)
(* ================================================================== *)

(** ** LRUCache: round trips *)

Section CacheRoundTrips.
Context {V : Type}.
Implicit Types (c : LRUCache.t V) (k key : string).

Lemma set_stores now key (v : V) c :
  exists n order,
    JSMap.get key (LRUCache.cache (LRUCache.set now key v c))
    = Some (LRUCache.mkEntry v now n)
    /\ LRUCache.accessOrder (LRUCache.set now key v c) = order ++ [key].
Proof.
  unfold LRUCache.set.
  destruct (JSMap.get key (LRUCache.cache c)) as [e|] eqn:Hget; simpl.
  - eexists. eexists. split; [apply get_set_eq|reflexivity].
  - eexists. eexists. split; [apply get_set_eq|reflexivity].
Qed.

Lemma expired_count_keys now c :
  NoDup (JSMap.keys (LRUCache.cache c)) ->
  filter (fun kv => is_expired now c (fst kv)) (LRUCache.cache c)
  = filter (fun kv => LRUCache.expired now c (snd kv)) (LRUCache.cache c).
Proof.
  intros Hnd. apply filter_ext_in. intros [k e] Hin. simpl.
  unfold is_expired. now rewrite (In_get k e) by assumption.
Qed.

Lemma filter_none {A} (p : A -> bool) (l : list A) :
  (forall x, In x l -> p x = false) -> filter p l = [].
Proof.
  induction l as [|a l IH]; simpl; intros H; [reflexivity|].
  rewrite (H a) by now left. apply IH. intros x Hx. apply H. now right.
Qed.

Lemma filter_length_split {A} (p : A -> bool) (l : list A) :
  List.length l
  = (List.length (filter p l) + List.length (filter (fun x => negb (p x)) l))%nat.
Proof.
  induction l as [|a l IH]; simpl; [reflexivity|].
  destruct (p a); simpl; lia.
Qed.
End CacheRoundTrips.

(** X1.  A value stored with [set] is returned by every [get], and
    reported by every [has], made no later than [maxAge] after the [set],
    whatever the cache held before (the key may be new or present, the
    cache may have been full); the key is then the most recently used. *)
Theorem lru_set_then_get
  (V : Type) (now now' : Z) (key : string) (v : V) (c : LRUCache.t V) :
  now' - now <= LRUCache.maxAge c ->
  fst (LRUCache.get now' key (LRUCache.set now key v c)) = Some v
  /\ fst (LRUCache.has now' key (LRUCache.set now key v c)) = true
  /\ exists order,
       LRUCache.accessOrder (LRUCache.set now key v c) = order ++ [key].
Proof.
  intros Hage.
  destruct (set_stores now key v c) as (n & order & Hget & Horder).
  destruct (lru_set_shape now key v c) as (_ & _ & HA).
  assert (Hlive : LRUCache.expired now' (LRUCache.set now key v c)
                    (LRUCache.mkEntry v now n) = false).
  { unfold LRUCache.expired. simpl. rewrite HA, Z.gtb_ltb. apply Z.ltb_ge. lia. }
  unfold LRUCache.get, LRUCache.has. rewrite Hget, Hlive. simpl.
  split; [reflexivity|]. split; [reflexivity|]. now exists order.
Qed.

Lemma lru_set_then_get_witness :
  1000 - 0 <= LRUCache.maxAge (LRUCache.create (V:=Z) 1 1000)
  /\ fst (LRUCache.get 1000 "b.ts"
            (LRUCache.set 0 "b.ts" 8
               (LRUCache.set 0 "a.ts" 7 (LRUCache.create 1 1000)))) = Some 8.
Proof.
  split; [simpl; lia|].
  apply (lru_set_then_get Z 0 1000 "b.ts" 8
           (LRUCache.set 0 "a.ts" 7 (LRUCache.create 1 1000))).
  simpl. lia.
Defined.

(** X2.  On a well-formed cache [delete] reports whether the key was
    present, removes it from the map and from the recency array, shrinks the
    size by exactly one when it was present, and leaves every other entry
    as it was; afterwards [get] and [has] miss the key, and a second
    [delete] reports [false]. *)
Theorem lru_delete_removes_only_key
  (V : Type) (t : Z) (key : string) (c : LRUCache.t V) :
  lru_inv t c ->
  let r := LRUCache.delete key c in
  fst r = JSMap.has key (LRUCache.cache c)
  /\ LRUCache.size (snd r) = LRUCache.size c - (if fst r then 1 else 0)
  /\ ~ In key (LRUCache.keys (snd r))
  /\ ~ In key (LRUCache.accessOrder (snd r))
  /\ (forall k, k <> key ->
        JSMap.get k (LRUCache.cache (snd r)) = JSMap.get k (LRUCache.cache c)
        /\ (In k (LRUCache.accessOrder (snd r)) <-> In k (LRUCache.accessOrder c)))
  /\ (forall now, LRUCache.get now key (snd r) = (None, snd r)
                  /\ LRUCache.has now key (snd r) = (false, snd r))
  /\ LRUCache.delete key (snd r) = (false, snd r)
  /\ lru_inv t (snd r).
Proof.
  intros Hinv r.
  assert (Hnone : JSMap.get key (LRUCache.cache (snd r)) = None).
  { subst r. unfold LRUCache.delete.
    destruct (JSMap.has key (LRUCache.cache c)) eqn:Hhas; simpl.
    - apply get_delete_eq.
    - unfold JSMap.has in Hhas. now destruct (JSMap.get key (LRUCache.cache c)). }
  assert (Hinv' : lru_inv t (snd r)) by (subst r; now apply inv_delete).
  splits.
  - subst r. unfold LRUCache.delete.
    now destruct (JSMap.has key (LRUCache.cache c)).
  - subst r. unfold LRUCache.delete.
    destruct (JSMap.has key (LRUCache.cache c)) eqn:Hhas; simpl; [|lia].
    unfold LRUCache.size; simpl. apply delete_length; [apply Hinv|].
    apply get_In_keys. unfold JSMap.has in Hhas.
    destruct (JSMap.get key (LRUCache.cache c)); [discriminate|discriminate].
  - unfold LRUCache.keys. now apply get_None_notin.
  - rewrite (inv_same _ _ Hinv'). now apply get_None_notin.
  - intros k Hne. subst r. rewrite (delete_remove_keys t) by assumption.
    split.
    + rewrite get_remove_keys.
      destruct (String.eqb_spec key k); [congruence|reflexivity].
    + unfold remove_keys; simpl. rewrite filter_In.
      destruct (String.eqb_spec key k); [congruence|]. simpl. tauto.
  - intros now. unfold LRUCache.get, LRUCache.has. now rewrite Hnone.
  - unfold LRUCache.delete, JSMap.has. now rewrite Hnone.
  - exact Hinv'.
Qed.

Lemma lru_delete_removes_only_key_witness :
  let c := LRUCache.set 2 "b.ts" 8 (LRUCache.set 1 "a.ts" 7 (LRUCache.create 3 1000)) in
  lru_inv 2 c
  /\ fst (LRUCache.delete "a.ts" c) = true
  /\ LRUCache.size (snd (LRUCache.delete "a.ts" c)) = 1.
Proof.
  intros c.
  assert (Hinv : lru_inv 2 c).
  { pose proof (cache_run_ok [(1%N, OpSet "a.ts" 7); (1%N, OpSet "b.ts" 8)]
                  0 (LRUCache.create 3 1000) (inv_create _ _ _)) as H.
    destruct H as (_ & H & _); [simpl; lia|vm_compute; discriminate|exact H]. }
  split; [exact Hinv|].
  destruct (lru_delete_removes_only_key Z 2 "a.ts" c Hinv) as (H1 & H2 & _).
  split; [reflexivity|]. exact H2.
Defined.

(** X3.  On a well-formed cache [forceCleanup] removes exactly the entries
    that are past their age limit: it returns their number, which is the
    [expiredEntries] figure of [getStats]; an entry that is not expired keeps
    its binding; afterwards [getStats] counts no expired entry and a second
    [forceCleanup] at the same instant removes nothing. *)
Theorem lru_forceCleanup_removes_exactly_expired
  (V : Type) (t now : Z) (c : LRUCache.t V) :
  lru_inv t c ->
  let r := LRUCache.forceCleanup now c in
  fst r = LRUCache.st_expiredEntries (LRUCache.getStats now c)
  /\ LRUCache.size (snd r) = LRUCache.size c - fst r
  /\ (forall k, JSMap.get k (LRUCache.cache (snd r))
                = if is_expired now c k then None
                  else JSMap.get k (LRUCache.cache c))
  /\ (forall k, In k (LRUCache.accessOrder (snd r))
                <-> In k (LRUCache.accessOrder c) /\ is_expired now c k = false)
  /\ LRUCache.st_expiredEntries (LRUCache.getStats now (snd r)) = 0
  /\ LRUCache.forceCleanup now (snd r) = (0, snd r)
  /\ lru_inv t (snd r).
Proof.
  intros Hinv r.
  assert (Hr : snd r = remove_keys (is_expired now c) c).
  { subst r. unfold LRUCache.forceCleanup. simpl.
    now apply (cleanupExpired_remove_keys now t). }
  assert (Hnd : NoDup (JSMap.keys (LRUCache.cache c))) by apply Hinv.
  assert (Hinv' : lru_inv t (snd r)) by (rewrite Hr; now apply inv_remove_keys).
  assert (Hcount : LRUCache.size c - LRUCache.size (snd r)
                   = Z.of_nat (List.length
                       (filter (LRUCache.expired now c)
                               (JSMap.values (LRUCache.cache c))))).
  { rewrite Hr. unfold LRUCache.size, JSMap.size, remove_keys; simpl.
    rewrite (filter_length_split (fun kv => is_expired now c (fst kv))
                                 (LRUCache.cache c)).
    rewrite expired_count_keys by assumption.
    unfold JSMap.values.
    assert (Hmap : forall (l : JSMap.t (LRUCache.CacheEntry V)),
               List.length (filter (LRUCache.expired now c) (map snd l))
               = List.length (filter (fun kv => LRUCache.expired now c (snd kv)) l)).
    { induction l as [|[k e] l IH]; simpl; [reflexivity|].
      destruct (LRUCache.expired now c e); simpl; now rewrite IH. }
    rewrite Hmap.
    rewrite <- (expired_count_keys now c Hnd). lia. }
  assert (Hclean : forall kv, In kv (LRUCache.cache (snd r)) ->
                              LRUCache.expired now (snd r) (snd kv) = false).
  { intros [k e] Hin. rewrite Hr in Hin. unfold remove_keys in Hin; simpl in Hin.
    apply filter_In in Hin as [Hin Hk]. simpl in *.
    apply negb_true_iff in Hk. unfold is_expired in Hk.
    rewrite (In_get k e) in Hk by assumption.
    rewrite Hr. exact Hk. }
  assert (Hnoexp : filter (fun kv => LRUCache.expired now (snd r) (snd kv))
                          (LRUCache.cache (snd r)) = []).
  { apply filter_none. exact Hclean. }
  assert (Hfst : fst r = LRUCache.size c - LRUCache.size (snd r)) by reflexivity.
  clearbody r. splits.
  - rewrite Hfst, Hcount. reflexivity.
  - lia.
  - intros k. rewrite Hr. apply get_remove_keys.
  - intros k. rewrite Hr. unfold remove_keys; simpl. rewrite filter_In.
    now rewrite negb_true_iff.
  - unfold LRUCache.getStats, LRUCache.st_expiredEntries, JSMap.values.
    assert (Hmap : forall (l : JSMap.t (LRUCache.CacheEntry V)),
               filter (LRUCache.expired now (snd r)) (map snd l)
               = map snd (filter (fun kv => LRUCache.expired now (snd r) (snd kv)) l)).
    { induction l as [|[k e] l IH]; simpl; [reflexivity|].
      destruct (LRUCache.expired now (snd r) e); simpl; now rewrite IH. }
    rewrite Hmap, Hnoexp. reflexivity.
  - unfold LRUCache.forceCleanup.
    assert (Hsame : LRUCache.cleanupExpired now (snd r) = snd r).
    { unfold LRUCache.cleanupExpired, LRUCache.expiredKeys.
      rewrite Hnoexp. reflexivity. }
    rewrite Hsame. f_equal. lia.
  - exact Hinv'.
Qed.

Lemma lru_forceCleanup_removes_exactly_expired_witness :
  let c := LRUCache.set 900 "b.ts" 8 (LRUCache.set 1 "a.ts" 7 (LRUCache.create 3 1000)) in
  lru_inv 900 c
  /\ fst (LRUCache.forceCleanup 1500 c) = 1
  /\ LRUCache.keys (snd (LRUCache.forceCleanup 1500 c)) = ["b.ts"].
Proof.
  intros c.
  assert (Hinv : lru_inv 900 c).
  { pose proof (cache_run_ok [(1%N, OpSet "a.ts" 7); (899%N, OpSet "b.ts" 8)]
                  0 (LRUCache.create 3 1000) (inv_create _ _ _)) as H.
    destruct H as (_ & H & _); [simpl; lia|vm_compute; discriminate|exact H]. }
  split; [exact Hinv|].
  destruct (lru_forceCleanup_removes_exactly_expired Z 900 1500 c Hinv)
    as (H1 & _).
  split; [rewrite H1; reflexivity|reflexivity].
Defined.

(** X4.  A [set] on a key that is present never evicts: the cache keeps
    its size and its keys, every other entry is untouched, also when the
    cache is at or above its capacity and when entries are expired; the key
    becomes the most recently used one. *)
Theorem lru_update_never_evicts
  (V : Type) (now : Z) (key : string) (v : V) (c : LRUCache.t V)
  (e : LRUCache.CacheEntry V) :
  JSMap.get key (LRUCache.cache c) = Some e ->
  let c' := LRUCache.set now key v c in
  LRUCache.size c' = LRUCache.size c
  /\ LRUCache.keys c' = LRUCache.keys c
  /\ (forall k, k <> key ->
        JSMap.get k (LRUCache.cache c') = JSMap.get k (LRUCache.cache c))
  /\ (forall k, In k (LRUCache.accessOrder c) -> In k (LRUCache.accessOrder c'))
  /\ exists order, LRUCache.accessOrder c' = order ++ [key].
Proof.
  intros Hget c'. subst c'. unfold LRUCache.set. rewrite Hget. simpl.
  splits.
  - unfold LRUCache.size; simpl. apply set_present_size. congruence.
  - unfold LRUCache.keys; simpl. apply keys_set_present. congruence.
  - intros k Hne. apply get_set_ne. congruence.
  - intros k Hin. apply in_or_app.
    destruct (String.eqb_spec k key) as [->|Hne]; [right; now left|left].
    clear Hget. induction (LRUCache.accessOrder c) as [|x l IH]; [destruct Hin|].
    simpl. destruct (String.eqb_spec key x) as [<-|Hx].
    + destruct Hin as [Heq|Hin]; [congruence|exact Hin].
    + destruct Hin as [Heq|Hin]; [now left|right; now apply IH].
  - eexists. reflexivity.
Qed.

Lemma lru_update_never_evicts_witness :
  let c := LRUCache.set 2 "b.ts" 8 (LRUCache.set 1 "a.ts" 7 (LRUCache.create 2 10)) in
  LRUCache.size (LRUCache.set 500 "a.ts" 9 c) = LRUCache.size c
  /\ LRUCache.keys (LRUCache.set 500 "a.ts" 9 c) = ["a.ts"; "b.ts"].
Proof.
  intros c.
  destruct (lru_update_never_evicts Z 500 "a.ts" 9 c (LRUCache.mkEntry 7 1 1) eq_refl)
    as (H1 & H2 & _).
  split; [exact H1|exact H2].
Defined.

(** ** FileWatcherService: fallback mode *)

Section FallbackFacts.
Import FileWatcherService.

Lemma JSSet_add_NoDup x s : NoDup s -> NoDup (JSSet.add x s).
Proof.
  intros Hnd. unfold JSSet.add. destruct (JSSet.has x s) eqn:H; [assumption|].
  apply NoDup_snoc; [assumption|]. intros Hin.
  apply JSSet_has_In in Hin. congruence.
Qed.

Lemma JSSet_add_size x s : JSSet.size s <= JSSet.size (JSSet.add x s).
Proof.
  unfold JSSet.add, JSSet.size. destruct (JSSet.has x s); [lia|].
  rewrite length_app. simpl. lia.
Qed.

Lemma markDirectoryFailed_failed d s :
  failedDirectories (markDirectoryFailed d s) = JSSet.add d (failedDirectories s).
Proof.
  unfold markDirectoryFailed.
  destruct (JSSet.size (JSSet.add d (failedDirectories s)) >=? 3); reflexivity.
Qed.

Lemma markDirectoryFailed_mode d s :
  fallbackMode (markDirectoryFailed d s)
  = (fallbackMode s || (3 <=? JSSet.size (JSSet.add d (failedDirectories s)))).
Proof.
  unfold markDirectoryFailed. rewrite Z.geb_leb.
  destruct (3 <=? JSSet.size (JSSet.add d (failedDirectories s))); simpl.
  - now rewrite orb_true_r.
  - now rewrite orb_false_r.
Qed.

Lemma markDirectoryFailed_reason d s :
  fallbackReason (markDirectoryFailed d s)
  = if 3 <=? JSSet.size (JSSet.add d (failedDirectories s))
    then Some (MultipleFailures (JSSet.size (JSSet.add d (failedDirectories s))))
    else fallbackReason s.
Proof.
  unfold markDirectoryFailed. rewrite Z.geb_leb.
  destruct (3 <=? JSSet.size (JSSet.add d (failedDirectories s))); reflexivity.
Qed.

(** The failures recorded by a sequence of [markDirectoryFailed] calls. *)
Lemma mark_failed_fold ds : forall s,
  NoDup (failedDirectories s) ->
  fallbackMode s = (3 <=? JSSet.size (failedDirectories s)) ->
  (fallbackMode s = true ->
   exists n, fallbackReason s = Some (MultipleFailures n) /\ 3 <= n) ->
  let s' := fold_left (fun acc d => markDirectoryFailed d acc) ds s in
  NoDup (failedDirectories s')
  /\ fallbackMode s' = (3 <=? JSSet.size (failedDirectories s'))
  /\ (forall x, In x (failedDirectories s')
                <-> In x (failedDirectories s) \/ In x ds)
  /\ (fallbackMode s' = true ->
      exists n, fallbackReason s' = Some (MultipleFailures n) /\ 3 <= n).
Proof.
  induction ds as [|d ds IH]; intros s Hnd Hmode Hreason; simpl.
  - splits; try assumption. intros x. tauto.
  - destruct (IH (markDirectoryFailed d s)) as (H1 & H2 & H3 & H4).
    + rewrite markDirectoryFailed_failed. now apply JSSet_add_NoDup.
    + rewrite markDirectoryFailed_mode, markDirectoryFailed_failed, Hmode.
      pose proof (JSSet_add_size d (failedDirectories s)).
      destruct (3 <=? JSSet.size (failedDirectories s)) eqn:E1;
        destruct (3 <=? JSSet.size (JSSet.add d (failedDirectories s))) eqn:E2;
        try reflexivity.
      apply Z.leb_le in E1. apply Z.leb_gt in E2. lia.
    + rewrite markDirectoryFailed_mode, markDirectoryFailed_reason.
      destruct (3 <=? JSSet.size (JSSet.add d (failedDirectories s))) eqn:E2.
      * intros _. eexists. split; [reflexivity|]. now apply Z.leb_le.
      * rewrite orb_false_r. exact Hreason.
    + splits; try assumption.
      intros x. rewrite H3, markDirectoryFailed_failed, JSSet_add_In.
      simpl. intuition.
Qed.
End FallbackFacts.

(** X5.  Starting from a fresh service, the service is in fallback mode
    exactly when at least three distinct directories have been marked as
    failed (marking one directory repeatedly counts once).  A failed
    directory cannot be watched; once in fallback mode no directory can;
    [resetFallbackMode] makes every directory watchable again. *)
Theorem fallback_after_three_failed_directories (ds : list string) :
  let s := fold_left (fun acc d => FileWatcherService.markDirectoryFailed d acc)
                     ds FileWatcherService.create in
  FileWatcherService.fallbackMode s
  = (3 <=? Z.of_nat (List.length (nodup string_dec ds)))
  /\ (forall d, In d ds -> FileWatcherService.canWatchDirectory d s = false)
  /\ (forall d, ~ In d ds ->
        FileWatcherService.canWatchDirectory d s
        = negb (FileWatcherService.fallbackMode s))
  /\ (FileWatcherService.fallbackMode s = true ->
      exists n, FileWatcherService.fallbackReason s
                = Some (FileWatcherService.MultipleFailures n) /\ 3 <= n)
  /\ (forall d, FileWatcherService.canWatchDirectory d
                  (FileWatcherService.resetFallbackMode s) = true).
Proof.
  intros s.
  destruct (mark_failed_fold ds FileWatcherService.create) as (Hnd & Hmode & Hin & Hreason).
  { constructor. }
  { reflexivity. }
  { discriminate. }
  fold s in Hnd, Hmode, Hin, Hreason.
  assert (Hlen : JSSet.size (FileWatcherService.failedDirectories s)
                 = Z.of_nat (List.length (nodup string_dec ds))).
  { unfold JSSet.size. f_equal. apply Permutation_length.
    apply NoDup_Permutation; [assumption|apply NoDup_nodup|].
    intros x. rewrite Hin, nodup_In. simpl. tauto. }
  splits.
  - now rewrite Hmode, Hlen.
  - intros d Hd. unfold FileWatcherService.canWatchDirectory.
    assert (H : JSSet.has d (FileWatcherService.failedDirectories s) = true).
    { apply JSSet_has_In, Hin. now right. }
    now rewrite H.
  - intros d Hd. unfold FileWatcherService.canWatchDirectory.
    destruct (JSSet.has d (FileWatcherService.failedDirectories s)) eqn:H.
    + apply JSSet_has_In, Hin in H. simpl in H. tauto.
    + now destruct (FileWatcherService.fallbackMode s).
  - exact Hreason.
  - intros d. reflexivity.
Qed.

(** ** FileWatcherService: releasing watchers *)

Section UnwatchFacts.
Import FileWatcherService.

(** A map without the keys of [ds]. *)
Lemma delete_as_filter {A} d (ds : list string) (m : JSMap.t A) :
  filter (fun kv => negb (includes (fst kv) ds)) (JSMap.delete d m)
  = filter (fun kv => negb (includes (fst kv) (d :: ds))) m.
Proof.
  unfold JSMap.delete. rewrite filter_twice. apply filter_ext.
  intros [k v]; simpl. rewrite (String.eqb_sym k d). now rewrite negb_orb.
Qed.

Lemma filter_not_in_nil {A} (m : JSMap.t A) :
  filter (fun kv => negb (includes (fst kv) [])) m = m.
Proof. now apply filter_all. Qed.

(** The watcher handles that [unwatchDirectory] closes for the
    directories [ds], in order. *)
Lemma unwatch_fold ds : forall s,
  NoDup ds ->
  (forall d, In d ds -> JSMap.get d (watchers s) <> None) ->
  let s' := fold_left (fun acc d => unwatchDirectory d acc) ds s in
  watchers s' = filter (fun kv => negb (includes (fst kv) ds)) (watchers s)
  /\ fileIndex s' = filter (fun kv => negb (includes (fst kv) ds)) (fileIndex s)
  /\ changeQueue s' = filter (fun kv => negb (includes (fst kv) ds)) (changeQueue s)
  /\ emfileRetryAttempts s'
     = filter (fun kv => negb (includes (fst kv) ds)) (emfileRetryAttempts s)
  /\ watcherCount s' = watcherCount s - Z.of_nat (List.length ds)
  /\ closeCalls s'
     = closeCalls s
       ++ flat_map (fun d => match JSMap.get d (watchers s) with
                             | Some (Some w) => [w]
                             | _ => []
                             end) ds
  /\ emitted s' = emitted s /\ timers s' = timers s
  /\ watchCalls s' = watchCalls s
  /\ isWatchingDisabled s' = isWatchingDisabled s
  /\ watchingStrategy s' = watchingStrategy s
  /\ maxWatchers s' = maxWatchers s
  /\ processingQueue s' = processingQueue s.
Proof.
  induction ds as [|d ds IH]; intros s Hnd Hall; simpl.
  - rewrite !filter_not_in_nil, app_nil_r. splits; try reflexivity. lia.
  - inversion Hnd as [|? ? Hnotin Hnd']; subst.
    destruct (JSMap.get d (watchers s)) as [w|] eqn:Hd;
      [|exfalso; apply (Hall d); [now left|assumption]].
    assert (Hstep : unwatchDirectory d s
                    = mk (JSMap.delete d (watchers s)) (JSMap.delete d (fileIndex s))
                         (JSMap.delete d (changeQueue s)) (processingQueue s)
                         (maxWatchers s) (watcherCount s - 1)
                         (JSMap.delete d (emfileRetryAttempts s))
                         (maxRetryAttempts s) (retryDelay s) (failedDirectories s)
                         (fallbackMode s) (fallbackReason s) (isWatchingDisabled s)
                         (watchingStrategy s) (emitted s) (timers s) (watchCalls s)
                         (match w with
                          | Some w' => closeCalls s ++ [w']
                          | None => closeCalls s
                          end)).
    { unfold unwatchDirectory. now rewrite Hd. }
    rewrite Hstep. clear Hstep.
    match goal with |- context [fold_left _ ds ?s1] =>
      destruct (IH s1 Hnd') as (H1 & H2 & H3 & H4 & H5 & H6 & H7 & H8 & H9 & H10 & H11 & H12 & H13)
    end.
    { intros d' Hd'. simpl. rewrite get_delete_ne; [apply Hall; now right|].
      intros ->. contradiction. }
    simpl in *. rewrite H1, H2, H3, H4, H5, H6, H7, H8, H9, H10, H11, H12, H13.
    rewrite !delete_as_filter.
    splits; try reflexivity; try lia.
    assert (Hflat : flat_map (fun d0 => match JSMap.get d0 (JSMap.delete d (watchers s)) with
                                        | Some (Some w0) => [w0]
                                        | _ => []
                                        end) ds
                    = flat_map (fun d0 => match JSMap.get d0 (watchers s) with
                                          | Some (Some w0) => [w0]
                                          | _ => []
                                          end) ds).
    { rewrite !flat_map_concat_map. f_equal. apply map_ext_in. intros d0 Hd0.
      rewrite get_delete_ne; [reflexivity|]. intros ->. contradiction. }
    rewrite Hflat. destruct w as [w'|]; [now rewrite <- app_assoc|reflexivity].
Qed.

Lemma filter_keys_all {A} (m : JSMap.t A) :
  filter (fun kv => negb (includes (fst kv) (JSMap.keys m))) m = [].
Proof.
  apply filter_none. intros [k v] Hin. simpl.
  apply negb_false_iff, includes_In. unfold JSMap.keys.
  now apply (in_map fst) in Hin.
Qed.

(** Removing [j] distinct keys of a map shortens it by [j]. *)
Lemma filter_keys_length {A} (ds : list string) : forall (m : JSMap.t A),
  NoDup ds -> NoDup (JSMap.keys m) -> incl ds (JSMap.keys m) ->
  (List.length (filter (fun kv => negb (includes (fst kv) ds)) m)
   + List.length ds = List.length m)%nat.
Proof.
  induction ds as [|d ds IH]; intros m Hnd Hm Hincl.
  - rewrite filter_not_in_nil. simpl. lia.
  - inversion Hnd as [|? ? Hnotin Hnd']; subst.
    rewrite <- delete_as_filter.
    assert (Hlen : JSMap.size (JSMap.delete d m) = JSMap.size m - 1).
    { apply delete_length; [assumption|]. apply Hincl. now left. }
    unfold JSMap.size in Hlen.
    assert (IH' := IH (JSMap.delete d m) Hnd').
    rewrite keys_delete in IH'.
    specialize (IH' (NoDup_drop _ _ Hm)).
    assert (Hsub : incl ds (drop d (JSMap.keys m))).
    { intros x Hx. apply In_drop. split; [apply Hincl; now right|].
      intros ->. contradiction. }
    specialize (IH' Hsub). simpl.
    assert (0 < List.length m)%nat.
    { destruct m; [|simpl; lia]. exfalso. apply (Hincl d). now left. }
    lia.
Qed.

Lemma filter_firstn_skipn_map {A} j : forall (m : JSMap.t A),
  NoDup (JSMap.keys m) ->
  filter (fun kv => negb (includes (fst kv) (firstn j (JSMap.keys m)))) m
  = skipn j m.
Proof.
  induction j as [|j IH]; intros m Hnd.
  - simpl. apply filter_not_in_nil.
  - destruct m as [|[k v] m]; [reflexivity|].
    simpl in *. inversion Hnd as [|? ? Hnotin Hnd']; subst.
    rewrite String.eqb_refl. simpl.
    rewrite <- (IH m Hnd'). apply filter_ext_in. intros [k' v'] Hin. simpl.
    destruct (String.eqb_spec k' k) as [->|Hne]; [|reflexivity].
    exfalso. apply Hnotin. now apply (in_map fst) in Hin.
Qed.

(** The sort used by [performAggressiveCleanup]. *)
Lemma insert_desc_perm key x l : Permutation (x :: l) (insert_desc key x l).
Proof.
  induction l as [|y l IH]; simpl; [apply Permutation_refl|].
  destruct (key y - key x <=? 0); [apply Permutation_refl|].
  eapply Permutation_trans; [apply perm_swap|]. now apply perm_skip.
Qed.

Lemma sort_desc_perm key l : Permutation l (sort_desc key l).
Proof.
  induction l as [|x l IH]; simpl; [apply Permutation_refl|].
  eapply Permutation_trans; [|apply insert_desc_perm]. now apply perm_skip.
Qed.

Lemma insert_desc_sorted key x l :
  StronglySorted Z.le (map (fun d => - key d) l) ->
  StronglySorted Z.le (map (fun d => - key d) (insert_desc key x l)).
Proof.
  induction l as [|y l IH]; simpl; intros Hs.
  - repeat constructor.
  - inversion Hs as [|? ? Hs' Hall]; subst.
    destruct (key y - key x <=? 0) eqn:Hcmp.
    + apply Z.leb_le in Hcmp. simpl. constructor; [assumption|].
      constructor; [lia|]. rewrite Forall_forall in *.
      intros z Hz. specialize (Hall z Hz). lia.
    + apply Z.leb_gt in Hcmp. simpl. constructor; [now apply IH|].
      rewrite Forall_forall in *. intros z Hz.
      apply in_map_iff in Hz as (d & <- & Hd).
      apply (Permutation_in _ (Permutation_sym (insert_desc_perm key x l))) in Hd.
      destruct Hd as [<-|Hd]; [lia|].
      apply Hall. now apply (in_map (fun d => - key d)).
Qed.

Lemma sort_desc_sorted key l :
  StronglySorted Z.le (map (fun d => - key d) (sort_desc key l)).
Proof.
  induction l as [|x l IH]; simpl; [constructor|]. now apply insert_desc_sorted.
Qed.
End UnwatchFacts.

(** X6.  [stopAll] releases every watched directory: the watcher map ends
    empty, the watcher count drops by the number of watched directories,
    the file index, the change queue and the retry count of each watched
    directory are gone, every real watcher is closed once, in the order of
    the map, and nothing is emitted.  What belongs to other directories
    stays. *)
Theorem stopAll_releases_every_directory (s : FileWatcherService.t) :
  NoDup (JSMap.keys (FileWatcherService.watchers s)) ->
  let s' := FileWatcherService.stopAll s in
  FileWatcherService.watchers s' = []
  /\ FileWatcherService.watcherCount s'
     = FileWatcherService.watcherCount s
       - JSMap.size (FileWatcherService.watchers s)
  /\ (forall d,
        JSMap.get d (FileWatcherService.fileIndex s')
        = (if JSMap.has d (FileWatcherService.watchers s) then None
           else JSMap.get d (FileWatcherService.fileIndex s))
        /\ JSMap.get d (FileWatcherService.changeQueue s')
           = (if JSMap.has d (FileWatcherService.watchers s) then None
              else JSMap.get d (FileWatcherService.changeQueue s))
        /\ JSMap.get d (FileWatcherService.emfileRetryAttempts s')
           = (if JSMap.has d (FileWatcherService.watchers s) then None
              else JSMap.get d (FileWatcherService.emfileRetryAttempts s)))
  /\ FileWatcherService.closeCalls s'
     = FileWatcherService.closeCalls s
       ++ flat_map (fun kv => match snd kv with Some w => [w] | None => [] end)
                   (FileWatcherService.watchers s)
  /\ FileWatcherService.emitted s' = FileWatcherService.emitted s.
Proof.
  intros Hnd s'. subst s'. unfold FileWatcherService.stopAll.
  destruct (unwatch_fold (JSMap.keys (FileWatcherService.watchers s)) s Hnd)
    as (H1 & H2 & H3 & H4 & H5 & H6 & H7 & _).
  { intros d Hd. now apply get_In_keys. }
  set (s' := fold_left _ _ s) in *. clearbody s'.
  assert (Hhas : forall d, includes d (JSMap.keys (FileWatcherService.watchers s))
                           = JSMap.has d (FileWatcherService.watchers s)).
  { intros d. unfold JSMap.has.
    destruct (JSMap.get d (FileWatcherService.watchers s)) eqn:Hg.
    - apply includes_In, get_In_keys. congruence.
    - destruct (includes d (JSMap.keys (FileWatcherService.watchers s))) eqn:Hi;
        [|reflexivity].
      apply includes_In, get_In_keys in Hi. congruence. }
  splits.
  - rewrite H1. apply filter_keys_all.
  - rewrite H5. unfold JSMap.size, JSMap.keys. now rewrite length_map.
  - intros d. rewrite H2, H3, H4.
    rewrite !(get_filter (fun k => negb (includes k (JSMap.keys (FileWatcherService.watchers s))))).
    rewrite Hhas. destruct (JSMap.has d (FileWatcherService.watchers s)); auto.
  - rewrite H6. f_equal. unfold JSMap.keys. rewrite flat_map_concat_map, map_map.
    rewrite flat_map_concat_map. f_equal. apply map_ext_in. intros [k w] Hin.
    simpl. rewrite (In_get k w) by assumption. reflexivity.
  - exact H7.
Qed.

Lemma stopAll_releases_every_directory_witness :
  NoDup (JSMap.keys (FileWatcherService.watchers two_watchers))
  /\ FileWatcherService.watchers (FileWatcherService.stopAll two_watchers) = []
  /\ FileWatcherService.closeCalls (FileWatcherService.stopAll two_watchers)
     = [1%nat].
Proof.
  assert (Hnd : NoDup (JSMap.keys (FileWatcherService.watchers two_watchers))).
  { repeat constructor; simpl; intuition discriminate. }
  split; [exact Hnd|].
  destruct (stopAll_releases_every_directory two_watchers Hnd) as (H1 & _ & _ & H4 & _).
  split; [exact H1|exact H4].
Defined.

(** X7.  [performAggressiveCleanup] unwatches [ceil(n / 2)] of the [n]
    watched directories and keeps [floor(n / 2)]; every directory it
    removes has at least as many indexed files as every directory it keeps,
    and a directory it keeps retains its file index. *)
Theorem performAggressiveCleanup_halves (s : FileWatcherService.t) :
  NoDup (JSMap.keys (FileWatcherService.watchers s)) ->
  let s' := FileWatcherService.performAggressiveCleanup s in
  let n := List.length (FileWatcherService.watchers s) in
  List.length (FileWatcherService.watchers s') = Nat.div n 2
  /\ FileWatcherService.watcherCount s'
     = FileWatcherService.watcherCount s - Z.of_nat (Nat.div (n + 1) 2)
  /\ (forall kept removed,
        In kept (JSMap.keys (FileWatcherService.watchers s')) ->
        In removed (JSMap.keys (FileWatcherService.watchers s)) ->
        ~ In removed (JSMap.keys (FileWatcherService.watchers s')) ->
        FileWatcherService.indexedFiles s kept
        <= FileWatcherService.indexedFiles s removed)
  /\ (forall d, In d (JSMap.keys (FileWatcherService.watchers s')) ->
        JSMap.get d (FileWatcherService.watchers s')
        = JSMap.get d (FileWatcherService.watchers s)
        /\ JSMap.get d (FileWatcherService.fileIndex s')
           = JSMap.get d (FileWatcherService.fileIndex s)).
Proof.
  intros Hnd s' n. subst s'. unfold FileWatcherService.performAggressiveCleanup.
  set (ks := JSMap.keys (FileWatcherService.watchers s)) in *.
  set (sorted := FileWatcherService.sort_desc (FileWatcherService.indexedFiles s) ks).
  assert (Hperm : Permutation ks sorted) by apply sort_desc_perm.
  assert (Hsorted : StronglySorted Z.le
            (map (fun d => - FileWatcherService.indexedFiles s d) sorted))
    by apply sort_desc_sorted.
  assert (Hnds : NoDup sorted) by (eapply Permutation_NoDup; eassumption).
  assert (Hlen : List.length ks = n).
  { unfold ks, JSMap.keys, n. apply length_map. }
  assert (Hlens : List.length sorted = n).
  { rewrite <- Hlen. symmetry. now apply Permutation_length. }
  rewrite Hlen.
  set (j := Nat.div (n + 1) 2).
  assert (Hj : (j <= n /\ n - j = Nat.div n 2)%nat).
  { unfold j.
    pose proof (Nat.div_mod_eq n 2). pose proof (Nat.mod_upper_bound n 2).
    pose proof (Nat.div_mod_eq (n + 1) 2). pose proof (Nat.mod_upper_bound (n + 1) 2).
    lia. }
  set (toRemove := firstn j sorted).
  assert (Hndr : NoDup toRemove).
  { unfold toRemove. rewrite <- (firstn_skipn j sorted) in Hnds.
    now apply NoDup_app_remove_r in Hnds. }
  assert (Hsub : incl toRemove ks).
  { intros x Hx. apply (Permutation_in _ (Permutation_sym Hperm)).
    unfold toRemove in Hx. rewrite <- (firstn_skipn j sorted).
    apply in_or_app. now left. }
  assert (Hlenr : List.length toRemove = j).
  { unfold toRemove. rewrite length_firstn. lia. }
  destruct (unwatch_fold toRemove s Hndr) as (H1 & H2 & _ & _ & H5 & _).
  { intros d Hd. apply get_In_keys. now apply Hsub. }
  set (s' := fold_left _ toRemove s) in *. clearbody s'.
  assert (Hkeys : forall d, In d (JSMap.keys (FileWatcherService.watchers s'))
                            <-> In d ks /\ ~ In d toRemove).
  { intros d. rewrite H1.
    rewrite (keys_filter (fun k => negb (includes k toRemove))), filter_In.
    rewrite negb_true_iff. fold ks.
    split; intros [Ha Hb]; split; try assumption.
    - intros Hin. apply includes_In in Hin. congruence.
    - destruct (includes d toRemove) eqn:Hi; [|reflexivity].
      apply includes_In in Hi. contradiction. }
  splits.
  - pose proof (filter_keys_length toRemove (FileWatcherService.watchers s)
                  Hndr Hnd Hsub) as Hl.
    rewrite <- H1 in Hl. fold n in Hl. lia.
  - rewrite H5, Hlenr. reflexivity.
  - intros kept removed Hk Hr Hnr.
    apply Hkeys in Hk as [Hk1 Hk2].
    assert (Hr' : In removed toRemove).
    { destruct (in_dec string_dec removed toRemove) as [|Hn]; [assumption|].
      exfalso. apply Hnr, Hkeys. now split. }
    assert (Hk' : In kept (skipn j sorted)).
    { apply (Permutation_in _ Hperm) in Hk1.
      rewrite <- (firstn_skipn j sorted) in Hk1.
      apply in_app_or in Hk1 as [Hk1|Hk1]; [contradiction|assumption]. }
    pose proof (sorted_firstn_skipn
                  (fun d => - FileWatcherService.indexedFiles s d) j sorted
                  Hsorted removed kept Hr' Hk') as Hle.
    simpl in Hle. lia.
  - intros d Hd. apply Hkeys in Hd as [_ Hd].
    assert (Hi : includes d toRemove = false).
    { destruct (includes d toRemove) eqn:Hi; [|reflexivity].
      apply includes_In in Hi. contradiction. }
    rewrite H1, H2.
    rewrite !(get_filter (fun k => negb (includes k toRemove))), Hi. auto.
Qed.

Lemma performAggressiveCleanup_halves_witness :
  NoDup (JSMap.keys (FileWatcherService.watchers two_watchers))
  /\ JSMap.keys (FileWatcherService.watchers
                   (FileWatcherService.performAggressiveCleanup two_watchers))
     = ["/b"]
  /\ List.length (FileWatcherService.watchers
                    (FileWatcherService.performAggressiveCleanup two_watchers))
     = 1%nat.
Proof.
  assert (Hnd : NoDup (JSMap.keys (FileWatcherService.watchers two_watchers))).
  { repeat constructor; simpl; intuition discriminate. }
  split; [exact Hnd|]. split; [reflexivity|].
  destruct (performAggressiveCleanup_halves two_watchers Hnd) as (H1 & _).
  exact H1.
Defined.

(** X8.  [cleanupWatchers] does nothing while the watcher count is below
    80 % of [maxWatchers]; from there on it unwatches the [floor(n / 2)]
    directories that were registered first and keeps the others, in their
    order. *)
Theorem cleanupWatchers_drops_oldest_half (s : FileWatcherService.t) :
  NoDup (JSMap.keys (FileWatcherService.watchers s)) ->
  let s' := FileWatcherService.cleanupWatchers s in
  let n := List.length (FileWatcherService.watchers s) in
  (5 * FileWatcherService.watcherCount s < 4 * FileWatcherService.maxWatchers s ->
   s' = s)
  /\ (4 * FileWatcherService.maxWatchers s <= 5 * FileWatcherService.watcherCount s ->
      FileWatcherService.watchers s'
      = skipn (Nat.div n 2) (FileWatcherService.watchers s)
      /\ FileWatcherService.watcherCount s'
         = FileWatcherService.watcherCount s - Z.of_nat (Nat.div n 2)
      /\ forall d, In d (JSMap.keys (FileWatcherService.watchers s')) ->
           JSMap.get d (FileWatcherService.fileIndex s')
           = JSMap.get d (FileWatcherService.fileIndex s)).
Proof.
  intros Hnd s' n. subst s'. unfold FileWatcherService.cleanupWatchers.
  split.
  - intros Hlt. apply Z.ltb_lt in Hlt. now rewrite Hlt.
  - intros Hge. apply Z.ltb_ge in Hge. rewrite Hge.
    set (ks := JSMap.keys (FileWatcherService.watchers s)) in *.
    assert (Hlen : List.length ks = n).
    { unfold ks, JSMap.keys, n. apply length_map. }
    rewrite Hlen. set (j := Nat.div n 2).
    assert (Hj : (j <= n)%nat).
    { unfold j. pose proof (Nat.div_mod_eq n 2). lia. }
    assert (Hndr : NoDup (firstn j ks)).
    { rewrite <- (firstn_skipn j ks) in Hnd.
      now apply NoDup_app_remove_r in Hnd. }
    destruct (unwatch_fold (firstn j ks) s Hndr) as (H1 & H2 & _ & _ & H5 & _).
    { intros d Hd. apply get_In_keys. fold ks.
      rewrite <- (firstn_skipn j ks). apply in_or_app. now left. }
    set (s' := fold_left _ (firstn j ks) s) in *. clearbody s'.
    assert (Hw : FileWatcherService.watchers s'
                 = skipn j (FileWatcherService.watchers s)).
    { rewrite H1. now apply filter_firstn_skipn_map. }
    splits.
    + exact Hw.
    + rewrite H5, length_firstn. lia.
    + intros d Hd. rewrite H2.
      rewrite (get_filter (fun k => negb (includes k (firstn j ks)))).
      destruct (includes d (firstn j ks)) eqn:Hi; [|reflexivity].
      exfalso. apply includes_In in Hi.
      rewrite Hw in Hd. unfold JSMap.keys in Hd. rewrite <- skipn_map in Hd.
      fold (JSMap.keys (FileWatcherService.watchers s)) in Hd. fold ks in Hd.
      apply (In_skipn_iff j ks d Hnd) in Hd as [_ Hd]. contradiction.
Qed.

Lemma cleanupWatchers_drops_oldest_half_witness :
  let s := FileWatcherService.mk
             (FileWatcherService.watchers two_watchers)
             (FileWatcherService.fileIndex two_watchers) [] false 2 2 [] 3 1000
             [] false None false "conservative" [] [] [] [] in
  NoDup (JSMap.keys (FileWatcherService.watchers s))
  /\ JSMap.keys (FileWatcherService.watchers (FileWatcherService.cleanupWatchers s))
     = ["/b"].
Proof.
  intros s.
  assert (Hnd : NoDup (JSMap.keys (FileWatcherService.watchers s))).
  { repeat constructor; simpl; intuition discriminate. }
  split; [exact Hnd|].
  destruct (cleanupWatchers_drops_oldest_half s Hnd) as (_ & H2).
  destruct H2 as (Hw & _); [simpl; lia|].
  rewrite Hw. reflexivity.
Defined.

(** ** FileWatcherService: what a manual refresh reports *)

Section RefreshFacts.
Import FileWatcherService.
Variable dirPath : string.

Lemma scan_reports_refl idx acc : scan_reports dirPath idx acc acc.
Proof.
  unfold scan_reports. splits; [apply incl_refl|auto|intros; contradiction|].
  exists []. rewrite app_nil_r. splits; [reflexivity| |].
  - intros e [].
  - intros p Hp Hn. contradiction.
Qed.

Lemma scan_reports_trans idx a b c :
  scan_reports dirPath idx a b -> scan_reports dirPath idx b c ->
  scan_reports dirPath idx a c.
Proof.
  intros (I1 & N1 & G1 & ad1 & E1 & A1 & C1) (I2 & N2 & G2 & ad2 & E2 & A2 & C2).
  unfold scan_reports. splits.
  - intros x Hx. now apply I2, I1.
  - auto.
  - intros p Hp Hn.
    destruct (in_dec string_dec p (fst b)) as [Hb|Hb]; [now apply G1|now apply G2].
  - exists (ad1 ++ ad2). splits.
    + rewrite E2, E1. now rewrite app_assoc.
    + intros e He. apply in_app_or in He as [He|He].
      * destruct (A1 e He) as (T & S & R & P & X). splits; auto.
      * now apply A2.
    + intros p Hp Hn Hi.
      destruct (in_dec string_dec p (fst b)) as [Hb|Hb].
      * destruct (C1 p Hb Hn Hi) as (e & He & Hpe). exists e.
        split; [apply in_or_app; now left|assumption].
      * destruct (C2 p Hp Hb Hi) as (e & He & Hpe). exists e.
        split; [apply in_or_app; now right|assumption].
Qed.

(** One file that is not ignored. *)
Lemma scan_reports_file idx acc fullPath :
  shouldIgnoreFile (path_relative dirPath fullPath) = false ->
  scan_reports dirPath idx acc
    (JSSet.add fullPath (fst acc),
     if JSSet.has fullPath idx then snd acc
     else snd acc ++ [mkChange add fullPath (path_relative dirPath fullPath) None]).
Proof.
  intros Hign. unfold scan_reports; simpl. splits.
  - intros x Hx. apply JSSet_add_In. now right.
  - apply JSSet_add_NoDup.
  - intros p Hp Hn. apply JSSet_add_In in Hp as [->|Hp]; [assumption|contradiction].
  - destruct (JSSet.has fullPath idx) eqn:Hhas.
    + exists []. rewrite app_nil_r. splits; [reflexivity| |].
      * intros e [].
      * intros p Hp Hn Hi. apply JSSet_add_In in Hp as [->|Hp]; [|contradiction].
        apply JSSet_has_In in Hhas. contradiction.
    + eexists. splits; [reflexivity| |].
      * intros e [<-|[]]. simpl. splits; try reflexivity.
        -- apply JSSet_add_In. now left.
        -- intros Hin. apply JSSet_has_In in Hin. congruence.
      * intros p Hp Hn Hi. apply JSSet_add_In in Hp as [->|Hp]; [|contradiction].
        eexists. split; [now left|reflexivity].
Qed.

Lemma scanFiles_reports (n : node) :
  forall idx depth currentPath acc acc',
    scanFiles dirPath idx depth currentPath n acc = Some acc' ->
    scan_reports dirPath idx acc acc'.
Proof.
  induction n as [size mtime content| |entries IH|] using node_tree_ind;
    intros idx depth currentPath acc acc' Hscan; simpl in Hscan.
  - destruct (depth >? 3); [|discriminate].
    injection Hscan as <-. apply scan_reports_refl.
  - destruct (depth >? 3); [|discriminate].
    injection Hscan as <-. apply scan_reports_refl.
  - destruct (depth >? 3).
    { injection Hscan as <-. apply scan_reports_refl. }
    revert acc acc' Hscan.
    induction entries as [|[name entry] rest IHrest]; intros acc acc' Hscan.
    + simpl in Hscan. injection Hscan as <-. apply scan_reports_refl.
    + inversion IH as [|? ? Hentry Hrest]; subst. simpl in Hentry.
      specialize (IHrest Hrest). simpl in Hscan.
      destruct (shouldIgnoreFile (path_relative dirPath (path_join currentPath name)))
        eqn:Hign.
      { now apply IHrest. }
      destruct entry as [size mtime content|children|].
      * apply IHrest in Hscan.
        eapply scan_reports_trans; [|exact Hscan].
        now apply scan_reports_file.
      * destruct (depth <? 3); [|now apply IHrest].
        destruct (scanFiles dirPath idx (depth + 1) (path_join currentPath name)
                            (Dir children) acc) as [acc1|] eqn:Hchild;
          [|discriminate].
        apply Hentry in Hchild. apply IHrest in Hscan.
        eapply scan_reports_trans; eassumption.
      * now apply IHrest.
  - destruct (depth >? 3); [|discriminate].
    injection Hscan as <-. apply scan_reports_refl.
Qed.

(** The path set computed by a scan, and whether the scan fails, do not
    depend on the index it is compared with. *)
Lemma scanFiles_paths_fixed (n : node) :
  forall idx idx2 depth currentPath acc acc2,
    fst acc = fst acc2 ->
    match scanFiles dirPath idx depth currentPath n acc,
          scanFiles dirPath idx2 depth currentPath n acc2 with
    | Some a, Some b => fst a = fst b
    | None, None => True
    | _, _ => False
    end.
Proof.
  induction n as [size mtime content| |entries IH|] using node_tree_ind;
    intros idx idx2 depth currentPath acc acc2 Hfst; simpl.
  - now destruct (depth >? 3).
  - now destruct (depth >? 3).
  - destruct (depth >? 3); [assumption|].
    revert acc acc2 Hfst.
    induction entries as [|[name entry] rest IHrest]; intros acc acc2 Hfst.
    + exact Hfst.
    + inversion IH as [|? ? Hentry Hrest]; subst. simpl in Hentry.
      specialize (IHrest Hrest). simpl.
      destruct (shouldIgnoreFile (path_relative dirPath (path_join currentPath name))).
      { now apply IHrest. }
      destruct entry as [size mtime content|children|].
      * apply IHrest. simpl. now rewrite Hfst.
      * destruct (depth <? 3); [|now apply IHrest].
        specialize (Hentry idx idx2 (depth + 1) (path_join currentPath name)
                           acc acc2 Hfst).
        destruct (scanFiles dirPath idx (depth + 1) (path_join currentPath name)
                            (Dir children) acc) as [a1|];
          destruct (scanFiles dirPath idx2 (depth + 1) (path_join currentPath name)
                              (Dir children) acc2) as [b1|];
          try contradiction; [|exact I].
        now apply IHrest.
      * now apply IHrest.
  - now destruct (depth >? 3).
Qed.
End RefreshFacts.

Lemma fileIndex_fold_emit (f : FileWatcherService.FileChangeEvent -> FileWatcherService.Event)
      changes s :
  FileWatcherService.fileIndex
    (fold_left (fun acc c => FileWatcherService.emit (f c) acc) changes s)
  = FileWatcherService.fileIndex s.
Proof.
  revert s. induction changes as [|c r IH]; intros s; simpl; [reflexivity|].
  now rewrite IH.
Qed.

(** What a successful [manualRefresh] returns and stores. *)
Lemma manualRefresh_ok fs dirPath s res s' :
  FileWatcherService.manualRefresh fs dirPath s = (Ok res, s') ->
  exists root newFiles added,
    fs dirPath = Some root
    /\ FileWatcherService.scanFiles dirPath
         (FileWatcherService.getWatchedFiles dirPath s) 0 dirPath root ([], [])
       = Some (newFiles, added)
    /\ FileWatcherService.getWatchedFiles dirPath s' = newFiles
    /\ FileWatcherService.totalFiles res = JSSet.size newFiles
    /\ FileWatcherService.changes res
       = added
         ++ map (fun filePath =>
                   FileWatcherService.mkChange FileWatcherService.unlink filePath
                     (path_relative dirPath filePath) None)
                (filter (fun filePath => negb (JSSet.has filePath newFiles))
                        (FileWatcherService.getWatchedFiles dirPath s))
    /\ FileWatcherService.emitted s'
       = FileWatcherService.emitted s
         ++ map (FileWatcherService.file_change dirPath)
                (FileWatcherService.changes res).
Proof.
  unfold FileWatcherService.manualRefresh, FileWatcherService.getWatchedFiles.
  intros H.
  destruct (fs dirPath) as [root|]; [|discriminate].
  set (idx := match JSMap.get dirPath (FileWatcherService.fileIndex s) with
              | Some files => files | None => [] end) in *.
  destruct (FileWatcherService.scanFiles dirPath idx 0 dirPath root ([], []))
    as [[newFiles added]|] eqn:Hscan; [|discriminate].
  injection H as <- <-.
  exists root, newFiles, added. simpl.
  rewrite fileIndex_fold_emit, emitted_fold_emit. simpl.
  rewrite get_set_eq. splits; try reflexivity. exact Hscan.
Qed.

Lemma manualRefresh_cases fs dirPath s :
  match fs dirPath with
  | None => FileWatcherService.manualRefresh fs dirPath s = (Throw "ENOENT", s)
  | Some root =>
      match FileWatcherService.scanFiles dirPath
              (FileWatcherService.getWatchedFiles dirPath s) 0 dirPath root ([], []) with
      | None => FileWatcherService.manualRefresh fs dirPath s
                = (Throw "readdirSync failed", s)
      | Some (newFiles, added) =>
          exists res s',
            FileWatcherService.manualRefresh fs dirPath s = (Ok res, s')
            /\ FileWatcherService.totalFiles res = JSSet.size newFiles
            /\ FileWatcherService.getWatchedFiles dirPath s' = newFiles
      end
  end.
Proof.
  destruct (fs dirPath) as [root|] eqn:Hroot.
  - destruct (FileWatcherService.scanFiles dirPath
                (FileWatcherService.getWatchedFiles dirPath s) 0 dirPath root ([], []))
      as [[newFiles added]|] eqn:Hscan.
    + unfold FileWatcherService.manualRefresh. cbv zeta. rewrite Hroot.
      change (match JSMap.get dirPath (FileWatcherService.fileIndex s) with
              | Some files => files
              | None => []
              end) with (FileWatcherService.getWatchedFiles dirPath s). rewrite Hscan.
      eexists. eexists. split; [reflexivity|]. split; [reflexivity|].
      unfold FileWatcherService.getWatchedFiles at 1.
      rewrite fileIndex_fold_emit. simpl. now rewrite get_set_eq.
    + unfold FileWatcherService.manualRefresh. cbv zeta. rewrite Hroot.
      change (match JSMap.get dirPath (FileWatcherService.fileIndex s) with
              | Some files => files
              | None => []
              end) with (FileWatcherService.getWatchedFiles dirPath s). now rewrite Hscan.
  - unfold FileWatcherService.manualRefresh. now rewrite Hroot.
Qed.

(** X9.  A successful [manualRefresh] reports exactly the difference
    between the index it found and the index it leaves: an [add] event for
    every path that is in the new index and was not in the old one, an
    [unlink] event for every path that was in the old index and is not in the
    new one, and no other event ([change] is never reported).  The events
    carry no stat data, they are the [file:change] notifications emitted, and
    [totalFiles] is the size of the new index, which has no duplicates. *)
Theorem manualRefresh_reports_exact_difference
  (fs : FS) (dirPath : string) (s s' : FileWatcherService.t)
  (res : FileWatcherService.RefreshResult) :
  FileWatcherService.manualRefresh fs dirPath s = (Ok res, s') ->
  let old := FileWatcherService.getWatchedFiles dirPath s in
  let new := FileWatcherService.getWatchedFiles dirPath s' in
  (forall e, In e (FileWatcherService.changes res) ->
     FileWatcherService.stats e = None
     /\ FileWatcherService.relativePath e
        = path_relative dirPath (FileWatcherService.path e)
     /\ (FileWatcherService.type e = FileWatcherService.add
         /\ In (FileWatcherService.path e) new
         /\ ~ In (FileWatcherService.path e) old
         \/ FileWatcherService.type e = FileWatcherService.unlink
            /\ In (FileWatcherService.path e) old
            /\ ~ In (FileWatcherService.path e) new))
  /\ (forall p, In p new -> ~ In p old ->
        exists e, In e (FileWatcherService.changes res)
                  /\ FileWatcherService.type e = FileWatcherService.add
                  /\ FileWatcherService.path e = p)
  /\ (forall p, In p old -> ~ In p new ->
        exists e, In e (FileWatcherService.changes res)
                  /\ FileWatcherService.type e = FileWatcherService.unlink
                  /\ FileWatcherService.path e = p)
  /\ FileWatcherService.totalFiles res = Z.of_nat (List.length new)
  /\ NoDup new
  /\ FileWatcherService.emitted s'
     = FileWatcherService.emitted s
       ++ map (FileWatcherService.file_change dirPath)
              (FileWatcherService.changes res).
Proof.
  intros H old new.
  destruct (manualRefresh_ok fs dirPath s res s' H)
    as (root & newFiles & added & Hroot & Hscan & Hnew & Htot & Hch & Hem).
  fold old in Hscan, Hch. fold new in Hnew. subst newFiles.
  apply scanFiles_reports in Hscan
    as (_ & Hnd & _ & added' & Hadded & Hsound & Hcomplete).
  simpl in *. subst added'.
  splits.
  - intros e He. rewrite Hch in He. apply in_app_or in He as [He|He].
    + destruct (Hsound e He) as (T & S & R & P & X). splits; auto.
    + apply in_map_iff in He as (p & <- & Hp). simpl.
      apply filter_In in Hp as [Hp Hn]. splits; try reflexivity.
      right. splits; [reflexivity|assumption|].
      intros Hin. apply JSSet_has_In in Hin. rewrite Hin in Hn. discriminate.
  - intros p Hp Hn. destruct (Hcomplete p Hp (fun x => x) Hn) as (e & He & Hpe).
    exists e. rewrite Hch. splits; [apply in_or_app; now left| |assumption].
    now destruct (Hsound e He).
  - intros p Hp Hn. eexists. rewrite Hch. splits.
    + apply in_or_app. right. apply in_map_iff. exists p. split; [reflexivity|].
      apply filter_In. split; [assumption|].
      destruct (JSSet.has p new) eqn:Hhas; [|reflexivity].
      apply JSSet_has_In in Hhas. contradiction.
    + reflexivity.
    + reflexivity.
  - exact Htot.
  - apply Hnd. constructor.
  - exact Hem.
Qed.

Lemma manualRefresh_reports_exact_difference_witness :
  exists res s',
    FileWatcherService.manualRefresh small_fs "/w" two_watchers = (Ok res, s')
    /\ FileWatcherService.totalFiles res = 2
    /\ NoDup (FileWatcherService.getWatchedFiles "/w" s').
Proof.
  destruct (FileWatcherService.manualRefresh small_fs "/w" two_watchers)
    as [[res|message] s'] eqn:H; [|vm_compute in H; discriminate].
  exists res, s'. split; [reflexivity|].
  destruct (manualRefresh_reports_exact_difference small_fs "/w" two_watchers s' res H)
    as (_ & _ & _ & Htot & Hnd & _).
  split; [|exact Hnd].
  vm_compute in H. injection H as <- _. reflexivity.
Defined.

(** X10.  The index stored by [manualRefresh], the [totalFiles] it
    returns, and whether it throws, depend on the file system only, not on
    what the service held before.  No path it stores is matched by an ignore
    pattern relative to the root; in particular none lies in a
    [node_modules] directory. *)
Theorem manualRefresh_index_depends_only_on_tree
  (fs : FS) (dirPath : string) (s1 s2 : FileWatcherService.t) :
  let r1 := FileWatcherService.manualRefresh fs dirPath s1 in
  let r2 := FileWatcherService.manualRefresh fs dirPath s2 in
  (forall res1, fst r1 = Ok res1 ->
     exists res2,
       fst r2 = Ok res2
       /\ FileWatcherService.totalFiles res2 = FileWatcherService.totalFiles res1
       /\ FileWatcherService.getWatchedFiles dirPath (snd r2)
          = FileWatcherService.getWatchedFiles dirPath (snd r1))
  /\ (forall message, fst r1 = Throw message -> r2 = (Throw message, s2))
  /\ (forall res1, fst r1 = Ok res1 ->
      forall p, In p (FileWatcherService.getWatchedFiles dirPath (snd r1)) ->
        FileWatcherService.shouldIgnoreFile (path_relative dirPath p) = false
        /\ str_includes "node_modules" (path_relative dirPath p) = false).
Proof.
  intros r1 r2. subst r1 r2.
  pose proof (manualRefresh_cases fs dirPath s1) as C1.
  pose proof (manualRefresh_cases fs dirPath s2) as C2.
  destruct (fs dirPath) as [root|] eqn:Hroot.
  - pose proof (scanFiles_paths_fixed dirPath root
                  (FileWatcherService.getWatchedFiles dirPath s1)
                  (FileWatcherService.getWatchedFiles dirPath s2)
                  0 dirPath ([], []) ([], []) eq_refl) as Hfixed.
    destruct (FileWatcherService.scanFiles dirPath
                (FileWatcherService.getWatchedFiles dirPath s1) 0 dirPath root ([], []))
      as [[newFiles1 added1]|] eqn:Hscan1;
      destruct (FileWatcherService.scanFiles dirPath
                  (FileWatcherService.getWatchedFiles dirPath s2) 0 dirPath root ([], []))
        as [[newFiles2 added2]|] eqn:Hscan2; try contradiction.
    + simpl in Hfixed. subst newFiles2.
      destruct C1 as (res1 & t1 & E1 & T1 & W1).
      destruct C2 as (res2 & t2 & E2 & T2 & W2).
      rewrite E1, E2. simpl. splits.
      * intros res H. injection H as <-. exists res2.
        splits; [reflexivity|congruence|congruence].
      * discriminate.
      * intros res H p Hp. injection H as <-.
        apply scanFiles_reports in Hscan1 as (_ & _ & Hign & _). simpl in Hign.
        rewrite W1 in Hp. specialize (Hign p Hp (fun x => x)).
        split; [exact Hign|].
        unfold FileWatcherService.shouldIgnoreFile in Hign.
        destruct (str_includes "node_modules" (path_relative dirPath p)) eqn:Hnm;
          [|reflexivity].
        simpl in Hign. unfold matches_ignore_pattern at 1 in Hign.
        simpl in Hign. rewrite Hnm in Hign. discriminate.
    + rewrite C1, C2. simpl. splits; try discriminate.
      intros message H. injection H as <-. reflexivity.
  - rewrite C1, C2. simpl. splits; try discriminate.
    intros message H. injection H as <-. reflexivity.
Qed.

(** ** FileWatcherService: the change queue *)

Section QueueFacts.
Import FileWatcherService.

Lemma NoDup_keys_set {A} k (v : A) (m : JSMap.t A) :
  NoDup (JSMap.keys m) -> NoDup (JSMap.keys (JSMap.set k v m)).
Proof.
  intros H. destruct (JSMap.get k m) eqn:Hg.
  - rewrite keys_set_present by congruence. exact H.
  - rewrite set_absent by assumption. unfold JSMap.keys. rewrite map_app.
    simpl. apply NoDup_snoc; [exact H|]. now apply get_None_notin.
Qed.

Lemma In_set {A} k (v : A) (m : JSMap.t A) kv :
  In kv (JSMap.set k v m) -> kv = (k, v) \/ In kv m.
Proof.
  induction m as [|[k' v'] m IH]; simpl.
  - intros [<-|[]]. now left.
  - destruct (String.eqb k k'); simpl.
    + intros [<-|H]; [now left|right; now right].
    + intros [<-|H]; [right; now left|].
      destruct (IH H) as [->|Hin]; [now left|right; now right].
Qed.

Lemma get_In {A} k (v : A) (m : JSMap.t A) :
  JSMap.get k m = Some v -> In (k, v) m.
Proof.
  induction m as [|[k' v'] m IH]; simpl; [discriminate|].
  destruct (String.eqb_spec k k') as [->|Hne].
  - intros H. injection H as ->. now left.
  - intros H. right. now apply IH.
Qed.

Lemma set_app_notin {A} k (v v' : A) (a b : JSMap.t A) :
  ~ In k (JSMap.keys a) ->
  JSMap.set k v (a ++ (k, v') :: b) = a ++ (k, v) :: b.
Proof.
  induction a as [|[k0 v0] a IH]; simpl; intros Hn.
  - now rewrite String.eqb_refl.
  - destruct (String.eqb_spec k k0) as [->|Hne]; [exfalso; apply Hn; now left|].
    f_equal. apply IH. intros Hin. apply Hn. now right.
Qed.

Lemma get_map_clear {A} d (q : JSMap.t (list A)) :
  JSMap.get d (map (fun kv => (fst kv, @nil A)) q)
  = match JSMap.get d q with Some _ => Some [] | None => None end.
Proof.
  induction q as [|[k v] q IH]; simpl; [reflexivity|].
  now destruct (String.eqb d k).
Qed.

Lemma latestEvent_cons e l :
  latestEvent (e :: l)
  = match latestEvent l with Some x => Some x | None => Some e end.
Proof.
  unfold latestEvent. revert e. induction l as [|x l IH]; intros e; [reflexivity|].
  change (last (map Some (e :: x :: l)) None) with (last (map Some (x :: l)) None).
  rewrite (IH x). now destruct (last (map Some l) None).
Qed.

Lemma latestEvent_nil_iff l : latestEvent l = None <-> l = [].
Proof.
  destruct l as [|e l]; [split; reflexivity|].
  rewrite latestEvent_cons. split; [|discriminate].
  now destruct (latestEvent l).
Qed.

Lemma latestEvent_In l e : latestEvent l = Some e -> In e l.
Proof.
  induction l as [|x l IH]; [discriminate|].
  rewrite latestEvent_cons. destruct (latestEvent l) as [y|].
  - intros H. injection H as <-. right. now apply IH.
  - intros H. injection H as <-. now left.
Qed.

Lemma events_for_cons p e l :
  events_for p (e :: l)
  = if String.eqb (path e) p then e :: events_for p l else events_for p l.
Proof. reflexivity. Qed.

Lemma events_for_app p l1 l2 :
  events_for p (l1 ++ l2) = events_for p l1 ++ events_for p l2.
Proof. apply filter_app. Qed.

(** The groups built by [processChangeQueue]: the group of a path holds
    the events of that path, in arrival order. *)
Lemma group_fold events : forall m,
  NoDup (JSMap.keys m) ->
  (forall k l, In (k, l) m -> Forall (fun e => path e = k) l) ->
  let g :=
    fold_left
      (fun fileEvents event =>
         JSMap.set (path event)
           (match JSMap.get (path event) fileEvents with
            | Some fileEventList => fileEventList ++ [event]
            | None => [event]
            end)
           fileEvents)
      events m in
  NoDup (JSMap.keys g)
  /\ (forall k l, In (k, l) g -> Forall (fun e => path e = k) l)
  /\ forall p,
       JSMap.get p g
       = match JSMap.get p m with
         | Some l => Some (l ++ events_for p events)
         | None => match events_for p events with
                   | [] => None
                   | l => Some l
                   end
         end.
Proof.
  induction events as [|e events IH]; intros m Hnd Hall; simpl.
  - splits; [assumption|assumption|]. intros p.
    destruct (JSMap.get p m); [now rewrite app_nil_r|reflexivity].
  - match goal with |- context [fold_left _ events ?m1] =>
      destruct (IH m1) as (H1 & H2 & H3) end.
    + now apply NoDup_keys_set.
    + intros k l Hin. apply In_set in Hin as [Heq|Hin]; [|now apply Hall].
      injection Heq as -> ->.
      destruct (JSMap.get (path e) m) as [l0|] eqn:Hg.
      * apply Forall_app. split; [|now repeat constructor].
        apply (Hall (path e)). now apply get_In.
      * now repeat constructor.
    + splits; [assumption|assumption|]. intros p. rewrite H3.
      unfold events_for at 3 4. simpl. fold (events_for p events).
      destruct (String.eqb_spec (path e) p) as [<-|Hne].
      * rewrite get_set_eq.
        destruct (JSMap.get (path e) m) as [l0|]; [|reflexivity].
        now rewrite <- app_assoc.
      * now rewrite get_set_ne.
Qed.

Lemma file_changes_of_app d p l1 l2 :
  file_changes_of d p (l1 ++ l2) = file_changes_of d p l1 ++ file_changes_of d p l2.
Proof. apply flat_map_app. Qed.

Lemma batches_of_app d l1 l2 :
  batches_of d (l1 ++ l2) = batches_of d l1 ++ batches_of d l2.
Proof. apply flat_map_app. Qed.

(** The [file:change] notifications sent for the groups [g] of one
    directory. *)
Lemma latest_log d d' p (g : JSMap.t (list FileChangeEvent)) :
  NoDup (JSMap.keys g) ->
  (forall k l, In (k, l) g -> Forall (fun e => path e = k) l) ->
  file_changes_of d p
    (flat_map (fun kv => match latestEvent (snd kv) with
                         | Some e => [file_change d' e]
                         | None => []
                         end) g)
  = if String.eqb d' d
    then match JSMap.get p g with
         | Some l => match latestEvent l with Some e => [e] | None => [] end
         | None => []
         end
    else [].
Proof.
  induction g as [|[k l] g IH]; intros Hnd Hall.
  - simpl. now destruct (String.eqb d' d).
  - simpl in Hnd. inversion Hnd as [|? ? Hnotin Hnd']; subst.
    simpl flat_map. rewrite file_changes_of_app, IH;
      [|assumption|intros k0 l0 Hin; apply Hall; now right].
    destruct (String.eqb d' d) eqn:Hd.
    + simpl JSMap.get. destruct (String.eqb_spec p k) as [->|Hne].
      * assert (Hnone : JSMap.get k g = None) by now apply get_None_notin.
        rewrite Hnone, app_nil_r.
        destruct (latestEvent l) as [e|] eqn:Hl; [|reflexivity].
        assert (Hp : path e = k).
        { pose proof (Hall k l (or_introl eq_refl)) as Hf.
          rewrite Forall_forall in Hf. apply Hf. now apply latestEvent_In. }
        simpl. rewrite Hd, Hp, String.eqb_refl. reflexivity.
      * destruct (latestEvent l) as [e|] eqn:Hl; [|reflexivity].
        assert (Hp : path e = k).
        { pose proof (Hall k l (or_introl eq_refl)) as Hf.
          rewrite Forall_forall in Hf. apply Hf. now apply latestEvent_In. }
        simpl. rewrite Hd, Hp.
        destruct (String.eqb_spec k p); [congruence|reflexivity].
    + destruct (latestEvent l) as [e|]; [|reflexivity].
      simpl. now rewrite Hd.
Qed.

Lemma batches_latest_log d d' (g : JSMap.t (list FileChangeEvent)) :
  batches_of d
    (flat_map (fun kv => match latestEvent (snd kv) with
                         | Some e => [file_change d' e]
                         | None => []
                         end) g) = [].
Proof.
  induction g as [|[k l] g IH]; [reflexivity|].
  simpl flat_map. rewrite batches_of_app, IH, app_nil_r.
  now destruct (latestEvent l).
Qed.

Lemma file_changes_directory_log d d' p events :
  file_changes_of d p (directory_log d' events)
  = if String.eqb d' d
    then match latestEvent (events_for p events) with
         | Some e => [e]
         | None => []
         end
    else [].
Proof.
  unfold directory_log. destruct events as [|e0 events].
  - simpl. now destruct (String.eqb d' d).
  - rewrite file_changes_of_app. simpl (file_changes_of d p [_]).
    rewrite app_nil_r. unfold groupByPath.
    destruct (group_fold (e0 :: events) []) as (H1 & H2 & H3).
    { constructor. }
    { intros k l []. }
    rewrite latest_log by assumption.
    destruct (String.eqb d' d); [|reflexivity].
    rewrite H3. simpl (JSMap.get p []).
    destruct (events_for p (e0 :: events)); reflexivity.
Qed.

Lemma batches_directory_log d d' events :
  batches_of d (directory_log d' events)
  = if String.eqb d' d
    then match events with [] => [] | _ :: _ => [events] end
    else [].
Proof.
  unfold directory_log. destruct events as [|e0 events].
  - simpl. now destruct (String.eqb d' d).
  - rewrite batches_of_app, batches_latest_log. simpl.
    now destruct (String.eqb d' d).
Qed.

(** In the log of a whole queue, what concerns one directory comes from
    the queue of that directory. *)
Lemma log_lookup {X} (f : Event -> list X) d (q : JSMap.t (list FileChangeEvent)) :
  NoDup (JSMap.keys q) ->
  (forall d' ev, d' <> d -> flat_map f (directory_log d' ev) = []) ->
  flat_map f (flat_map (fun kv => directory_log (fst kv) (snd kv)) q)
  = match JSMap.get d q with
    | Some ev => flat_map f (directory_log d ev)
    | None => []
    end.
Proof.
  intros Hnd Hother. induction q as [|[k ev] q IH]; [reflexivity|].
  simpl in Hnd. inversion Hnd as [|? ? Hnotin Hnd']; subst.
  simpl. rewrite flat_map_app, (IH Hnd').
  destruct (String.eqb_spec d k) as [->|Hne].
  - assert (Hnone : JSMap.get k q = None) by now apply get_None_notin.
    now rewrite Hnone, app_nil_r.
  - rewrite Hother by congruence. reflexivity.
Qed.

Lemma batches_lookup d (q : JSMap.t (list FileChangeEvent)) :
  NoDup (JSMap.keys q) ->
  batches_of d (flat_map (fun kv => directory_log (fst kv) (snd kv)) q)
  = match JSMap.get d q with
    | Some (e :: events) => [e :: events]
    | _ => []
    end.
Proof.
  intros Hnd. unfold batches_of at 1. rewrite (log_lookup _ d); [|assumption|].
  - destruct (JSMap.get d q) as [ev|]; [|reflexivity].
    fold (batches_of d (directory_log d ev)).
    rewrite batches_directory_log, String.eqb_refl. now destruct ev.
  - intros d' ev Hne. fold (batches_of d (directory_log d' ev)).
    rewrite batches_directory_log.
    destruct (String.eqb_spec d' d); [contradiction|reflexivity].
Qed.

Lemma file_changes_lookup d p (q : JSMap.t (list FileChangeEvent)) :
  NoDup (JSMap.keys q) ->
  file_changes_of d p (flat_map (fun kv => directory_log (fst kv) (snd kv)) q)
  = match JSMap.get d q with
    | Some events =>
        match latestEvent (events_for p events) with
        | Some e => [e]
        | None => []
        end
    | None => []
    end.
Proof.
  intros Hnd. unfold file_changes_of at 1. rewrite (log_lookup _ d); [|assumption|].
  - destruct (JSMap.get d q) as [ev|]; [|reflexivity].
    fold (file_changes_of d p (directory_log d ev)).
    now rewrite file_changes_directory_log, String.eqb_refl.
  - intros d' ev Hne. fold (file_changes_of d p (directory_log d' ev)).
    rewrite file_changes_directory_log.
    destruct (String.eqb_spec d' d); [contradiction|reflexivity].
Qed.

Lemma emit_latest_fold d (g : JSMap.t (list FileChangeEvent)) : forall s,
  let s' := fold_left
              (fun acc kv => match latestEvent (snd kv) with
                             | Some e => emit (file_change d e) acc
                             | None => acc
                             end) g s in
  emitted s' = emitted s
               ++ flat_map (fun kv => match latestEvent (snd kv) with
                                      | Some e => [file_change d e]
                                      | None => []
                                      end) g
  /\ changeQueue s' = changeQueue s /\ fileIndex s' = fileIndex s
  /\ processingQueue s' = processingQueue s.
Proof.
  induction g as [|[k l] g IH]; intros s; simpl.
  - rewrite app_nil_r. auto.
  - match goal with |- context [fold_left _ g ?s1] =>
      destruct (IH s1) as (H1 & H2 & H3 & H4) end.
    rewrite H1, H2, H3, H4.
    destruct (latestEvent l); simpl; [rewrite <- app_assoc|]; auto.
Qed.

Lemma processDirectory_spec d events s pre suf :
  changeQueue s = pre ++ (d, events) :: suf ->
  ~ In d (JSMap.keys pre) ->
  let s' := processDirectory d events s in
  emitted s' = emitted s ++ directory_log d events
  /\ changeQueue s' = pre ++ (d, []) :: suf
  /\ fileIndex s' = fileIndex s
  /\ processingQueue s' = processingQueue s.
Proof.
  intros Hq Hn. unfold processDirectory, directory_log.
  destruct events as [|e0 events].
  - simpl. rewrite app_nil_r. auto.
  - destruct (emit_latest_fold d (groupByPath (e0 :: events)) s) as (H1 & H2 & H3 & H4).
    cbv zeta. simpl emitted. simpl changeQueue. simpl fileIndex.
    simpl processingQueue.
    rewrite H1, H2, H3, H4, Hq, app_assoc.
    splits; try reflexivity. now apply set_app_notin.
Qed.

Lemma process_fold suf : forall pre s,
  changeQueue s = map (fun kv => (fst kv, [])) pre ++ suf ->
  NoDup (JSMap.keys pre ++ JSMap.keys suf) ->
  let s' := fold_left (fun acc kv => processDirectory (fst kv) (snd kv) acc) suf s in
  emitted s' = emitted s ++ flat_map (fun kv => directory_log (fst kv) (snd kv)) suf
  /\ changeQueue s' = map (fun kv => (fst kv, [])) (pre ++ suf)
  /\ fileIndex s' = fileIndex s
  /\ processingQueue s' = processingQueue s.
Proof.
  induction suf as [|[d events] suf IH]; intros pre s Hq Hnd; simpl.
  - rewrite !app_nil_r in *. auto.
  - assert (Hn : ~ In d (JSMap.keys (map (fun kv : string * list FileChangeEvent =>
                                             (fst kv, @nil FileChangeEvent)) pre))).
    { unfold JSMap.keys. rewrite map_map. simpl.
      apply NoDup_remove_2 in Hnd. intros Hin. apply Hnd.
      apply in_or_app. now left. }
    destruct (processDirectory_spec d events s _ suf Hq Hn) as (P1 & P2 & P3 & P4).
    destruct (IH (pre ++ [(d, events)]) (processDirectory d events s))
      as (H1 & H2 & H3 & H4).
    + rewrite P2, map_app. simpl. now rewrite <- app_assoc.
    + unfold JSMap.keys in *. rewrite map_app. simpl. now rewrite <- app_assoc.
    + rewrite H1, H2, H3, H4, P1, P3, P4, <- !app_assoc. simpl. auto.
Qed.

(** The emissions and the queue left by [processChangeQueue]. *)
Lemma processChangeQueue_log s :
  processingQueue s = false -> NoDup (JSMap.keys (changeQueue s)) ->
  let s' := processChangeQueue s in
  emitted s' = emitted s
               ++ flat_map (fun kv => directory_log (fst kv) (snd kv)) (changeQueue s)
  /\ changeQueue s' = map (fun kv => (fst kv, [])) (changeQueue s)
  /\ fileIndex s' = fileIndex s
  /\ processingQueue s' = false.
Proof.
  intros Hp Hnd. unfold processChangeQueue. rewrite Hp.
  destruct (process_fold (changeQueue s) [] (set_processingQueue true s))
    as (H1 & H2 & H3 & H4); [reflexivity|exact Hnd|].
  simpl in *. auto.
Qed.

Lemma handleFileEvent_ignored ty d fp st s :
  str_includes "node_modules" fp = true ->
  handleFileEvent ty d fp st s = (s, false).
Proof. intros H. unfold handleFileEvent. now rewrite H. Qed.

Lemma handleFileEvent_queued ty d fp s :
  str_includes "node_modules" fp = false ->
  handleFileEvent ty d fp None s
  = (let s1 := match JSMap.get d (fileIndex s) with
               | Some index =>
                   set_fileIndex
                     (JSMap.set d
                        match ty with
                        | add | change => JSSet.add fp index
                        | unlink => JSSet.delete fp index
                        end (fileIndex s)) s
               | None => s
               end in
     set_changeQueue
       (JSMap.set d
          (match JSMap.get d (changeQueue s1) with
           | Some events => events
           | None => []
           end ++ [queued_event d (ty, fp)])
          (changeQueue s1)) s1,
     true).
Proof. intros H. unfold handleFileEvent. now rewrite H. Qed.

(** A burst of events before the debounce timer fires. *)
Lemma burst_fold d evs : forall s armed,
  let r := fold_left
             (fun acc ev =>
                let r := handleFileEvent (fst ev) d (snd ev) None (fst acc) in
                (fst r, snd acc || snd r))
             evs (s, armed) in
  let queued :=
    map (queued_event d)
        (filter (fun ev => negb (str_includes "node_modules" (snd ev))) evs) in
  (queued = [] -> r = (s, armed))
  /\ (queued <> [] -> snd r = true)
  /\ emitted (fst r) = emitted s
  /\ processingQueue (fst r) = processingQueue s
  /\ (NoDup (JSMap.keys (changeQueue s)) ->
      NoDup (JSMap.keys (changeQueue (fst r))))
  /\ (forall d',
        JSMap.get d' (changeQueue (fst r))
        = if String.eqb d d'
          then match queued with
               | [] => JSMap.get d (changeQueue s)
               | _ :: _ =>
                   Some (match JSMap.get d (changeQueue s) with
                         | Some q => q
                         | None => []
                         end ++ queued)
               end
          else JSMap.get d' (changeQueue s))
  /\ (forall d', d' <> d ->
        JSMap.get d' (fileIndex (fst r)) = JSMap.get d' (fileIndex s))
  /\ (JSMap.get d (fileIndex s) = None -> JSMap.get d (fileIndex (fst r)) = None)
  /\ (forall idx, JSMap.get d (fileIndex s) = Some idx -> NoDup idx ->
        exists idx',
          JSMap.get d (fileIndex (fst r)) = Some idx' /\ NoDup idx'
          /\ forall p,
               In p idx'
               <-> match latestEvent (events_for p queued) with
                   | Some e => type e <> unlink
                   | None => In p idx
                   end).
Proof.
  induction evs as [|[ty fp] evs IH]; intros s armed.
  - simpl. splits; auto.
    + intros d'. now destruct (String.eqb_spec d d') as [<-|].
    + intros idx Hidx Hnd. exists idx. splits; auto. intros p. reflexivity.
  - cbn -[handleFileEvent str_includes queued_event latestEvent events_for].
    destruct (str_includes "node_modules" fp) eqn:Hnm.
    + rewrite handleFileEvent_ignored by assumption.
      cbn -[handleFileEvent str_includes queued_event latestEvent events_for].
      rewrite orb_false_r. apply IH.
    + rewrite handleFileEvent_queued by assumption.
      cbn -[handleFileEvent str_includes queued_event latestEvent events_for].
      rewrite orb_true_r.
      set (e := queued_event d (ty, fp)).
      set (s1 := match JSMap.get d (fileIndex s) with
                 | Some index =>
                     set_fileIndex
                       (JSMap.set d
                          match ty with
                          | add | change => JSSet.add fp index
                          | unlink => JSSet.delete fp index
                          end (fileIndex s)) s
                 | None => s
                 end).
      assert (Hq1 : changeQueue s1 = changeQueue s).
      { unfold s1. now destruct (JSMap.get d (fileIndex s)). }
      assert (He1 : emitted s1 = emitted s /\ processingQueue s1 = processingQueue s).
      { unfold s1. now destruct (JSMap.get d (fileIndex s)). }
      set (s2 := set_changeQueue _ s1).
      destruct (IH s2 true) as (I1 & I2 & I3 & I4 & I5 & I6 & I7 & I8 & I9).
      set (r := fold_left _ evs (s2, true)) in *. clearbody r.
      set (queued := map (queued_event d)
                         (filter (fun ev => negb (str_includes "node_modules" (snd ev)))
                                 evs)) in *.
      assert (Hq2 : forall d', JSMap.get d' (changeQueue s2)
                    = if String.eqb d d'
                      then Some (match JSMap.get d (changeQueue s) with
                                 | Some q => q | None => [] end ++ [e])
                      else JSMap.get d' (changeQueue s)).
      { intros d'. unfold s2. simpl. rewrite Hq1.
        destruct (String.eqb_spec d d') as [<-|Hne];
          [apply get_set_eq|now apply get_set_ne]. }
      splits.
      * discriminate.
      * intros _. destruct queued; [now rewrite I1|now apply I2].
      * rewrite I3. apply He1.
      * rewrite I4. apply He1.
      * intros Hnd. apply I5. unfold s2. simpl. rewrite Hq1.
        now apply NoDup_keys_set.
      * intros d'. rewrite I6, !Hq2, String.eqb_refl.
        destruct (String.eqb d d'); [|reflexivity].
        destruct queued; [reflexivity|]. now rewrite <- app_assoc.
      * intros d' Hne. rewrite I7 by assumption. unfold s2, s1. simpl.
        destruct (JSMap.get d (fileIndex s)); [|reflexivity].
        simpl. apply get_set_ne. congruence.
      * intros Hnone. apply I8. unfold s2, s1. simpl. now rewrite Hnone.
      * intros idx Hidx Hnd.
        set (idx1 := match ty with
                     | add | change => JSSet.add fp idx
                     | unlink => JSSet.delete fp idx
                     end).
        assert (Hidx1 : JSMap.get d (fileIndex s2) = Some idx1).
        { unfold s2, s1. simpl. rewrite Hidx. simpl. apply get_set_eq. }
        assert (Hnd1 : NoDup idx1).
        { unfold idx1. destruct ty; try now apply JSSet_add_NoDup.
          unfold JSSet.delete. rewrite remove_first_drop by assumption.
          now apply NoDup_drop. }
        assert (Hin1 : forall p, In p idx1
                       <-> if String.eqb fp p
                           then match ty with unlink => False | _ => True end
                           else In p idx).
        { intros p. unfold idx1.
          destruct (String.eqb_spec fp p) as [<-|Hne].
          - destruct ty; try (rewrite JSSet_add_In; tauto).
            unfold JSSet.delete. rewrite remove_first_drop by assumption.
            rewrite In_drop. tauto.
          - destruct ty; try (rewrite JSSet_add_In; split; [intros [->|]|]; tauto).
            unfold JSSet.delete. rewrite remove_first_drop by assumption.
            rewrite In_drop. split; [tauto|]. intros H. split; [assumption|congruence]. }
        destruct (I9 idx1 Hidx1 Hnd1) as (idx' & J1 & J2 & J3).
        exists idx'. splits; [assumption|assumption|]. intros p.
        rewrite J3, events_for_cons. change (path e) with fp.
        destruct (String.eqb_spec fp p) as [<-|Hne].
        -- rewrite latestEvent_cons.
           destruct (latestEvent (events_for fp queued)); [reflexivity|].
           rewrite Hin1, String.eqb_refl. change (type e) with ty.
           destruct ty; split; try tauto; try discriminate; congruence.
        -- destruct (latestEvent (events_for p queued)); [reflexivity|].
           rewrite Hin1. destruct (String.eqb_spec fp p); [contradiction|reflexivity].
Qed.
End QueueFacts.

(** X11.  [processChangeQueue] turns the queue of every directory into one
    [batch:change] notification that carries the queued events in arrival
    order (none for an empty queue) and, for every file that has events in
    the queue, a single [file:change] notification that carries the latest of
    them.  Every queue is empty afterwards, the file index is untouched, and
    a second run emits nothing. *)
Theorem processChangeQueue_one_batch_per_directory (s : FileWatcherService.t) :
  FileWatcherService.processingQueue s = false ->
  NoDup (JSMap.keys (FileWatcherService.changeQueue s)) ->
  let s' := FileWatcherService.processChangeQueue s in
  exists log,
    FileWatcherService.emitted s' = FileWatcherService.emitted s ++ log
    /\ (forall d,
          batches_of d log
          = match JSMap.get d (FileWatcherService.changeQueue s) with
            | Some (e :: events) => [e :: events]
            | _ => []
            end)
    /\ (forall d p,
          file_changes_of d p log
          = match JSMap.get d (FileWatcherService.changeQueue s) with
            | Some events =>
                match FileWatcherService.latestEvent (events_for p events) with
                | Some e => [e]
                | None => []
                end
            | None => []
            end)
    /\ (forall d,
          JSMap.get d (FileWatcherService.changeQueue s')
          = match JSMap.get d (FileWatcherService.changeQueue s) with
            | Some _ => Some []
            | None => None
            end)
    /\ FileWatcherService.fileIndex s' = FileWatcherService.fileIndex s
    /\ FileWatcherService.emitted (FileWatcherService.processChangeQueue s')
       = FileWatcherService.emitted s'.
Proof.
  intros Hp Hnd s'.
  destruct (processChangeQueue_log s Hp Hnd) as (H1 & H2 & H3 & H4).
  fold s' in H1, H2, H3, H4. clearbody s'.
  eexists. split; [exact H1|]. splits.
  - intros d. now apply batches_lookup.
  - intros d p. now apply file_changes_lookup.
  - intros d. rewrite H2. apply get_map_clear.
  - exact H3.
  - destruct (processChangeQueue_log s' H4) as (K1 & _).
    { rewrite H2. unfold JSMap.keys in *. rewrite map_map. exact Hnd. }
    rewrite K1, H2.
    assert (Hnil : forall q : JSMap.t (list FileWatcherService.FileChangeEvent),
               flat_map (fun kv => directory_log (fst kv) (snd kv))
                        (map (fun kv => (fst kv, [])) q) = []).
    { induction q as [|kv q IH]; [reflexivity|]. simpl. exact IH. }
    now rewrite Hnil, app_nil_r.
Qed.

Lemma processChangeQueue_one_batch_per_directory_witness :
  FileWatcherService.processingQueue two_watchers = false
  /\ NoDup (JSMap.keys (FileWatcherService.changeQueue two_watchers))
  /\ List.length (FileWatcherService.emitted
                    (FileWatcherService.processChangeQueue two_watchers)) = 2%nat
  /\ exists log,
       FileWatcherService.emitted (FileWatcherService.processChangeQueue two_watchers)
       = FileWatcherService.emitted two_watchers ++ log.
Proof.
  assert (Hnd : NoDup (JSMap.keys (FileWatcherService.changeQueue two_watchers))).
  { repeat constructor; simpl; intuition discriminate. }
  split; [reflexivity|]. split; [exact Hnd|]. split; [reflexivity|].
  destruct (processChangeQueue_one_batch_per_directory two_watchers eq_refl Hnd)
    as (log & Hlog & _).
  exists log. exact Hlog.
Defined.

(** X13.  A burst of file events on one directory of a service whose
    queues are empty, followed by the firing of the debounce timer, is
    delivered as one [batch:change] that holds the events of the burst in
    arrival order, without those below [node_modules], and as one
    [file:change] per file with the latest event of that file; nothing is
    delivered for another directory and the queues are empty again.  When
    the directory has a file index, a path is in the index afterwards exactly
    when its latest event is not an [unlink], or when it has no event and
    was in the index. *)
Theorem burst_is_delivered_as_one_batch
  (d : string) (evs : list (FileWatcherService.ChangeType * string))
  (s : FileWatcherService.t) :
  FileWatcherService.processingQueue s = false ->
  NoDup (JSMap.keys (FileWatcherService.changeQueue s)) ->
  (forall d' q, JSMap.get d' (FileWatcherService.changeQueue s) = Some q -> q = []) ->
  let queued :=
    map (queued_event d)
        (filter (fun ev => negb (str_includes "node_modules" (snd ev))) evs) in
  let s' := burst d evs s in
  exists log,
    FileWatcherService.emitted s' = FileWatcherService.emitted s ++ log
    /\ batches_of d log = match queued with [] => [] | _ :: _ => [queued] end
    /\ (forall p, file_changes_of d p log
                  = match FileWatcherService.latestEvent (events_for p queued) with
                    | Some e => [e]
                    | None => []
                    end)
    /\ (forall d', d' <> d ->
          batches_of d' log = [] /\ forall p, file_changes_of d' p log = [])
    /\ (forall d' q, JSMap.get d' (FileWatcherService.changeQueue s') = Some q ->
                     q = [])
    /\ (forall idx,
          JSMap.get d (FileWatcherService.fileIndex s) = Some idx -> NoDup idx ->
          NoDup (FileWatcherService.getWatchedFiles d s')
          /\ forall p,
               In p (FileWatcherService.getWatchedFiles d s')
               <-> match FileWatcherService.latestEvent (events_for p queued) with
                   | Some e => FileWatcherService.type e <> FileWatcherService.unlink
                   | None => In p idx
                   end)
    /\ (forall d', d' <> d ->
          FileWatcherService.getWatchedFiles d' s'
          = FileWatcherService.getWatchedFiles d' s).
Proof.
  intros Hp Hnd Hempty queued s'. subst s'. unfold burst.
  destruct (burst_fold d evs s false)
    as (B1 & B2 & B3 & B4 & B5 & B6 & B7 & B8 & B9).
  fold queued in B1, B2, B6, B9.
  set (r := fold_left _ evs (s, false)) in *. clearbody r.
  specialize (B5 Hnd).
  assert (Hold : match JSMap.get d (FileWatcherService.changeQueue s) with
                 | Some q => q | None => [] end = []).
  { destruct (JSMap.get d (FileWatcherService.changeQueue s)) as [q|] eqn:Hq;
      [now apply (Hempty d)|reflexivity]. }
  rewrite Hold in B6. simpl in B6. clearbody queued.
  destruct queued as [|e0 rest].
  - rewrite (B1 eq_refl). simpl. exists []. rewrite app_nil_r.
    splits; try reflexivity; auto.
    intros idx Hidx Hnd'. unfold FileWatcherService.getWatchedFiles.
    rewrite Hidx. split; [assumption|]. intros p. reflexivity.
  - rewrite (B2 ltac:(discriminate)).
    assert (Hp1 : FileWatcherService.processingQueue (fst r) = false) by congruence.
    destruct (processChangeQueue_log (fst r) Hp1 B5) as (H1 & H2 & H3 & H4).
    set (s' := FileWatcherService.processChangeQueue (fst r)) in *. clearbody s'.
    eexists. split; [rewrite H1, B3; reflexivity|].
    assert (Hb : forall d',
               batches_of d'
                 (flat_map (fun kv => directory_log (fst kv) (snd kv))
                           (FileWatcherService.changeQueue (fst r)))
               = if String.eqb d d' then [e0 :: rest] else []).
    { intros d'. rewrite batches_lookup by assumption.
      rewrite B6. destruct (String.eqb_spec d d') as [<-|Hne]; [reflexivity|].
      destruct (JSMap.get d' (FileWatcherService.changeQueue s)) as [q|] eqn:Hq;
        [|reflexivity].
      rewrite (Hempty d' q Hq). reflexivity. }
    assert (Hf : forall d' p,
               file_changes_of d' p
                 (flat_map (fun kv => directory_log (fst kv) (snd kv))
                           (FileWatcherService.changeQueue (fst r)))
               = if String.eqb d d'
                 then match FileWatcherService.latestEvent
                              (events_for p (e0 :: rest)) with
                      | Some e => [e]
                      | None => []
                      end
                 else []).
    { intros d' p. rewrite file_changes_lookup by assumption.
      rewrite B6. destruct (String.eqb_spec d d') as [<-|Hne]; [reflexivity|].
      destruct (JSMap.get d' (FileWatcherService.changeQueue s)) as [q|] eqn:Hq;
        [|reflexivity].
      rewrite (Hempty d' q Hq). reflexivity. }
    splits.
    + now rewrite Hb, String.eqb_refl.
    + intros p. now rewrite Hf, String.eqb_refl.
    + intros d' Hne. split; [|intros p]; rewrite ?Hb, ?Hf;
        destruct (String.eqb_spec d d'); congruence.
    + intros d' q Hq. rewrite H2, get_map_clear in Hq.
      destruct (JSMap.get d' (FileWatcherService.changeQueue (fst r)));
        congruence.
    + intros idx Hidx Hnd'. unfold FileWatcherService.getWatchedFiles.
      rewrite H3. destruct (B9 idx Hidx Hnd') as (idx' & J1 & J2 & J3).
      rewrite J1. split; [assumption|exact J3].
    + intros d' Hne. unfold FileWatcherService.getWatchedFiles.
      now rewrite H3, B7.
Qed.

Lemma burst_is_delivered_as_one_batch_witness :
  let s := FileWatcherService.set_changeQueue [] two_watchers in
  let evs := [(FileWatcherService.add, "/a/n.ts");
              (FileWatcherService.add, "/a/node_modules/m.js");
              (FileWatcherService.unlink, "/a/x.ts");
              (FileWatcherService.change, "/a/n.ts")] in
  FileWatcherService.processingQueue s = false
  /\ NoDup (JSMap.keys (FileWatcherService.changeQueue s))
  /\ FileWatcherService.getWatchedFiles "/a" (burst "/a" evs s)
     = ["/a/y.ts"; "/a/n.ts"]
  /\ List.length (FileWatcherService.emitted (burst "/a" evs s)) = 3%nat
  /\ exists log,
       FileWatcherService.emitted (burst "/a" evs s)
       = FileWatcherService.emitted s ++ log.
Proof.
  intros s evs.
  split; [reflexivity|]. split; [constructor|]. split; [reflexivity|].
  split; [reflexivity|].
  destruct (burst_is_delivered_as_one_batch "/a" evs s eq_refl (NoDup_nil _))
    as (log & Hlog & _).
  { intros d' q Hq. discriminate Hq. }
  exists log. exact Hlog.
Defined.

(** ** FileWatcherService: the user setting *)

Lemma stopAll_fields (s : FileWatcherService.t) :
  NoDup (JSMap.keys (FileWatcherService.watchers s)) ->
  let s' := FileWatcherService.stopAll s in
  FileWatcherService.watchers s' = []
  /\ FileWatcherService.watcherCount s'
     = FileWatcherService.watcherCount s
       - JSMap.size (FileWatcherService.watchers s)
  /\ FileWatcherService.emitted s' = FileWatcherService.emitted s
  /\ FileWatcherService.isWatchingDisabled s'
     = FileWatcherService.isWatchingDisabled s
  /\ FileWatcherService.watchingStrategy s'
     = FileWatcherService.watchingStrategy s
  /\ FileWatcherService.failedDirectories s'
     = FileWatcherService.failedDirectories s
  /\ FileWatcherService.fallbackMode s' = FileWatcherService.fallbackMode s.
Proof.
  intros Hnd s'. subst s'. unfold FileWatcherService.stopAll.
  destruct (unwatch_fold (JSMap.keys (FileWatcherService.watchers s)) s Hnd)
    as (H1 & _ & _ & _ & H5 & _ & H7 & _ & _ & H10 & H11 & _).
  { intros d Hd. now apply get_In_keys. }
  destruct (unwatch_all_keeps_failed (JSMap.keys (FileWatcherService.watchers s)) s)
    as (F1 & F2).
  splits; try assumption.
  - rewrite H1. apply filter_keys_all.
  - rewrite H5. unfold JSMap.size, JSMap.keys. now rewrite length_map.
Qed.

Lemma unwatch_keeps_config ds : forall s,
  let s' := fold_left (fun acc d => FileWatcherService.unwatchDirectory d acc) ds s in
  FileWatcherService.isWatchingDisabled s'
  = FileWatcherService.isWatchingDisabled s
  /\ FileWatcherService.watchingStrategy s'
     = FileWatcherService.watchingStrategy s.
Proof.
  induction ds as [|d ds IH]; intros s; simpl; [auto|].
  destruct (IH (FileWatcherService.unwatchDirectory d s)) as (H1 & H2).
  rewrite H1, H2. unfold FileWatcherService.unwatchDirectory.
  now destruct (JSMap.get d (FileWatcherService.watchers s)).
Qed.

(** The three exclusive branches of [setWatchingConfiguration]. *)
Lemma setWatchingConfiguration_cases config s :
  let disabled :=
    match FileWatcherService.enabled config with
    | Some e => negb e
    | None => FileWatcherService.isWatchingDisabled s
    end in
  let strat :=
    match FileWatcherService.strategy config with
    | Some st => st
    | None => FileWatcherService.watchingStrategy s
    end in
  let s1 := FileWatcherService.set_configuration disabled strat s in
  FileWatcherService.setWatchingConfiguration config s
  = if FileWatcherService.isWatchingDisabled s
    then if disabled
         then match FileWatcherService.strategy config with
              | Some _ =>
                  FileWatcherService.emit
                    (FileWatcherService.configuration_changed false strat) s1
              | None => s1
              end
         else FileWatcherService.emit
                (FileWatcherService.configuration_changed true strat)
                (FileWatcherService.resetFallbackMode s1)
    else if disabled
         then FileWatcherService.emit
                (FileWatcherService.configuration_changed false strat)
                (FileWatcherService.stopAll s1)
         else match FileWatcherService.strategy config with
              | Some _ =>
                  FileWatcherService.emit
                    (FileWatcherService.configuration_changed true strat) s1
              | None => s1
              end.
Proof.
  intros disabled strat s1. subst s1 disabled strat.
  unfold FileWatcherService.setWatchingConfiguration.
  destruct config as [en st]. cbn [FileWatcherService.enabled FileWatcherService.strategy].
  set (s1 := FileWatcherService.set_configuration _ _ s).
  destruct (unwatch_keeps_config (JSMap.keys (FileWatcherService.watchers s1)) s1)
    as (K1 & K2).
  fold (FileWatcherService.stopAll s1) in K1, K2.
  assert (E1 : forall e, FileWatcherService.isWatchingDisabled
                           (FileWatcherService.emit e (FileWatcherService.stopAll s1))
                         = FileWatcherService.isWatchingDisabled s1)
    by (intros e; exact K1).
  assert (E2 : forall e, FileWatcherService.watchingStrategy
                           (FileWatcherService.emit e (FileWatcherService.stopAll s1))
                         = FileWatcherService.watchingStrategy s1)
    by (intros e; exact K2).
  destruct (FileWatcherService.isWatchingDisabled s) eqn:Hd;
    destruct en as [[|]|]; destruct st as [st|];
    cbn [negb andb]; rewrite ?E1, ?E2; subst s1;
    cbn [FileWatcherService.isWatchingDisabled FileWatcherService.watchingStrategy
         FileWatcherService.set_configuration FileWatcherService.emit
         FileWatcherService.resetFallbackMode negb andb Bool.eqb];
    rewrite ?Hd; cbn [negb] in K1; rewrite ?K1;
    cbn [FileWatcherService.isWatchingDisabled FileWatcherService.watchingStrategy
         FileWatcherService.set_configuration negb andb Bool.eqb];
    reflexivity.
Qed.

(** X12.  [setWatchingConfiguration] stores the fields that are given and
    keeps the others.  When it turns watching off, every watcher is
    stopped; when it turns watching on again, the fallback state is
    cleared and every directory can be watched; otherwise watchers and
    fallback state are untouched.  It sends one [configuration:changed]
    notification when the enabled flag flips or a strategy is given, and
    none otherwise; the notification carries the new setting. *)
Theorem setWatchingConfiguration_effects
  (config : FileWatcherService.WatchingConfig) (s : FileWatcherService.t) :
  NoDup (JSMap.keys (FileWatcherService.watchers s)) ->
  let s' := FileWatcherService.setWatchingConfiguration config s in
  let now_enabled :=
    match FileWatcherService.enabled config with
    | Some e => e
    | None => negb (FileWatcherService.isWatchingDisabled s)
    end in
  let now_strategy :=
    match FileWatcherService.strategy config with
    | Some st => st
    | None => FileWatcherService.watchingStrategy s
    end in
  let flipped :=
    Bool.eqb now_enabled (FileWatcherService.isWatchingDisabled s) in
  let given :=
    match FileWatcherService.strategy config with
    | Some _ => true
    | None => false
    end in
  FileWatcherService.getWatchingConfiguration s'
  = FileWatcherService.mkWatchingConfiguration
      now_enabled now_strategy
      (FileWatcherService.watcherCount s')
      (FileWatcherService.fallbackMode s')
  /\ (exists log,
        FileWatcherService.emitted s' = FileWatcherService.emitted s ++ log
        /\ configuration_changes log = (if flipped || given then 1 else 0)%nat
        /\ (flipped || given = true ->
            exists before,
              log = before
                    ++ [FileWatcherService.configuration_changed
                          now_enabled now_strategy]))
  /\ (FileWatcherService.isWatchingDisabled s = false -> now_enabled = false ->
      FileWatcherService.watchers s' = []
      /\ FileWatcherService.watcherCount s'
         = FileWatcherService.watcherCount s
           - JSMap.size (FileWatcherService.watchers s)
      /\ FileWatcherService.isWatchingEnabled s' = false)
  /\ (FileWatcherService.isWatchingDisabled s = true -> now_enabled = true ->
      FileWatcherService.fallbackMode s' = false
      /\ FileWatcherService.failedDirectories s' = []
      /\ (forall d, FileWatcherService.canWatchDirectory d s' = true)
      /\ FileWatcherService.watchers s' = FileWatcherService.watchers s)
  /\ (flipped = false ->
      FileWatcherService.watchers s' = FileWatcherService.watchers s
      /\ FileWatcherService.watcherCount s' = FileWatcherService.watcherCount s
      /\ FileWatcherService.failedDirectories s'
         = FileWatcherService.failedDirectories s
      /\ FileWatcherService.fallbackMode s' = FileWatcherService.fallbackMode s).
Proof.
  intros Hnd s' now_enabled now_strategy flipped given.
  subst s' now_enabled now_strategy flipped given.
  rewrite setWatchingConfiguration_cases.
  destruct config as [en st].
  cbn [FileWatcherService.enabled FileWatcherService.strategy].
  assert (HA : forall strat,
             let s1 := FileWatcherService.set_configuration true strat s in
             FileWatcherService.watchers (FileWatcherService.stopAll s1) = []
             /\ FileWatcherService.watcherCount (FileWatcherService.stopAll s1)
                = FileWatcherService.watcherCount s
                  - JSMap.size (FileWatcherService.watchers s)
             /\ FileWatcherService.emitted (FileWatcherService.stopAll s1)
                = FileWatcherService.emitted s
             /\ FileWatcherService.isWatchingDisabled (FileWatcherService.stopAll s1)
                = true
             /\ FileWatcherService.watchingStrategy (FileWatcherService.stopAll s1)
                = strat).
  { intros strat s1.
    destruct (stopAll_fields s1 Hnd) as (A1 & A2 & A3 & A4 & A5 & _).
    auto. }
  destruct (FileWatcherService.isWatchingDisabled s) eqn:Hd;
    destruct en as [[|]|]; destruct st as [st|];
    cbn [negb Bool.eqb orb];
    match goal with
    | |- context [FileWatcherService.stopAll
                    (FileWatcherService.set_configuration true ?strat s)] =>
        destruct (HA strat) as (A1 & A2 & A3 & A4 & A5)
    | _ => idtac
    end; clear HA;
    (split;
     [unfold FileWatcherService.getWatchingConfiguration; simpl;
      rewrite ?A4, ?A5, ?Hd; reflexivity|]);
    (split;
     [eexists; split;
      [simpl; rewrite ?A3, <- ?app_assoc; simpl;
       first [reflexivity | symmetry; apply app_nil_r]
      |split; [reflexivity|];
       first [discriminate
             |intros _; first [exists []; reflexivity
                              |exists [FileWatcherService.fallback_reset];
                               reflexivity]]]|]);
    (split;
     [first [discriminate
            |intros _ _; simpl; splits; try assumption;
             unfold FileWatcherService.isWatchingEnabled; simpl;
             rewrite ?A4; reflexivity
            |intros _ H; discriminate H]|]);
    (split;
     [first [discriminate
            |intros _ _; splits; reflexivity
            |intros _ H; discriminate H]|]);
    first [discriminate|intros _; splits; reflexivity].
Qed.

Lemma setWatchingConfiguration_effects_witness :
  let config := FileWatcherService.mkConfig (Some false) None in
  NoDup (JSMap.keys (FileWatcherService.watchers two_watchers))
  /\ FileWatcherService.watchers
       (FileWatcherService.setWatchingConfiguration config two_watchers) = []
  /\ FileWatcherService.getWatchingConfiguration
       (FileWatcherService.setWatchingConfiguration config two_watchers)
     = FileWatcherService.mkWatchingConfiguration false "conservative" 0 false.
Proof.
  intros config.
  assert (Hnd : NoDup (JSMap.keys (FileWatcherService.watchers two_watchers))).
  { repeat constructor; simpl; intuition discriminate. }
  split; [exact Hnd|].
  destruct (setWatchingConfiguration_effects config two_watchers Hnd)
    as (_ & _ & H3 & _).
  destruct H3 as (Hw & _); [reflexivity|reflexivity|].
  split; [exact Hw|reflexivity].
Defined.

(** ** LightweightContext: release of resources *)

Lemma cleanup_live wp fc pi lst cbs fwc cnt tm mf pats mon calls :
  LightweightContext.cleanup
    (LightweightContext.mk wp fc pi lst false cbs fwc cnt tm mf pats mon calls)
  = LightweightContext.mk wp (LRUCache.clear fc) None lst true [] false cnt None
      mf pats false
      (calls
       ++ (if fwc then [LightweightContext.call_off_file_change] else [])
       ++ (if String.eqb wp "" then []
           else [LightweightContext.call_unwatchDirectory wp])).
Proof.
  unfold LightweightContext.cleanup.
  cbn [LightweightContext.isDestroyed].
  destruct fwc, (String.eqb wp "") eqn:Hwp, mon;
    cbv [LightweightContext.stopMemoryMonitor LightweightContext.stopWatching
         LightweightContext.set_fileWatcherCleanup LightweightContext.call
         LightweightContext.set_scanDebounceTimer
         LightweightContext.set_memoryMonitorInterval
         LightweightContext.workspacePath LightweightContext.fileCache
         LightweightContext.projectInfo LightweightContext.lastScanTime
         LightweightContext.isDestroyed LightweightContext.watcherCallbacks
         LightweightContext.fileWatcherCleanup LightweightContext.callbackIdCounter
         LightweightContext.scanDebounceTimer LightweightContext.MAX_FILES
         LightweightContext.ignorePatterns LightweightContext.memoryMonitorInterval
         LightweightContext.serviceCalls];
    rewrite ?Hwp; cbv beta iota zeta;
    rewrite ?Hwp; rewrite <- ?app_assoc, ?app_nil_r; reflexivity.
Qed.

(** X14.  [cleanup] of a live instance releases everything the instance
    holds: the instance is destroyed, the cache and the recency array are
    empty, the project info and the callbacks are gone, no timer and no
    listener is left, the watcher service is told to unwatch the workspace,
    and [detectMemoryLeaks] finds nothing to report.  A second [cleanup]
    changes nothing. *)
Theorem cleanup_releases_everything (c : LightweightContext.t) :
  LightweightContext.isDestroyed c = false ->
  let c' := LightweightContext.cleanup c in
  LightweightContext.isDestroyed c' = true
  /\ LightweightContext.getCacheSize c' = 0
  /\ LRUCache.accessOrder (LightweightContext.fileCache c') = []
  /\ LightweightContext.projectInfo c' = None
  /\ LightweightContext.watcherCallbacks c' = []
  /\ LightweightContext.scanDebounceTimer c' = None
  /\ LightweightContext.memoryMonitorInterval c' = false
  /\ LightweightContext.fileWatcherCleanup c' = false
  /\ (forall heapUsed heapTotal,
        LightweightContext.getMemoryStats heapUsed heapTotal c'
        = LightweightContext.mkMemoryStats heapUsed heapTotal 0 0 0 true)
  /\ LightweightContext.detectMemoryLeaks c'
     = LightweightContext.mkLeakReport [] [] "low"
  /\ (exists calls,
        LightweightContext.serviceCalls c'
        = LightweightContext.serviceCalls c ++ calls
        /\ (LightweightContext.fileWatcherCleanup c = true ->
            In LightweightContext.call_off_file_change calls)
        /\ (LightweightContext.workspacePath c = ""
            \/ In (LightweightContext.call_unwatchDirectory
                     (LightweightContext.workspacePath c)) calls))
  /\ LightweightContext.cleanup c' = c'.
Proof.
  intros Hd c'. subst c'.
  destruct c as [wp fc pi lst dest cbs fwc cnt tm mf pats mon calls].
  simpl in Hd. subst dest. rewrite cleanup_live.
  cbn [LightweightContext.isDestroyed LightweightContext.fileCache
       LightweightContext.projectInfo LightweightContext.watcherCallbacks
       LightweightContext.scanDebounceTimer LightweightContext.memoryMonitorInterval
       LightweightContext.fileWatcherCleanup LightweightContext.serviceCalls
       LightweightContext.workspacePath].
  assert (Hfull : LightweightContext.nearlyFull 0 mf = false).
  { unfold LightweightContext.nearlyFull.
    destruct (mf >? 0) eqn:H1.
    - rewrite Z.gtb_ltb in *. apply Z.ltb_lt in H1. apply Z.ltb_ge. lia.
    - destruct (mf =? 0) eqn:H2; [reflexivity|].
      rewrite Z.gtb_ltb in H1. apply Z.ltb_ge in H1. apply Z.eqb_neq in H2.
      apply Z.ltb_ge. lia. }
  splits; try reflexivity.
  - unfold LightweightContext.detectMemoryLeaks.
    cbn [LightweightContext.isDestroyed LightweightContext.fileCache
         LightweightContext.watcherCallbacks LightweightContext.MAX_FILES
         LightweightContext.scanDebounceTimer LightweightContext.memoryMonitorInterval
         LightweightContext.fileWatcherCleanup List.length].
    change (LRUCache.size (LRUCache.clear fc)) with 0. rewrite Hfull. reflexivity.
  - eexists. split; [reflexivity|]. split.
    + intros ->. now left.
    + destruct (String.eqb_spec wp ""); [now left|right].
      apply in_or_app. right. now left.
Qed.

Lemma cleanup_releases_everything_witness :
  let c := snd (LightweightContext.initialize pool_env 0 "/ws/p1"
                  LightweightContext.create) in
  LightweightContext.isDestroyed c = false
  /\ LightweightContext.getCacheSize c = 2
  /\ LightweightContext.getCacheSize (LightweightContext.cleanup c) = 0.
Proof.
  intros c.
  assert (Hd : LightweightContext.isDestroyed c = false)
    by (vm_compute; reflexivity).
  assert (Hsize : LightweightContext.getCacheSize c = 2)
    by (vm_compute; reflexivity).
  clearbody c.
  split; [exact Hd|]. split; [exact Hsize|].
  destruct (cleanup_releases_everything c Hd) as (_ & H & _). exact H.
Defined.

(** X15.  [detectMemoryLeaks] makes five checks, so it reports at most
    five issues, with one recommendation each; its severity is ["low"] up
    to two issues and ["medium"] from three on, and never ["high"], which
    would take more than five issues. *)
Theorem detectMemoryLeaks_severity (c : LightweightContext.t) :
  let r := LightweightContext.detectMemoryLeaks c in
  (List.length (LightweightContext.potentialLeaks r) <= 5)%nat
  /\ List.length (LightweightContext.recommendations r)
     = List.length (LightweightContext.potentialLeaks r)
  /\ LightweightContext.severity r
     = (if Nat.leb 3 (List.length (LightweightContext.potentialLeaks r))
        then "medium" else "low")
  /\ String.eqb (LightweightContext.severity r) "high" = false.
Proof.
  unfold LightweightContext.detectMemoryLeaks.
  destruct (Z.of_nat (List.length (LightweightContext.watcherCallbacks c)) >? 10),
    (LightweightContext.nearlyFull
       (LRUCache.size (LightweightContext.fileCache c))
       (LightweightContext.MAX_FILES c)),
    (LightweightContext.scanDebounceTimer c),
    (LightweightContext.memoryMonitorInterval c),
    (LightweightContext.fileWatcherCleanup c),
    (LightweightContext.isDestroyed c);
    simpl; splits; try reflexivity; lia.
Qed.

(** ** LRUCache: where the entries of a cache come from *)

Section CacheEntries.
Context {V : Type}.
Implicit Types (c : LRUCache.t V) (kv : string * LRUCache.CacheEntry V).

Lemma delete_subset key c kv :
  In kv (LRUCache.cache (snd (LRUCache.delete key c))) -> In kv (LRUCache.cache c).
Proof.
  unfold LRUCache.delete. destruct (JSMap.has key (LRUCache.cache c)); simpl; auto.
  intros H. now apply filter_In in H.
Qed.

Lemma fold_delete_subset ks : forall c kv,
  In kv (LRUCache.cache
           (fold_left (fun acc key => snd (LRUCache.delete key acc)) ks c)) ->
  In kv (LRUCache.cache c).
Proof.
  induction ks as [|k ks IH]; intros c kv H; simpl in H; [assumption|].
  apply IH in H. now apply delete_subset in H.
Qed.

Lemma evictLoop_subset M order : forall (m : JSMap.t (LRUCache.CacheEntry V)) kv,
  In kv (fst (LRUCache.evictLoop M m order)) -> In kv m.
Proof.
  induction order as [|k rest IH]; intros m kv H; simpl in H; [assumption|].
  destruct (JSMap.size m >=? M); [|assumption].
  apply IH in H. now apply filter_In in H.
Qed.

Lemma evict_subset now c kv :
  In kv (LRUCache.cache (LRUCache.evictLeastRecentlyUsed now c)) ->
  In kv (LRUCache.cache c).
Proof.
  unfold LRUCache.evictLeastRecentlyUsed, LRUCache.cleanupExpired.
  set (c1 := fold_left _ _ c).
  pose proof (evictLoop_subset (LRUCache.maxSize c1) (LRUCache.accessOrder c1)
                (LRUCache.cache c1) kv) as Hl.
  destruct (LRUCache.evictLoop (LRUCache.maxSize c1) (LRUCache.cache c1)
              (LRUCache.accessOrder c1)) as [m order].
  simpl in *. intros H. apply Hl in H. unfold c1 in H.
  now apply fold_delete_subset in H.
Qed.

(** An entry found after a [set] is the entry just stored or was there
    before. *)
Lemma set_entries now key (v : V) c kv :
  In kv (LRUCache.cache (LRUCache.set now key v c)) ->
  (exists n, kv = (key, LRUCache.mkEntry v now n)) \/ In kv (LRUCache.cache c).
Proof.
  unfold LRUCache.set.
  destruct (JSMap.get key (LRUCache.cache c)) as [e|]; simpl.
  - intros H. apply In_set in H as [->|H]; [left; eauto|now right].
  - intros H. apply In_set in H as [->|H]; [left; eauto|right].
    destruct (LRUCache.size c >=? LRUCache.maxSize c); [|assumption].
    now apply evict_subset in H.
Qed.
End CacheEntries.

(** ** LightweightContext: the emergency cleanup *)

Section EmergencyFacts.
Import LightweightContext.

Lemma readd_size now entries : forall kept fc,
  LRUCache.size (readd now entries kept fc)
  <= LRUCache.size fc + Z.max 0 (50 - kept).
Proof.
  induction entries as [|[p file] rest IH]; intros kept fc; cbn [readd]; [lia|].
  destruct (kept <? 50) eqn:Hk; [|lia]. apply Z.ltb_lt in Hk.
  destruct (isConfigFile (name file) || isEntryPoint (name file) || (kept <? 30)).
  - specialize (IH (kept + 1) (LRUCache.set now p file fc)).
    destruct (lru_set_shape now p file fc) as (Hs & _). lia.
  - specialize (IH kept fc). lia.
Qed.

Lemma readd_entries now entries : forall kept fc kv,
  In kv (LRUCache.cache (readd now entries kept fc)) ->
  In kv (LRUCache.cache fc)
  \/ exists n, In (fst kv, LRUCache.value (snd kv)) entries
               /\ snd kv = LRUCache.mkEntry (LRUCache.value (snd kv)) now n.
Proof.
  induction entries as [|[p file] rest IH]; intros kept fc kv H; simpl in H;
    [now left|].
  destruct (kept <? 50); [|now left].
  destruct (isConfigFile (name file) || isEntryPoint (name file) || (kept <? 30)).
  - apply IH in H as [H|(n & H1 & H2)].
    + apply set_entries in H as [(n & ->)|H]; [|now left].
      right. exists n. simpl. split; [now left|reflexivity].
    + right. exists n. split; [now right|assumption].
  - apply IH in H as [H|(n & H1 & H2)]; [now left|].
    right. exists n. split; [now right|assumption].
Qed.

Lemma readd_shape now entries : forall kept fc,
  LRUCache.maxSize (readd now entries kept fc) = LRUCache.maxSize fc
  /\ LRUCache.maxAge (readd now entries kept fc) = LRUCache.maxAge fc.
Proof.
  induction entries as [|[p file] rest IH]; intros kept fc; simpl; [auto|].
  destruct (kept <? 50); [|auto].
  destruct (isConfigFile (name file) || isEntryPoint (name file) || (kept <? 30)).
  - destruct (IH (kept + 1) (LRUCache.set now p file fc)) as (H1 & H2).
    destruct (lru_set_shape now p file fc) as (_ & H3 & H4). split; congruence.
  - apply IH.
Qed.
End EmergencyFacts.

(** X16.  After [emergencyCleanup] a live instance caches at most 50
    files, whatever it cached before.  Every file kept was cached before,
    with the same file data; no file is added, the debounce timer is
    cleared, and the limits of the instance are unchanged. *)
Theorem emergencyCleanup_keeps_at_most_50
  (now : Z) (c : LightweightContext.t) :
  LightweightContext.isDestroyed c = false ->
  let c' := LightweightContext.emergencyCleanup now c in
  LightweightContext.getCacheSize c' <= 50
  /\ LightweightContext.getCacheSize c' <= LightweightContext.getCacheSize c
  /\ (forall kv, In kv (LRUCache.cache (LightweightContext.fileCache c')) ->
        exists e, In (fst kv, e) (LRUCache.cache (LightweightContext.fileCache c))
                  /\ LRUCache.value (snd kv) = LRUCache.value e)
  /\ LightweightContext.scanDebounceTimer c' = None
  /\ LightweightContext.isDestroyed c' = false
  /\ LightweightContext.MAX_FILES c' = LightweightContext.MAX_FILES c
  /\ LRUCache.maxSize (LightweightContext.fileCache c')
     = LRUCache.maxSize (LightweightContext.fileCache c).
Proof.
  intros Hd c'. subst c'. unfold LightweightContext.emergencyCleanup.
  rewrite Hd. unfold LightweightContext.getCacheSize. simpl.
  set (fc := LightweightContext.fileCache c).
  set (fc1 := LRUCache.cleanupExpired now fc).
  assert (Hsub : forall kv, In kv (LRUCache.cache fc1) -> In kv (LRUCache.cache fc)).
  { intros kv. apply fold_delete_subset. }
  destruct (lru_fold_delete_shape (LRUCache.expiredKeys now fc) fc) as (S1 & S2 & S3).
  fold (LRUCache.cleanupExpired now fc) in S1, S2, S3. fold fc1 in S1, S2, S3.
  assert (Hsz1 : LRUCache.size fc1 <= LRUCache.size fc) by exact S1.
  destruct (LRUCache.size fc1 >? 50) eqn:Hbig.
  - pose proof (readd_size now (LRUCache.entries fc1) 0 (LRUCache.clear fc1)) as Hsz.
    destruct (readd_shape now (LRUCache.entries fc1) 0 (LRUCache.clear fc1)) as (R1 & _).
    change (LRUCache.size (LRUCache.clear fc1)) with 0 in Hsz.
    apply Z.gtb_lt in Hbig.
    split; [lia|]. split; [lia|]. split.
    { intros kv Hin. apply readd_entries in Hin as [[]|(n & Hin & Heq)].
      unfold LRUCache.entries in Hin. apply in_map_iff in Hin as ([k e] & Hke & Hin).
      simpl in Hke. injection Hke as Hk Hv.
      exists e. split; [rewrite <- Hk; now apply Hsub|now symmetry]. }
    split; [reflexivity|]. split; [exact Hd|]. split; [reflexivity|].
    rewrite R1. exact S2.
  - rewrite Z.gtb_ltb in Hbig. apply Z.ltb_ge in Hbig.
    split; [lia|]. split; [lia|]. split.
    { intros [k e] Hin. exists e. split; [now apply Hsub|reflexivity]. }
    split; [reflexivity|]. split; [exact Hd|]. split; [reflexivity|].
    exact S2.
Qed.

Lemma emergencyCleanup_keeps_at_most_50_witness :
  let c := add_events mono_env 1 (generated_files 60) LightweightContext.create in
  LightweightContext.isDestroyed c = false
  /\ LightweightContext.getCacheSize c = 60
  /\ LightweightContext.getCacheSize (LightweightContext.emergencyCleanup 2 c) <= 50.
Proof.
  intros c.
  assert (Hd : LightweightContext.isDestroyed c = false)
    by (vm_compute; reflexivity).
  assert (Hsize : LightweightContext.getCacheSize c = 60)
    by (vm_compute; reflexivity).
  clearbody c.
  split; [exact Hd|]. split; [exact Hsize|].
  destruct (emergencyCleanup_keeps_at_most_50 2 c Hd) as (H & _). exact H.
Defined.

(** ** LightweightContext: what a scan caches *)

Lemma initialize_scan_within_MAX_FILES_witness :
  exists c',
    LightweightContext.initialize mono_env 0 "/mono" LightweightContext.create
    = (Ok tt, c')
    /\ 0 <= LightweightContext.MAX_FILES LightweightContext.create
    /\ LightweightContext.getCacheSize c' <= LightweightContext.MAX_FILES c'.
Proof.
  destruct (LightweightContext.initialize mono_env 0 "/mono"
              LightweightContext.create) as [[[]|message] c'] eqn:H;
    [|vm_compute in H; discriminate].
  exists c'. split; [reflexivity|].
  assert (H0 : 0 <= LightweightContext.MAX_FILES LightweightContext.create)
    by (simpl; lia).
  split; [exact H0|].
  destruct (initialize_scan_within_MAX_FILES mono_env 0 "/mono"
              LightweightContext.create tt c' H H0) as (H1 & _).
  exact H1.
Defined.

Section ScanContents.
Import LightweightContext.

Lemma scanEntry_scanned now fullPath entry size mtime c
      (P : string * LRUCache.CacheEntry FileInfo -> Prop) :
  (forall kv, scanned now kv -> P kv) ->
  (forall kv, In kv (LRUCache.cache (fileCache c)) -> P kv) ->
  forall kv,
    In kv (LRUCache.cache
             (fileCache (snd (scanEntry now fullPath entry size mtime c)))) ->
    P kv.
Proof.
  intros HP Hall kv. unfold scanEntry.
  destruct ((size >? MAX_FILE_SIZE) || isBinaryFile entry) eqn:Hskip; [apply Hall|].
  destruct (LRUCache.size (fileCache c) >=? MAX_FILES c); [apply Hall|].
  simpl. intros Hin. apply set_entries in Hin as [(n & ->)|Hin]; [|now apply Hall].
  apply orb_false_iff in Hskip as [Hsize Hbin].
  rewrite Z.gtb_ltb in Hsize. apply Z.ltb_ge in Hsize.
  apply HP. unfold scanned. simpl. splits; try reflexivity; assumption.
Qed.

(** Every entry of the cache was put there at the clock reading of one of
    the entries [1] to [k] that the scan has visited. *)
Lemma scanDirectory_scanned env now (n : node) depth dirPath c k :
  let during (k : nat) kv :=
    exists j, (1 <= j <= k)%nat /\ scanned (dateNow env now j) kv in
  (forall kv, In kv (LRUCache.cache (fileCache c)) -> during k kv) ->
  let st := snd (scanDirectory env now depth dirPath n c k) in
  (k <= snd st)%nat
  /\ forall kv, In kv (LRUCache.cache (fileCache (fst st))) ->
                during (snd st) kv.
Proof.
  intros during.
  assert (Hmono : forall k k' kv, (k <= k')%nat -> during k kv -> during k' kv).
  { intros k0 k' kv Hle (j & Hj & Hs). exists j. split; [lia|assumption]. }
  apply (scanDirectory_rel env now
           (fun a b =>
              (forall kv, In kv (LRUCache.cache (fileCache (fst a))) ->
                          during (snd a) kv) ->
              (snd a <= snd b)%nat
              /\ forall kv, In kv (LRUCache.cache (fileCache (fst b))) ->
                            during (snd b) kv)).
  - intros a H. split; [lia|assumption].
  - intros a b d Hab Hbd Ha. destruct (Hab Ha) as [L1 Hb].
    destruct (Hbd Hb) as [L2 Hd]. split; [lia|assumption].
  - intros c0 k0 H. simpl in *. split; [lia|].
    intros kv Hin. apply (Hmono k0); [lia|now apply H].
  - intros fullPath entry size mtime c0 k0 H. simpl in *. split; [lia|].
    apply scanEntry_scanned.
    + intros kv Hs. exists (S k0). split; [lia|assumption].
    + intros kv Hin. apply (Hmono k0); [lia|now apply H].
Qed.
End ScanContents.

(** X18.  When [scanWorkspace] on a live instance returns, every cached
    entry is a regular file of at most [MAX_FILE_SIZE] bytes whose name has
    no binary extension, stored under its own path with the language of its
    extension and stamped with one of the clock readings made during the
    scan; the scan time is the reading made after the scan and the project
    info is set.  When it throws, the error is the one [shouldIgnore] threw
    for the root: the cache is empty and the project info and the scan time
    are what they were. *)
Theorem scanWorkspace_caches_only_small_text_files
  (env : LightweightContext.Env) (now : Z) (c : LightweightContext.t) :
  LightweightContext.isDestroyed c = false ->
  let r := LightweightContext.scanWorkspace env now c in
  (fst r = Ok tt ->
   exists k : nat,
     (forall key e,
         JSMap.get key (LRUCache.cache (LightweightContext.fileCache (snd r)))
         = Some e ->
         exists j, (1 <= j <= k)%nat
                   /\ scanned (LightweightContext.dateNow env now j) (key, e))
     /\ LightweightContext.lastScanTime (snd r)
        = LightweightContext.dateNow env now (S k)
     /\ exists info, LightweightContext.projectInfo (snd r) = Some info)
  /\ (forall message,
        fst r = Throw message ->
        LightweightContext.shouldIgnore env c "" = Throw message
        /\ LightweightContext.getCacheSize (snd r) = 0
        /\ LightweightContext.projectInfo (snd r)
           = LightweightContext.projectInfo c
        /\ LightweightContext.lastScanTime (snd r)
           = LightweightContext.lastScanTime c).
Proof.
  intros Hd r. subst r. unfold LightweightContext.scanWorkspace. rewrite Hd.
  set (c1 := LightweightContext.set_fileCache _ c).
  set (root := match LightweightContext.fs env (LightweightContext.workspacePath c1)
               with Some n => n | None => Broken end).
  pose proof (scanDirectory_scanned env now root 0
                (LightweightContext.workspacePath c1) c1 0) as Hscan.
  cbv zeta in Hscan.
  pose proof (scanDirectory_throw env now 0
                (LightweightContext.workspacePath c1) root c1 0) as Hthrow.
  destruct (LightweightContext.scanDirectory env now 0
              (LightweightContext.workspacePath c1) root c1 0)
    as [[files|message] [c2 k]]; simpl in *.
  - split; [|discriminate]. intros _. exists k.
    destruct Hscan as [_ Hscan]; [intros kv []|].
    split; [|split; [reflexivity|eauto]].
    intros key e Hget. apply Hscan. now apply get_In.
  - split; [discriminate|]. intros m E. injection E as <-.
    destruct (Hthrow message eq_refl) as [E Hign]. injection E as -> _.
    unfold path_relative in Hign. rewrite String.eqb_refl in Hign.
    split; [exact Hign|]. splits; reflexivity.
Qed.

(** A scan of a small project under a clock that advances by a millisecond
    from one entry to the next; and a scan that throws: the [.gitignore] line [*(]
    is handed to [new RegExp] as [.*(], which is not a regular
    expression. *)
Lemma scanWorkspace_caches_only_small_text_files_witness :
  let c := LightweightContext.set_workspacePath "/ws/p1" LightweightContext.create in
  let r := LightweightContext.scanWorkspace pool_env 7 c in
  let c' := LightweightContext.set_ignorePatterns
              (LightweightContext.ignorePatterns c ++ ["*("]) c in
  LightweightContext.isDestroyed c = false
  /\ fst r = Ok tt
  /\ map (fun kv => (fst kv, LRUCache.timestamp (snd kv)))
         (LRUCache.cache (LightweightContext.fileCache (snd r)))
     = [("/ws/p1/package.json", 8); ("/ws/p1/index.ts", 9)]
  /\ LightweightContext.lastScanTime (snd r) = 10
  /\ fst (LightweightContext.scanWorkspace pool_env 7 c')
     = Throw "Invalid regular expression"
  /\ (exists k : nat,
        (forall key e,
            JSMap.get key (LRUCache.cache (LightweightContext.fileCache (snd r)))
            = Some e ->
            exists j, (1 <= j <= k)%nat
                      /\ scanned (LightweightContext.dateNow pool_env 7 j) (key, e))
        /\ LightweightContext.lastScanTime (snd r)
           = LightweightContext.dateNow pool_env 7 (S k)
        /\ exists info, LightweightContext.projectInfo (snd r) = Some info).
Proof.
  intros c r c'.
  assert (Hd : LightweightContext.isDestroyed c = false) by reflexivity.
  assert (Hok : fst r = Ok tt) by (vm_compute; reflexivity).
  split; [exact Hd|]. split; [exact Hok|].
  split; [vm_compute; reflexivity|]. split; [vm_compute; reflexivity|].
  split; [vm_compute; reflexivity|].
  destruct (scanWorkspace_caches_only_small_text_files pool_env 7 c Hd)
    as (H & _).
  exact (H Hok).
Defined.

(** ** LightweightContext: ignore patterns *)

Section GitignoreFacts.
Import LightweightContext.

Lemma gitignore_fold lines : forall patterns,
  let patterns' :=
    fold_left
      (fun patterns line =>
         if String.eqb (trim line) "" || startsWith "#" (trim line)
         then patterns
         else if includes (trim line) patterns then patterns
         else patterns ++ [trim line])
      lines patterns in
  exists added,
    patterns' = patterns ++ added
    /\ NoDup added
    /\ forall p, In p added ->
         String.eqb p "" = false /\ startsWith "#" p = false
         /\ ~ In p patterns
         /\ exists line, In line lines /\ p = trim line.
Proof.
  induction lines as [|line lines IH]; intros patterns; simpl.
  - exists []. rewrite app_nil_r. splits; [reflexivity|constructor|intros p []].
  - destruct (String.eqb (trim line) "" || startsWith "#" (trim line)) eqn:Hskip.
    + destruct (IH patterns) as (added & H1 & H2 & H3).
      exists added. splits; [assumption|assumption|].
      intros p Hp. destruct (H3 p Hp) as (A & B & C & line' & D & E).
      splits; try assumption. exists line'. split; [now right|assumption].
    + destruct (includes (trim line) patterns) eqn:Hinc.
      * destruct (IH patterns) as (added & H1 & H2 & H3).
        exists added. splits; [assumption|assumption|].
        intros p Hp. destruct (H3 p Hp) as (A & B & C & line' & D & E).
        splits; try assumption. exists line'. split; [now right|assumption].
      * destruct (IH (patterns ++ [trim line])) as (added & H1 & H2 & H3).
        exists (trim line :: added). splits.
        -- rewrite H1, <- app_assoc. reflexivity.
        -- constructor; [|assumption]. intros Hin.
           destruct (H3 _ Hin) as (_ & _ & C & _). apply C.
           apply in_or_app. right. now left.
        -- apply orb_false_iff in Hskip as [Hne Hhash].
           intros p [<-|Hp].
           ++ splits; try assumption.
              ** intros Hin. apply includes_In in Hin. congruence.
              ** exists line. split; [now left|reflexivity].
           ++ destruct (H3 p Hp) as (A & B & C & line' & D & E).
              splits; try assumption.
              ** intros Hin. apply C. apply in_or_app. now left.
              ** exists line'. split; [now right|assumption].
Qed.

(** [some] stops at the first pattern that matches, so patterns appended
    to the list do not change a positive answer. *)
Lemma someIgnored_app env p patterns added :
  someIgnored env p patterns = Ok true ->
  someIgnored env p (patterns ++ added) = Ok true.
Proof.
  induction patterns as [|pattern rest IH]; simpl; [discriminate|].
  destruct (str_includes "*" pattern).
  - destruct (newRegExp env (star_to_dotstar pattern)) as [test|message];
      [|discriminate].
    destruct (test p); [reflexivity|exact IH].
  - destruct (str_includes pattern p); [reflexivity|exact IH].
Qed.
End GitignoreFacts.

(** X19.  [loadGitignorePatterns] only extends the list of ignore
    patterns: the patterns in force stay, in their order, and what is
    appended is never empty, never a comment line and never a pattern
    already in the list, and is appended once.  So a path that was ignored
    before is ignored afterwards.  The cache and the file limit are
    untouched. *)
Theorem loadGitignorePatterns_only_extends
  (env : LightweightContext.Env) (c : LightweightContext.t) :
  let c' := LightweightContext.loadGitignorePatterns env c in
  (exists added,
     LightweightContext.ignorePatterns c'
     = LightweightContext.ignorePatterns c ++ added
     /\ NoDup added
     /\ forall p, In p added ->
          String.eqb p "" = false /\ startsWith "#" p = false
          /\ includes p (LightweightContext.ignorePatterns c) = false)
  /\ (forall p, LightweightContext.shouldIgnore env c p = Ok true ->
                LightweightContext.shouldIgnore env c' p = Ok true)
  /\ LightweightContext.fileCache c' = LightweightContext.fileCache c
  /\ LightweightContext.MAX_FILES c' = LightweightContext.MAX_FILES c.
Proof.
  intros c'.
  assert (Hcase :
    c' = c
    \/ exists lines,
         c' = LightweightContext.set_ignorePatterns
                (fold_left
                   (fun patterns line =>
                      if String.eqb (trim line) "" || startsWith "#" (trim line)
                      then patterns
                      else if includes (trim line) patterns then patterns
                      else patterns ++ [trim line])
                   lines (LightweightContext.ignorePatterns c)) c).
  { subst c'. unfold LightweightContext.loadGitignorePatterns.
    destruct (readdirSync _) as [entries|]; [|now left].
    destruct (JSMap.get ".gitignore" entries) as [[size mtime content| |]|];
      try (now left).
    right. exists (split_lines content). reflexivity. }
  clearbody c'. destruct Hcase as [->|(lines & ->)].
  - splits; try reflexivity; [|auto].
    exists []. rewrite app_nil_r. splits; [reflexivity|constructor|intros p []].
  - destruct (gitignore_fold lines (LightweightContext.ignorePatterns c))
      as (added & H1 & H2 & H3).
    simpl. rewrite H1. splits; try reflexivity.
    + exists added. splits; [reflexivity|assumption|].
      intros p Hp. destruct (H3 p Hp) as (A & B & C & line & D & E).
      splits; try assumption.
      destruct (includes p (LightweightContext.ignorePatterns c)) eqn:Hi;
        [|reflexivity].
      apply includes_In in Hi. contradiction.
    + intros p. unfold LightweightContext.shouldIgnore. simpl.
      apply someIgnored_app.
Qed.

(** ** LightweightContext: ranked queries *)

Section SortFacts.
Context {A : Type} (key : A -> Z).

Lemma insert_by_desc_perm x l : Permutation (x :: l) (insert_by_desc key x l).
Proof.
  induction l as [|y l IH]; simpl; [apply Permutation_refl|].
  destruct (key y - key x <=? 0); [apply Permutation_refl|].
  eapply Permutation_trans; [apply perm_swap|]. now apply perm_skip.
Qed.

Lemma sort_by_desc_perm l : Permutation l (sort_by_desc key l).
Proof.
  induction l as [|x l IH]; simpl; [apply Permutation_refl|].
  eapply Permutation_trans; [|apply insert_by_desc_perm]. now apply perm_skip.
Qed.

Lemma insert_by_desc_sorted x l :
  StronglySorted (fun a b => key b <= key a) l ->
  StronglySorted (fun a b => key b <= key a) (insert_by_desc key x l).
Proof.
  induction l as [|y l IH]; simpl; intros Hs.
  - repeat constructor.
  - inversion Hs as [|? ? Hs' Hall]; subst.
    destruct (key y - key x <=? 0) eqn:Hcmp.
    + apply Z.leb_le in Hcmp. constructor; [assumption|].
      constructor; [lia|]. rewrite Forall_forall in *.
      intros z Hz. specialize (Hall z Hz). lia.
    + apply Z.leb_gt in Hcmp. constructor; [now apply IH|].
      rewrite Forall_forall in *. intros z Hz.
      apply (Permutation_in _ (Permutation_sym (insert_by_desc_perm x l))) in Hz.
      destruct Hz as [<-|Hz]; [lia|now apply Hall].
Qed.

Lemma sort_by_desc_sorted l :
  StronglySorted (fun a b => key b <= key a) (sort_by_desc key l).
Proof.
  induction l as [|x l IH]; simpl; [constructor|]. now apply insert_by_desc_sorted.
Qed.

Lemma sorted_firstn n (l : list A) :
  StronglySorted (fun a b => key b <= key a) l ->
  StronglySorted (fun a b => key b <= key a) (firstn n l)
  /\ forall a b, In a (firstn n l) -> In b (skipn n l) -> key b <= key a.
Proof.
  revert n. induction l as [|x l IH]; intros n Hs.
  - destruct n; simpl; split; try constructor; intros a b [].
  - destruct n as [|n]; simpl.
    + split; [constructor|]. intros a b [].
    + inversion Hs as [|? ? Hs' Hall]; subst.
      destruct (IH n Hs') as (H1 & H2). split.
      * constructor; [assumption|]. rewrite Forall_forall in *.
        intros z Hz. apply Hall.
        rewrite <- (firstn_skipn n l). apply in_or_app. now left.
      * intros a b [<-|Ha] Hb.
        -- rewrite Forall_forall in Hall. apply Hall.
           rewrite <- (firstn_skipn n l). apply in_or_app. now right.
        -- now apply H2.
Qed.
End SortFacts.

(** X20.  On a live instance [searchFiles] with a limit that is not
    negative returns at most [limit] files, best score first.  They are
    the best-scored matches: together with the matches left out they are the
    cached files whose score is positive, and no match left out scores
    higher than a returned one; matches are left out only when the limit is
    reached.  Each returned file carries its score.  The search is not an
    access: the keys, the recency order and the timestamps of the cache
    are unchanged. *)
Theorem searchFiles_returns_best_matches
  (now : Z) (query : string) (limit : Z) (c : LightweightContext.t) :
  LightweightContext.isDestroyed c = false ->
  0 <= limit ->
  let results := fst (LightweightContext.searchFiles now query limit c) in
  let c' := snd (LightweightContext.searchFiles now query limit c) in
  let matching f := LightweightContext.score now (toLowerCase query) f >? 0 in
  Z.of_nat (List.length results) <= limit
  /\ StronglySorted
       (fun a b => LightweightContext.scoreOr0 b <= LightweightContext.scoreOr0 a)
       results
  /\ (forall f, In f results ->
        0 < LightweightContext.score now (toLowerCase query) f
        /\ LightweightContext.relevanceScore f
           = Some (LightweightContext.score now (toLowerCase query) f))
  /\ (exists left_out,
        Permutation
          (results ++ left_out)
          (map (fun f => LightweightContext.with_score
                           (LightweightContext.score now (toLowerCase query) f) f)
               (filter matching
                       (LRUCache.values (LightweightContext.fileCache c))))
        /\ (forall a b, In a results -> In b left_out ->
              LightweightContext.scoreOr0 b <= LightweightContext.scoreOr0 a)
        /\ (left_out = [] \/ Z.of_nat (List.length results) = limit))
  /\ LRUCache.keys (LightweightContext.fileCache c')
     = LRUCache.keys (LightweightContext.fileCache c)
  /\ LRUCache.accessOrder (LightweightContext.fileCache c')
     = LRUCache.accessOrder (LightweightContext.fileCache c)
  /\ (forall k, ts (LightweightContext.fileCache c') k
                = ts (LightweightContext.fileCache c) k).
Proof.
  intros Hd Hlimit results c' matching. subst results c'.
  unfold LightweightContext.searchFiles. rewrite Hd. cbv zeta.
  cbn [fst snd LightweightContext.fileCache LightweightContext.set_fileCache].
  set (ql := toLowerCase query) in *.
  set (rescore := fun file : LightweightContext.FileInfo =>
                    if LightweightContext.score now ql file >? 0
                    then LightweightContext.with_score
                           (LightweightContext.score now ql file) file
                    else file).
  set (matches := filter (fun file => LightweightContext.score now ql file >? 0)
                         (LRUCache.values (LightweightContext.fileCache c))).
  assert (Hmap : map rescore matches
                 = map (fun f => LightweightContext.with_score
                                   (LightweightContext.score now ql f) f) matches).
  { apply map_ext_in. intros f Hf. unfold matches in Hf.
    apply filter_In in Hf as [_ Hf]. unfold rescore. now rewrite Hf. }
  rewrite Hmap.
  set (scored := map (fun f => LightweightContext.with_score
                                 (LightweightContext.score now ql f) f) matches).
  set (sorted := sort_by_desc LightweightContext.scoreOr0 scored).
  assert (Hperm : Permutation scored sorted) by apply sort_by_desc_perm.
  assert (Hsorted : StronglySorted
            (fun a b => LightweightContext.scoreOr0 b <= LightweightContext.scoreOr0 a)
            sorted) by apply sort_by_desc_sorted.
  assert (Hslice : slice0 limit sorted = firstn (Z.to_nat limit) sorted).
  { unfold slice0. destruct (limit <? 0) eqn:Hneg; [|reflexivity].
    apply Z.ltb_lt in Hneg. lia. }
  rewrite Hslice.
  destruct (sorted_firstn LightweightContext.scoreOr0 (Z.to_nat limit) sorted Hsorted)
    as (Hs1 & Hs2).
  splits.
  - rewrite length_firstn. lia.
  - exact Hs1.
  - intros f Hf.
    assert (Hin : In f scored).
    { apply (Permutation_in _ (Permutation_sym Hperm)).
      rewrite <- (firstn_skipn (Z.to_nat limit) sorted).
      apply in_or_app. now left. }
    unfold scored in Hin. apply in_map_iff in Hin as (g & <- & Hg).
    unfold matches in Hg. apply filter_In in Hg as [_ Hg].
    apply Z.gtb_lt in Hg. split; [exact Hg|reflexivity].
  - exists (skipn (Z.to_nat limit) sorted). splits.
    + rewrite firstn_skipn. now apply Permutation_sym.
    + exact Hs2.
    + destruct (Nat.le_gt_cases (List.length sorted) (Z.to_nat limit)) as [Hle|Hgt].
      * left. now apply skipn_all2.
      * right. rewrite length_firstn. lia.
  - unfold LRUCache.keys, JSMap.keys. simpl. rewrite map_map. reflexivity.
  - reflexivity.
  - intros k. unfold ts. simpl.
    induction (LRUCache.cache (LightweightContext.fileCache c)) as [|[k0 e0] m IH];
      [reflexivity|].
    simpl. destruct (String.eqb k k0); [reflexivity|exact IH].
Qed.

Lemma searchFiles_returns_best_matches_witness :
  let c := snd (LightweightContext.initialize pool_env 0 "/ws/p1"
                  LightweightContext.create) in
  LightweightContext.isDestroyed c = false
  /\ 0 <= 1
  /\ map LightweightContext.name
         (fst (LightweightContext.searchFiles 1 "index" 1 c)) = ["index.ts"]
  /\ Z.of_nat (List.length (fst (LightweightContext.searchFiles 1 "index" 1 c))) <= 1.
Proof.
  intros c.
  assert (Hd : LightweightContext.isDestroyed c = false)
    by (vm_compute; reflexivity).
  assert (Hnames : map LightweightContext.name
                       (fst (LightweightContext.searchFiles 1 "index" 1 c))
                   = ["index.ts"]) by (vm_compute; reflexivity).
  clearbody c.
  split; [exact Hd|]. split; [lia|]. split; [exact Hnames|].
  destruct (searchFiles_returns_best_matches 1 "index" 1 c Hd ltac:(lia))
    as (H & _).
  exact H.
Defined.

(** X21.  On a live instance [getRecentFiles] returns exactly the cached
    files modified after the cutoff [now - hours] (in milliseconds), each
    once, most recently modified first. *)
Theorem getRecentFiles_newest_first
  (now hours : Z) (c : LightweightContext.t) :
  LightweightContext.isDestroyed c = false ->
  let cutoff := now - hours * 60 * 60 * 1000 in
  let recent := LightweightContext.getRecentFiles now hours c in
  StronglySorted
    (fun a b => LightweightContext.lastModified b <= LightweightContext.lastModified a)
    recent
  /\ Permutation recent
       (filter (fun f => LightweightContext.lastModified f >? cutoff)
               (LRUCache.values (LightweightContext.fileCache c)))
  /\ (forall f, In f recent ->
        cutoff < LightweightContext.lastModified f
        /\ In f (LRUCache.values (LightweightContext.fileCache c))).
Proof.
  intros Hd cutoff recent. subst recent.
  unfold LightweightContext.getRecentFiles. rewrite Hd. cbv zeta. fold cutoff.
  set (l := filter _ _).
  splits.
  - apply sort_by_desc_sorted.
  - apply Permutation_sym, sort_by_desc_perm.
  - intros f Hf.
    apply (Permutation_in _ (Permutation_sym (sort_by_desc_perm _ l))) in Hf.
    unfold l in Hf. apply filter_In in Hf as [Hin Hf].
    apply Z.gtb_lt in Hf. split; [lia|assumption].
Qed.

Lemma getRecentFiles_newest_first_witness :
  let c := snd (LightweightContext.initialize pool_env 0 "/ws/p1"
                  LightweightContext.create) in
  LightweightContext.isDestroyed c = false
  /\ List.length (LightweightContext.getRecentFiles 5 24 c) = 2%nat
  /\ StronglySorted
       (fun a b => LightweightContext.lastModified b
                   <= LightweightContext.lastModified a)
       (LightweightContext.getRecentFiles 5 24 c).
Proof.
  intros c.
  assert (Hd : LightweightContext.isDestroyed c = false)
    by (vm_compute; reflexivity).
  assert (Hlen : List.length (LightweightContext.getRecentFiles 5 24 c) = 2%nat)
    by (vm_compute; reflexivity).
  clearbody c.
  split; [exact Hd|]. split; [exact Hlen|].
  destruct (getRecentFiles_newest_first 5 24 c Hd) as (H & _).
  exact H.
Defined.

(** ** Workspace Pool Manager: well-formedness of the pool *)

Lemma pool_bounded_when_clock_advances_witness :
  let trace := [(1, GetOrCreate "/ws/p1"); (2, GetOrCreate "/ws/p2");
                (3, GetOrCreate "/ws/p3"); (4, GetOrCreate "/ws/p4");
                (5, GetOrCreate "/ws/p5"); (6, GetOrCreate "/ws/p6");
                (7, GetOrCreate "/ws/p7")] in
  StronglySorted Z.lt (map fst trace)
  /\ JSMap.size (WorkspaceContextManager.instances
                   (pool_run pool_env trace WorkspaceContextManager.create))
     <= WorkspaceContextManager.MAX_INSTANCES.
Proof.
  intros trace.
  assert (Hs : StronglySorted Z.lt (map fst trace)).
  { repeat (constructor; [|repeat constructor; lia]). constructor. }
  split; [exact Hs|].
  exact (pool_bounded_when_clock_advances pool_env trace Hs).
Defined.

Section PoolWf.
Import WorkspaceContextManager.

Lemma cleanup_destroyed c :
  LightweightContext.isDestroyed (LightweightContext.cleanup c) = true.
Proof.
  destruct c as [wp fc pi lst dest cbs fwc cnt tm mf pats mon calls].
  destruct dest; [reflexivity|]. now rewrite cleanup_live.
Qed.

(** A context that [initialize] has set up is live. *)
Lemma initialize_ok_live env now p c r c' :
  LightweightContext.initialize env now p c = (Ok r, c') ->
  LightweightContext.isDestroyed c' = false.
Proof.
  intros Hinit. unfold LightweightContext.initialize in Hinit.
  destruct (LightweightContext.isDestroyed c) eqn:Hd; [discriminate|].
  destruct (stopWatching_same c) as (_ & _ & S3).
  set (c1 := LightweightContext.stopWatching c) in *. clearbody c1.
  match type of Hinit with (if ?b then _ else _) = _ =>
    destruct b; [discriminate|] end.
  destruct (validateWorkspacePath_shape env p c1) as (_ & V2 & _).
  set (c2 := LightweightContext.validateWorkspacePath env p c1) in *. clearbody c2.
  destruct (loadGitignorePatterns_same env (LightweightContext.set_workspacePath p c2))
    as (_ & _ & L3).
  set (c4 := LightweightContext.loadGitignorePatterns env
               (LightweightContext.set_workspacePath p c2)) in *.
  clearbody c4. simpl in L3.
  destruct (LightweightContext.loadWorkspaceContext env p) as [persistedData|];
    [|discriminate].
  set (c5 := match persistedData with
             | Some info => LightweightContext.set_projectInfo (Some info) c4
             | None => c4 end) in *.
  assert (P3 : LightweightContext.isDestroyed c5 = LightweightContext.isDestroyed c4).
  { unfold c5. now destruct persistedData. }
  clearbody c5.
  assert (W4 : LightweightContext.isDestroyed
                 (snd (LightweightContext.scanWorkspace env now c5))
               = LightweightContext.isDestroyed c5).
  { unfold LightweightContext.scanWorkspace.
    destruct (LightweightContext.isDestroyed c5) eqn:Hd5; [assumption|].
    match goal with
    | |- context [LightweightContext.scanDirectory env now 0 ?wp ?root ?x 0] =>
        pose proof (scanDirectory_isDestroyed env now root 0 wp x 0) as Hs;
        destruct (LightweightContext.scanDirectory env now 0 wp root x 0)
          as [[files|message] [c2' k']]
    end; simpl in *; congruence. }
  destruct (LightweightContext.scanWorkspace env now c5) as [[u|message] c6];
    [|discriminate].
  simpl in W4.
  destruct (startWatching_same c6) as (_ & _ & A3).
  destruct (startMemoryMonitor_same (LightweightContext.startWatching c6))
    as (_ & _ & B3).
  assert (Hfinal : LightweightContext.isDestroyed
                     (LightweightContext.startMemoryMonitor
                        (LightweightContext.startWatching c6)) = false)
    by congruence.
  destruct (LightweightContext.projectInfo c6).
  - destruct (LightweightContext.updateProjectInfo_resolves env p); [|discriminate].
    injection Hinit as _ <-. exact Hfinal.
  - injection Hinit as _ <-. exact Hfinal.
Qed.

Lemma pool_wf_create : pool_wf create.
Proof.
  constructor; simpl; try discriminate.
  - constructor.
  - intros k [].
  - constructor.
Qed.

Lemma closeWorkspace_wf p s : pool_wf s -> pool_wf (closeWorkspace p s).
Proof.
  intros [Hnd Hact Hkeys Hcur Hlive Hclosed]. unfold closeWorkspace.
  destruct (JSMap.get (normalizePath p) (instances s)) as [inst|] eqn:Hget;
    [|now constructor].
  constructor; simpl.
  - rewrite keys_delete. now apply NoDup_drop.
  - intros k i Hk Ha. destruct (String.eqb_spec (normalizePath p) k) as [<-|Hne].
    + now rewrite get_delete_eq in Hk.
    + rewrite get_delete_ne in Hk by assumption.
      rewrite (Hact k i Hk Ha).
      destruct (String.eqb_spec k (normalizePath p)); [congruence|reflexivity].
  - intros k Hk. rewrite keys_delete in Hk. apply In_drop in Hk as [Hk _]. auto.
  - intros k Hk. destruct (currentWorkspacePath s) as [cur|]; [|discriminate].
    destruct (String.eqb_spec cur (normalizePath p)) as [->|Hne]; [discriminate|].
    injection Hk as <-. destruct (Hcur cur eq_refl) as (i & Hi & Ha).
    exists i. split; [|assumption]. rewrite get_delete_ne; [assumption|congruence].
  - intros k i Hk. destruct (String.eqb_spec (normalizePath p) k) as [<-|Hne].
    + now rewrite get_delete_eq in Hk.
    + rewrite get_delete_ne in Hk by assumption. eauto.
  - apply Forall_app. split; [assumption|].
    constructor; [apply cleanup_destroyed|constructor].
Qed.

Lemma closeAll_wf ps : forall s,
  pool_wf s -> pool_wf (fold_left (fun acc p => closeWorkspace p acc) ps s).
Proof.
  induction ps as [|p ps IH]; intros s Hwf; simpl; [assumption|].
  apply IH. now apply closeWorkspace_wf.
Qed.

Lemma evict_wf now s : pool_wf s -> pool_wf (evictOldestInactiveInstance now s).
Proof.
  intros Hwf. unfold evictOldestInactiveInstance.
  match goal with |- context [fst ?f] => destruct (fst f) as [k|] end;
    [|assumption].
  destruct (negb (String.eqb k "")); [now apply closeWorkspace_wf|assumption].
Qed.

(** The first loop of the eviction selects an inactive instance. *)
Lemma oldestInactive_pick m acc :
  fst (oldestInactive m acc) = fst acc
  \/ exists k i, fst (oldestInactive m acc) = Some k /\ In (k, i) m
                 /\ isActive i = false.
Proof.
  unfold oldestInactive. revert acc.
  induction m as [|[k i] m IH]; intros acc; simpl; [now left|].
  match goal with |- context [fold_left ?f m ?a] =>
    destruct (IH a) as [Heq|(k' & i' & Hk' & Hin & Ha)] end.
  - rewrite Heq.
    destruct (isActive i) eqn:Hact; simpl; [now left|].
    destruct (lastAccessed i <? snd acc); simpl; [|now left].
    right. exists k, i. split; [reflexivity|]. split; [now left|assumption].
  - right. exists k', i'. split; [assumption|]. split; [now right|assumption].
Qed.

(** The second loop selects a key of the pool other than the current
    workspace. *)
Lemma oldestNotCurrent_pick cur m acc :
  fst (oldestNotCurrent cur m acc) = fst acc
  \/ exists k, fst (oldestNotCurrent cur m acc) = Some k
               /\ In k (JSMap.keys m) /\ cur <> Some k.
Proof.
  unfold oldestNotCurrent. revert acc.
  induction m as [|[k i] m IH]; intros acc; simpl; [now left|].
  match goal with |- context [fold_left ?f m ?a] =>
    destruct (IH a) as [Heq|(k' & Hk' & Hin & Hne)] end.
  - rewrite Heq.
    destruct cur as [c|].
    + destruct (String.eqb_spec k c) as [->|Hne]; simpl; [now left|].
      destruct (lastAccessed i <? snd acc); simpl; [|now left].
      right. exists k. split; [reflexivity|]. split; [now left|congruence].
    + simpl. destruct (lastAccessed i <? snd acc); simpl; [|now left].
      right. exists k. split; [reflexivity|]. split; [now left|discriminate].
  - right. exists k'. split; [assumption|]. split; [now right|assumption].
Qed.

(** The eviction closes nothing, or one pooled workspace that is not the
    current one. *)
Lemma evict_cases now s :
  pool_wf s ->
  evictOldestInactiveInstance now s = s
  \/ exists v, In v (JSMap.keys (instances s))
               /\ currentWorkspacePath s <> Some v
               /\ normalizePath v = v
               /\ evictOldestInactiveInstance now s = closeWorkspace v s.
Proof.
  intros [Hnd Hact Hkeys Hcur Hlive Hclosed].
  unfold evictOldestInactiveInstance. cbv zeta.
  destruct (oldestInactive_pick (instances s) (None, now))
    as [Hnone|(k1 & i1 & Hk1 & Hin1 & Ha1)].
  - simpl in Hnone. rewrite Hnone. simpl.
    destruct (oldestNotCurrent_pick (currentWorkspacePath s) (instances s)
                (oldestInactive (instances s) (None, now)))
      as [Heq|(k2 & Hk2 & Hin2 & Hne2)].
    + rewrite Heq, Hnone. now left.
    + rewrite Hk2. destruct (Hkeys k2 Hin2) as [Hn2 Hnorm2].
      destruct (String.eqb_spec k2 ""); [contradiction|]. simpl.
      right. exists k2. auto.
  - assert (Hin1' : In k1 (JSMap.keys (instances s))).
    { apply (in_map fst) in Hin1. exact Hin1. }
    destruct (Hkeys k1 Hin1') as [Hn1 Hnorm1].
    rewrite Hk1. simpl.
    destruct (String.eqb_spec k1 ""); [contradiction|]. simpl.
    rewrite Hk1. destruct (String.eqb_spec k1 ""); [contradiction|]. simpl.
    right. exists k1. split; [assumption|]. split; [|auto].
    intros Hc. destruct (Hcur k1 Hc) as (i & Hi & Ha).
    rewrite (In_get k1 i1 _ Hnd Hin1) in Hi. congruence.
Qed.

(** Closing a workspace other than the current one leaves the current one
    as it is. *)
Lemma closeWorkspace_other v s k :
  normalizePath v = v -> v <> k ->
  JSMap.get k (instances (closeWorkspace v s)) = JSMap.get k (instances s)
  /\ (currentWorkspacePath s = Some k ->
      currentWorkspacePath (closeWorkspace v s) = Some k).
Proof.
  intros Hnorm Hne. unfold closeWorkspace. rewrite Hnorm.
  destruct (JSMap.get v (instances s)); simpl; [|auto].
  split; [now apply get_delete_ne|].
  intros ->. destruct (String.eqb_spec k v); [congruence|reflexivity].
Qed.

Lemma evict_keeps_current now s k :
  pool_wf s -> currentWorkspacePath s = Some k ->
  currentWorkspacePath (evictOldestInactiveInstance now s) = Some k
  /\ JSMap.get k (instances (evictOldestInactiveInstance now s))
     = JSMap.get k (instances s).
Proof.
  intros Hwf Hcur.
  destruct (evict_cases now s Hwf) as [->|(v & Hin & Hne & Hnorm & ->)]; [auto|].
  assert (Hvk : v <> k) by congruence.
  destruct (closeWorkspace_other v s k Hnorm Hvk) as [Hg Hc]. auto.
Qed.

(** After the previous workspace is deactivated no instance is active and
    the contexts are the same. *)
Lemma deactivate_current_wf s :
  pool_wf s ->
  let m2 := match currentWorkspacePath s with
            | Some cur => if negb (String.eqb cur "")
                          then deactivateAt cur (instances s)
                          else instances s
            | None => instances s
            end in
  JSMap.keys m2 = JSMap.keys (instances s)
  /\ (forall k i, JSMap.get k m2 = Some i ->
        isActive i = false
        /\ exists i0, JSMap.get k (instances s) = Some i0
                      /\ context i = context i0 /\ createdAt i = createdAt i0
                      /\ lastAccessed i = lastAccessed i0).
Proof.
  intros [Hnd Hact Hkeys Hcurr Hlive Hclosed] m2. subst m2.
  destruct (currentWorkspacePath s) as [cur|] eqn:Hcur.
  - destruct (String.eqb_spec cur "") as [->|Hne]; simpl.
    + split; [reflexivity|]. intros k i Hk. split; [|eauto].
      destruct (isActive i) eqn:Ha; [|reflexivity].
      pose proof (Hact k i Hk Ha) as E. injection E as <-.
      assert (Hin : In "" (JSMap.keys (instances s)))
        by (apply get_In_keys; congruence).
      destruct (Hkeys "" Hin) as [Hn _]. congruence.
    + split; [apply keys_deactivateAt|]. intros k i Hk.
      rewrite get_deactivateAt in Hk.
      destruct (JSMap.get k (instances s)) as [i0|] eqn:Hk0; [|discriminate].
      injection Hk as <-.
      destruct (String.eqb_spec cur k) as [->|Hne'].
      * split; [reflexivity|]. exists i0. simpl. auto.
      * split; [|eauto]. destruct (isActive i0) eqn:Ha; [|reflexivity].
        pose proof (Hact k i0 Hk0 Ha) as E. congruence.
  - split; [reflexivity|]. intros k i Hk. split; [|eauto].
    destruct (isActive i) eqn:Ha; [|reflexivity].
    pose proof (Hact k i Hk Ha) as E. discriminate.
Qed.

Lemma getOrCreateContext_wf env now p s :
  pool_wf s -> pool_wf (snd (getOrCreateContext env now p s)).
Proof.
  intros Hwf. unfold getOrCreateContext.
  set (np := normalizePath p).
  destruct (JSMap.get np (instances s)) as [inst|] eqn:Hget.
  - (* the workspace is pooled *)
    destruct Hwf as [Hnd Hact Hkeys Hcurr Hlive Hclosed]. simpl.
    set (inst' := mkInstance (context inst) (workspacePath inst) (createdAt inst) now true).
    set (m1 := JSMap.set np inst' (instances s)).
    assert (Hk1 : JSMap.keys m1 = JSMap.keys (instances s))
      by (apply keys_set_present; congruence).
    assert (Hg1 : forall k i, JSMap.get k m1 = Some i ->
              (k = np /\ i = inst') \/ (k <> np /\ JSMap.get k (instances s) = Some i)).
    { intros k i Hk. unfold m1 in Hk.
      destruct (String.eqb_spec np k) as [<-|Hne].
      - rewrite get_set_eq in Hk. left. split; congruence.
      - rewrite get_set_ne in Hk by assumption. right. split; congruence. }
    assert (Hnp1 : JSMap.get np m1 = Some inst') by apply get_set_eq.
    set (m2 := match currentWorkspacePath s with
               | Some cur => if negb (String.eqb cur "") && negb (String.eqb cur np)
                             then deactivateAt cur m1 else m1
               | None => m1 end).
    assert (Hk2 : JSMap.keys m2 = JSMap.keys (instances s)).
    { unfold m2. destruct (currentWorkspacePath s) as [cur|]; [|assumption].
      destruct (negb (String.eqb cur "") && negb (String.eqb cur np));
        [now rewrite keys_deactivateAt|assumption]. }
    assert (Hnp2 : JSMap.get np m2 = Some inst').
    { unfold m2. destruct (currentWorkspacePath s) as [cur|]; [|assumption].
      destruct (String.eqb_spec cur np) as [->|Hne];
        [now rewrite andb_false_r|].
      destruct (negb (String.eqb cur "")); simpl; [|assumption].
      rewrite get_deactivateAt, Hnp1.
      destruct (String.eqb_spec cur np); [contradiction|reflexivity]. }
    assert (Hg2 : forall k i, JSMap.get k m2 = Some i ->
              (isActive i = true -> k = np)
              /\ LightweightContext.isDestroyed (context i) = false).
    { intros k i Hk. unfold m2 in Hk.
      assert (Hbase : forall i0, JSMap.get k m1 = Some i0 ->
                (isActive i0 = true -> k = np \/ currentWorkspacePath s = Some k)
                /\ LightweightContext.isDestroyed (context i0) = false).
      { intros i0 Hk0. destruct (Hg1 k i0 Hk0) as [[-> ->]|[Hne Hk']].
        - simpl. split; [auto|]. eapply Hlive; eassumption.
        - split; [|eauto]. intros Ha. right. eauto. }
      destruct (currentWorkspacePath s) as [cur|] eqn:Hcur.
      - destruct (String.eqb_spec cur "") as [->|Hne]; simpl in Hk.
        + destruct (Hbase i Hk) as [Ha Hl]. split; [|assumption].
          intros Hact'. destruct (Ha Hact') as [|E]; [assumption|].
          injection E as <-.
          assert (Hin : In "" (JSMap.keys (instances s))).
          { rewrite <- Hk1. apply get_In_keys. congruence. }
          destruct (Hkeys "" Hin) as [Hn _]. congruence.
        + destruct (String.eqb_spec cur np) as [->|Hne']; simpl in Hk.
          * destruct (Hbase i Hk) as [Ha Hl]. split; [|assumption].
            intros Hact'. destruct (Ha Hact') as [|E]; [assumption|congruence].
          * rewrite get_deactivateAt in Hk.
            destruct (JSMap.get k m1) as [i0|] eqn:Hk0; [|discriminate].
            injection Hk as <-. destruct (Hbase i0 eq_refl) as [Ha Hl].
            destruct (String.eqb_spec cur k) as [->|Hne''].
            -- split; [simpl; discriminate|exact Hl].
            -- split; [|exact Hl]. intros Hact'.
               destruct (Ha Hact') as [|E]; [assumption|congruence].
      - destruct (Hbase i Hk) as [Ha Hl]. split; [|assumption].
        intros Hact'. destruct (Ha Hact') as [|E]; [assumption|discriminate]. }
    clearbody m2. constructor; simpl.
    + now rewrite Hk2.
    + intros k i Hk Ha. f_equal. symmetry. now apply (Hg2 k i).
    + intros k Hk. rewrite Hk2 in Hk. auto.
    + intros k Hk. injection Hk as <-. exists inst'. split; [assumption|reflexivity].
    + intros k i Hk. now apply (Hg2 k i).
    + assumption.
  - (* a new workspace *)
    set (s1 := if JSMap.size (instances s) >=? MAX_INSTANCES
               then evictOldestInactiveInstance now s else s).
    assert (Hwf1 : pool_wf s1).
    { unfold s1. destruct (JSMap.size (instances s) >=? MAX_INSTANCES);
        [now apply evict_wf|assumption]. }
    assert (Hnone1 : JSMap.get np (instances s1) = None).
    { unfold s1. destruct (JSMap.size (instances s) >=? MAX_INSTANCES);
        [now apply evict_get|assumption]. }
    destruct (deactivate_current_wf s1 Hwf1) as [Hk2 Hg2].
    set (m2 := match currentWorkspacePath s1 with
               | Some cur => if negb (String.eqb cur "")
                             then deactivateAt cur (instances s1)
                             else instances s1
               | None => instances s1 end) in *.
    assert (Hnone2 : JSMap.get np m2 = None).
    { apply get_None_notin. rewrite Hk2. now apply get_None_notin. }
    destruct Hwf1 as [Hnd Hact Hkeys Hcurr Hlive Hclosed].
    assert (Hlive2 : forall k i, JSMap.get k m2 = Some i ->
              LightweightContext.isDestroyed (context i) = false).
    { intros k i Hk. destruct (Hg2 k i Hk) as (_ & i0 & Hi0 & -> & _). eauto. }
    clearbody m2.
    destruct (LightweightContext.initialize env now np LightweightContext.create)
      as [[u|message] context'] eqn:Hinit; simpl.
    + assert (Hnp : np <> "").
      { intros E. rewrite E in Hinit.
        destruct (initialize_empty_path_throws env now) as (msg & c & Hthrow).
        congruence. }
      set (inst := mkInstance context' np now now true).
      assert (Hkeys3 : JSMap.keys (JSMap.set np inst m2) = JSMap.keys m2 ++ [np]).
      { rewrite set_absent by assumption. unfold JSMap.keys. now rewrite map_app. }
      constructor; simpl.
      * rewrite Hkeys3. apply NoDup_snoc; [now rewrite Hk2|].
        now apply get_None_notin.
      * intros k i Hk Ha. destruct (String.eqb_spec np k) as [<-|Hne]; [reflexivity|].
        rewrite get_set_ne in Hk by assumption.
        destruct (Hg2 k i Hk) as [Hf _]. congruence.
      * intros k Hk. rewrite Hkeys3, in_app_iff, Hk2 in Hk.
        destruct Hk as [Hk|[<-|[]]]; [auto|].
        split; [assumption|apply normalizePath_idem].
      * intros k Hk. injection Hk as <-. exists inst.
        split; [apply get_set_eq|reflexivity].
      * intros k i Hk. destruct (String.eqb_spec np k) as [<-|Hne].
        -- rewrite get_set_eq in Hk. injection Hk as <-. simpl.
           eapply initialize_ok_live; eassumption.
        -- rewrite get_set_ne in Hk by assumption. eauto.
      * assumption.
    + set (inst := mkInstance context' np now now true).
      assert (Hg3 : forall k i,
                JSMap.get k (JSMap.delete np (JSMap.set np inst m2)) = Some i ->
                JSMap.get k m2 = Some i).
      { intros k i Hk. destruct (String.eqb_spec np k) as [<-|Hne].
        - now rewrite get_delete_eq in Hk.
        - rewrite get_delete_ne, get_set_ne in Hk by assumption. exact Hk. }
      constructor; simpl.
      * rewrite keys_delete. apply NoDup_drop.
        rewrite set_absent by assumption. unfold JSMap.keys. rewrite map_app.
        apply NoDup_snoc; [fold (JSMap.keys m2); now rewrite Hk2|].
        now apply get_None_notin.
      * intros k i Hk Ha. apply Hg3 in Hk. destruct (Hg2 k i Hk) as [Hf _].
        congruence.
      * intros k Hk. apply get_In_keys in Hk.
        destruct (JSMap.get k (JSMap.delete np (JSMap.set np inst m2))) as [i|] eqn:Hk';
          [|congruence].
        apply Hg3 in Hk'. apply Hkeys. rewrite <- Hk2. apply get_In_keys. congruence.
      * discriminate.
      * intros k i Hk. apply Hg3 in Hk. eauto.
      * assumption.
Qed.

Lemma pool_step_wf env now o s : pool_wf s -> pool_wf (pool_step env now o s).
Proof.
  intros Hwf. destruct o as [p|p|]; simpl.
  - now apply getOrCreateContext_wf.
  - now apply closeWorkspace_wf.
  - now apply closeAll_wf.
Qed.

Lemma pool_run_wf env trace : forall s,
  pool_wf s -> pool_wf (pool_run env trace s).
Proof.
  induction trace as [|[now o] rest IH]; intros s Hwf; [exact Hwf|].
  unfold pool_run. simpl. apply IH. now apply pool_step_wf.
Qed.

(** With distinct keys, the instances that are active are counted by the
    current workspace. *)
Lemma active_count (m : JSMap.t WorkspaceContextInstance) cur :
  NoDup (JSMap.keys m) ->
  (forall k i, In (k, i) m -> isActive i = true -> cur = Some k) ->
  (forall k, cur = Some k -> exists i, In (k, i) m /\ isActive i = true) ->
  List.length (filter (fun kv => isActive (snd kv)) m)
  = match cur with Some _ => 1%nat | None => 0%nat end.
Proof.
  intros Hnd Hact Hcur.
  assert (Hnone : forall m' : JSMap.t WorkspaceContextInstance,
             (forall k i, In (k, i) m' -> isActive i = false) ->
             filter (fun kv => isActive (snd kv)) m' = []).
  { induction m' as [|[k i] m' IH]; intros H; simpl; [reflexivity|].
    rewrite (H k i) by now left. apply IH. intros k' i' Hin. apply (H k' i').
    now right. }
  destruct cur as [c|].
  - destruct (Hcur c eq_refl) as (ic & Hin & Ha). clear Hcur.
    induction m as [|[k i] m IH]; [destruct Hin|].
    simpl in Hnd. inversion Hnd as [|? ? Hnotin Hnd']; subst.
    simpl. destruct Hin as [E|Hin].
    + injection E as -> ->. rewrite Ha. simpl. f_equal.
      rewrite Hnone; [reflexivity|].
      intros k' i' Hin'. destruct (isActive i') eqn:Ha'; [|reflexivity].
      exfalso. apply Hnotin.
      assert (E : Some c = Some k') by (apply (Hact k' i'); [now right|assumption]).
      injection E as ->. apply (in_map fst) in Hin'. exact Hin'.
    + destruct (isActive i) eqn:Hai.
      * exfalso. apply Hnotin.
        assert (E : Some c = Some k) by (apply (Hact k i); [now left|assumption]).
        injection E as ->. apply (in_map fst) in Hin. exact Hin.
      * apply IH; [assumption| |assumption].
        intros k' i' Hin' Ha'. apply (Hact k' i'); [now right|assumption].
  - rewrite Hnone; [reflexivity|].
    intros k i Hin. destruct (isActive i) eqn:Ha; [|reflexivity].
    specialize (Hact k i Hin Ha). discriminate.
Qed.

Lemma NoDup_keys_filter {A} (q : string * A -> bool) (m : JSMap.t A) :
  NoDup (JSMap.keys m) -> NoDup (JSMap.keys (filter q m)).
Proof.
  unfold JSMap.keys. induction m as [|[k v] m IH]; simpl; intros H; [constructor|].
  inversion H as [|? ? Hnotin Hnd]; subst.
  destruct (q (k, v)); simpl; [|auto].
  constructor; [|auto]. intros Hin. apply Hnotin.
  apply in_map_iff in Hin as ([k' v'] & E & Hin). simpl in E. subst k'.
  apply filter_In in Hin as [Hin _]. now apply (in_map fst) in Hin.
Qed.

(** Closing, one after the other, pooled workspaces that are not current. *)
Lemma close_fold (l : list (string * WorkspaceContextInstance)) : forall s,
  NoDup (JSMap.keys (instances s)) ->
  NoDup (map fst l) ->
  (forall kv, In kv l ->
     In kv (instances s) /\ normalizePath (fst kv) = fst kv
     /\ currentWorkspacePath s <> Some (fst kv)) ->
  fold_left (fun acc p => closeWorkspace p acc) (map fst l) s
  = mk (filter (fun kv => negb (includes (fst kv) (map fst l))) (instances s))
       (currentWorkspacePath s) (cleanupInterval s)
       (closed s ++ map (fun kv => LightweightContext.cleanup (context (snd kv))) l).
Proof.
  induction l as [|[k i] l IH]; intros s Hnd Hl Hall.
  - simpl. rewrite filter_not_in_nil, app_nil_r. now destruct s.
  - simpl map. simpl fold_left.
    inversion Hl as [|? ? Hnotin Hl']; subst.
    destruct (Hall (k, i) (or_introl eq_refl)) as (Hin & Hnorm & Hcur).
    simpl in Hnorm, Hcur.
    assert (Hclose : closeWorkspace k s
                     = mk (JSMap.delete k (instances s)) (currentWorkspacePath s)
                          (cleanupInterval s)
                          (closed s ++ [LightweightContext.cleanup (context i)])).
    { unfold closeWorkspace. rewrite Hnorm, (In_get k i _ Hnd Hin). f_equal.
      destruct (currentWorkspacePath s) as [cur|]; [|reflexivity].
      destruct (String.eqb_spec cur k); [congruence|reflexivity]. }
    rewrite Hclose, IH; simpl.
    + rewrite delete_as_filter, <- app_assoc. reflexivity.
    + rewrite keys_delete. now apply NoDup_drop.
    + assumption.
    + intros kv Hkv. destruct (Hall kv (or_intror Hkv)) as (Hin' & Hnorm' & Hcur').
      split; [|auto]. unfold JSMap.delete. apply filter_In. split; [assumption|].
      destruct (String.eqb_spec k (fst kv)) as [E|]; [|reflexivity].
      exfalso. apply Hnotin. rewrite E. now apply in_map.
Qed.

Lemma forceCleanup_wf_cases now s :
  pool_wf s ->
  forceCleanup now s
  = (JSMap.size (instances s)
     - JSMap.size (filter (fun kv => negb (stale now (snd kv))) (instances s)),
     mk (filter (fun kv => negb (stale now (snd kv))) (instances s))
        (currentWorkspacePath s) (cleanupInterval s)
        (closed s ++ map (fun kv => LightweightContext.cleanup (context (snd kv)))
                         (filter (fun kv => stale now (snd kv)) (instances s)))).
Proof.
  intros [Hnd Hact Hkeys Hcur Hlive Hclosed]. unfold forceCleanup. cbv zeta.
  change (fun kv : string * WorkspaceContextInstance =>
            negb (isActive (snd kv)) && (now - lastAccessed (snd kv) >? INSTANCE_TTL))
    with (fun kv : string * WorkspaceContextInstance => stale now (snd kv)).
  set (l := filter (fun kv => stale now (snd kv)) (instances s)).
  f_equal.
  - unfold JSMap.size, JSMap.keys. rewrite length_map.
    rewrite (filter_length_split (fun kv => stale now (snd kv)) (instances s)).
    fold l. lia.
  - unfold JSMap.keys. rewrite close_fold.
    + f_equal. apply filter_ext_in. intros [k i] Hin. simpl. f_equal.
      destruct (stale now i) eqn:Hst.
      * apply includes_In. change k with (fst (k, i)). apply in_map.
        apply filter_In. now split.
      * destruct (includes k (map fst l)) eqn:Hinc; [|reflexivity].
        apply includes_In in Hinc. apply in_map_iff in Hinc as ([k' i'] & E & Hin').
        simpl in E. subst k'. apply filter_In in Hin' as [Hin' Hst']. simpl in Hst'.
        assert (E : Some i' = Some i).
        { rewrite <- (In_get k i' _ Hnd Hin'). now apply In_get. }
        congruence.
    + assumption.
    + now apply (NoDup_keys_filter (fun kv => stale now (snd kv))).
    + intros [k i] Hkv. apply filter_In in Hkv as [Hin Hst]. simpl in *.
      split; [assumption|]. split.
      * apply Hkeys. now apply (in_map fst) in Hin.
      * intros Hc. destruct (Hcur k Hc) as (i' & Hi' & Ha').
        rewrite (In_get k i _ Hnd Hin) in Hi'. injection Hi' as <-.
        unfold stale in Hst. rewrite Ha' in Hst. discriminate.
Qed.

(** What [getOrCreateContext] does to an instance that was current. *)
Lemma getOrCreateContext_current env now p s k :
  pool_wf s -> currentWorkspacePath s = Some k ->
  exists i i',
    JSMap.get k (instances s) = Some i
    /\ JSMap.get k (instances (snd (getOrCreateContext env now p s))) = Some i'
    /\ context i' = context i /\ createdAt i' = createdAt i.
Proof.
  intros Hwf Hcur. pose proof Hwf as [Hnd Hact Hkeys Hcurr Hlive Hclosed].
  destruct (Hcurr k Hcur) as (i & Hi & Ha). exists i.
  assert (Hk : k <> "").
  { apply Hkeys. apply get_In_keys. congruence. }
  unfold getOrCreateContext. set (np := normalizePath p).
  destruct (JSMap.get np (instances s)) as [inst|] eqn:Hget; simpl.
  - rewrite Hcur.
    destruct (String.eqb_spec k "") as [|_]; [contradiction|]. simpl.
    destruct (String.eqb_spec k np) as [<-|Hne]; simpl.
    + rewrite get_set_eq. eexists. split; [assumption|]. split; [reflexivity|].
      simpl. replace inst with i by congruence. auto.
    + rewrite get_deactivateAt, get_set_ne, Hi by congruence.
      rewrite String.eqb_refl. eexists. split; [reflexivity|].
      split; [reflexivity|]. auto.
  - set (s1 := if JSMap.size (instances s) >=? MAX_INSTANCES
               then evictOldestInactiveInstance now s else s).
    assert (H1 : currentWorkspacePath s1 = Some k
                 /\ JSMap.get k (instances s1) = Some i).
    { unfold s1. destruct (JSMap.size (instances s) >=? MAX_INSTANCES); [|auto].
      destruct (evict_keeps_current now s k Hwf Hcur) as [E1 E2].
      split; [assumption|congruence]. }
    destruct H1 as [Hcur1 Hi1]. rewrite Hcur1.
    destruct (String.eqb_spec k "") as [|_]; [contradiction|]. simpl.
    assert (Hne : np <> k) by congruence.
    assert (Hm2 : JSMap.get k (deactivateAt k (instances s1)) = Some (deactivate i)).
    { now rewrite get_deactivateAt, Hi1, String.eqb_refl. }
    destruct (LightweightContext.initialize env now np LightweightContext.create)
      as [[u|message] context']; simpl.
    + rewrite get_set_ne by assumption. exists (deactivate i). auto.
    + rewrite get_delete_ne, get_set_ne by assumption. exists (deactivate i). auto.
Qed.

(** A failed [getOrCreateContext] leaves no active instance. *)
Lemma getOrCreateContext_throw env now p s message s' :
  pool_wf s ->
  getOrCreateContext env now p s = (Throw message, s') ->
  JSMap.get (normalizePath p) (instances s') = None
  /\ currentWorkspacePath s' = None
  /\ (forall k i, JSMap.get k (instances s') = Some i -> isActive i = false)
  /\ (forall k, In k (JSMap.keys (instances s')) -> In k (JSMap.keys (instances s))).
Proof.
  intros Hwf. unfold getOrCreateContext. set (np := normalizePath p).
  destruct (JSMap.get np (instances s)) as [inst|] eqn:Hget; [discriminate|].
  set (s1 := if JSMap.size (instances s) >=? MAX_INSTANCES
             then evictOldestInactiveInstance now s else s).
  assert (Hwf1 : pool_wf s1).
  { unfold s1. destruct (JSMap.size (instances s) >=? MAX_INSTANCES);
      [now apply evict_wf|assumption]. }
  assert (Hsub : forall k, In k (JSMap.keys (instances s1)) ->
                           In k (JSMap.keys (instances s))).
  { intros k Hk. apply get_In_keys in Hk. apply get_In_keys. intros Hn. apply Hk.
    unfold s1. destruct (JSMap.size (instances s) >=? MAX_INSTANCES);
      [now apply evict_get|assumption]. }
  destruct (deactivate_current_wf s1 Hwf1) as [Hk2 Hg2].
  set (m2 := match currentWorkspacePath s1 with
             | Some cur => if negb (String.eqb cur "")
                           then deactivateAt cur (instances s1)
                           else instances s1
             | None => instances s1 end) in *.
  clearbody m2.
  destruct (LightweightContext.initialize env now np LightweightContext.create)
    as [[u|msg] context']; [discriminate|].
  intros E. injection E as _ <-. simpl.
  set (inst := mkInstance context' np now now true).
  assert (Hg3 : forall k i,
            JSMap.get k (JSMap.delete np (JSMap.set np inst m2)) = Some i ->
            JSMap.get k m2 = Some i).
  { intros k i Hk. destruct (String.eqb_spec np k) as [<-|Hne].
    - now rewrite get_delete_eq in Hk.
    - rewrite get_delete_ne, get_set_ne in Hk by assumption. exact Hk. }
  split; [apply get_delete_eq|]. split; [reflexivity|]. split.
  - intros k i Hk. apply Hg3 in Hk. now destruct (Hg2 k i Hk).
  - intros k Hk. apply Hsub. rewrite <- Hk2. apply get_In_keys in Hk.
    apply get_In_keys.
    destruct (JSMap.get k (JSMap.delete np (JSMap.set np inst m2))) as [i|] eqn:Hk';
      [|congruence].
    apply Hg3 in Hk'. congruence.
Qed.

Lemma slashes_get n p : String.get n (slashes p) = Some "\"%char -> False.
Proof.
  revert n. induction p as [|c r IH]; intros n; simpl; [discriminate|].
  destruct n as [|n]; [|apply IH].
  destruct (Ascii.eqb_spec c "\"); [discriminate|congruence].
Qed.

Lemma strip_get n p c :
  String.get n (stripTrailingSlashes p) = Some c -> String.get n p = Some c.
Proof.
  revert n. induction p as [|a r IH]; intros n; simpl; [discriminate|].
  destruct (stripTrailingSlashes r) as [|d r'] eqn:Hr.
  - destruct (Ascii.eqb a "/"); simpl; [discriminate|].
    destruct n; [auto|discriminate].
  - destruct n as [|n]; simpl; [auto|]. apply IH.
Qed.

Lemma strip_no_trailing_slash p r :
  stripTrailingSlashes p = String.append r "/" -> False.
Proof.
  revert r. induction p as [|a q IH]; intros r; simpl.
  - destruct r; discriminate.
  - destruct (stripTrailingSlashes q) as [|d q'] eqn:Hq.
    + destruct (Ascii.eqb_spec a "/") as [->|Hne].
      * destruct r; discriminate.
      * destruct r as [|b [|b' r']]; simpl; intros E;
          [congruence|discriminate|discriminate].
    + destruct r as [|b r']; simpl; intros E; [discriminate|].
      injection E as _ E. now apply (IH r').
Qed.

Lemma strip_append_slash p :
  stripTrailingSlashes (String.append p "/") = stripTrailingSlashes p.
Proof.
  induction p as [|a q IH]; simpl; [reflexivity|]. now rewrite IH.
Qed.

Lemma slashes_append p q :
  slashes (String.append p q) = String.append (slashes p) (slashes q).
Proof. induction p as [|a r IH]; simpl; [reflexivity|]. now rewrite IH. Qed.
End PoolWf.

(** X23.  [normalizePath] returns a normal form: normalizing twice is
    normalizing once, the result contains no backslash and does not end
    with a slash, and a path written with one more trailing slash or
    backslash has the same normal form. *)
Theorem normalizePath_normal_form (p : string) :
  let r := WorkspaceContextManager.normalizePath p in
  WorkspaceContextManager.normalizePath r = r
  /\ (forall n, String.get n r <> Some "\"%char)
  /\ (forall q, r <> String.append q "/")
  /\ WorkspaceContextManager.normalizePath (String.append p "/") = r
  /\ WorkspaceContextManager.normalizePath (String.append p "\") = r.
Proof.
  intros r. subst r. unfold WorkspaceContextManager.normalizePath at 2 3 4 5 6 7.
  split; [apply normalizePath_idem|]. split.
  - intros n H. apply strip_get in H. now apply slashes_get in H.
  - split; [intros q H; now apply strip_no_trailing_slash in H|].
    unfold WorkspaceContextManager.normalizePath.
    rewrite !slashes_append. simpl. now rewrite strip_append_slash.
Qed.

(** X24.  In every state the pool reaches from its creation, whatever the
    operations and their clock readings: the workspaces reported by
    [getStats] are distinct; the number of active instances it reports is 1
    when there is a current workspace and 0 when there is none; the active
    instance is the one of the current workspace; and [getCurrentContext]
    returns a context that is not destroyed whenever a workspace is
    current. *)
Theorem pool_has_one_active_instance env trace now :
  let s := pool_run env trace WorkspaceContextManager.create in
  let st := WorkspaceContextManager.getStats now s in
  NoDup (map WorkspaceContextManager.usage_workspacePath
             (WorkspaceContextManager.memoryUsage st))
  /\ WorkspaceContextManager.activeInstances st
     = match WorkspaceContextManager.currentWorkspace st with
       | Some _ => 1 | None => 0 end
  /\ (forall u, In u (WorkspaceContextManager.memoryUsage st) ->
        (WorkspaceContextManager.usage_isActive u = true
         <-> WorkspaceContextManager.currentWorkspace st
             = Some (WorkspaceContextManager.usage_workspacePath u)))
  /\ (forall k, WorkspaceContextManager.currentWorkspacePath s = Some k ->
        exists c, WorkspaceContextManager.getCurrentContext s = Some c
                  /\ LightweightContext.isDestroyed c = false).
Proof.
  intros s st.
  assert (Hwf : pool_wf s) by (apply pool_run_wf, pool_wf_create).
  destruct Hwf as [Hnd Hact Hkeys Hcur Hlive Hclosed].
  subst st. unfold WorkspaceContextManager.getStats.
  cbn [WorkspaceContextManager.memoryUsage WorkspaceContextManager.activeInstances
       WorkspaceContextManager.currentWorkspace].
  split; [|split; [|split]].
  - rewrite map_map. simpl. exact Hnd.
  - rewrite (active_count _ (WorkspaceContextManager.currentWorkspacePath s)).
    + now destruct (WorkspaceContextManager.currentWorkspacePath s).
    + exact Hnd.
    + intros k i Hin Ha. apply (Hact k i); [now apply In_get|assumption].
    + intros k Hk. destruct (Hcur k Hk) as (i & Hi & Ha).
      exists i. split; [now apply get_In|assumption].
  - intros u Hu. apply in_map_iff in Hu as ([k i] & <- & Hin). simpl. split.
    + intros Ha. apply (Hact k i); [now apply In_get|assumption].
    + intros Hk. destruct (Hcur k Hk) as (i' & Hi' & Ha').
      rewrite (In_get k i _ Hnd Hin) in Hi'. congruence.
  - intros k Hk. destruct (Hcur k Hk) as (i & Hi & Ha).
    exists (WorkspaceContextManager.context i). split; [|eauto].
    unfold WorkspaceContextManager.getCurrentContext. rewrite Hk, Hi.
    assert (Hne : k <> "") by (apply Hkeys, get_In_keys; congruence).
    destruct (String.eqb_spec k ""); [contradiction|reflexivity].
Qed.

(** X25.  [getOrCreateContext] never evicts the current workspace: the
    workspace that is current before the call is still pooled after it,
    with the same context and creation time, whether the call returns a
    pooled context, creates one (evicting an instance when the pool is
    full), or fails. *)
Theorem getOrCreateContext_keeps_current_workspace env trace now p k :
  let s := pool_run env trace WorkspaceContextManager.create in
  WorkspaceContextManager.currentWorkspacePath s = Some k ->
  exists i i',
    JSMap.get k (WorkspaceContextManager.instances s) = Some i
    /\ JSMap.get k (WorkspaceContextManager.instances
                      (snd (WorkspaceContextManager.getOrCreateContext env now p s)))
       = Some i'
    /\ WorkspaceContextManager.context i' = WorkspaceContextManager.context i
    /\ WorkspaceContextManager.createdAt i' = WorkspaceContextManager.createdAt i.
Proof.
  intros s Hcur. apply getOrCreateContext_current; [|assumption].
  apply pool_run_wf, pool_wf_create.
Qed.

Lemma getOrCreateContext_keeps_current_workspace_witness :
  let s := pool_run pool_env
             [(1, GetOrCreate "/ws/p1"); (2, GetOrCreate "/ws/p2");
              (3, GetOrCreate "/ws/p3"); (4, GetOrCreate "/ws/p4");
              (5, GetOrCreate "/ws/p5")]
             WorkspaceContextManager.create in
  WorkspaceContextManager.currentWorkspacePath s = Some "/ws/p5"
  /\ JSMap.size (WorkspaceContextManager.instances s) = 5
  /\ exists i i',
       JSMap.get "/ws/p5" (WorkspaceContextManager.instances s) = Some i
       /\ JSMap.get "/ws/p5"
            (WorkspaceContextManager.instances
               (snd (WorkspaceContextManager.getOrCreateContext
                       pool_env 5 "/ws/p6" s))) = Some i'
       /\ WorkspaceContextManager.context i' = WorkspaceContextManager.context i
       /\ WorkspaceContextManager.createdAt i' = WorkspaceContextManager.createdAt i.
Proof.
  assert (Hc : WorkspaceContextManager.currentWorkspacePath
                 (pool_run pool_env
                    [(1, GetOrCreate "/ws/p1"); (2, GetOrCreate "/ws/p2");
                     (3, GetOrCreate "/ws/p3"); (4, GetOrCreate "/ws/p4");
                     (5, GetOrCreate "/ws/p5")]
                    WorkspaceContextManager.create) = Some "/ws/p5")
    by (vm_compute; reflexivity).
  split; [exact Hc|]. split; [vm_compute; reflexivity|].
  exact (getOrCreateContext_keeps_current_workspace pool_env
           [(1, GetOrCreate "/ws/p1"); (2, GetOrCreate "/ws/p2");
            (3, GetOrCreate "/ws/p3"); (4, GetOrCreate "/ws/p4");
            (5, GetOrCreate "/ws/p5")] 5 "/ws/p6" "/ws/p5" Hc).
Defined.

(** X26.  In every state the pool reaches, [forceCleanup] closes exactly
    the instances that are inactive and were last accessed more than
    [INSTANCE_TTL] ago: the other instances stay, in their order; the
    number returned is the number of instances removed; the current
    workspace stays current; and the contexts of the closed instances are
    cleaned up, in pool order. *)
Theorem forceCleanup_closes_exactly_the_stale env trace now :
  let s := pool_run env trace WorkspaceContextManager.create in
  let r := WorkspaceContextManager.forceCleanup now s in
  WorkspaceContextManager.instances (snd r)
  = filter (fun kv => negb (stale now (snd kv)))
           (WorkspaceContextManager.instances s)
  /\ fst r = JSMap.size (WorkspaceContextManager.instances s)
             - JSMap.size (WorkspaceContextManager.instances (snd r))
  /\ WorkspaceContextManager.currentWorkspacePath (snd r)
     = WorkspaceContextManager.currentWorkspacePath s
  /\ WorkspaceContextManager.closed (snd r)
     = WorkspaceContextManager.closed s
       ++ map (fun kv => LightweightContext.cleanup
                           (WorkspaceContextManager.context (snd kv)))
              (filter (fun kv => stale now (snd kv))
                      (WorkspaceContextManager.instances s)).
Proof.
  intros s r. subst r.
  rewrite forceCleanup_wf_cases by (apply pool_run_wf, pool_wf_create).
  simpl. auto.
Qed.

(** X27.  When [getOrCreateContext] fails, the workspace asked for is not
    pooled, no workspace is current and no instance is active (the
    workspace that was current has been deactivated), and no workspace has
    been added to the pool. *)
Theorem failed_open_leaves_no_active_workspace env trace now p message s' :
  let s := pool_run env trace WorkspaceContextManager.create in
  WorkspaceContextManager.getOrCreateContext env now p s = (Throw message, s') ->
  JSMap.get (WorkspaceContextManager.normalizePath p)
            (WorkspaceContextManager.instances s') = None
  /\ WorkspaceContextManager.getCurrentWorkspacePath s' = None
  /\ WorkspaceContextManager.getCurrentContext s' = None
  /\ WorkspaceContextManager.activeInstances
       (WorkspaceContextManager.getStats now s') = 0
  /\ (forall k, In k (JSMap.keys (WorkspaceContextManager.instances s')) ->
                In k (JSMap.keys (WorkspaceContextManager.instances s))).
Proof.
  intros s Hthrow.
  destruct (getOrCreateContext_throw env now p s message s'
              (pool_run_wf env trace _ pool_wf_create) Hthrow)
    as (H1 & H2 & H3 & H4).
  split; [exact H1|]. split; [exact H2|]. split.
  { unfold WorkspaceContextManager.getCurrentContext. now rewrite H2. }
  split; [|exact H4].
  unfold WorkspaceContextManager.getStats.
  cbn [WorkspaceContextManager.activeInstances].
  assert (Hnone : forall m : JSMap.t WorkspaceContextManager.WorkspaceContextInstance,
             (forall k i, In (k, i) m -> WorkspaceContextManager.isActive i = false) ->
             filter (fun kv => WorkspaceContextManager.isActive (snd kv)) m = []).
  { induction m as [|[k i] m IH]; intros H; simpl; [reflexivity|].
    rewrite (H k i) by now left. apply IH. intros k' i' Hin. apply (H k' i').
    now right. }
  assert (Hwf' : pool_wf s').
  { replace s' with (snd (WorkspaceContextManager.getOrCreateContext env now p s))
      by now rewrite Hthrow.
    apply getOrCreateContext_wf, pool_run_wf, pool_wf_create. }
  rewrite Hnone; [reflexivity|].
  intros k i Hin. apply (H3 k). apply In_get; [apply Hwf'|assumption].
Qed.

Lemma failed_open_leaves_no_active_workspace_witness :
  let s := pool_run pool_env [(1, GetOrCreate "/ws/p1")]
             WorkspaceContextManager.create in
  exists message s',
    WorkspaceContextManager.getOrCreateContext pool_env 2 "/elsewhere" s
    = (Throw message, s')
    /\ JSMap.keys (WorkspaceContextManager.instances s') = ["/ws/p1"]
    /\ JSMap.get (WorkspaceContextManager.normalizePath "/elsewhere")
                 (WorkspaceContextManager.instances s') = None
    /\ WorkspaceContextManager.getCurrentWorkspacePath s' = None
    /\ WorkspaceContextManager.getCurrentContext s' = None
    /\ WorkspaceContextManager.activeInstances
         (WorkspaceContextManager.getStats 2 s') = 0
    /\ (forall k, In k (JSMap.keys (WorkspaceContextManager.instances s')) ->
                  In k (JSMap.keys (WorkspaceContextManager.instances s))).
Proof.
  intros s.
  destruct (WorkspaceContextManager.getOrCreateContext pool_env 2 "/elsewhere" s)
    as [[c|message] s'] eqn:Hcall; [vm_compute in Hcall; discriminate|].
  exists message, s'. split; [reflexivity|]. split.
  - vm_compute in Hcall. injection Hcall as _ <-. reflexivity.
  - exact (failed_open_leaves_no_active_workspace pool_env
             [(1, GetOrCreate "/ws/p1")] 2 "/elsewhere" message s' Hcall).
Defined.

(** X28.  [shutdown] of a pool in any state it reaches leaves no instance
    and no current workspace, stops the cleanup timer, and has cleaned up
    every context: the contexts closed so far and the ones pooled at the
    shutdown are all destroyed, one for each. *)
Theorem shutdown_cleans_every_context env trace :
  let s := pool_run env trace WorkspaceContextManager.create in
  let s' := WorkspaceContextManager.shutdown s in
  WorkspaceContextManager.instances s' = []
  /\ WorkspaceContextManager.currentWorkspacePath s' = None
  /\ WorkspaceContextManager.cleanupInterval s' = false
  /\ Forall (fun c => LightweightContext.isDestroyed c = true)
            (WorkspaceContextManager.closed s')
  /\ List.length (WorkspaceContextManager.closed s')
     = (List.length (WorkspaceContextManager.closed s)
        + List.length (WorkspaceContextManager.instances s))%nat.
Proof.
  intros s s'. subst s'.
  assert (Hwf : pool_wf s) by (apply pool_run_wf, pool_wf_create).
  simpl. splits; try reflexivity.
  - apply Forall_app. split; [apply Hwf|].
    apply Forall_forall. intros c Hc. apply in_map_iff in Hc as (kv & <- & _).
    apply cleanup_destroyed.
  - now rewrite length_app, length_map.
Qed.

(** ** ManualFileScanner *)

Section ManualScanFacts.
Import ManualFileScanner.

Lemma scanRecursive_nodup (n : node) :
  forall dirPath fileMap currentDepth maxDepth,
    NoDup (JSMap.keys fileMap) ->
    NoDup (JSMap.keys (scanRecursive dirPath n fileMap currentDepth maxDepth)).
Proof.
  induction n as [size mtime content| |entries IH|] using node_tree_ind;
    intros dirPath fileMap currentDepth maxDepth Hnd; simpl;
    try (destruct (currentDepth >? maxDepth); assumption).
  destruct (currentDepth >? maxDepth); [assumption|].
  revert fileMap Hnd.
  induction entries as [|[name entry] rest IHrest]; intros fileMap Hnd; simpl;
    [assumption|].
  inversion IH as [|? ? Hentry Hrest]; subst. simpl in Hentry.
  specialize (IHrest Hrest).
  destruct (shouldIgnore name); [now apply IHrest|].
  destruct entry as [size mtime content|children|].
  - apply IHrest. now apply NoDup_keys_set.
  - destruct (currentDepth <? maxDepth); [|now apply IHrest].
    apply IHrest. now apply Hentry.
  - now apply IHrest.
Qed.
End ManualScanFacts.

(** X29.  Scanning a directory a second time while nothing has changed
    reports no modified and no removed file and records the same listing;
    the files it reports as added are exactly the recorded files whose
    modification time is 0, which are reported again at every scan. *)
Theorem rescan_of_unchanged_directory (fs : FS) (now1 now2 : Z)
        (dirPath : string) (maxDepth : Z) (s : ManualFileScanner.t) :
  let r1 := ManualFileScanner.scanDirectory fs now1 dirPath maxDepth s in
  let r2 := ManualFileScanner.scanDirectory fs now2 dirPath maxDepth (snd r1) in
  ManualFileScanner.fileMap (snd r2) = ManualFileScanner.fileMap (snd r1)
  /\ ManualFileScanner.lastScanTime (snd r2) = now2
  /\ ManualFileScanner.modified (fst r2) = []
  /\ ManualFileScanner.removed (fst r2) = []
  /\ ManualFileScanner.added (fst r2)
     = JSMap.keys (filter (fun kv => snd kv =? 0)
                          (ManualFileScanner.fileMap (snd r1))).
Proof.
  intros r1 r2. subst r1 r2. unfold ManualFileScanner.scanDirectory.
  cbn [fst snd ManualFileScanner.fileMap ManualFileScanner.lastScanTime
       ManualFileScanner.added ManualFileScanner.modified
       ManualFileScanner.removed].
  set (currentFiles := match fs dirPath with
                       | Some root =>
                           ManualFileScanner.scanRecursive dirPath root [] 0 maxDepth
                       | None => []
                       end).
  assert (Hnd : NoDup (JSMap.keys currentFiles)).
  { unfold currentFiles. destruct (fs dirPath) as [root|]; [|constructor].
    apply scanRecursive_nodup. constructor. }
  clearbody currentFiles.
  split; [reflexivity|]. split; [reflexivity|]. split; [|split].
  - rewrite filter_none; [reflexivity|].
    intros [k v] Hin. simpl. rewrite (In_get k v _ Hnd Hin).
    rewrite Z.ltb_irrefl. apply andb_false_r.
  - apply filter_none. intros k Hk. unfold JSMap.has.
    apply get_In_keys in Hk.
    destruct (JSMap.get k currentFiles); [reflexivity|congruence].
  - f_equal. apply filter_ext_in. intros [k v] Hin. simpl.
    now rewrite (In_get k v _ Hnd Hin).
Qed.
